(* ===== verification/_CoqProject ===== *)
-Q . S2P
Prelude.v
RustStr.v
Utf8.v
Chars.v
RustPath.v
StdPath.v
ModulePath.v
WalkDir.v
Discovery.v
Syn.v
Detect.v
Walker.v
Pipeline.v
Present.v
Machine.v
