(* ===== verification/Prelude.v ===== *)
(** * bevy-reflect-check: a verification development

    The program ([src/src/main.rs], one Rust file) is a static checker for
    Bevy projects.  It collects the [.rs] files of the current project and of
    every dependency whose package name starts with [bevy_], parses them with
    [syn], derives a module path for each file from its location and the
    [cargo metadata] of the workspace, and walks each syntax tree to report
    every [struct] or [enum] that derives both [Reflect] and [Component] but
    carries no [#[reflect(Component)]] attribute.  The report is one list of
    fully qualified names, printed once.

    ** Parts of the program and the files that model them

    The files are listed in the order in which they are compiled.

    - [Prelude] (this file): the libraries every file loads, the scope
      [rust_scope], the tactics and hint databases of the development, and
      generic facts on lists: [list_strip_prefix], the iterator adaptor
      [iter_any], loops that append to a vector as [flat_map]
      ([foldl_app_flat_map]), lists without duplicates up to the order
      ([flat_map_NoDup_subseteq]).
    - [RustStr]: the [str] methods the program calls, as functions on
      [string]: [str_starts_with] (line 71), [trim_end_matches] (line 124),
      [str_contains] (line 134), [str_join] (line 127), [str_eqb] (line 65),
      and [qualify], written [a +::+ b], for [format!("{}::{}", a, b)]
      (lines 93, 204, 211, 219), with their specifications as equations
      between strings.
    - [Utf8]: the conversions between file names, which are bytes, and
      text: [to_str] (lines 52, 63, 123) is [core::str::from_utf8], the
      loop [run_utf8_validation] with its error [Utf8Error];
      [to_string_lossy] (line 53) is [String::from_utf8_lossy], the loop
      over the chunks of [Utf8Chunks] that writes U+FFFD for what is
      malformed.  Bytes are numbers from 0 to 255 ([byte_val]) and the tests
      on them are written as in the library, the signed comparison
      [as i8 >= -64] and the mask [& 192] included.
    - [Chars]: the characters of a string as [impl Debug for str] sees
      them: [chars] is [str::chars], the decoder [next_code_point] with
      its shifts and masks, and [encode_utf8_raw] is [char::encode_utf8].
      A character is its code, a number.
    - [RustPath]: what a path is, on Unix: the list of its components.
      [components] reads a string as the standard library documents it
      (repeated separators and inner [.] dropped, a leading [.] kept, the
      root kept), and [parent], [path_starts_with], [path_strip_prefix],
      [file_name], [extension] and [path_iter] are the methods of
      [std::path::Path] on such lists: the specification of [StdPath].
      The names are any bytes.  [path_join] is the path of a directory
      entry, as [walkdir] builds it.  Two strings with the same components
      are the same path ([path_equiv]); the functions of the later files
      that take a path respect it ([Proper] instances).
    - [StdPath]: the methods of [std::path::Path] as the library computes
      them, on the bytes of the path: the double-ended iterator
      [Components] (a slice of the path, the states [front] and [back],
      [next], [next_back], [trim_left], [trim_right], [as_path]) and, written
      with it, [Path_parent] (lines 72, 103, 117), [Path_file_name] (62),
      [Path_extension] (52), [Path_iter] (122), [Path_starts_with] (104)
      and [Path_strip_prefix] (90, 95), which returns a [Result].
    - [ModulePath]: [Package] and [Metadata] as the program reads them, and
      [relative_path_to_module_path] (121-128), [crate_root_for_file]
      (101-109), [crate_root_path] (112-118), [resolve_module_path]
      (85-98), on strings and with the methods of [StdPath]; their
      specification on lists of components ([spec_resolve_module_path]
      and its helpers).
    - [WalkDir]: the file system as data, a tree of [FsNode], and the
      iterators of [walkdir] over it (lines 47-50): [IntoIter] with its
      stack of open directories ([IntoIter_next], [handle_entry], [push],
      [pop]), [FilterEntry], which closes the directory it rejects
      ([FilterEntry_next], [skip_current_dir]), and the loop that drops the
      errors ([walkdir_entries]).
    - [Discovery]: [should_include_dir] (59-66), [collect_source_files]
      (46-56) and [collect_dependency_files] (69-77), each loop a left fold
      of its body ([push_if_source], [collect_package_files]) over what
      its iterator yields.  The tests on a name are [file_name] and
      [extension] of [StdPath] followed by [to_str], the path is pushed
      through [to_string_lossy], and the walk of a package starts from the
      slice [Path_parent] returns, as in the source.  The recursive walk
      [walk_dir] is the specification of the iterators with this filter.
    - [Syn]: the part of the [syn] syntax tree the program inspects:
      [TokenTree], [Meta], [Attribute], [Visibility], [Item] (with the list
      of items of an inline module nested inside) and [File]; the rendering
      of a token stream to a string; [is_ident]; and [parse_nested_meta],
      the comma separated parser of attribute arguments with its early
      return on the first argument it cannot parse.  Equality of syntax
      trees is decidable ([EqDecision] instances), so that statements about
      concrete trees are settled by evaluation.
    - [Detect]: [has_cfg_test] (lines 131-138), [is_public] (141-148) and
      [derives_reflect_and_component_but_no_reflect_component] (151-187):
      the loop over the attributes with its three mutable flags, here a
      record [Flags] folded over the list by [scan_attr].
    - [Walker]: [collect_reflect_types] (190-237).  The findings vector the
      program passes by mutable reference is an explicit accumulator; the
      walker is first written as the loop of the source ([collect_item] is
      one round), then given a specification [walk_spec] that returns its
      findings, and an inductive relation [reported] that says which types
      are reported.
    - [Pipeline]: [build_module_tree] (80-82) on a [gmap] from path to
      syntax tree, and [main] (8-43): discovery ([all_source_files]), the
      loop that loads the files ([load_files]) and the loop that reports
      ([report]).  [main] takes the result of [cargo metadata] and the file
      system as arguments and returns the vector that is printed, or the
      text of the panic: [expect] (line 12) on a failed command panics with
      its message, a colon and the error as [Debug] shows it
      ([unwrap_failed]).  Reading and parsing a file are the
      operations of the interface [Loader]; the order in which the hash map
      yields its entries is the interface [HashOrder], which promises a
      permutation of the entries and nothing more.
    - [Present]: the text of [println!("{:?}", reflect_types)] (line 42):
      the trait [Debug] as a class with its instances for strings
      ([escape_debug], that is [char::escape_debug_ext], for every
      character, between double quotes) and for vectors (entries separated
      by a comma and a space, between brackets), and [println_debug].  The
      escape with the code of a character ([escape_unicode]) is the buffer
      of six digits the library cuts by the count of leading zero bits.
      The generated tables of the Unicode database, which say what is
      printable and what extends a grapheme, are the interface
      [UnicodeData].  A reader of the text, an automaton over its bytes,
      is the reference for the round trip.
    - [Machine]: [main] again, as a transition system.  A configuration
      ([Config]) is a control point with the variables that are live there;
      a step ([step]) is one statement or one round of a loop; the step
      that creates the iterator of the hash map chooses the order of the
      entries; [expect] on a failed [cargo metadata] is the step to
      [Panic].

    ** What the theorems show

    - [Utf8]: [from_utf8] accepts exactly the encodings of sequences of
      Unicode scalar values ([utf8]); [from_utf8_lossy] always returns such
      an encoding and returns its input when it is one; the two loops, which
      the library writes independently, stop at the same place (the error
      of one describes the first chunk of the other), and they read the head
      of a string alike ([utf8_head]); an ASCII byte such as the separator
      of paths is never part of a longer sequence, so that the conversions
      commute with splitting a path into its components.
    - [RustStr], [RustPath]: the string functions meet their
      specifications: a stripped suffix or prefix reassembles to the input,
      [trim_end_matches] leaves no trailing pattern; the components of a
      joined path are those of the directory followed by the name, what
      [components] returns is well formed and is read back from its
      rendering.
    - [StdPath]: the iterator on bytes implements the specification on
      components: every method returns what [RustPath] says
      ([Path_methods_refine]); the iterator yields the components of the
      path and comes to its end ([collect_fuel_enough]); it is
      double-ended: calls of [next] and [next_back] in any order return
      what taking the first and the last element of the list of components
      returns, and [None] after the last ([calls_spec]); [parent] returns a
      slice of its argument, cut where a component ends
      ([Path_parent_slice]), which is text when the argument is
      ([Path_parent_utf8], what [camino] assumes at lines 72 and 117).
    - [ModulePath]: the functions on bytes compute the resolution on
      components ([resolve_module_path_refines]); a module path is text
      whatever the path holds; the module path of a file is built from the
      components of the slice after the crate root; the first package in
      metadata order whose
      directory contains the file is chosen; no segment is [mod] or ends in
      [.rs]; the local fallback strips [src]; a path that starts with [./]
      is never resolved; with two packages of one name the files of the
      second are dropped; the result is the same for every spelling of a
      path.
    - [WalkDir]: driven to its end, the chain of iterators yields the
      recursive walk of what is found at the root, the entries the filter
      accepts in pre-order, without what is below a rejected directory
      ([walkdir_entries_spec]).
    - [Discovery]: the loops are the lists they build
      ([collect_source_files_refines]); what is
      collected is reached through names other than [examples] and [tests]
      and has the extension [rs] (soundness), and every such entry is
      collected (completeness); the filter is put to the root of the walk
      too, so a package whose own directory has one of these names
      contributes nothing ([excluded_crate_root_contributes_nothing]); the
      names with that extension are the
      non-empty stems followed by [.rs]; the tests through [to_str] are
      comparisons of bytes; what is collected is always text, it is the
      path itself on a file system whose names are text, and it is another
      string for a path that is not text.
    - [Syn]: the state after [parse_nested_meta] is the callback folded over
      the paths that were visited, and the fuel of the loop is enough.
    - [Detect]: the loop with the three flags computes the specification
      [missing_registration], in which each flag is a question asked of the
      attributes on its own; the arguments the parser skips; a trait named
      through a path in a [derive], which does not count
      ([qualified_derive_not_counted]); which attributes count as a test
      guard.
    - [Walker]: the loop with the accumulator appends exactly [walk_spec] to
      what it was given (refinement); [walk_spec] reports exactly the types
      related by [reported]; nothing under a test-guarded module and, with
      [public_only], nothing under a private module is reported; a type that
      carries the test guard itself is; the findings are text when the
      names of the items are ([text_item]).
    - [Pipeline]: the module tree holds the files that load, each once,
      whatever the order of discovery; the vector [main] returns is, up to
      order, the findings of these files, and its members are characterised
      by [reported]; the order of the hash map changes the order of the
      findings only; the files of the project itself, found under [./src],
      contribute nothing when the manifests are given by absolute path,
      and every file of a dependency resolves when package names are
      unique; the file of a module declared by [mod name;] is walked from a
      visible root, whatever the declaration says; the paths given to
      [resolve_module_path] are text, so that no component of a slice of
      them is dropped by [to_str] there; what [main] prints is text when the names of the
      packages and the names the parser returns are ([text_metadata],
      [text_parser]), which holds of every [String].
    - [Chars]: on well-formed text the decoder written with shifts and
      masks returns the scalar values of [Utf8], the encoder writes their
      encodings, and the characters of a text encode to the text.
    - [Present]: for every table of the Unicode database, the printed text
      reads back as the vector (so the text determines the findings), and
      it is one line whatever the names hold; the count of leading zero bits
      cuts zeros only.
    - [Machine]: an inductive invariant of the run ([reachable]); a
      finished run has printed the findings of the specification in some
      order, or has panicked with the message and the error when there is
      no metadata; every run comes to its end; the finished runs
      are the results of the function [main] over all iteration orders;
      what a finished run has written reads back as the findings of the
      specification ([run_stdout_read], the composition of all the files).

    ** Bounds and fuel

    [trim_end_matches] loops while the pattern is a suffix; its fuel is the
    length of the string, which is enough because every round removes the
    (non-empty) pattern ([trim_end_matches_spec]).  [parse_nested_meta]
    loops over the tokens with the number of tokens as fuel, every round
    consuming at least one ([parse_nested_meta_fuel_enough]).  All other
    recursion is structural: on the items of a file, on the tree of the
    file system, on lists, on the characters of a text; the loops of
    [Utf8] recurse on what is left of the input after the one to four bytes
    of a sequence, and the lemmas on them go by induction on the length
    ([utf8_head_ind]).  [chars] calls the decoder with the length of the
    string as fuel, every call consuming at least one byte
    ([chars_go_fuel]).  Codes of characters are below [0x110000], which
    fits the six digits of the escape ([unicode_start]).  The loops of
    [Components] run on the length of the slice they hold: [trim_left] and
    [trim_right] cut at least one byte in every round, [next] and
    [next_back] either cut a segment or move the state towards [Done],
    which they do at most three times ([steps_to_done]), and [iter_after]
    consumes a component of the prefix in every round.  The loop of
    [IntoIter_next] closes a directory in every round that yields nothing,
    so the height of the stack is its fuel; [FilterEntry_next] and the
    loop over it use up an entry in every round, and their fuel is the
    number of entries that are left ([work_left]).  That the fuel is
    enough is part of the refinement: with it the methods return the
    results of the specification ([next_forward], [next_back_remaining],
    [iter_after_spec], [walkdir_entries_spec]).  The machine needs
    no fuel: its runs are sequences of steps, and the measure [steps_left]
    decreases with every step ([step_steps_left]), which is why every run
    ends.

    ** Not modelled

    Running [cargo metadata], reading files and parsing Rust source are
    effects of libraries the program only calls: they appear as data
    ([Metadata], [FsNode]) or as the interface [Loader].  The loader is
    not tied to the tree the walk sees: whether a path that was found can
    be read and parsed is up to the loader, and the theorems hold for
    every loader.  The code of the libraries ([std], [core], [walkdir],
    [syn], [proc_macro2]) is not part of the repository: the definitions
    that model it are written from the methods the program calls and are
    mapped to the lines of the calls.  A step of the machine is a
    statement of [main], so a call of a library, the walk of a directory
    included, is one step.  Groups without delimiters ([Delimiter::None])
    do not occur in the token streams of attributes read from text and are
    left out.  [walkdir] runs
    with its default options, the only ones the program uses: the depth of
    an entry, sorting and the limit on open directories play no part and
    are left out.  A directory the walk cannot read is one without
    entries, and symbolic links are not followed: a link is a file.  Paths
    are Unix paths: Windows prefixes and the
    second separator are left out of [Components], whose fields and
    branches for them are dead on Unix.  [Utf8Path] of [camino] is the
    string it wraps.  The
    loop of [from_utf8] moves byte by byte; the library skips blocks of
    ASCII bytes a word at a time when the address is aligned, which visits
    the same bytes.  [next_code_point] is undefined in the library on
    bytes that are not UTF-8; here it returns [None] there, and nothing is
    stated of that case.  The contents of the Unicode tables are not
    modelled: they are parameters ([UnicodeData]), and [latin1_tables]
    gives their values up to U+00FF for the examples.  [impl Debug for
    str] writes runs of characters that need no escape in one call; the
    text is the same.  The error of [cargo metadata] is a value of any
    type with an instance of [Debug]; of a panic the text is modelled, not
    the unwinding, the exit status or the line written before the text. *)

From Stdlib Require Export Ascii.
From stdpp Require Export base tactics option list strings.

Declare Scope rust_scope.
Delimit Scope rust_scope with rust.
Open Scope rust_scope.

(** ** Tactics of the development *)

(** [invc H]: inversion that cleans up after itself. *)
Ltac invc H := inversion H; subst; clear H.

(** [bool_prop]: turn boolean connectives in hypotheses and goal into
    propositions, so that [naive_solver] and [done] can finish. *)
Ltac bool_prop :=
  repeat match goal with
  | H : _ && _ = true |- _ => apply andb_true_iff in H as [? ?]
  | H : _ || _ = false |- _ => apply orb_false_iff in H as [? ?]
  | H : negb _ = true |- _ => apply negb_true_iff in H
  | H : negb _ = false |- _ => apply negb_false_iff in H
  | H : bool_decide _ = true |- _ => apply bool_decide_eq_true_1 in H
  | H : bool_decide _ = false |- _ => apply bool_decide_eq_false_1 in H
  end.

(** [case_opt]: case analysis on the option scrutinised by the goal. *)
Ltac case_opt :=
  match goal with
  | |- context [match ?o with Some _ => _ | None => _ end] =>
      let E := fresh "E" in destruct o eqn:E
  end.

Create HintDb rust discriminated.
Create Rewrite HintDb rust.

(** ** Generic list facts *)

Section lists.
Context {A : Type} `{EqDecision A}.
Implicit Types (l p r : list A) (x y : A).

(** The remainder of [l] after the prefix [p], as [Iterator]-based prefix
    stripping computes it: element by element, failing at the first
    difference. *)
Fixpoint list_strip_prefix (p l : list A) : option (list A) :=
  match p, l with
  | [], _ => Some l
  | _ :: _, [] => None
  | x :: p', y :: l' => if decide (x = y) then list_strip_prefix p' l' else None
  end.

Lemma list_strip_prefix_Some p l r :
  list_strip_prefix p l = Some r ↔ l = p ++ r.
Proof.
  revert l; induction p as [|x p IHp]; intros [|y l]; simpl;
    [split; congruence..|].
  case_decide; [subst; rewrite IHp|]; split; congruence.
Qed.

Lemma list_strip_prefix_app p r : list_strip_prefix p (p ++ r) = Some r.
Proof. by apply list_strip_prefix_Some. Qed.

Lemma list_strip_prefix_is_Some p l :
  is_Some (list_strip_prefix p l) ↔ p `prefix_of` l.
Proof.
  split.
  - intros [r ->%list_strip_prefix_Some]. by exists r.
  - intros [r ->]. rewrite list_strip_prefix_app. by eexists.
Qed.

Lemma list_strip_prefix_None p l :
  list_strip_prefix p l = None ↔ ¬ p `prefix_of` l.
Proof. rewrite <-list_strip_prefix_is_Some, eq_None_not_Some. done. Qed.

End lists.

#[export] Hint Rewrite @list_strip_prefix_app : rust.
#[export] Hint Resolve list_strip_prefix_app : rust.

(** ** Iterator adaptors *)

(** [Iterator::any]: stops at the first element that satisfies [f]. *)
Definition iter_any {A} (f : A → bool) (l : list A) : bool := existsb f l.

Lemma iter_any_true {A} (f : A → bool) l :
  iter_any f l = true ↔ ∃ x, x ∈ l ∧ f x = true.
Proof.
  unfold iter_any. rewrite existsb_exists.
  by setoid_rewrite list_elem_of_In.
Qed.

Lemma iter_any_app {A} (f : A → bool) l1 l2 :
  iter_any f (l1 ++ l2) = iter_any f l1 || iter_any f l2.
Proof. apply existsb_app. Qed.

#[export] Hint Rewrite @iter_any_app : rust.

(** ** Loops with an accumulator

    A loop that pushes onto a vector, one round per element, appends what
    each round contributes: the accumulator passing loop and the function
    that returns the contributions agree. *)

Lemma foldl_app_flat_map {A B} (f : list B → A → list B) (g : A → list B) l acc :
  Forall (λ x, ∀ acc, f acc x = acc ++ g x) l →
  foldl f acc l = acc ++ flat_map g l.
Proof.
  intros Hl. revert acc. induction Hl as [|x l Hx _ IH]; intros acc; simpl.
  - by rewrite app_nil_r.
  - by rewrite IH, Hx, <-app_assoc.
Qed.

Lemma elem_of_flat_map {A B} (g : A → list B) l y :
  y ∈ flat_map g l ↔ ∃ x, x ∈ l ∧ y ∈ g x.
Proof.
  rewrite list_elem_of_In, in_flat_map.
  by setoid_rewrite list_elem_of_In.
Qed.

Lemma flat_map_nil_Forall {A B} (g : A → list B) l :
  Forall (λ x, g x = []) l → flat_map g l = [].
Proof. induction 1 as [|x l Hx _ IH]; simpl; [done|]. by rewrite Hx, IH. Qed.

Lemma flat_map_ext_Forall {A B} (g h : A → list B) l :
  Forall (λ x, g x = h x) l → flat_map g l = flat_map h l.
Proof. induction 1 as [|x l Hx _ IH]; simpl; [done|]. by rewrite Hx, IH. Qed.

Lemma flat_map_length_le {A B} (g : A → list B) (m : A → nat) l :
  Forall (λ x, length (g x) ≤ m x) l →
  length (flat_map g l) ≤ sum_list (m <$> l).
Proof.
  induction 1 as [|x l Hx _ IH]; csimpl; [done|]. rewrite length_app. lia.
Qed.

Lemma flat_map_sublist {A B} (g h : A → list B) l :
  Forall (λ x, g x `sublist_of` h x) l →
  flat_map g l `sublist_of` flat_map h l.
Proof.
  induction 1 as [|x l Hx _ IH]; simpl; [done|]. by apply sublist_app.
Qed.

Lemma filter_nil_Forall {A} (P : A → Prop) `{∀ x, Decision (P x)} l :
  Forall (λ x, ¬ P x) l → filter P l = [].
Proof.
  induction 1 as [|x l Hx _ IH]; [done|]. by rewrite filter_cons_False.
Qed.

Lemma head_filter_app_cons {A} (P : A → Prop) `{∀ x, Decision (P x)} l1 x l2 :
  Forall (λ y, ¬ P y) l1 → P x → head (filter P (l1 ++ x :: l2)) = Some x.
Proof.
  intros Hl1 Hx. by rewrite filter_app, filter_nil_Forall, filter_cons_True.
Qed.

(** ** Lists without duplicates, up to the order *)

Lemma NoDup_omap {A B} (f : A → option B) l :
  (∀ x y z, f x = Some z → f y = Some z → x = y) →
  NoDup l → NoDup (omap f l).
Proof.
  intros Hinj. induction 1 as [|x l Hx _ IH]; simpl; [constructor|].
  destruct (f x) as [z|] eqn:Hfx; [|done]. constructor; [|done].
  intros (y & Hy & Hfy)%list_elem_of_omap.
  by rewrite (Hinj _ _ _ Hfx Hfy) in Hx.
Qed.

(** Elements on which [f] yields nothing can be left out of a list without
    duplicates. *)
Lemma flat_map_NoDup_subseteq {A B} (f : A → list B) l k :
  NoDup l → NoDup k → k ⊆ l →
  (∀ x, x ∈ l → x ∉ k → f x = []) →
  flat_map f l ≡ₚ flat_map f k.
Proof.
  intros Hl Hk Hsub Hnil.
  destruct (submseteq_Permutation k l) as [rest Hrest];
    [by apply NoDup_submseteq|].
  rewrite Hrest, flat_map_app. rewrite Hrest in Hl.
  apply NoDup_app in Hl as (_ & Hdisj & _).
  rewrite (flat_map_nil_Forall f rest), app_nil_r; [done|].
  apply Forall_forall. intros x Hx. apply Hnil.
  - rewrite Hrest, elem_of_app. by right.
  - intros Hxk. by apply (Hdisj x).
Qed.
