(* ===== verification/RustStr.v ===== *)
(** * RustStr: the [str] methods the program calls

    [str_starts_with] ([str::starts_with], line 71), [trim_end_matches]
    (line 124), [str_contains] ([str::contains], line 134), [str_join]
    ([join] on a vector of [&str], line 127), [str_eqb] ([==], line 65) and
    [qualify] ([format!("{}::{}", a, b)], lines 93, 204, 211 and 219, written
    [a +::+ b]), as functions on
    [string], with the lemmas on [+:+] the other files share.  Strings are
    sequences of bytes here; the patterns the program passes are ASCII, for
    which byte-wise and character-wise matching agree. *)

From S2P Require Import Prelude.

Implicit Types (s t r pat sep : string) (c : ascii) (n k : nat).

(** ** Definitions *)

(** [a == b] on [&str]. *)
Definition str_eqb s t : bool := bool_decide (s = t).

(** [s.starts_with(pat)] *)
Definition str_starts_with s pat : bool := String.prefix pat s.

(** [s.strip_suffix(pat)]: [s] without its suffix [pat], if it ends in it. *)
Fixpoint strip_suffix s pat : option string :=
  if bool_decide (s = pat) then Some ""
  else match s with
       | "" => None
       | String c s' => String c <$> strip_suffix s' pat
       end.

(** The loop of [trim_end_matches]: while the pattern is a suffix, cut it. *)
Fixpoint trim_end_matches_go (fuel : nat) s pat : string :=
  match fuel with
  | 0 => s
  | S fuel =>
      match strip_suffix s pat with
      | Some r => trim_end_matches_go fuel r pat
      | None => s
      end
  end.

(** [s.trim_end_matches(pat)] for a non-empty pattern: every round removes
    at least one byte, so the length of [s] is enough fuel. *)
Definition trim_end_matches s pat : string :=
  trim_end_matches_go (String.length s) s pat.

(** [s.contains(pat)]: [pat] occurs at some position of [s]. *)
Fixpoint str_contains s pat : bool :=
  String.prefix pat s ||
  match s with
  | "" => false
  | String _ s' => str_contains s' pat
  end.

(** [v.join(sep)] *)
Definition str_join sep (v : list string) : string := String.concat sep v.

(** [format!("{}::{}", a, b)] *)
Definition qualify (a b : string) : string := a +:+ "::" +:+ b.

(** [{:?}] in a format string: the trait [core::fmt::Debug].  The instances
    for strings and vectors are in [Present]. *)
Class Debug (A : Type) := fmt_debug : A → string.
Global Hint Mode Debug ! : typeclass_instances.

(** [k] copies of [pat], the shape of what [trim_end_matches] removes. *)
Fixpoint str_repeat pat k : string :=
  match k with
  | 0 => ""
  | S k => pat +:+ str_repeat pat k
  end.

(** The byte [c] occurs in [s]. *)
Fixpoint str_has (c : ascii) s : bool :=
  match s with
  | "" => false
  | String a s' => bool_decide (a = c) || str_has c s'
  end.

(** Every byte of [s] satisfies [p]. *)
Fixpoint str_all (p : ascii → bool) s : bool :=
  match s with
  | "" => true
  | String c s' => p c && str_all p s'
  end.

Infix "+::+" := qualify (at level 59, left associativity) : rust_scope.

(** ** Append *)

Lemma str_app_cons c s t : String c s +:+ t = String c (s +:+ t).
Proof. done. Qed.

Lemma str_app_nil_l s : "" +:+ s = s.
Proof. done. Qed.

Lemma str_app_nil_r s : s +:+ "" = s.
Proof. induction s as [|c s IHs]; [done|]. by rewrite str_app_cons, IHs. Qed.

Lemma str_app_assoc s t r : (s +:+ t) +:+ r = s +:+ (t +:+ r).
Proof. induction s as [|c s IHs]; [done|]. by rewrite !str_app_cons, IHs. Qed.

Lemma str_app_length s t :
  String.length (s +:+ t) = String.length s + String.length t.
Proof. induction s as [|c s IHs]; [done|]. rewrite str_app_cons. simpl. by rewrite IHs. Qed.

Lemma str_app_eq_nil s t : s +:+ t = "" ↔ s = "" ∧ t = "".
Proof. destruct s; [rewrite str_app_nil_l|rewrite str_app_cons]; intuition congruence. Qed.

Lemma str_length_zero s : String.length s = 0 ↔ s = "".
Proof. by destruct s. Qed.

(** Cancellation on the right: two decompositions with the same tail. *)
Lemma str_app_inj_r s1 s2 t : s1 +:+ t = s2 +:+ t → s1 = s2.
Proof.
  revert s2; induction s1 as [|c s1 IHs]; intros [|c2 s2] Heq.
  - done.
  - apply (f_equal String.length) in Heq.
    rewrite str_app_nil_l, str_app_length in Heq. simpl in Heq. lia.
  - apply (f_equal String.length) in Heq.
    rewrite str_app_nil_l, str_app_length in Heq. simpl in Heq. lia.
  - rewrite !str_app_cons in Heq. simplify_eq. f_equal. by apply IHs.
Qed.

#[export] Hint Rewrite str_app_nil_l str_app_nil_r str_app_assoc str_app_length : rust.

(** ** Prefixes *)

Lemma str_starts_with_spec s pat :
  str_starts_with s pat = true ↔ ∃ r, s = pat +:+ r.
Proof.
  unfold str_starts_with. revert s; induction pat as [|c pat IHp]; intros s.
  - split; [by exists s|by destruct s].
  - destruct s as [|c' s]; simpl.
    + split; [done|by intros [r ?]].
    + destruct (Ascii.ascii_dec c c') as [->|Hne]; rewrite ?IHp.
      * split; intros [r Hr]; exists r; rewrite str_app_cons in *; congruence.
      * split; [done|]. intros [r Hr]. rewrite str_app_cons in Hr. congruence.
Qed.

Lemma str_starts_with_app s r : str_starts_with (s +:+ r) s = true.
Proof. apply str_starts_with_spec. by exists r. Qed.

(** ** Suffixes *)

Lemma strip_suffix_Some s pat r : strip_suffix s pat = Some r ↔ s = r +:+ pat.
Proof.
  revert r; induction s as [|c s IHs]; intros r; simpl.
  - case_bool_decide; subst.
    + rewrite str_app_nil_r.
      split; [by intros [= <-]|]. by intros ->%eq_sym.
    + split; [done|]. intros [-> ->]%eq_sym%str_app_eq_nil. done.
  - case_bool_decide as Hpat; subst.
    + split; [by intros [= <-]|]. intros Heq. f_equal.
      symmetry. apply (str_app_inj_r _ _ (String c s)). by rewrite str_app_nil_l.
    + rewrite fmap_Some. setoid_rewrite IHs. split.
      * intros (r' & -> & ->). done.
      * destruct r as [|c' r]; [by rewrite str_app_nil_l|].
        rewrite str_app_cons. intros [= -> ->]. eauto.
Qed.

Lemma strip_suffix_app r pat : strip_suffix (r +:+ pat) pat = Some r.
Proof. by apply strip_suffix_Some. Qed.

Lemma strip_suffix_None s pat : strip_suffix s pat = None ↔ ∀ r, s ≠ r +:+ pat.
Proof.
  rewrite eq_None_not_Some. split.
  - intros Hn r ->. apply Hn. rewrite strip_suffix_app. by eexists.
  - intros Hn [r Hr%strip_suffix_Some]. by eapply Hn.
Qed.

Lemma strip_suffix_length s pat r :
  strip_suffix s pat = Some r → String.length s = String.length r + String.length pat.
Proof. intros ->%strip_suffix_Some. apply str_app_length. Qed.

#[export] Hint Rewrite strip_suffix_app : rust.

(** ** [trim_end_matches] *)

Lemma str_repeat_snoc pat k : str_repeat pat (S k) = str_repeat pat k +:+ pat.
Proof.
  induction k as [|k IHk]; simpl; [by rewrite str_app_nil_r|].
  simpl in IHk. by rewrite IHk at 1; rewrite str_app_assoc.
Qed.

(** Whatever the fuel, what was cut is a power of the pattern. *)
Lemma trim_end_matches_go_app fuel s pat :
  ∃ k, s = trim_end_matches_go fuel s pat +:+ str_repeat pat k.
Proof.
  revert s; induction fuel as [|fuel IHf]; intros s; simpl.
  - exists 0. by rewrite str_app_nil_r.
  - destruct (strip_suffix s pat) as [r|] eqn:Hr.
    + apply strip_suffix_Some in Hr as ->. destruct (IHf r) as [k Hk].
      exists (S k). by rewrite str_repeat_snoc, <-str_app_assoc, <-Hk.
    + exists 0. by rewrite str_app_nil_r.
Qed.

(** With the length of the string as fuel the loop ends because the pattern
    is no longer a suffix, never because the fuel ran out. *)
Lemma trim_end_matches_go_done fuel s pat :
  pat ≠ "" → String.length s ≤ fuel →
  strip_suffix (trim_end_matches_go fuel s pat) pat = None.
Proof.
  intros Hpat. revert s; induction fuel as [|fuel IHf]; intros s Hlen; simpl.
  - assert (s = "") as -> by (apply str_length_zero; lia). simpl.
    by rewrite bool_decide_eq_false_2.
  - destruct (strip_suffix s pat) as [r|] eqn:Hr; [|done].
    apply IHf. apply strip_suffix_length in Hr.
    destruct pat; [done|]. simpl in Hr. lia.
Qed.

Lemma trim_end_matches_go_fixed fuel s pat :
  strip_suffix s pat = None → trim_end_matches_go fuel s pat = s.
Proof. intros Hs. destruct fuel; simpl; by rewrite ?Hs. Qed.

(** A string that is a trimmed string followed by copies of the pattern
    trims to it: the result of the loop is determined by the two facts
    above. *)
Lemma trim_end_matches_go_repeat fuel r pat k :
  strip_suffix r pat = None → k ≤ fuel →
  trim_end_matches_go fuel (r +:+ str_repeat pat k) pat = r.
Proof.
  intros Hr. revert fuel; induction k as [|k IHk]; intros fuel Hk.
  - simpl. rewrite str_app_nil_r. by apply trim_end_matches_go_fixed.
  - destruct fuel as [|fuel]; [lia|].
    rewrite str_repeat_snoc, <-str_app_assoc. simpl.
    rewrite strip_suffix_app. apply IHk. lia.
Qed.

Lemma str_repeat_length pat k :
  String.length (str_repeat pat k) = k * String.length pat.
Proof. induction k as [|k IHk]; simpl; [done|]. rewrite str_app_length. lia. Qed.

Lemma trim_end_matches_unique s r pat k :
  pat ≠ "" → strip_suffix r pat = None → s = r +:+ str_repeat pat k →
  trim_end_matches s pat = r.
Proof.
  intros Hpat Hr ->. apply trim_end_matches_go_repeat; [done|].
  rewrite str_app_length, str_repeat_length.
  destruct pat; [done|]. simpl. nia.
Qed.

Lemma trim_end_matches_fixed s pat :
  strip_suffix s pat = None → trim_end_matches s pat = s.
Proof. apply trim_end_matches_go_fixed. Qed.

(** ** [contains] *)

Lemma str_contains_nil pat : str_contains "" pat = str_starts_with "" pat.
Proof. unfold str_starts_with. simpl. by rewrite orb_false_r. Qed.

Lemma str_contains_cons c s pat :
  str_contains (String c s) pat =
  str_starts_with (String c s) pat || str_contains s pat.
Proof. done. Qed.

Lemma str_contains_spec s pat :
  str_contains s pat = true ↔ ∃ a b, s = a +:+ pat +:+ b.
Proof.
  induction s as [|c s IHs].
  - rewrite str_contains_nil, str_starts_with_spec. split.
    + intros [r Hr]. by exists "", r.
    + intros (a & b & Hab). exists b.
      symmetry in Hab. apply str_app_eq_nil in Hab as [-> Hab]. by rewrite Hab.
  - rewrite str_contains_cons, orb_true_iff, str_starts_with_spec, IHs. split.
    + intros [[r Hr]|(a & b & ->)]; [by exists "", r|by exists (String c a), b].
    + intros ([|c' a] & b & Hab); [left; by exists b|right].
      rewrite str_app_cons in Hab. simplify_eq. by exists a, b.
Qed.

Lemma str_contains_app a pat b : str_contains (a +:+ pat +:+ b) pat = true.
Proof. apply str_contains_spec. by exists a, b. Qed.

(** A pattern found in a string is found in any string around it. *)
Lemma str_contains_mid a s b pat :
  str_contains s pat = true → str_contains (a +:+ s +:+ b) pat = true.
Proof.
  rewrite !str_contains_spec. intros (a' & b' & ->).
  exists (a +:+ a'), (b' +:+ b). by rewrite !str_app_assoc.
Qed.

(** ** [join] *)

Lemma str_join_nil sep : str_join sep [] = "".
Proof. done. Qed.

Lemma str_join_singleton sep s : str_join sep [s] = s.
Proof. done. Qed.

Lemma str_join_cons sep s t v :
  str_join sep (s :: t :: v) = s +:+ sep +:+ str_join sep (t :: v).
Proof. done. Qed.

#[export] Hint Rewrite str_join_nil str_join_singleton str_join_cons : rust.
#[export] Hint Resolve str_contains_app str_starts_with_app : rust.

(** ** Strings all of whose bytes satisfy a test *)

Lemma str_all_app p s t : str_all p (s +:+ t) = str_all p s && str_all p t.
Proof.
  induction s as [|c s IH]; [done|].
  by rewrite str_app_cons; simpl; rewrite IH, andb_assoc.
Qed.

Lemma str_all_join p sep l :
  str_all p sep = true → Forall (λ s, str_all p s = true) l →
  str_all p (str_join sep l) = true.
Proof.
  intros Hsep. induction 1 as [|s l Hs Hl IH]; [done|].
  destruct l as [|t l]; [done|].
  by rewrite str_join_cons, !str_all_app, Hs, Hsep, IH.
Qed.

(** ** Occurrences of a byte *)

Lemma str_has_app c s t : str_has c (s +:+ t) = str_has c s || str_has c t.
Proof.
  induction s as [|a s IH]; [done|].
  by rewrite str_app_cons; simpl; rewrite IH, orb_assoc.
Qed.

(** A string with the byte [c] splits at its first occurrence. *)
Lemma str_has_split c s :
  str_has c s = true → ∃ a t, s = a +:+ String c t ∧ str_has c a = false.
Proof.
  induction s as [|d s IH]; simpl; [done|].
  destruct (decide (d = c)) as [->|Hd].
  - intros _. by exists "", s.
  - rewrite bool_decide_eq_false_2 by done. simpl.
    intros (a & t & -> & Ha)%IH. exists (String d a), t. simpl.
    by rewrite bool_decide_eq_false_2, Ha.
Qed.

(** A byte that fails a test is in no string that passes it. *)
Lemma str_all_has p c s : str_all p s = true → p c = false → str_has c s = false.
Proof.
  intros Hs Hc. induction s as [|d s IH]; simpl in *; [done|].
  apply andb_true_iff in Hs as [Hd Hs]. rewrite IH by done.
  by rewrite bool_decide_eq_false_2 by congruence.
Qed.

(** ** Properties *)

(** For a non-empty pattern, [trim_end_matches] returns the string
    without its trailing copies of the pattern: what it returns no longer
    ends in the pattern, and the input is the result followed by some number
    of copies of the pattern. *)
Theorem trim_end_matches_spec s pat :
  pat ≠ "" →
  strip_suffix (trim_end_matches s pat) pat = None ∧
  ∃ k, s = trim_end_matches s pat +:+ str_repeat pat k.
Proof.
  intros Hpat. split.
  - by apply trim_end_matches_go_done.
  - apply trim_end_matches_go_app.
Qed.

Lemma trim_end_matches_spec_witness :
  strip_suffix (trim_end_matches "lib.rs.rs" ".rs") ".rs" = None ∧
  ∃ k, "lib.rs.rs" = trim_end_matches "lib.rs.rs" ".rs" +:+ str_repeat ".rs" k.
Proof. apply (trim_end_matches_spec "lib.rs.rs" ".rs"). discriminate. Defined.
