(* ===== verification/Utf8.v ===== *)
(** * Utf8: file names as bytes and as text

    A file name is an [OsStr], on Unix any sequence of bytes; a [str] or
    [String] is a sequence of bytes that is well-formed UTF-8.  The program
    crosses from one to the other in four places: [name.to_str()] (line
    63), [ext.to_str()] (line 52), [comp.to_str()] (line 123), which fail on
    bytes that are not UTF-8, and [to_string_lossy()] (line 53), which
    replaces what is malformed by U+FFFD.  On Unix these are
    [core::str::from_utf8] and [String::from_utf8_lossy]:
    - [run_utf8_validation] is the loop of [from_utf8], with the error it
      returns ([Utf8Error]: how far the input is valid, and how long the
      malformed sequence is);
    - [utf8_chunks] is the iterator [Utf8Chunks], and [from_utf8_lossy] the
      loop over its chunks.
    The two are written independently in the standard library, down to the
    test for a continuation byte ([as i8 >= -64] in one, [& 192 != 128] in
    the other).  Both are shown to follow one reading of the head of a
    string ([utf8_head]), and the strings [from_utf8] accepts to be the
    encodings of sequences of Unicode scalar values ([utf8]).

    The loop of [from_utf8] skips blocks of ASCII bytes a word at a time
    when the address is aligned; here it moves byte by byte, which visits
    the same bytes. *)

From Stdlib Require Import ZArith.
From S2P Require Import Prelude RustStr.

Implicit Types (v source rest : string) (b byte : ascii).

(** ** Bytes *)

(** The value of a byte ([u8]) and the byte of a value. *)
Definition byte_val (b : ascii) : Z := Z.of_N (N_of_ascii b).

Definition byte_of (z : Z) : ascii := ascii_of_N (Z.to_N z).

Section tests.
Local Open Scope Z_scope.
Implicit Types (x first second : Z).

(** [x as i8]: the same eight bits read as a signed number. *)
Definition as_i8 x : Z := if decide (x < 128) then x else x - 256.

(** [UTF8_CHAR_WIDTH[b]]: the length of the sequence a first byte
    announces, 0 for a byte that cannot come first. *)
Definition utf8_char_width x : nat :=
  if decide (x < 0x80) then 1%nat
  else if decide (x < 0xC2) then 0%nat
  else if decide (x < 0xE0) then 2%nat
  else if decide (x < 0xF0) then 3%nat
  else if decide (x < 0xF5) then 4%nat
  else 0%nat.

Definition TAG_CONT_U8 : Z := 128.

(** [safe_get(source, i) & 192 != TAG_CONT_U8], the test of [Utf8Chunks]. *)
Definition not_cont_masked x : bool := bool_decide (Z.land x 192 ≠ TAG_CONT_U8).

(** [next!() as i8 >= -64], the test of [run_utf8_validation]. *)
Definition not_cont_signed x : bool := bool_decide (-64 ≤ as_i8 x).

(** The patterns on the first two bytes of a sequence of three
    ([(0xE0, 0xA0..=0xBF) | (0xE1..=0xEC, 0x80..=0xBF) | (0xED, 0x80..=0x9F)
    | (0xEE..=0xEF, 0x80..=0xBF)]). *)
Definition second_of_three first second : bool :=
  bool_decide (first = 0xE0 ∧ 0xA0 ≤ second ≤ 0xBF) ||
  bool_decide (0xE1 ≤ first ≤ 0xEC ∧ 0x80 ≤ second ≤ 0xBF) ||
  bool_decide (first = 0xED ∧ 0x80 ≤ second ≤ 0x9F) ||
  bool_decide (0xEE ≤ first ≤ 0xEF ∧ 0x80 ≤ second ≤ 0xBF).

(** The patterns on the first two bytes of a sequence of four
    ([(0xF0, 0x90..=0xBF) | (0xF1..=0xF3, 0x80..=0xBF) |
    (0xF4, 0x80..=0x8F)]). *)
Definition second_of_four first second : bool :=
  bool_decide (first = 0xF0 ∧ 0x90 ≤ second ≤ 0xBF) ||
  bool_decide (0xF1 ≤ first ≤ 0xF3 ∧ 0x80 ≤ second ≤ 0xBF) ||
  bool_decide (first = 0xF4 ∧ 0x80 ≤ second ≤ 0x8F).

End tests.

(** ** [from_utf8] *)

Inductive Result (T E : Type) :=
| Ok (t : T)
| Err (e : E).
Arguments Ok {T E} t.
Arguments Err {T E} e.

(** [result.ok()] *)
Definition ok {T E} (r : Result T E) : option T :=
  match r with Ok t => Some t | Err _ => None end.

(** [Utf8Error]: [error_len] is [None] when the input ends inside a
    sequence. *)
Record Utf8Error := mkUtf8Error { valid_up_to : nat; error_len : option nat }.

(** The loop of [run_utf8_validation] from [index] on, [v] being what is
    left of the input there.  [next!()] is the match on what is left: the
    error without length if nothing is. *)
Fixpoint run_utf8_validation_from (index : nat) v : Result () Utf8Error :=
  let err error_len := Err (mkUtf8Error index error_len) in
  match v with
  | "" => Ok ()
  | String first rest =>
      if decide (128 ≤ byte_val first)%Z then
        match utf8_char_width (byte_val first) with
        | 2 =>
            match rest with
            | "" => err None
            | String b1 rest1 =>
                if not_cont_signed (byte_val b1) then err (Some 1)
                else run_utf8_validation_from (index + 2) rest1
            end
        | 3 =>
            match rest with
            | "" => err None
            | String b1 rest1 =>
                if second_of_three (byte_val first) (byte_val b1) then
                  match rest1 with
                  | "" => err None
                  | String b2 rest2 =>
                      if not_cont_signed (byte_val b2) then err (Some 2)
                      else run_utf8_validation_from (index + 3) rest2
                  end
                else err (Some 1)
            end
        | 4 =>
            match rest with
            | "" => err None
            | String b1 rest1 =>
                if second_of_four (byte_val first) (byte_val b1) then
                  match rest1 with
                  | "" => err None
                  | String b2 rest2 =>
                      if not_cont_signed (byte_val b2) then err (Some 2)
                      else
                        match rest2 with
                        | "" => err None
                        | String b3 rest3 =>
                            if not_cont_signed (byte_val b3) then err (Some 3)
                            else run_utf8_validation_from (index + 4) rest3
                        end
                  end
                else err (Some 1)
            end
        | _ => err (Some 1)
        end
      else run_utf8_validation_from (index + 1) rest
  end.

Definition run_utf8_validation v : Result () Utf8Error :=
  run_utf8_validation_from 0 v.

(** [core::str::from_utf8] *)
Definition from_utf8 v : Result string Utf8Error :=
  match run_utf8_validation v with
  | Ok _ => Ok v
  | Err e => Err e
  end.

(** [OsStr::to_str] (Unix) *)
Definition to_str v : option string := ok (from_utf8 v).

(** ** [from_utf8_lossy] *)

(** [Utf8Chunk]: a well-formed stretch and the malformed bytes after it. *)
Record Utf8Chunk := mkUtf8Chunk { valid : string; invalid : string }.

(** The chunks of [source], [inspected] being the well-formed bytes of the
    chunk under way ([source[..valid_up_to]]).  A [break] of the loop of
    [Utf8Chunks::next] ends the chunk with the bytes looked at since as
    its malformed part; [safe_get] past the end is 0, which is no
    continuation byte, so running out of input takes the same branch. *)
Fixpoint utf8_chunks_from (inspected source : string) : list Utf8Chunk :=
  let break invalid remaining :=
    mkUtf8Chunk inspected invalid :: remaining in
  match source with
  | "" => if decide (inspected = "") then [] else [mkUtf8Chunk inspected ""]
  | String byte rest =>
      if decide (byte_val byte < 128)%Z then
        utf8_chunks_from (inspected +:+ String byte "") rest
      else
        match utf8_char_width (byte_val byte) with
        | 2 =>
            match rest with
            | "" => break (String byte "") []
            | String b1 rest1 =>
                if not_cont_masked (byte_val b1)
                then break (String byte "") (utf8_chunks_from "" rest)
                else utf8_chunks_from
                       (inspected +:+ String byte (String b1 "")) rest1
            end
        | 3 =>
            match rest with
            | "" => break (String byte "") []
            | String b1 rest1 =>
                if second_of_three (byte_val byte) (byte_val b1) then
                  match rest1 with
                  | "" => break (String byte (String b1 "")) []
                  | String b2 rest2 =>
                      if not_cont_masked (byte_val b2)
                      then break (String byte (String b1 ""))
                             (utf8_chunks_from "" rest1)
                      else utf8_chunks_from
                             (inspected +:+
                                String byte (String b1 (String b2 ""))) rest2
                  end
                else break (String byte "") (utf8_chunks_from "" rest)
            end
        | 4 =>
            match rest with
            | "" => break (String byte "") []
            | String b1 rest1 =>
                if second_of_four (byte_val byte) (byte_val b1) then
                  match rest1 with
                  | "" => break (String byte (String b1 "")) []
                  | String b2 rest2 =>
                      if not_cont_masked (byte_val b2)
                      then break (String byte (String b1 ""))
                             (utf8_chunks_from "" rest1)
                      else
                        match rest2 with
                        | "" =>
                            break (String byte (String b1 (String b2 ""))) []
                        | String b3 rest3 =>
                            if not_cont_masked (byte_val b3)
                            then break (String byte (String b1 (String b2 "")))
                                   (utf8_chunks_from "" rest2)
                            else utf8_chunks_from
                                   (inspected +:+
                                      String byte
                                        (String b1 (String b2 (String b3 ""))))
                                   rest3
                        end
                  end
                else break (String byte "") (utf8_chunks_from "" rest)
            end
        | _ => break (String byte "") (utf8_chunks_from "" rest)
        end
  end.

(** [v.utf8_chunks()] *)
Definition utf8_chunks v : list Utf8Chunk := utf8_chunks_from "" v.

(** U+FFFD REPLACEMENT CHARACTER, the bytes EF BF BD. *)
Definition REPLACEMENT : string :=
  String (byte_of 0xEF) (String (byte_of 0xBF) (String (byte_of 0xBD) "")).

(** The body of the loop over the chunks after the first. *)
Definition push_chunk (res : string) (chunk : Utf8Chunk) : string :=
  let res := res +:+ valid chunk in
  if decide (invalid chunk = "") then res else res +:+ REPLACEMENT.

(** [String::from_utf8_lossy]; the result is the text, borrowed or owned. *)
Definition from_utf8_lossy v : string :=
  match utf8_chunks v with
  | [] => ""
  | chunk :: iter =>
      if decide (invalid chunk = "") then valid chunk
      else foldl push_chunk (valid chunk +:+ REPLACEMENT) iter
  end.

(** [OsStr::to_string_lossy().into_owned()] (Unix) *)
Definition to_string_lossy v : string := from_utf8_lossy v.

(** ** The head of a string *)

(** A continuation byte: 10xxxxxx. *)
Definition is_cont (x : Z) : bool := bool_decide (0x80 ≤ x ≤ 0xBF)%Z.

(** What a string begins with: the encoding of a scalar value, or a
    malformed sequence, which is [cut_short] when the input ends where a
    further byte was due. *)
Inductive HeadKind := Scalar | Malformed (cut_short : bool).

(** The head of [v], its bytes and what follows them. *)
Definition utf8_head v : option (HeadKind * string * string) :=
  match v with
  | "" => None
  | String b0 r0 =>
      let one := String b0 "" in
      if decide (byte_val b0 < 128)%Z then Some (Scalar, one, r0)
      else
        match utf8_char_width (byte_val b0), r0 with
        | 2, String b1 r1 =>
            if is_cont (byte_val b1) then Some (Scalar, String b0 (String b1 ""), r1)
            else Some (Malformed false, one, r0)
        | 3, String b1 r1 =>
            let two := String b0 (String b1 "") in
            if second_of_three (byte_val b0) (byte_val b1) then
              match r1 with
              | "" => Some (Malformed true, two, "")
              | String b2 r2 =>
                  if is_cont (byte_val b2)
                  then Some (Scalar, String b0 (String b1 (String b2 "")), r2)
                  else Some (Malformed false, two, r1)
              end
            else Some (Malformed false, one, r0)
        | 4, String b1 r1 =>
            let two := String b0 (String b1 "") in
            if second_of_four (byte_val b0) (byte_val b1) then
              match r1 with
              | "" => Some (Malformed true, two, "")
              | String b2 r2 =>
                  let three := String b0 (String b1 (String b2 "")) in
                  if is_cont (byte_val b2) then
                    match r2 with
                    | "" => Some (Malformed true, three, "")
                    | String b3 r3 =>
                        if is_cont (byte_val b3)
                        then Some (Scalar,
                                   String b0 (String b1 (String b2 (String b3 ""))),
                                   r3)
                        else Some (Malformed false, three, r2)
                    end
                  else Some (Malformed false, two, r1)
              end
            else Some (Malformed false, one, r0)
        | (2 | 3 | 4), "" => Some (Malformed true, one, "")
        | _, _ => Some (Malformed false, one, r0)
        end
  end.

(** [error_len] of a malformed head of [n] bytes. *)
Definition head_error_len (cut_short : bool) (bytes : string) : option nat :=
  if cut_short then None else Some (String.length bytes).

(** ** Well-formed UTF-8 *)

Section scalar_values.
Local Open Scope Z_scope.

(** A Unicode scalar value: a code point that is not a surrogate. *)
Definition is_scalar (x : Z) : Prop := 0 ≤ x < 0xD800 ∨ 0xE000 ≤ x < 0x110000.

(** The encoding of a scalar value (Unicode Standard, table 3-6). *)
Definition encode_utf8 (x : Z) : string :=
  if decide (x < 0x80) then String (byte_of x) ""
  else if decide (x < 0x800) then
    String (byte_of (0xC0 + x / 64)) (String (byte_of (0x80 + x mod 64)) "")
  else if decide (x < 0x10000) then
    String (byte_of (0xE0 + x / 4096))
      (String (byte_of (0x80 + x / 64 mod 64))
         (String (byte_of (0x80 + x mod 64)) ""))
  else
    String (byte_of (0xF0 + x / 262144))
      (String (byte_of (0x80 + x / 4096 mod 64))
         (String (byte_of (0x80 + x / 64 mod 64))
            (String (byte_of (0x80 + x mod 64)) ""))).

End scalar_values.

(** The encodings of sequences of scalar values. *)
Inductive utf8 : string → Prop :=
| utf8_nil : utf8 ""
| utf8_char x v : is_scalar x → utf8 v → utf8 (encode_utf8 x +:+ v).

(** A string of bytes from their values. *)
Definition of_bytes (l : list Z) : string :=
  foldr (λ x s, String (byte_of x) s) "" l.

(** ** Bytes *)

Lemma byte_val_range b : (0 ≤ byte_val b < 256)%Z.
Proof. unfold byte_val. pose proof (N_ascii_bounded b). lia. Qed.

Lemma byte_of_val b : byte_of (byte_val b) = b.
Proof. unfold byte_of, byte_val. by rewrite N2Z.id, ascii_N_embedding. Qed.

Lemma byte_val_of x : (0 ≤ x < 256)%Z → byte_val (byte_of x) = x.
Proof.
  intros Hx. unfold byte_of, byte_val. rewrite N_ascii_embedding by lia. lia.
Qed.

Lemma byte_val_inj b b' : byte_val b = byte_val b' → b = b'.
Proof. intros Hb. by rewrite <-(byte_of_val b), Hb, byte_of_val. Qed.

(** The two tests for a continuation byte agree on bytes. *)
Lemma not_cont_masked_spec b :
  not_cont_masked (byte_val b) = negb (is_cont (byte_val b)).
Proof. by destruct b as [[] [] [] [] [] [] [] []]. Qed.

Lemma not_cont_signed_spec b :
  not_cont_signed (byte_val b) = negb (is_cont (byte_val b)).
Proof. by destruct b as [[] [] [] [] [] [] [] []]. Qed.

(** ** The head and the two loops *)

(** [head_cases]: the cases of the head of a string. *)
Ltac head_cases :=
  repeat first
    [ rewrite not_cont_signed_spec
    | rewrite not_cont_masked_spec
    | match goal with
      | |- context [decide ?P] => destruct (decide P)
      | |- context [match utf8_char_width ?x with _ => _ end] =>
          destruct (utf8_char_width x) as [|[|[|[|[|?]]]]]
      | |- context [match ?r with "" => _ | String _ _ => _ end] =>
          is_var r; destruct r
      | |- context [is_cont ?x] => destruct (is_cont x) eqn:?; cbn [negb]
      | |- context [if ?t then _ else _] => destruct t eqn:?
      end ].

Lemma utf8_head_split v k c r :
  utf8_head v = Some (k, c, r) → v = c +:+ r ∧ c ≠ "".
Proof.
  unfold utf8_head. destruct v as [|b0 r0]; [done|].
  head_cases; by intros [= <- <- <-].
Qed.

Lemma utf8_head_None v : utf8_head v = None ↔ v = "".
Proof. split; [|by intros ->]. unfold utf8_head. destruct v; [done|]. by head_cases. Qed.

(** What is left after the head is shorter. *)
Lemma utf8_head_length v k c r :
  utf8_head v = Some (k, c, r) → String.length r < String.length v.
Proof.
  intros [-> Hc]%utf8_head_split. rewrite str_app_length.
  destruct c; [done|simpl; lia].
Qed.

(** Induction on a string, head by head. *)
Lemma utf8_head_ind (P : string → Prop) :
  P "" →
  (∀ v k c r, utf8_head v = Some (k, c, r) → P r → P v) →
  ∀ v, P v.
Proof.
  intros Hnil Hhead v. remember (String.length v) as n eqn:Hn.
  revert v Hn. induction n as [n IH] using lt_wf_ind. intros v ->.
  destruct (utf8_head v) as [[[k c] r]|] eqn:Hh.
  - eapply Hhead; [done|]. eapply IH; [|done]. by eapply utf8_head_length.
  - by apply utf8_head_None in Hh as ->.
Qed.

(** The loop of [from_utf8], head by head. *)
Lemma run_utf8_validation_head index v :
  run_utf8_validation_from index v =
  match utf8_head v with
  | None => Ok ()
  | Some (Scalar, c, r) => run_utf8_validation_from (index + String.length c) r
  | Some (Malformed cut_short, c, _) =>
      Err (mkUtf8Error index (head_error_len cut_short c))
  end.
Proof.
  destruct v as [|b0 r0]; [done|]. simpl. head_cases; try done; lia.
Qed.

(** The chunks, head by head. *)
Lemma utf8_chunks_head inspected v :
  utf8_chunks_from inspected v =
  match utf8_head v with
  | None => if decide (inspected = "") then [] else [mkUtf8Chunk inspected ""]
  | Some (Scalar, c, r) => utf8_chunks_from (inspected +:+ c) r
  | Some (Malformed _, c, r) => mkUtf8Chunk inspected c :: utf8_chunks_from "" r
  end.
Proof.
  destruct v as [|b0 r0]; [done|]. simpl. head_cases; try done; lia.
Qed.

(** ** The text of the chunks *)

Lemma push_chunk_app res chunk : push_chunk res chunk = res +:+ push_chunk "" chunk.
Proof. unfold push_chunk. case_decide; by autorewrite with rust. Qed.

Lemma foldl_push_chunk res chunks :
  foldl push_chunk res chunks = res +:+ foldl push_chunk "" chunks.
Proof.
  revert res. induction chunks as [|chunk chunks IH]; intros res; simpl.
  - by rewrite str_app_nil_r.
  - by rewrite IH, (IH (push_chunk "" _)), push_chunk_app, str_app_assoc.
Qed.

(** A chunk without a malformed part is the last one. *)
Lemma utf8_chunks_last inspected v chunk iter :
  utf8_chunks_from inspected v = chunk :: iter → invalid chunk = "" → iter = [].
Proof.
  revert inspected. induction v as [|v k c r Hh IH] using utf8_head_ind;
    intros inspected; rewrite utf8_chunks_head.
  - simpl. case_decide; [done|]. by intros [= <- <-].
  - rewrite Hh. destruct k as [|cut_short]; [apply IH|].
    intros [= <- <-] Hc. simpl in Hc. by apply utf8_head_split in Hh as [_ ?].
Qed.

(** The first chunk is treated apart only to return the input itself when
    it is well formed. *)
Lemma from_utf8_lossy_chunks v :
  from_utf8_lossy v = foldl push_chunk "" (utf8_chunks v).
Proof.
  unfold from_utf8_lossy. destruct (utf8_chunks v) as [|chunk iter] eqn:Hc; [done|].
  cbn [foldl]. unfold push_chunk at 3. rewrite str_app_nil_l.
  case_decide; [|done]. by rewrite (utf8_chunks_last _ _ _ _ Hc).
Qed.

(** The bytes inspected so far come first in the text. *)
Lemma utf8_chunks_inspected inspected v :
  foldl push_chunk "" (utf8_chunks_from inspected v) =
  inspected +:+ foldl push_chunk "" (utf8_chunks_from "" v).
Proof.
  revert inspected. induction v as [|v k c r Hh IH] using utf8_head_ind;
    intros inspected; rewrite !utf8_chunks_head.
  - simpl. case_decide as Hi; [by rewrite Hi|]. simpl. unfold push_chunk. simpl.
    by autorewrite with rust.
  - rewrite Hh. destruct k as [|cut_short].
    + by rewrite IH, (IH ("" +:+ c)), str_app_nil_l, str_app_assoc.
    + simpl. rewrite foldl_push_chunk, (foldl_push_chunk (push_chunk "" _)).
      unfold push_chunk. simpl. case_decide; by autorewrite with rust.
Qed.

(** [from_utf8_lossy], head by head: a scalar value is copied, a malformed
    sequence becomes U+FFFD. *)
Lemma from_utf8_lossy_head v :
  from_utf8_lossy v =
  match utf8_head v with
  | None => ""
  | Some (Scalar, c, r) => c +:+ from_utf8_lossy r
  | Some (Malformed _, _, r) => REPLACEMENT +:+ from_utf8_lossy r
  end.
Proof.
  rewrite from_utf8_lossy_chunks. unfold utf8_chunks. rewrite utf8_chunks_head.
  destruct (utf8_head v) as [[[[|cut_short] c] r]|] eqn:Hh; [| |done].
  - by rewrite utf8_chunks_inspected, str_app_nil_l, from_utf8_lossy_chunks.
  - simpl. rewrite foldl_push_chunk, from_utf8_lossy_chunks. f_equal.
    unfold push_chunk. simpl. apply utf8_head_split in Hh as [_ Hc].
    by rewrite decide_False.
Qed.

(** ** Scalar values and their encodings *)

Section scalar_bytes.
Local Open Scope Z_scope.

(** The well-formed byte sequences (Unicode Standard, table 3-7), as the
    tests of the loops state them. *)
Inductive scalar_bytes : string → Prop :=
| scalar_1 b0 :
    byte_val b0 < 0x80 → scalar_bytes (String b0 "")
| scalar_2 b0 b1 :
    0xC2 ≤ byte_val b0 < 0xE0 → is_cont (byte_val b1) = true →
    scalar_bytes (String b0 (String b1 ""))
| scalar_3 b0 b1 b2 :
    second_of_three (byte_val b0) (byte_val b1) = true →
    is_cont (byte_val b2) = true →
    scalar_bytes (String b0 (String b1 (String b2 "")))
| scalar_4 b0 b1 b2 b3 :
    second_of_four (byte_val b0) (byte_val b1) = true →
    is_cont (byte_val b2) = true → is_cont (byte_val b3) = true →
    scalar_bytes (String b0 (String b1 (String b2 (String b3 "")))).

Lemma utf8_char_width_spec x :
  match utf8_char_width x with
  | 1%nat => x < 0x80
  | 2%nat => 0xC2 ≤ x < 0xE0
  | 3%nat => 0xE0 ≤ x < 0xF0
  | 4%nat => 0xF0 ≤ x < 0xF5
  | _ => 0x80 ≤ x < 0xC2 ∨ 0xF5 ≤ x
  end.
Proof. unfold utf8_char_width. repeat case_decide; lia. Qed.

Lemma second_of_three_spec x y :
  second_of_three x y = true ↔
  0xE0 ≤ x ≤ 0xEF ∧ 0x80 ≤ y ≤ 0xBF ∧ (x = 0xE0 → 0xA0 ≤ y) ∧ (x = 0xED → y ≤ 0x9F).
Proof.
  unfold second_of_three. rewrite !orb_true_iff, !bool_decide_eq_true. lia.
Qed.

Lemma second_of_four_spec x y :
  second_of_four x y = true ↔
  0xF0 ≤ x ≤ 0xF4 ∧ 0x80 ≤ y ≤ 0xBF ∧ (x = 0xF0 → 0x90 ≤ y) ∧ (x = 0xF4 → y ≤ 0x8F).
Proof.
  unfold second_of_four. rewrite !orb_true_iff, !bool_decide_eq_true. lia.
Qed.

Lemma is_cont_spec x : is_cont x = true ↔ 0x80 ≤ x ≤ 0xBF.
Proof. apply bool_decide_eq_true. Qed.

End scalar_bytes.

(** [byte_facts]: the tests on bytes as inequalities. *)
Ltac byte_facts :=
  repeat match goal with
  | H : second_of_three _ _ = true |- _ => apply second_of_three_spec in H
  | H : second_of_four _ _ = true |- _ => apply second_of_four_spec in H
  | H : is_cont _ = true |- _ => apply is_cont_spec in H
  end.

(** The head of a string is a scalar value iff the string begins with a
    well-formed sequence. *)
Lemma utf8_head_scalar v c r :
  utf8_head v = Some (Scalar, c, r) ↔ v = c +:+ r ∧ scalar_bytes c.
Proof.
  split.
  - unfold utf8_head. destruct v as [|b0 r0]; [done|].
    pose proof (utf8_char_width_spec (byte_val b0)).
    head_cases; intros [= <- <-]; (split; [done|]); by constructor.
  - intros [-> Hc].
    destruct Hc as [b0 H0|b0 b1 H0 H1|b0 b1 b2 H1 H2|b0 b1 b2 b3 H1 H2 H3];
      rewrite ?str_app_cons, ?str_app_nil_l; unfold utf8_head;
      pose proof (utf8_char_width_spec (byte_val b0));
      try pose proof (proj1 (second_of_three_spec _ _) H1);
      try pose proof (proj1 (second_of_four_spec _ _) H1);
      head_cases; first [done|lia|congruence].
Qed.

(** ** Encoding and decoding a scalar value *)

Section decode.
Local Open Scope Z_scope.

(** The scalar value of a well-formed sequence. *)
Definition decode_utf8 (c : string) : Z :=
  match c with
  | String b0 "" => byte_val b0
  | String b0 (String b1 "") =>
      (byte_val b0 - 0xC0) * 64 + (byte_val b1 - 0x80)
  | String b0 (String b1 (String b2 "")) =>
      (byte_val b0 - 0xE0) * 4096 + (byte_val b1 - 0x80) * 64 +
      (byte_val b2 - 0x80)
  | String b0 (String b1 (String b2 (String b3 ""))) =>
      (byte_val b0 - 0xF0) * 262144 + (byte_val b1 - 0x80) * 4096 +
      (byte_val b2 - 0x80) * 64 + (byte_val b3 - 0x80)
  | _ => 0
  end.

Lemma byte_of_eq x b : byte_val b = x → byte_of x = b.
Proof. intros <-. apply byte_of_val. Qed.

Lemma scalar_bytes_decode c :
  scalar_bytes c → is_scalar (decode_utf8 c) ∧ encode_utf8 (decode_utf8 c) = c.
Proof.
  intros Hc. unfold is_scalar, encode_utf8.
  destruct Hc as [b0 H0|b0 b1 H0 H1|b0 b1 b2 H1 H2|b0 b1 b2 b3 H1 H2 H3];
    byte_facts; cbn [decode_utf8];
    pose proof (byte_val_range b0).
  - split; [lia|]. by rewrite decide_True, byte_of_val by lia.
  - split; [lia|]. rewrite decide_False, decide_True by lia.
    repeat f_equal; apply byte_of_eq; Z.div_mod_to_equations; lia.
  - split; [lia|]. rewrite !decide_False, decide_True by lia.
    repeat f_equal; apply byte_of_eq; Z.div_mod_to_equations; lia.
  - split; [lia|]. rewrite !decide_False by lia.
    repeat f_equal; apply byte_of_eq; Z.div_mod_to_equations; lia.
Qed.

Lemma encode_scalar_bytes x :
  is_scalar x → scalar_bytes (encode_utf8 x) ∧ decode_utf8 (encode_utf8 x) = x.
Proof.
  unfold is_scalar, encode_utf8. intros Hx.
  repeat case_decide; (split; [constructor|cbn [decode_utf8]]);
    rewrite ?second_of_three_spec, ?second_of_four_spec, ?is_cont_spec;
    rewrite !byte_val_of by (Z.div_mod_to_equations; lia);
    Z.div_mod_to_equations; lia.
Qed.

End decode.

(** ** What [from_utf8] accepts *)

(** [utf8], head by head. *)
Lemma utf8_unfold v :
  utf8 v ↔
  match utf8_head v with
  | None => True
  | Some (Scalar, _, r) => utf8 r
  | Some (Malformed _, _, _) => False
  end.
Proof.
  split.
  - intros [|x w Hx Hw]; [done|].
    destruct (encode_scalar_bytes x Hx) as [Hc _].
    by rewrite (proj2 (utf8_head_scalar _ _ w) (conj eq_refl Hc)).
  - destruct (utf8_head v) as [[[[|cut] c] r]|] eqn:Hh; [|done|].
    + apply utf8_head_scalar in Hh as [-> Hc]. intros Hr.
      destruct (scalar_bytes_decode c Hc) as [Hx <-]. by constructor.
    + apply utf8_head_None in Hh as ->. constructor.
Qed.

Lemma run_utf8_validation_from_Ok index v :
  run_utf8_validation_from index v = Ok () ↔ utf8 v.
Proof.
  revert index. induction v as [|v k c r Hh IH] using utf8_head_ind;
    intros index; rewrite run_utf8_validation_head, utf8_unfold.
  - done.
  - rewrite Hh. destruct k; [apply IH|done].
Qed.

(** [to_str] returns the string itself, and only for well-formed UTF-8. *)
Lemma to_str_cases v : to_str v = Some v ∧ utf8 v ∨ to_str v = None ∧ ¬ utf8 v.
Proof.
  unfold to_str, from_utf8, run_utf8_validation.
  rewrite <-(run_utf8_validation_from_Ok 0).
  destruct (run_utf8_validation_from 0 v) as [[]|e]; simpl; [by left|by right].
Qed.

Lemma to_str_Some v t : to_str v = Some t ↔ t = v ∧ utf8 v.
Proof.
  destruct (to_str_cases v) as [[-> ?]|[-> ?]]; (split; [intros [= <-]|intros [-> ?]]);
    done.
Qed.

Lemma to_str_None v : to_str v = None ↔ ¬ utf8 v.
Proof. by destruct (to_str_cases v) as [[-> ?]|[-> ?]]. Qed.

Lemma to_str_utf8 v : utf8 v → to_str v = Some v.
Proof. intros Hv. by apply to_str_Some. Qed.

#[export] Instance utf8_dec v : Decision (utf8 v).
Proof.
  destruct (to_str v) as [t|] eqn:Hv; [left|right].
  - by apply to_str_Some in Hv as [_ ?].
  - by apply to_str_None.
Defined.

(** [to_str] does not change a comparison with well-formed text. *)
Lemma to_str_eq_Some (o : option string) t :
  utf8 t → o ≫= to_str = Some t ↔ o = Some t.
Proof.
  intros Ht. destruct o as [v|]; simpl; [|done]. rewrite to_str_Some.
  split; [by intros [-> _]|by intros [= ->]].
Qed.

(** ** What [from_utf8_lossy] returns *)

Lemma from_utf8_lossy_utf8 v : utf8 v → from_utf8_lossy v = v.
Proof.
  induction v as [|v k c r Hh IH] using utf8_head_ind; [done|].
  rewrite utf8_unfold, from_utf8_lossy_head, Hh.
  apply utf8_head_split in Hh as [-> _]. destruct k; [|done].
  by intros ->%IH.
Qed.

Lemma REPLACEMENT_encode : REPLACEMENT = encode_utf8 0xFFFD.
Proof. done. Qed.

Lemma utf8_from_utf8_lossy v : utf8 (from_utf8_lossy v).
Proof.
  induction v as [|v k c r Hh IH] using utf8_head_ind; [constructor|].
  rewrite from_utf8_lossy_head, Hh. destruct k.
  - apply utf8_head_scalar in Hh as [_ Hc].
    destruct (scalar_bytes_decode c Hc) as [Hx <-]. by constructor.
  - rewrite REPLACEMENT_encode. constructor; [|done]. unfold is_scalar. lia.
Qed.

(** The input is returned as it is exactly when it is well formed. *)
Lemma from_utf8_lossy_fixed v : from_utf8_lossy v = v ↔ utf8 v.
Proof.
  split; [|apply from_utf8_lossy_utf8]. intros <-. apply utf8_from_utf8_lossy.
Qed.

(** ** ASCII bytes *)

(** [u8::is_ascii] *)
Definition is_ascii (b : ascii) : bool := bool_decide (byte_val b < 128)%Z.

(** A malformed head is no longer cut short when more input follows. *)
Definition uncut (k : HeadKind) : HeadKind :=
  match k with Scalar => Scalar | Malformed _ => Malformed false end.

Lemma is_ascii_spec b : is_ascii b = true ↔ (byte_val b < 128)%Z.
Proof. apply bool_decide_eq_true. Qed.

Lemma utf8_head_ascii b r :
  is_ascii b = true → utf8_head (String b r) = Some (Scalar, String b "", r).
Proof. intros Hb%is_ascii_spec. simpl. by rewrite decide_True. Qed.

Lemma from_utf8_lossy_cons b r :
  is_ascii b = true → from_utf8_lossy (String b r) = String b (from_utf8_lossy r).
Proof. intros Hb. by rewrite from_utf8_lossy_head, utf8_head_ascii. Qed.

Lemma utf8_cons b r : is_ascii b = true → utf8 (String b r) ↔ utf8 r.
Proof. intros Hb. by rewrite utf8_unfold, utf8_head_ascii. Qed.

Lemma utf8_ascii s : str_all is_ascii s = true → utf8 s.
Proof.
  induction s as [|b s IH]; [constructor|]. simpl.
  intros [Hb Hs]%andb_true_iff. by apply utf8_cons, IH.
Qed.

(** A head is one ASCII byte, or has no ASCII byte at all. *)
Lemma utf8_head_bytes v k c r :
  utf8_head v = Some (k, c, r) →
  (∃ b, c = String b "" ∧ is_ascii b = true ∧ k = Scalar) ∨
  str_all (λ b, negb (is_ascii b)) c = true.
Proof.
  unfold utf8_head. destruct v as [|b0 r0]; [done|].
  head_cases; intros [= <- <- <-];
    first [left; eexists; by rewrite is_ascii_spec|right];
    byte_facts; simpl; unfold is_ascii;
    rewrite ?bool_decide_eq_false_2 by lia; done.
Qed.

(** An ASCII byte ends whatever sequence is under way: the head of a
    string is the same with such a byte and more text behind the string. *)
Lemma utf8_head_app_ascii a b r :
  a ≠ "" → is_ascii b = true →
  utf8_head (a +:+ String b r) =
  (λ '(k, c, r'), (uncut k, c, r' +:+ String b r)) <$> utf8_head a.
Proof.
  intros Ha Hb%is_ascii_spec. unfold utf8_head.
  destruct a as [|a0 [|a1 [|a2 [|a3 a]]]]; [done|..];
    rewrite ?str_app_cons, ?str_app_nil_l; head_cases; simpl;
    rewrite ?str_app_cons, ?str_app_nil_l; try done; byte_facts; lia.
Qed.

(** ** Text around an ASCII byte *)

Lemma from_utf8_lossy_app_ascii a b r :
  is_ascii b = true →
  from_utf8_lossy (a +:+ String b r) =
  from_utf8_lossy a +:+ String b (from_utf8_lossy r).
Proof.
  intros Hb. induction a as [|a k c r' Hh IH] using utf8_head_ind.
  - by rewrite !str_app_nil_l, from_utf8_lossy_cons.
  - assert (a ≠ "") by (by intros ->).
    rewrite (from_utf8_lossy_head a), from_utf8_lossy_head,
      utf8_head_app_ascii, Hh by done.
    simpl. destruct k; simpl; by rewrite IH, str_app_assoc.
Qed.

Lemma utf8_app_ascii a b r :
  is_ascii b = true → utf8 (a +:+ String b r) ↔ utf8 a ∧ utf8 r.
Proof.
  intros Hb. induction a as [|a k c r' Hh IH] using utf8_head_ind.
  - rewrite str_app_nil_l, utf8_cons by done. split; [by split; [constructor|]|tauto].
  - assert (a ≠ "") by (by intros ->).
    rewrite (utf8_unfold a), utf8_unfold, utf8_head_app_ascii, Hh by done.
    simpl. destruct k; simpl; tauto.
Qed.

Lemma utf8_app v w : utf8 v → utf8 w → utf8 (v +:+ w).
Proof.
  intros Hv Hw. induction Hv as [|x v Hx Hv IH]; [done|].
  rewrite str_app_assoc. by constructor.
Qed.

(** The text has an ASCII byte where the input has one, and none elsewhere. *)
Lemma from_utf8_lossy_all_ascii v :
  str_all is_ascii (from_utf8_lossy v) = str_all is_ascii v.
Proof.
  induction v as [|v k c r Hh IH] using utf8_head_ind; [done|].
  rewrite from_utf8_lossy_head, Hh. pose proof Hh as [-> Hc]%utf8_head_split.
  apply utf8_head_bytes in Hh as [(b & -> & Hb & ->)|Hn].
  - by rewrite !str_app_cons, !str_app_nil_l; simpl; rewrite IH.
  - destruct c as [|c0 c]; [done|]. simpl in Hn.
    apply andb_true_iff in Hn as [Hc0%negb_true_iff _].
    destruct k; rewrite !str_app_cons; simpl; by rewrite ?Hc0.
Qed.

(** ASCII text comes from itself only. *)
Lemma from_utf8_lossy_eq_ascii v t :
  str_all is_ascii t = true → from_utf8_lossy v = t ↔ v = t.
Proof.
  intros Ht. split.
  - intros Hv. rewrite <-Hv, from_utf8_lossy_all_ascii in Ht.
    by rewrite <-Hv, from_utf8_lossy_utf8 by by apply utf8_ascii.
  - intros ->. by apply from_utf8_lossy_utf8, utf8_ascii.
Qed.

Lemma from_utf8_lossy_has b v :
  is_ascii b = true → str_has b (from_utf8_lossy v) = str_has b v.
Proof.
  intros Hb. induction v as [|v k c r Hh IH] using utf8_head_ind; [done|].
  assert (∀ w, str_all (λ b, negb (is_ascii b)) w = true → str_has b w = false)
    as Hnot by (intros w Hw; apply (str_all_has _ _ _ Hw); by rewrite Hb).
  rewrite from_utf8_lossy_head, Hh. pose proof Hh as [-> Hc]%utf8_head_split.
  apply utf8_head_bytes in Hh as [(b' & -> & Hb' & ->)|Hn].
  - by rewrite !str_app_cons, !str_app_nil_l; simpl; rewrite IH.
  - destruct k; rewrite !str_has_app, IH, ?(Hnot c), ?(Hnot REPLACEMENT); done.
Qed.

(** ** Text built from text *)

(** A text without its last ASCII bytes is text. *)
Lemma utf8_app_all_ascii v w : str_all is_ascii w = true → utf8 (v +:+ w) → utf8 v.
Proof.
  destruct w as [|b w]; [by rewrite str_app_nil_r|]. simpl.
  intros [Hb _]%andb_true_iff Hv. by apply (utf8_app_ascii v b w Hb) in Hv as [? _].
Qed.

Lemma utf8_trim_end_matches s pat :
  str_all is_ascii pat = true → utf8 s → utf8 (trim_end_matches s pat).
Proof.
  intros Hpat Hs.
  destruct (trim_end_matches_go_app (String.length s) s pat) as [k Hk].
  rewrite Hk in Hs. apply utf8_app_all_ascii in Hs; [done|].
  clear Hk Hs. induction k as [|k IH]; [done|]. simpl. by rewrite str_all_app, Hpat.
Qed.

Lemma utf8_qualify v w : utf8 v → utf8 w → utf8 (v +::+ w).
Proof. intros Hv Hw. by apply utf8_app, (utf8_app "::"); [|apply utf8_ascii|]. Qed.

Lemma utf8_join sep l : utf8 sep → Forall utf8 l → utf8 (str_join sep l).
Proof.
  intros Hsep. induction 1 as [|s l Hs Hl IH]; [constructor|].
  destruct l as [|t l]; [done|]. rewrite str_join_cons. by repeat apply utf8_app.
Qed.

(** ** The error of [from_utf8] and the first chunk *)

Lemma utf8_head_cut_short v c r : utf8_head v = Some (Malformed true, c, r) → r = "".
Proof.
  unfold utf8_head. destruct v as [|b0 r0]; [done|].
  head_cases; by intros [= <- <-].
Qed.

Lemma utf8_scalar_app c w : scalar_bytes c → utf8 w → utf8 (c +:+ w).
Proof.
  intros Hc Hw. destruct (scalar_bytes_decode c Hc) as [Hx <-]. by constructor.
Qed.

(** The two loops stop at the same place: where [from_utf8] reports its
    error, the first chunk ends, and the length of the error is the length
    of the malformed part of that chunk. *)
Lemma run_utf8_validation_chunk index inspected v e :
  run_utf8_validation_from index v = Err e →
  ∃ w bad rest iter,
    utf8_chunks_from inspected v = mkUtf8Chunk (inspected +:+ w) bad :: iter ∧
    valid_up_to e = index + String.length w ∧ utf8 w ∧
    v = w +:+ bad +:+ rest ∧ bad ≠ "" ∧
    match error_len e with
    | Some n => String.length bad = n
    | None => rest = "" ∧ iter = []
    end.
Proof.
  revert index inspected. induction v as [|v k c r Hh IH] using utf8_head_ind;
    intros index inspected; rewrite run_utf8_validation_head, utf8_chunks_head.
  { done. }
  rewrite Hh. destruct k as [|cut_short].
  - apply utf8_head_scalar in Hh as [-> Hc].
    intros (w & bad & rest & iter & -> & -> & Hw & -> & Hbad & Hlen)%(IH _ (inspected +:+ c)).
    exists (c +:+ w), bad, rest, iter.
    rewrite !str_app_assoc, str_app_length. split_and!; try done; [lia|].
    by apply utf8_scalar_app.
  - intros [= <-]. exists "", c, r, (utf8_chunks_from "" r). simpl.
    rewrite str_app_nil_r, Nat.add_0_r. pose proof Hh as [-> Hc]%utf8_head_split.
    split_and!; try done; [constructor|]. destruct cut_short; simpl; [|done].
    by apply utf8_head_cut_short in Hh as ->.
Qed.

(** ** Properties of the conversions *)

(** C18: [from_utf8] returns its input exactly when the input is the
    encoding of a sequence of Unicode scalar values, and an error
    otherwise. *)
Theorem from_utf8_refines v :
  match from_utf8 v with
  | Ok t => t = v ∧ utf8 v
  | Err _ => ¬ utf8 v
  end.
Proof.
  unfold from_utf8, run_utf8_validation.
  pose proof (run_utf8_validation_from_Ok 0 v) as Hv.
  destruct (run_utf8_validation_from 0 v) as [[]|e]; [by split; [|apply Hv]|].
  by intros [=]%Hv.
Qed.

(** C19: what [from_utf8_lossy] returns is always well-formed UTF-8, and it
    is the input itself exactly when the input is well formed. *)
Theorem from_utf8_lossy_text v :
  utf8 (from_utf8_lossy v) ∧ (from_utf8_lossy v = v ↔ utf8 v).
Proof. split; [apply utf8_from_utf8_lossy|apply from_utf8_lossy_fixed]. Qed.

(** The two tests for a continuation byte, the signed comparison of
    [from_utf8] and the mask of [Utf8Chunks], accept the same bytes: those
    from 0x80 to 0xBF. *)
Theorem continuation_tests_agree b :
  not_cont_signed (byte_val b) = not_cont_masked (byte_val b) ∧
  (not_cont_masked (byte_val b) = false ↔ (0x80 ≤ byte_val b ≤ 0xBF)%Z).
Proof.
  rewrite not_cont_signed_spec, not_cont_masked_spec, negb_false_iff.
  split; [done|apply is_cont_spec].
Qed.

(** Where [from_utf8] fails, [Utf8Chunks] ends its first chunk: the
    well-formed part of the chunk is the input up to [valid_up_to], and the
    malformed part has [error_len] bytes, or runs to the end of the input
    when there is no [error_len]. *)
Theorem utf8_error_is_first_chunk v e :
  from_utf8 v = Err e →
  ∃ chunk iter rest,
    utf8_chunks v = chunk :: iter ∧
    v = valid chunk +:+ invalid chunk +:+ rest ∧
    String.length (valid chunk) = valid_up_to e ∧ utf8 (valid chunk) ∧
    invalid chunk ≠ "" ∧
    match error_len e with
    | Some n => String.length (invalid chunk) = n
    | None => rest = "" ∧ iter = []
    end.
Proof.
  unfold from_utf8, run_utf8_validation.
  destruct (run_utf8_validation_from 0 v) as [[]|e'] eqn:Hv; [done|].
  intros [= ->].
  apply (run_utf8_validation_chunk 0 "") in Hv
    as (w & bad & rest & iter & Hc & Hup & Hw & -> & Hbad & Hlen).
  by exists (mkUtf8Chunk w bad), iter, rest.
Qed.

Lemma utf8_error_is_first_chunk_witness :
  ∃ chunk iter rest,
    utf8_chunks (of_bytes [0; 159; 146; 150]%Z) = chunk :: iter ∧
    of_bytes [0; 159; 146; 150]%Z = valid chunk +:+ invalid chunk +:+ rest ∧
    String.length (valid chunk) = 1 ∧ utf8 (valid chunk) ∧
    invalid chunk ≠ "" ∧ String.length (invalid chunk) = 1.
Proof.
  apply (utf8_error_is_first_chunk (of_bytes [0; 159; 146; 150]%Z)
           (mkUtf8Error 1 (Some 1))).
  reflexivity.
Defined.

(** The examples of the documentation of the standard library. *)
Example from_utf8_lossy_example :
  from_utf8_lossy ("Hello " +:+ of_bytes [0xF0; 0x90; 0x80]%Z +:+ "World") =
    "Hello " +:+ REPLACEMENT +:+ "World" ∧
  utf8_chunks ("foo" +:+ of_bytes [0xF1; 0x80]%Z +:+ "bar") =
    [mkUtf8Chunk "foo" (of_bytes [0xF1; 0x80]%Z); mkUtf8Chunk "bar" ""] ∧
  from_utf8_lossy ("Hello" +:+ of_bytes [0xC0; 0x80]%Z +:+ " There" +:+
                   of_bytes [0xE6; 0x83]%Z +:+ " Goodbye") =
    "Hello" +:+ REPLACEMENT +:+ REPLACEMENT +:+ " There" +:+ REPLACEMENT +:+
    " Goodbye" ∧
  from_utf8 (of_bytes [0xE2; 0x82; 0xAC]%Z) = Ok (encode_utf8 0x20AC%Z) ∧
  from_utf8 (of_bytes [0xED; 0xA0; 0x80]%Z) = Err (mkUtf8Error 0 (Some 1)) ∧
  from_utf8 (of_bytes [0x61; 0xF0; 0x9F; 0x92]%Z) = Err (mkUtf8Error 1 None).
Proof. by vm_compute. Qed.
