(* ===== verification/Chars.v ===== *)
(** * Chars: the characters of a string

    [impl Debug for str], which [println!] reaches at line 42, works on the
    characters of a string, not on its bytes: [str::chars] decodes them
    ([core::str::next_code_point]) and [char::encode_utf8] writes one back.
    Both are written with shifts and masks on [u32]; here they are the same
    operations on [Z], and they are shown to be the decoding and the
    encoding that define well-formed UTF-8 in [Utf8].

    [next_code_point] trusts its input, a [str]: where a continuation byte
    is missing the library has undefined behaviour, the function here
    returns [None], and no theorem is stated of that case. *)

From Stdlib Require Import ZArith.
From S2P Require Import Prelude RustStr Utf8.

Implicit Types (s rest : string) (code ch x y z w : Z).

(** ** Decoding *)

Section decoding.
Local Open Scope Z_scope.

Definition CONT_MASK : Z := 0x3F.

(** [utf8_first_byte(byte, width)]: the payload of a first byte. *)
Definition utf8_first_byte (byte : Z) (width : Z) : Z :=
  Z.land byte (Z.shiftr 0x7F width).

(** [utf8_acc_cont_byte(ch, byte)]: six more bits. *)
Definition utf8_acc_cont_byte ch (byte : Z) : Z :=
  Z.lor (Z.shiftl ch 6) (Z.land byte CONT_MASK).

(** [next_code_point(bytes)]: the next character and what follows it. *)
Definition next_code_point (bytes : string) : option (Z * string) :=
  match bytes with
  | "" => None
  | String b0 rest =>
      let x := byte_val b0 in
      if decide (x < 128) then Some (x, rest)
      else
        let init := utf8_first_byte x 2 in
        match rest with
        | "" => None
        | String b1 rest =>
            let y := byte_val b1 in
            if decide (0xE0 ≤ x) then
              match rest with
              | "" => None
              | String b2 rest =>
                  let z := byte_val b2 in
                  let y_z := utf8_acc_cont_byte (Z.land y CONT_MASK) z in
                  if decide (0xF0 ≤ x) then
                    match rest with
                    | "" => None
                    | String b3 rest =>
                        let w := byte_val b3 in
                        Some (Z.lor (Z.shiftl (Z.land init 7) 18)
                                (utf8_acc_cont_byte y_z w), rest)
                    end
                  else Some (Z.lor (Z.shiftl init 12) y_z, rest)
              end
            else Some (utf8_acc_cont_byte init y, rest)
        end
  end.

End decoding.

(** [s.chars()], the iterator run to its end: [fuel] bounds the number of
    calls of [next]. *)
Fixpoint chars_go (fuel : nat) s : list Z :=
  match fuel with
  | 0 => []
  | S fuel =>
      match next_code_point s with
      | Some (ch, rest) => ch :: chars_go fuel rest
      | None => []
      end
  end.

Definition chars s : list Z := chars_go (String.length s) s.

(** ** Encoding *)

Section encoding.
Local Open Scope Z_scope.

Definition TAG_CONT : Z := 0x80.
Definition TAG_TWO_B : Z := 0xC0.
Definition TAG_THREE_B : Z := 0xE0.
Definition TAG_FOUR_B : Z := 0xF0.
Definition MAX_ONE_B : Z := 0x80.
Definition MAX_TWO_B : Z := 0x800.
Definition MAX_THREE_B : Z := 0x10000.

(** [char::len_utf8] *)
Definition len_utf8 code : nat :=
  if decide (code < MAX_ONE_B) then 1%nat
  else if decide (code < MAX_TWO_B) then 2%nat
  else if decide (code < MAX_THREE_B) then 3%nat
  else 4%nat.

(** [x as u8] *)
Definition as_u8 x : Z := x mod 256.

(** [encode_utf8_raw(code, dst)]: the bytes written. *)
Definition encode_utf8_raw code : string :=
  let cont shift :=
    byte_of (Z.lor (as_u8 (Z.land (Z.shiftr code shift) 0x3F)) TAG_CONT) in
  match len_utf8 code with
  | 1%nat => String (byte_of (as_u8 code)) ""
  | 2%nat =>
      String (byte_of (Z.lor (as_u8 (Z.land (Z.shiftr code 6) 0x1F)) TAG_TWO_B))
        (String (cont 0) "")
  | 3%nat =>
      String (byte_of (Z.lor (as_u8 (Z.land (Z.shiftr code 12) 0x0F)) TAG_THREE_B))
        (String (cont 6) (String (cont 0) ""))
  | _ =>
      String (byte_of (Z.lor (as_u8 (Z.land (Z.shiftr code 18) 0x07)) TAG_FOUR_B))
        (String (cont 12) (String (cont 6) (String (cont 0) "")))
  end.

End encoding.

(** ** Shifts and masks as arithmetic *)

Section bits.
Local Open Scope Z_scope.

(** Bits set below and bits set above do not meet. *)
Lemma lor_shiftl_low a b n :
  0 ≤ n → 0 ≤ b < 2 ^ n → Z.lor (Z.shiftl a n) b = a * 2 ^ n + b.
Proof.
  intros Hn Hb. rewrite <-Z.shiftl_mul_pow2 by done.
  assert (Z.land (Z.shiftl a n) b = 0) as Hland.
  { apply Z.bits_inj'. intros i Hi. rewrite Z.land_spec, Z.bits_0.
    destruct (decide (i < n)).
    - by rewrite Z.shiftl_spec_low.
    - rewrite <-(Z.mod_small b (2 ^ n)), Z.mod_pow2_bits_high by lia.
      apply andb_false_r. }
  by rewrite <-Z.lxor_lor, <-Z.add_nocarry_lxor.
Qed.

Lemma lor_low_tag a tag n :
  0 ≤ n → 0 ≤ a < 2 ^ n → Z.lor a (tag * 2 ^ n) = tag * 2 ^ n + a.
Proof.
  intros Hn Ha. rewrite Z.lor_comm, <-(lor_shiftl_low tag a n) by done.
  by rewrite Z.shiftl_mul_pow2.
Qed.

Lemma land_ones_of x n m : 0 ≤ n → m = Z.ones n → Z.land x m = x mod 2 ^ n.
Proof. intros Hn ->. by apply Z.land_ones. Qed.

Lemma land_63 x : Z.land x 0x3F = x mod 64.
Proof. by apply (land_ones_of x 6). Qed.

Lemma land_31 x : Z.land x 0x1F = x mod 32.
Proof. by apply (land_ones_of x 5). Qed.

Lemma land_15 x : Z.land x 0x0F = x mod 16.
Proof. by apply (land_ones_of x 4). Qed.

Lemma land_7 x : Z.land x 0x07 = x mod 8.
Proof. by apply (land_ones_of x 3). Qed.

Lemma lor_tag_cont a : 0 ≤ a < 64 → Z.lor a TAG_CONT = 0x80 + a.
Proof. intros Ha. by apply (lor_low_tag a 2 6). Qed.

Lemma lor_tag_two a : 0 ≤ a < 32 → Z.lor a TAG_TWO_B = 0xC0 + a.
Proof. intros Ha. apply (lor_low_tag a 3 6); lia. Qed.

Lemma lor_tag_three a : 0 ≤ a < 16 → Z.lor a TAG_THREE_B = 0xE0 + a.
Proof. intros Ha. apply (lor_low_tag a 7 5); lia. Qed.

Lemma lor_tag_four a : 0 ≤ a < 8 → Z.lor a TAG_FOUR_B = 0xF0 + a.
Proof. intros Ha. apply (lor_low_tag a 15 4); lia. Qed.

Lemma utf8_acc_cont_byte_arith ch byte :
  utf8_acc_cont_byte ch byte = ch * 64 + byte mod 64.
Proof.
  unfold utf8_acc_cont_byte, CONT_MASK. rewrite land_63.
  apply (lor_shiftl_low ch _ 6); [done|]. apply Z.mod_pos_bound. lia.
Qed.

Lemma utf8_first_byte_arith byte : utf8_first_byte byte 2 = byte mod 32.
Proof. apply land_31. Qed.

End bits.

Create Rewrite HintDb bits.
#[export] Hint Rewrite land_63 land_31 land_15 land_7 : bits.
#[export] Hint Rewrite Z.shiftr_div_pow2 Z.shiftl_mul_pow2 using lia : bits.


(** ** The encoding is the encoding of the standard *)

Section encode_spec.
Local Open Scope Z_scope.

(** [arith]: linear arithmetic with division by constants. *)
Ltac arith := Z.div_mod_to_equations; lia.

Lemma encode_utf8_raw_spec code :
  0 ≤ code < 0x110000 → encode_utf8_raw code = encode_utf8 code.
Proof.
  intros Hc. unfold encode_utf8_raw, encode_utf8, len_utf8, as_u8,
    MAX_ONE_B, MAX_TWO_B, MAX_THREE_B.
  autorewrite with bits.
  repeat case_decide; try lia; repeat f_equal;
    rewrite ?Z.div_1_r, ?(Z.mod_small (_ mod _) 256) by arith;
    rewrite ?lor_tag_cont, ?lor_tag_two, ?lor_tag_three, ?lor_tag_four by arith;
    rewrite ?Z.mod_small by arith; try done; f_equal; arith.
Qed.

(** ** Decoding a well-formed head *)

Lemma next_code_point_scalar c r :
  scalar_bytes c → next_code_point (c +:+ r) = Some (decode_utf8 c, r).
Proof.
  intros Hc.
  destruct Hc as [b0 H0|b0 b1 H0 H1|b0 b1 b2 H1 H2|b0 b1 b2 b3 H1 H2 H3];
    byte_facts; rewrite ?str_app_cons, str_app_nil_l; unfold next_code_point;
    cbn [decode_utf8];
    rewrite ?utf8_acc_cont_byte_arith, ?utf8_first_byte_arith.
  - by rewrite decide_True.
  - rewrite decide_False, decide_False by lia. do 2 f_equal. arith.
  - rewrite decide_False, decide_True, decide_False by lia.
    unfold CONT_MASK. rewrite !land_63, (lor_shiftl_low _ _ 12) by arith.
    do 2 f_equal. arith.
  - rewrite decide_False, !decide_True by lia.
    unfold CONT_MASK. rewrite !land_63, land_7, (lor_shiftl_low _ _ 18) by arith.
    do 2 f_equal. arith.
Qed.

End encode_spec.

(** ** The characters of text *)

Lemma next_code_point_length s ch rest :
  next_code_point s = Some (ch, rest) → String.length rest < String.length s.
Proof.
  unfold next_code_point.
  destruct s as [|b0 [|b1 [|b2 [|b3 s]]]]; repeat case_decide;
    intros [= <- <-]; simpl; lia.
Qed.

(** The length of the string is fuel enough. *)
Lemma chars_go_fuel fuel s :
  String.length s ≤ fuel → chars_go fuel s = chars s.
Proof.
  unfold chars. remember (String.length s) as n eqn:Hn. revert fuel s Hn.
  induction n as [n IH] using lt_wf_ind. intros fuel s -> Hfuel.
  destruct s as [|b s]; [by destruct fuel|].
  destruct fuel as [|fuel]; [simpl in Hfuel; lia|].
  cbn [String.length chars_go].
  destruct (next_code_point (String b s)) as [[ch rest]|] eqn:Hnext; [|done].
  apply next_code_point_length in Hnext. simpl in *. f_equal.
  rewrite (IH (String.length rest)) by (done || lia).
  symmetry. apply (IH (String.length rest)); (done || lia).
Qed.

Lemma chars_unfold s :
  chars s =
  match next_code_point s with
  | Some (ch, rest) => ch :: chars rest
  | None => []
  end.
Proof.
  destruct s as [|b s]; [done|]. unfold chars at 1. cbn [String.length chars_go].
  destruct (next_code_point _) as [[ch rest]|] eqn:Hnext; [|done].
  apply next_code_point_length in Hnext. simpl in Hnext.
  by rewrite chars_go_fuel by lia.
Qed.

(** The text written character by character. *)
Definition of_chars (l : list Z) : string :=
  foldr (λ ch s, encode_utf8_raw ch +:+ s) "" l.

Lemma is_scalar_range x : is_scalar x → (0 ≤ x < 0x110000)%Z.
Proof. unfold is_scalar. lia. Qed.

Lemma chars_encode x s :
  is_scalar x → chars (encode_utf8 x +:+ s) = x :: chars s.
Proof.
  intros Hx. destruct (encode_scalar_bytes x Hx) as [Hc Hd].
  by rewrite chars_unfold, next_code_point_scalar, Hd.
Qed.

(** The characters of well-formed text are scalar values, and the text is
    their encoding. *)
Lemma chars_utf8 s : utf8 s → Forall is_scalar (chars s) ∧ of_chars (chars s) = s.
Proof.
  induction 1 as [|x s Hx Hs [IH1 IH2]]; [by split; [constructor|]|].
  rewrite chars_encode by done. split; [by constructor|]. simpl.
  by rewrite IH2, encode_utf8_raw_spec by by apply is_scalar_range.
Qed.
