(* ===== verification/RustPath.v ===== *)
(** * RustPath: paths as lists of components (Unix)

    The program holds paths as strings and looks at them through the
    methods of [std::path::Path]: [parent] (lines 72, 103, 117),
    [starts_with] (104), [strip_prefix] (90, 95), [iter] (122), [file_name]
    (62) and [extension] (52).  The standard library computes them with an
    iterator over the bytes of the path, which is [StdPath]; this file says
    what they return.  Two paths are equal when their components are, so
    the specification of a path is the list of its components:
    [components] (or [Path_new]) splits a string at the separators and
    reads the segments the way the library documents it:
    - a leading [/] is the component [RootDir];
    - a leading [.] segment of a relative path is [CurDir];
    - empty segments (repeated or trailing separators) and other [.]
      segments are dropped;
    - [..] is [ParentDir], any other segment is [Normal].
    [parent], [path_starts_with], [path_strip_prefix], [path_iter],
    [file_name] and [extension] are the methods on such lists.  Windows
    prefixes do not exist on Unix and are left out.  A name is any sequence
    of bytes other than the separator; [lossy_component] is what
    [to_string_lossy] makes of a component.

    [Component], [parse_single_component] and [as_os_str] are the
    library's, and [path_join] is the path of an entry of a directory as
    [walkdir] builds it.  [render] is a string with given components.
    [wf_path] says what [components] returns, and the last part of the
    file shows that a well-formed path is read back from its rendering,
    what [extension] returns, and that having the same components
    ([path_equiv]) is an equivalence of strings that [render] decides. *)

From S2P Require Import Prelude RustStr Utf8.

Implicit Types (s seg : string) (segs : list string) (c : ascii).

(** ** Components *)

Inductive Component :=
| RootDir
| CurDir
| ParentDir
| Normal (name : string).

#[export] Instance Component_eq_dec : EqDecision Component.
Proof. solve_decision. Defined.

Abbreviation Path := (list Component).

(** The segments of [s] between the occurrences of [sep]; never empty. *)
Fixpoint split_on (sep : ascii) s : list string :=
  match s with
  | "" => [""]
  | String c s' =>
      if decide (c = sep) then "" :: split_on sep s'
      else match split_on sep s' with
           | [] => [String c ""]
           | seg :: segs => String c seg :: segs
           end
  end.

(** [parse_single_component]: what a segment of the body of a path is. *)
Definition parse_single_component seg : option Component :=
  if decide (seg = "") then None
  else if decide (seg = ".") then None
  else if decide (seg = "..") then Some ParentDir
  else Some (Normal seg).

(** The components of a path from its segments: a first empty segment
    followed by more is the root (the string began with [/]), a first [.]
    segment is the current directory, and the segments of the body are
    parsed one by one. *)
Definition components_of_segments segs : Path :=
  match segs with
  | [] => []
  | first :: rest =>
      if decide (first = "") then
        match rest with
        | [] => []
        | _ :: _ => RootDir :: omap parse_single_component rest
        end
      else if decide (first = ".") then CurDir :: omap parse_single_component rest
      else omap parse_single_component segs
  end.

(** [Path::new(s).components()] *)
Definition components s : Path := components_of_segments (split_on "/" s).

Definition Path_new s : Path := components s.

(** [Component::as_os_str] *)
Definition as_os_str (comp : Component) : string :=
  match comp with
  | RootDir => "/"
  | CurDir => "."
  | ParentDir => ".."
  | Normal name => name
  end.

(** [path.iter()]: the components as strings. *)
Definition path_iter (p : Path) : list string := as_os_str <$> p.

(** [path.has_root()] *)
Definition has_root (p : Path) : bool :=
  match p with RootDir :: _ => true | _ => false end.

(** [path.parent()]: the path without its last component; [None] for the
    empty path and for the root. *)
Definition parent (p : Path) : option Path :=
  match last p with
  | Some (Normal _) | Some CurDir | Some ParentDir => Some (removelast p)
  | Some RootDir | None => None
  end.

(** [path.starts_with(base)]: [base]'s components are a prefix of [path]'s. *)
Definition path_starts_with (p base : Path) : bool :=
  bool_decide (base `prefix_of` p).

(** [path.strip_prefix(base)]: [Err(StripPrefixError)] is [None]. *)
Definition path_strip_prefix (p base : Path) : option Path :=
  list_strip_prefix base p.

(** [path.file_name()]: the last component if it is a normal one. *)
Definition file_name (p : Path) : option string :=
  match last p with
  | Some (Normal name) => Some name
  | _ => None
  end.

(** The part of a file name after its last dot, if the name has a dot that
    is not its first byte ([rsplit_file_at_dot]). *)
Fixpoint after_last_dot s : option string :=
  match s with
  | "" => None
  | String c s' =>
      match after_last_dot s' with
      | Some ext => Some ext
      | None => if decide (c = "."%char) then Some s' else None
      end
  end.

(** [path.extension()] *)
Definition extension (p : Path) : option string :=
  name ← file_name p;
  match name with
  | "" => None
  | String _ rest => after_last_dot rest
  end.

(** A rendering of a path: a string whose components are the path (for
    paths that [components] produces). *)
Definition render (p : Path) : string :=
  match p with
  | RootDir :: rest => "/" +:+ str_join "/" (path_iter rest)
  | _ => str_join "/" (path_iter p)
  end.

(** ** Prefixes of paths *)

Lemma path_strip_prefix_Some (p base r : Path) :
  path_strip_prefix p base = Some r ↔ p = base ++ r.
Proof. apply list_strip_prefix_Some. Qed.

Lemma path_starts_with_true (p base : Path) :
  path_starts_with p base = true ↔ base `prefix_of` p.
Proof. apply bool_decide_eq_true. Qed.

Lemma path_starts_with_false (p base : Path) :
  path_starts_with p base = false ↔ ¬ base `prefix_of` p.
Proof. apply bool_decide_eq_false. Qed.

Lemma path_starts_with_strip (p base : Path) :
  path_starts_with p base = true ↔ is_Some (path_strip_prefix p base).
Proof. by rewrite path_starts_with_true, <-list_strip_prefix_is_Some. Qed.

Lemma path_strip_prefix_None (p base : Path) :
  path_strip_prefix p base = None ↔ ¬ base `prefix_of` p.
Proof. apply list_strip_prefix_None. Qed.

(** A non-empty prefix has the head of the whole path. *)
Lemma prefix_head (p base : Path) comp :
  base `prefix_of` p → head base = Some comp → head p = Some comp.
Proof. intros [r ->]. by destruct base. Qed.

Lemma has_root_head (p : Path) : has_root p = true ↔ head p = Some RootDir.
Proof. destruct p as [|[] p]; simpl; naive_solver. Qed.

(** ** [parent] *)

Lemma parent_Some (p q : Path) :
  parent p = Some q ↔ ∃ comp, p = q ++ [comp] ∧ comp ≠ RootDir.
Proof.
  unfold parent. destruct p as [|c p] using rev_ind.
  - split; [done|]. intros (comp & Heq & _). by destruct q.
  - rewrite last_snoc, removelast_last. split.
    + destruct c; intros [= <-]; by eexists.
    + intros (comp & [-> ->]%app_inj_tail & Hc). by destruct comp.
Qed.

Lemma parent_has_root (p q : Path) :
  parent p = Some q → has_root p = true → has_root q = true.
Proof.
  intros (comp & -> & Hc)%parent_Some. destruct q as [|c q]; [|done].
  by destruct comp.
Qed.

(** ** [components] of strings with a known beginning *)

(** The components of the body of a path: of what follows the root or the
    leading [.]. *)
Definition path_body s : Path := omap parse_single_component (split_on "/" s).

Lemma components_dot_slash rest :
  components ("./" +:+ rest) = CurDir :: path_body rest.
Proof. done. Qed.

Lemma components_src_slash rest :
  components ("src/" +:+ rest) = Normal "src" :: path_body rest.
Proof. done. Qed.

Lemma components_root rest :
  components ("/" +:+ rest) = RootDir :: path_body rest.
Proof.
  unfold components, path_body.
  change (split_on "/" ("/" +:+ rest)) with ("" :: split_on "/" rest).
  by destruct rest; simpl; repeat case_match.
Qed.

(** ** Joining a directory and a file name *)

(** A name in a directory listing. *)
Definition valid_name (name : string) : Prop :=
  name ≠ "" ∧ name ≠ "." ∧ name ≠ ".." ∧ str_has "/" name = false.

Fixpoint last_char s : option ascii :=
  match s with
  | "" => None
  | String c s' => match last_char s' with None => Some c | Some d => Some d end
  end.

(** [dir.join(name)] for a relative [name]: a separator is added unless
    [dir] is empty or ends in one. *)
Definition path_join (dir name : string) : string :=
  match last_char dir with
  | None => name
  | Some c => if decide (c = "/"%char) then dir +:+ name else dir +:+ "/" +:+ name
  end.

Lemma split_on_nonempty c s : split_on c s ≠ [].
Proof. destruct s as [|a s]; simpl; [done|]. by repeat case_match. Qed.

Lemma split_on_no_sep c s : str_has c s = false → split_on c s = [s].
Proof.
  induction s as [|a s IH]; simpl; [done|].
  intros [Ha Hs]%orb_false_iff. apply bool_decide_eq_false_1 in Ha.
  by rewrite decide_False, IH.
Qed.

Lemma split_on_app_sep c s t :
  split_on c (s +:+ String c t) = split_on c s ++ split_on c t.
Proof.
  induction s as [|a s IH]; rewrite ?str_app_nil_l, ?str_app_cons; simpl.
  - by rewrite decide_True.
  - rewrite IH. case_decide; [done|].
    pose proof (split_on_nonempty c s). by destruct (split_on c s).
Qed.

Lemma last_char_None s : last_char s = None ↔ s = "".
Proof. destruct s as [|a s]; simpl; [done|]. by case_match. Qed.

Lemma last_char_Some s c : last_char s = Some c → ∃ s', s = s' +:+ String c "".
Proof.
  revert c; induction s as [|a s IH]; intros c; simpl; [done|].
  destruct (last_char s) as [d|] eqn:Hl.
  - intros [= ->]. destruct (IH c eq_refl) as [s' ->]. by exists (String a s').
  - apply last_char_None in Hl as ->. intros [= ->]. by exists "".
Qed.

Lemma parse_single_component_valid name :
  valid_name name → parse_single_component name = Some (Normal name).
Proof.
  intros (? & ? & ? & _). unfold parse_single_component.
  by rewrite !decide_False.
Qed.

Lemma path_body_segments_snoc segs name :
  valid_name name →
  omap parse_single_component (segs ++ [name]) =
  omap parse_single_component segs ++ [Normal name].
Proof. intros Hn. by rewrite omap_app; simpl; rewrite parse_single_component_valid. Qed.

(** Appending a name to the segments of a non-empty string appends a normal
    component. *)
Lemma components_of_segments_snoc segs name :
  valid_name name → segs ≠ [] → segs ≠ [""] →
  components_of_segments (segs ++ [name]) =
  components_of_segments segs ++ [Normal name].
Proof.
  intros Hn Hne Hne'. destruct segs as [|first rest]; [done|].
  unfold components_of_segments. rewrite <-app_comm_cons.
  repeat case_decide; subst.
  - destruct rest as [|r rest]; [done|]. by rewrite path_body_segments_snoc.
  - by rewrite path_body_segments_snoc.
  - by rewrite app_comm_cons, path_body_segments_snoc.
Qed.

(** The same when the string ends in a separator: its last, empty, segment
    is replaced by the name. *)
Lemma components_of_segments_snoc_sep segs name :
  valid_name name → segs ≠ [] →
  components_of_segments (segs ++ [name]) =
  components_of_segments (segs ++ [""]) ++ [Normal name].
Proof.
  intros Hn Hne. destruct segs as [|first rest]; [done|].
  assert (∀ l, omap parse_single_component (l ++ [""]) =
               omap parse_single_component l) as Hnil.
  { intros l. by rewrite omap_app, app_nil_r. }
  unfold components_of_segments. rewrite <-!app_comm_cons.
  repeat case_decide; subst.
  - rewrite Hnil, path_body_segments_snoc by done. by destruct rest.
  - by rewrite Hnil, path_body_segments_snoc.
  - by rewrite !app_comm_cons, Hnil, path_body_segments_snoc.
Qed.

Lemma split_on_empty_segment c s : split_on c s = [""] → s = "".
Proof.
  destruct s as [|a s]; simpl; [done|].
  pose proof (split_on_nonempty c s) as Hne.
  case_decide; [by intros [= ?]|]. by destruct (split_on c s).
Qed.

(** Joining a valid name to a path appends one normal component. *)
Lemma components_path_join dir name :
  valid_name name →
  components (path_join dir name) = components dir ++ [Normal name].
Proof.
  intros Hn. pose proof Hn as (_ & _ & _ & Hsep). unfold path_join, components.
  destruct (last_char dir) as [c|] eqn:Hl.
  - case_decide as Hc; subst.
    + apply last_char_Some in Hl as [s' ->].
      rewrite str_app_assoc. change ("/" +:+ name) with (String "/" name).
      rewrite !split_on_app_sep, (split_on_no_sep _ name) by done.
      apply components_of_segments_snoc_sep; [done|apply split_on_nonempty].
    + change (dir +:+ "/" +:+ name) with (dir +:+ String "/" name).
      rewrite split_on_app_sep, (split_on_no_sep _ name) by done.
      apply components_of_segments_snoc; [done|apply split_on_nonempty|].
      intros ->%split_on_empty_segment. done.
  - apply last_char_None in Hl as ->. rewrite split_on_no_sep by done.
    simpl. destruct Hn as (? & ? & ? & _).
    rewrite !decide_False by done. simpl. by rewrite parse_single_component_valid.
Qed.

Lemma file_name_path_join dir name :
  valid_name name → file_name (Path_new (path_join dir name)) = Some name.
Proof.
  intros Hn. unfold file_name, Path_new.
  by rewrite components_path_join, last_snoc.
Qed.

(** ** [extension] *)

Lemma after_last_dot_None s : after_last_dot s = None ↔ str_has "." s = false.
Proof.
  induction s as [|c s IH]; simpl; [done|].
  destruct (after_last_dot s) as [ext|].
  - split; [done|]. intros [_ Hs]%orb_false_iff. by apply IH in Hs.
  - rewrite (proj1 IH eq_refl), orb_false_r. case_decide as Hc.
    + by rewrite bool_decide_eq_true_2.
    + by rewrite bool_decide_eq_false_2.
Qed.

Lemma dot_stem_nil ext : "" +:+ "." +:+ ext = String "." ext.
Proof. done. Qed.

(** [Heq : String c s = pre +:+ "." +:+ ext], for [pre] empty and not. *)
Ltac head_of_stem Heq :=
  first [rewrite dot_stem_nil in Heq|rewrite str_app_cons in Heq]; simplify_eq.

(** The text after the last dot: what follows a dot and holds none. *)
Lemma after_last_dot_Some s ext :
  after_last_dot s = Some ext ↔
  ∃ pre, s = pre +:+ "." +:+ ext ∧ str_has "." ext = false.
Proof.
  revert ext. induction s as [|c s IH]; intros ext; simpl.
  { split; [done|]. intros ([|??] & Heq & _); by rewrite ?str_app_cons in Heq. }
  destruct (after_last_dot s) as [e|] eqn:He.
  - split.
    + intros [= ->]. destruct (proj1 (IH ext) eq_refl) as (pre & -> & Hext).
      by exists (String c pre).
    + intros ([|a pre] & Heq & Hext); head_of_stem Heq.
      * destruct (proj1 (IH e) eq_refl) as (pre & -> & _).
        by rewrite str_has_app, orb_true_r in Hext.
      * apply IH. by exists pre.
  - apply after_last_dot_None in He. case_decide as Hc; split.
    + intros [= <-]. exists "". by subst c.
    + intros ([|a pre] & Heq & Hext); head_of_stem Heq; [done|].
      by rewrite str_has_app, orb_true_r in He.
    + done.
    + intros ([|a pre] & Heq & Hext); head_of_stem Heq.
      by rewrite str_has_app, orb_true_r in He.
Qed.

(** A name has the extension [ext] when it is a non-empty stem, a dot and
    [ext], and [ext] holds no dot. *)
Lemma extension_Some (p : Path) name ext :
  file_name p = Some name →
  extension p = Some ext ↔
  ∃ stem, stem ≠ "" ∧ name = stem +:+ "." +:+ ext ∧ str_has "." ext = false.
Proof.
  intros Hn. unfold extension. rewrite Hn. simpl. destruct name as [|c name].
  { split; [done|]. intros ([|??] & ? & Heq & _); by rewrite ?str_app_cons in Heq. }
  rewrite after_last_dot_Some. split.
  - intros (pre & -> & Hext). by exists (String c pre).
  - intros ([|a stem] & Hne & Heq & Hext); [done|].
    rewrite str_app_cons in Heq. simplify_eq. by exists stem.
Qed.

(** ** What [components] produces

    The root and the current directory appear at the head only, and a normal
    component is a name: not empty, not [.] or [..], without separator. *)

Definition body_component (comp : Component) : Prop :=
  match comp with
  | RootDir | CurDir => False
  | ParentDir => True
  | Normal name => valid_name name
  end.

Definition wf_path (p : Path) : Prop :=
  match p with
  | RootDir :: rest | CurDir :: rest => Forall body_component rest
  | _ => Forall body_component p
  end.

Lemma split_on_no_sep_segments c s :
  Forall (λ seg, str_has c seg = false) (split_on c s).
Proof.
  induction s as [|a s IH]; simpl; [by repeat constructor|].
  case_decide as Ha; [by constructor|].
  pose proof (split_on_nonempty c s) as Hne.
  destruct (split_on c s) as [|seg segs]; [done|].
  apply Forall_cons in IH as [Hseg Hsegs]. constructor; [|done].
  simpl. by rewrite bool_decide_eq_false_2.
Qed.

(** Splitting what was joined gives the segments back. *)
Lemma split_on_join c segs :
  segs ≠ [] → Forall (λ seg, str_has c seg = false) segs →
  split_on c (str_join (String c "") segs) = segs.
Proof.
  intros Hne Hsegs. induction Hsegs as [|s segs Hs Hsegs IH]; [done|].
  destruct segs as [|t segs].
  - rewrite str_join_singleton. by apply split_on_no_sep.
  - rewrite str_join_cons.
    change (String c "" +:+ ?x) with (String c x).
    by rewrite split_on_app_sep, split_on_no_sep, IH.
Qed.

Lemma parse_single_component_as_os_str comp :
  body_component comp → parse_single_component (as_os_str comp) = Some comp.
Proof.
  destruct comp; simpl; [done..|]. apply parse_single_component_valid.
Qed.

Lemma omap_parse_path_iter (p : Path) :
  Forall body_component p → omap parse_single_component (path_iter p) = p.
Proof.
  induction 1 as [|comp p Hc _ IH]; [done|]. unfold path_iter in *. csimpl.
  by rewrite parse_single_component_as_os_str, IH.
Qed.

Lemma path_iter_no_sep (p : Path) :
  Forall body_component p →
  Forall (λ seg, str_has "/" seg = false) (path_iter p).
Proof.
  unfold path_iter. rewrite Forall_fmap. intros Hp.
  eapply Forall_impl; [done|].
  intros [| | |name]; simpl; try done. by intros (_ & _ & _ & ?).
Qed.

(** The segments of a body are parsed into body components. *)
Lemma omap_parse_body segs :
  Forall (λ seg, str_has "/" seg = false) segs →
  Forall body_component (omap parse_single_component segs).
Proof.
  induction 1 as [|seg segs Hseg _ IH]; [constructor|]. csimpl.
  unfold parse_single_component at 1. repeat case_decide; simpl; try done.
  all: by constructor.
Qed.

Lemma body_wf (p : Path) : Forall body_component p → wf_path p.
Proof.
  destruct p as [|[] p]; simpl; try done; by intros [[] _]%Forall_cons.
Qed.

(** A normal component of a well-formed path is a name. *)
Lemma wf_path_normal (p : Path) name :
  wf_path p → Normal name ∈ p → valid_name name.
Proof.
  intros Hwf Hin.
  assert (Forall body_component p → valid_name name) as Hbody.
  { rewrite Forall_forall. intros Hall. apply (Hall _ Hin). }
  destruct p as [|[] rest]; simpl in Hwf; try by apply Hbody.
  all: apply elem_of_cons in Hin as [?|Hin]; [done|].
  all: rewrite Forall_forall in Hwf; apply (Hwf _ Hin).
Qed.

Lemma file_name_valid (p : Path) name :
  wf_path p → file_name p = Some name → valid_name name.
Proof.
  intros Hwf Hn. apply (wf_path_normal p); [done|]. unfold file_name in Hn.
  destruct (last p) as [[]|] eqn:Hl; simplify_eq.
  apply last_Some in Hl as [l ->]. apply elem_of_app. right. by left.
Qed.

(** What [components] returns is well formed. *)
Lemma components_wf s : wf_path (components s).
Proof.
  unfold components. pose proof (split_on_no_sep_segments "/" s) as Hsegs.
  destruct (split_on "/" s) as [|first rest]; [constructor|].
  apply Forall_cons in Hsegs as [Hfirst Hrest]. unfold components_of_segments.
  repeat case_decide; subst.
  - destruct rest; [constructor|]. by apply omap_parse_body.
  - by apply omap_parse_body.
  - apply body_wf, omap_parse_body. by constructor.
Qed.

Lemma split_on_join_body (p : Path) :
  p ≠ [] → Forall body_component p →
  split_on "/" (str_join "/" (path_iter p)) = path_iter p.
Proof.
  intros Hne Hp. apply split_on_join; [by destruct p|by apply path_iter_no_sep].
Qed.

Lemma as_os_str_body comp :
  body_component comp → as_os_str comp ≠ "" ∧ as_os_str comp ≠ ".".
Proof. destruct comp; simpl; try done. by intros (? & ? & _). Qed.

Lemma components_of_segments_body (p : Path) :
  Forall body_component p → components_of_segments (path_iter p) = p.
Proof.
  intros Hp. rewrite <-(omap_parse_path_iter p) at 2 by done.
  destruct Hp as [|comp p [? ?]%as_os_str_body _]; [done|].
  unfold path_iter, components_of_segments. csimpl. by rewrite !decide_False.
Qed.

(** The components of the rendering of a well-formed path are the path. *)
Lemma components_render (p : Path) : wf_path p → components (render p) = p.
Proof.
  unfold components. destruct p as [|[| | |name] rest]; intros Hwf; [done|..].
  - change (render (RootDir :: rest))
      with (String "/" (str_join "/" (path_iter rest))).
    change (split_on "/" (String "/" ?x)) with ("" :: split_on "/" x).
    destruct rest as [|c rest]; [done|]. rewrite split_on_join_body by done.
    by rewrite <-(omap_parse_path_iter (c :: rest)) at 2.
  - change (render (CurDir :: rest)) with (str_join "/" ("." :: path_iter rest)).
    rewrite split_on_join; [|done|by constructor; [|apply path_iter_no_sep]].
    by rewrite <-(omap_parse_path_iter rest) at 2.
  - change (render (ParentDir :: rest))
      with (str_join "/" (path_iter (ParentDir :: rest))).
    by rewrite split_on_join_body, components_of_segments_body.
  - change (render (Normal name :: rest))
      with (str_join "/" (path_iter (Normal name :: rest))).
    by rewrite split_on_join_body, components_of_segments_body.
Qed.

(** Well-formed paths are closed under [parent]. *)
Lemma parent_wf (p q : Path) : parent p = Some q → wf_path p → wf_path q.
Proof.
  intros (comp & -> & _)%parent_Some. destruct q as [|[] q]; simpl;
    rewrite ?Forall_cons, ?Forall_app; [by constructor|tauto..].
Qed.

(** Well-formed paths are closed under [strip_prefix]. *)
Lemma path_strip_prefix_wf (p base r : Path) :
  path_strip_prefix p base = Some r → wf_path p → wf_path r.
Proof.
  intros ->%path_strip_prefix_Some. destruct base as [|[] base]; simpl;
    rewrite ?Forall_cons, ?Forall_app; try done; intros; apply body_wf; tauto.
Qed.

(** ** Paths as text *)

(** What [to_string_lossy] does to a path: the names become text, the
    separators and the special components stay. *)
Definition lossy_component (comp : Component) : Component :=
  match comp with
  | Normal name => Normal (to_string_lossy name)
  | _ => comp
  end.

Lemma split_on_lossy c s :
  is_ascii c = true →
  split_on c (to_string_lossy s) = to_string_lossy <$> split_on c s.
Proof.
  intros Hc. unfold to_string_lossy.
  assert (∀ w, str_has c w = false →
    split_on c (from_utf8_lossy w) = from_utf8_lossy <$> split_on c w) as Hone.
  { intros w Hw. by rewrite !split_on_no_sep by by rewrite ?from_utf8_lossy_has. }
  remember (String.length s) as n eqn:Hn. revert s Hn.
  induction n as [n IH] using lt_wf_ind. intros s ->.
  destruct (str_has c s) eqn:Hs; [|by apply Hone].
  apply str_has_split in Hs as (a & t & -> & Ha).
  rewrite from_utf8_lossy_app_ascii, !split_on_app_sep, fmap_app, Hone by done.
  by rewrite (IH (String.length t) ltac:(rewrite str_app_length; simpl; lia) t).
Qed.

Lemma parse_single_component_lossy seg :
  parse_single_component (to_string_lossy seg) =
  lossy_component <$> parse_single_component seg.
Proof.
  unfold parse_single_component, to_string_lossy.
  repeat case_decide; try done;
    by rewrite from_utf8_lossy_eq_ascii in * by done.
Qed.

Lemma omap_parse_lossy segs :
  omap parse_single_component (to_string_lossy <$> segs) =
  lossy_component <$> omap parse_single_component segs.
Proof.
  induction segs as [|seg segs IH]; [done|]. csimpl.
  rewrite parse_single_component_lossy, IH.
  by destruct (parse_single_component seg).
Qed.

(** The components of the text of a path are the components of the path,
    each as text. *)
Lemma components_lossy s :
  components (to_string_lossy s) = lossy_component <$> components s.
Proof.
  unfold components. rewrite split_on_lossy by done.
  destruct (split_on "/" s) as [|first rest]; [done|]. unfold components_of_segments.
  rewrite fmap_cons, <-(fmap_cons to_string_lossy).
  unfold to_string_lossy at 1 2.
  repeat case_decide; try (by rewrite from_utf8_lossy_eq_ascii in * by done).
  - destruct rest; [done|]. by rewrite fmap_cons, <-fmap_cons, omap_parse_lossy.
  - by rewrite fmap_cons, omap_parse_lossy.
  - by rewrite omap_parse_lossy.
Qed.

(** A path all of whose names are text. *)
Definition utf8_path (p : Path) : Prop := Forall (λ comp, utf8 (as_os_str comp)) p.

Lemma utf8_split_on c s :
  is_ascii c = true → utf8 s ↔ Forall utf8 (split_on c s).
Proof.
  intros Hc. remember (String.length s) as n eqn:Hn. revert s Hn.
  induction n as [n IH] using lt_wf_ind. intros s ->.
  destruct (str_has c s) eqn:Hs.
  - apply str_has_split in Hs as (a & t & -> & Ha).
    rewrite utf8_app_ascii, split_on_app_sep, Forall_app, split_on_no_sep by done.
    rewrite Forall_singleton.
    by rewrite (IH (String.length t) ltac:(rewrite str_app_length; simpl; lia) t).
  - by rewrite split_on_no_sep, Forall_singleton.
Qed.

Lemma utf8_omap_parse segs :
  Forall utf8 segs → utf8_path (omap parse_single_component segs).
Proof.
  induction 1 as [|seg segs Hseg _ IH]; [constructor|]. csimpl.
  unfold parse_single_component. repeat case_decide; try done;
    constructor; try done. by apply utf8_ascii.
Qed.

(** The components of text are text. *)
Lemma utf8_components s : utf8 s → utf8_path (components s).
Proof.
  intros Hs%(utf8_split_on "/"); [|done]. unfold components.
  destruct Hs as [|first rest Hfirst Hrest]; [constructor|].
  unfold components_of_segments. repeat case_decide.
  - destruct Hrest; constructor; [by apply utf8_ascii|].
    by apply (utf8_omap_parse (_ :: _)); constructor.
  - constructor; [by apply utf8_ascii|by apply utf8_omap_parse].
  - by apply (utf8_omap_parse (_ :: _)); constructor.
Qed.

Lemma lossy_component_utf8 comp :
  utf8 (as_os_str comp) → lossy_component comp = comp.
Proof.
  destruct comp; simpl; [done..|]. unfold to_string_lossy.
  by intros ->%from_utf8_lossy_utf8.
Qed.

Lemma lossy_path_utf8 (p : Path) : utf8_path p → lossy_component <$> p = p.
Proof.
  induction 1 as [|comp p Hc _ IH]; [done|].
  by rewrite fmap_cons, IH, lossy_component_utf8.
Qed.

Lemma parent_utf8 (p q : Path) : parent p = Some q → utf8_path p → utf8_path q.
Proof. intros (comp & -> & _)%parent_Some. by intros [? _]%Forall_app. Qed.

(** [to_str] succeeds on every component of such a path. *)
Lemma omap_to_str_utf8 (p : Path) : utf8_path p → omap to_str (path_iter p) = path_iter p.
Proof.
  induction 1 as [|comp p Hc _ IH]; [done|]. unfold path_iter in *. csimpl.
  by rewrite to_str_utf8, IH.
Qed.

(** The text of a name of a directory listing is such a name. *)
Lemma valid_name_lossy name : valid_name name → valid_name (to_string_lossy name).
Proof.
  unfold valid_name, to_string_lossy. intros (? & ? & ? & ?).
  by rewrite !from_utf8_lossy_eq_ascii, from_utf8_lossy_has.
Qed.

(** ** Strings that denote the same path

    [Path] compares paths by their components: [a//b/./c] and [a/b/c] are
    equal as paths and different as strings. *)

Definition path_equiv : relation string := λ s t, Path_new s = Path_new t.

#[export] Instance path_equiv_equivalence : Equivalence path_equiv.
Proof.
  unfold path_equiv. split; [by intros ?|by intros ??|].
  intros s t u Hst Htu. by rewrite Hst.
Qed.

(** The rendering of the components of a string denotes the same path. *)
Lemma render_path_equiv s : path_equiv (render (Path_new s)) s.
Proof. apply components_render, components_wf. Qed.

(** ** Properties of paths *)

(** Every path the program handles is well formed: what [Path::new]
    returns has the root and the current directory at its head only and
    names as its normal components, and [parent] and [strip_prefix] return
    such paths again. *)
Theorem path_operations_well_formed s :
  wf_path (Path_new s) ∧
  (∀ q, parent (Path_new s) = Some q → wf_path q) ∧
  (∀ base r, path_strip_prefix (Path_new s) base = Some r → wf_path r).
Proof.
  pose proof (components_wf s) as Hwf. split_and!; [done|..].
  - intros q Hq. by eapply parent_wf.
  - intros base r Hr. by eapply path_strip_prefix_wf.
Qed.

(** The directory of a manifest, handed on as a string, is read
    back as the same path: the components of the rendering of the parent of
    a path are that parent. *)
Theorem render_parent_roundtrip s source :
  parent (Path_new s) = Some source → Path_new (render source) = source.
Proof.
  intros Hp. apply components_render, (parent_wf _ _ Hp), components_wf.
Qed.

Lemma render_parent_roundtrip_witness :
  Path_new (render [RootDir; Normal "cargo"; Normal "bevy_ecs"]) =
  [RootDir; Normal "cargo"; Normal "bevy_ecs"].
Proof.
  apply (render_parent_roundtrip "/cargo//bevy_ecs/./Cargo.toml"). reflexivity.
Defined.
