(* ===== verification/StdPath.v ===== *)
(** * StdPath: the iterator behind [std::path::Path] (Unix)

    [RustPath] states what the path methods return in terms of the list of
    components of a path.  The standard library computes them on the bytes
    of the path, with the iterator [Components]: a slice of the path that
    shrinks from both ends and two states, [front] and [back], that say
    what each end has yet to yield.  This file is that iterator
    ([next], [next_back], [as_path], [trim_left], [trim_right]) and the
    methods of [Path] written with it, as the library writes them:
    [Path_components], [Path_parent], [Path_file_name], [Path_extension]
    (with [rsplit_file_at_dot]), [Path_starts_with] and [Path_strip_prefix]
    (with [iter_after]) and [Path_iter].  These are what the functions of
    [Discovery] and [ModulePath] call.

    A slice [&path[i..]] is [str_drop i path], [&path[..i]] is
    [str_take i path].  The loops of the library run on fuel here, the
    length of the slice and the transitions of the state that are left.
    Windows prefixes do not exist on Unix: [prefix_len] and
    [prefix_remaining] are zero and are left out.

    The theorems are the refinement of [RustPath] by this implementation:
    what the iterator yields from the front is [components], calls of
    [next] and [next_back] in any order yield what taking the first and
    the last element of that list yields ([calls_spec]), what a method
    returns has the components [RustPath] says ([Path_methods_refine]),
    what [Path_parent] returns is a slice of its argument that ends where
    a component ends ([Path_parent_slice]), and is text if the argument is
    ([Path_parent_utf8]).  The proofs describe the iterator by the part
    of the path it has left: [lead] is the root or the leading [.], [cut]
    relates a body to what is left of it from the back, [forward] says
    which components an iterator has yet to yield from the front, and
    [remaining] adds the iterators that have come to their end. *)

From S2P Require Import Prelude RustStr Utf8 RustPath.

Implicit Types (s t seg body pre : string) (c b : ascii) (i n size fuel : nat)
  (comp : Component).

(** ** Slices and positions *)

(** [&s[n..]] *)
Fixpoint str_drop n s : string :=
  match n, s with
  | S n, String _ s' => str_drop n s'
  | _, _ => s
  end.

(** [&s[..n]] *)
Fixpoint str_take n s : string :=
  match n, s with
  | S n, String c s' => String c (str_take n s')
  | _, _ => ""
  end.

(** [s.iter().position(p)]: the index of the first byte that satisfies
    [p]. *)
Fixpoint iter_position (p : ascii → bool) s : option nat :=
  match s with
  | "" => None
  | String c s' => if p c then Some 0 else S <$> iter_position p s'
  end.

(** [s.iter().rposition(p)]: the index of the last byte that satisfies
    [p]. *)
Fixpoint iter_rposition (p : ascii → bool) s : option nat :=
  match s with
  | "" => None
  | String c s' =>
      match iter_rposition p s' with
      | Some i => Some (S i)
      | None => if p c then Some 0 else None
      end
  end.

(** [is_sep_byte(b)] *)
Definition is_sep_byte b : bool := bool_decide (b = "/"%char).

(** ** The iterator *)

Inductive State := Prefix | StartDir | Body | Done.

#[export] Instance State_eq_dec : EqDecision State.
Proof. solve_decision. Defined.

(** The order of the states ([derive(PartialOrd)]). *)
Definition State_rank (st : State) : nat :=
  match st with Prefix => 0 | StartDir => 1 | Body => 2 | Done => 3 end.

Record Components := mkComponents {
  path : string;
  has_physical_root : bool;
  front : State;
  back : State
}.

#[export] Instance Components_eq_dec : EqDecision Components.
Proof. solve_decision. Defined.

Implicit Types (self iter : Components).

Definition set_path self s : Components :=
  mkComponents s (has_physical_root self) (front self) (back self).

Definition set_front self st : Components :=
  mkComponents (path self) (has_physical_root self) st (back self).

Definition set_back self st : Components :=
  mkComponents (path self) (has_physical_root self) (front self) st.

(** [has_physical_root(s, prefix)] without a prefix. *)
Definition starts_with_sep s : bool :=
  match s with
  | String b _ => is_sep_byte b
  | "" => false
  end.

(** [Path::components] *)
Definition Path_components s : Components :=
  mkComponents s (starts_with_sep s) Prefix Body.

(** [Components::has_root] *)
Definition components_has_root self : bool := has_physical_root self.

(** [Components::include_cur_dir]: the path is [.] or begins with [./]. *)
Definition include_cur_dir self : bool :=
  if components_has_root self then false
  else match path self with
       | String "." "" => true
       | String "." (String b _) => is_sep_byte b
       | _ => false
       end.

(** [Components::len_before_body] *)
Definition len_before_body self : nat :=
  let root :=
    if bool_decide (State_rank (front self) ≤ State_rank StartDir) &&
       has_physical_root self then 1 else 0 in
  let cur_dir :=
    if bool_decide (State_rank (front self) ≤ State_rank StartDir) &&
       include_cur_dir self then 1 else 0 in
  root + cur_dir.

(** [Components::finished] *)
Definition finished self : bool :=
  bool_decide (front self = Done) || bool_decide (back self = Done) ||
  bool_decide (State_rank (back self) < State_rank (front self)).

(** [Components::parse_next_component]: the size of the first segment with
    its separator, and the component it is. *)
Definition parse_next_component self : nat * option Component :=
  let '(extra, comp) :=
    match iter_position is_sep_byte (path self) with
    | None => (0, path self)
    | Some i => (1, str_take i (path self))
    end in
  (String.length comp + extra, parse_single_component comp).

(** [Components::parse_next_component_back] *)
Definition parse_next_component_back self : nat * option Component :=
  let start := len_before_body self in
  let '(extra, comp) :=
    match iter_rposition is_sep_byte (str_drop start (path self)) with
    | None => (0, str_drop start (path self))
    | Some i => (1, str_drop (start + i + 1) (path self))
    end in
  (String.length comp + extra, parse_single_component comp).

(** [Components::trim_left]: segments that are no component are cut from
    the front. *)
Fixpoint trim_left_loop fuel self : Components :=
  match fuel with
  | 0 => self
  | S fuel =>
      if bool_decide (path self = "") then self
      else
        let '(size, comp) := parse_next_component self in
        if comp is Some _ then self
        else trim_left_loop fuel (set_path self (str_drop size (path self)))
  end.

Definition trim_left self : Components :=
  trim_left_loop (String.length (path self)) self.

(** [Components::trim_right] *)
Fixpoint trim_right_loop fuel self : Components :=
  match fuel with
  | 0 => self
  | S fuel =>
      if bool_decide (len_before_body self < String.length (path self)) then
        let '(size, comp) := parse_next_component_back self in
        if comp is Some _ then self
        else trim_right_loop fuel
               (set_path self
                  (str_take (String.length (path self) - size) (path self)))
      else self
  end.

Definition trim_right self : Components :=
  trim_right_loop (String.length (path self)) self.

(** [Components::as_path]: the slice that is left. *)
Definition as_path self : string :=
  let comps := self in
  let comps := if bool_decide (front comps = Body) then trim_left comps else comps in
  let comps := if bool_decide (back comps = Body) then trim_right comps else comps in
  path comps.

(** [Iterator::next] for [Components]: the component and the iterator
    after the call. *)
Fixpoint next_loop fuel self : option Component * Components :=
  match fuel with
  | 0 => (None, self)
  | S fuel =>
      if finished self then (None, self)
      else match front self with
           | Prefix => next_loop fuel (set_front self StartDir)
           | StartDir =>
               let self := set_front self Body in
               if has_physical_root self then
                 (Some RootDir, set_path self (str_drop 1 (path self)))
               else if include_cur_dir self then
                 (Some CurDir, set_path self (str_drop 1 (path self)))
               else next_loop fuel self
           | Body =>
               if negb (bool_decide (path self = "")) then
                 let '(size, comp) := parse_next_component self in
                 let self := set_path self (str_drop size (path self)) in
                 if comp is Some _ then (comp, self) else next_loop fuel self
               else next_loop fuel (set_front self Done)
           | Done => (None, self)
           end
  end.

(** The transitions the state has left. *)
Definition steps_to_done (st : State) : nat := 3 - State_rank st.

Definition next self : option Component * Components :=
  next_loop (String.length (path self) + steps_to_done (front self) + 1) self.

(** [DoubleEndedIterator::next_back] for [Components] *)
Fixpoint next_back_loop fuel self : option Component * Components :=
  match fuel with
  | 0 => (None, self)
  | S fuel =>
      if finished self then (None, self)
      else match back self with
           | Body =>
               if bool_decide (len_before_body self < String.length (path self))
               then
                 let '(size, comp) := parse_next_component_back self in
                 let self :=
                   set_path self
                     (str_take (String.length (path self) - size) (path self)) in
                 if comp is Some _ then (comp, self)
                 else next_back_loop fuel self
               else next_back_loop fuel (set_back self StartDir)
           | StartDir =>
               let self := set_back self Prefix in
               if has_physical_root self then
                 (Some RootDir,
                  set_path self
                    (str_take (String.length (path self) - 1) (path self)))
               else if include_cur_dir self then
                 (Some CurDir,
                  set_path self
                    (str_take (String.length (path self) - 1) (path self)))
               else next_back_loop fuel self
           | Prefix => (None, set_back self Done)
           | Done => (None, self)
           end
  end.

Definition next_back self : option Component * Components :=
  next_back_loop (String.length (path self) + 4) self.

(** ** The methods of [Path] *)

(** [iter.collect()]: the components an iterator yields from the front;
    the fuel bounds the number of calls of [next]. *)
Fixpoint collect_loop fuel self : Path :=
  match fuel with
  | 0 => []
  | S fuel =>
      match next self with
      | (Some comp, self) => comp :: collect_loop fuel self
      | (None, _) => []
      end
  end.

Definition collect self : Path :=
  collect_loop (String.length (path self) + 1) self.

(** [path.iter()] run to its end *)
Definition Path_iter s : list string := as_os_str <$> collect (Path_components s).

(** [path.file_name()] *)
Definition Path_file_name s : option string :=
  match (next_back (Path_components s)).1 with
  | Some (Normal name) => Some name
  | _ => None
  end.

(** [path.parent()]: a slice of the path. *)
Definition Path_parent s : option string :=
  let '(comp, comps) := next_back (Path_components s) in
  match comp with
  | Some (Normal _) | Some CurDir | Some ParentDir => Some (as_path comps)
  | _ => None
  end.

(** [iter_after(iter, prefix)]: the iterator after the components of
    [prefix], if it begins with them. *)
Fixpoint iter_after_loop fuel iter prefix : option Components :=
  match fuel with
  | 0 => None
  | S fuel =>
      let '(x, iter_next) := next iter in
      let '(y, prefix) := next prefix in
      match x, y with
      | Some x, Some y =>
          if decide (x = y) then iter_after_loop fuel iter_next prefix
          else None
      | Some _, None => Some iter
      | None, None => Some iter
      | None, Some _ => None
      end
  end.

Definition iter_after iter prefix : option Components :=
  iter_after_loop (String.length (path prefix) + 2) iter prefix.

(** [path.starts_with(base)] *)
Definition Path_starts_with s base : bool :=
  bool_decide (is_Some (iter_after (Path_components s) (Path_components base))).

(** [option.ok_or(err)] *)
Definition ok_or {T E} (o : option T) (err : E) : Result T E :=
  match o with Some v => Ok v | None => Err err end.

Inductive StripPrefixError := mkStripPrefixError.

(** [path.strip_prefix(base)]: a slice of the path. *)
Definition Path_strip_prefix s base : Result string StripPrefixError :=
  ok_or (as_path <$> iter_after (Path_components s) (Path_components base))
    mkStripPrefixError.

(** [rsplit_file_at_dot]: the name before its last dot and what follows
    the dot; [rsplitn(2, ..)] yields what follows first, and the rest only
    if there is a dot. *)
Definition rsplit_file_at_dot (file : string) : option string * option string :=
  if bool_decide (file = "..") then (Some file, None)
  else
    let '(before, after) :=
      match iter_rposition (λ b, bool_decide (b = "."%char)) file with
      | Some i => (Some (str_take i file), Some (str_drop (S i) file))
      | None => (None, Some file)
      end in
    if bool_decide (before = Some "") then (Some file, None) else (before, after).

(** [path.extension()] *)
Definition Path_extension s : option string :=
  Path_file_name s ≫= λ file,
    let '(before, after) := rsplit_file_at_dot file in
    before ≫= λ _, after.

(** ** Specification: the parts of a path

    A path is a leading part, [/] or [.] or nothing, and a body.
    [lead hpr pre body] says that [pre] is the leading part of
    [pre +:+ body] and that [hpr] is its [has_physical_root]. *)

(** The path is [.] or begins with [./]. *)
Definition begins_cur_dir s : bool :=
  match s with
  | String "." "" => true
  | String "." (String b _) => is_sep_byte b
  | _ => false
  end.

Inductive lead : bool → string → string → Prop :=
| lead_root body : lead true "/" body
| lead_cur_dir body :
    body = "" ∨ starts_with_sep body = true → lead false "." body
| lead_none body :
    starts_with_sep body = false → begins_cur_dir body = false →
    lead false "" body.

(** The components of the leading part. *)
Definition lead_comps (hpr : bool) pre : Path :=
  if hpr then [RootDir] else if decide (pre = ".") then [CurDir] else [].

(** [cut body' body]: [body'] is [body] without some of its last
    segments. *)
Definition cut body' body : Prop :=
  body' = body ∨ body' = "" ∨ ∃ t, body = body' +:+ String "/" t.

(** A string that is empty or begins with a segment that is a component:
    what is left of a body in the middle of a path. *)
Definition body_like s : Prop :=
  s = "" ∨ ∃ seg, head (split_on "/" s) = Some seg ∧
                   is_Some (parse_single_component seg).

(** ** Slices *)

Lemma str_drop_app s t : str_drop (String.length s) (s +:+ t) = t.
Proof. induction s as [|c s IH]; [by destruct t|done]. Qed.

Lemma str_take_app s t : str_take (String.length s) (s +:+ t) = s.
Proof.
  induction s as [|c s IH]; [by destruct t|].
  rewrite str_app_cons. simpl. by rewrite IH.
Qed.

Lemma str_drop_succ s c t : str_drop (S (String.length s)) (s +:+ String c t) = t.
Proof. induction s as [|d s IH]; [by rewrite str_app_nil_l|done]. Qed.

Lemma str_take_all s : str_take (String.length s) s = s.
Proof. by rewrite <-(str_app_nil_r s) at 2; rewrite str_take_app. Qed.

Lemma str_drop_length n s :
  String.length (str_drop n s) = String.length s - n.
Proof. revert s. induction n as [|n IH]; intros [|c s]; simpl; auto. Qed.

(** ** The first and the last separator *)

Lemma iter_position_no_sep s :
  str_has "/" s = false → iter_position is_sep_byte s = None.
Proof.
  induction s as [|c s IH]; [done|]. simpl.
  intros [Hc Hs]%orb_false_iff. rewrite IH by done. unfold is_sep_byte.
  by rewrite Hc.
Qed.

Lemma iter_position_app seg t :
  str_has "/" seg = false →
  iter_position is_sep_byte (seg +:+ String "/" t) = Some (String.length seg).
Proof.
  induction seg as [|c seg IH]; [done|]. rewrite str_app_cons. simpl.
  intros [Hc Hs]%orb_false_iff. rewrite IH by done. unfold is_sep_byte.
  by rewrite Hc.
Qed.

Lemma iter_rposition_none c s :
  str_has c s = false → iter_rposition (λ b, bool_decide (b = c)) s = None.
Proof.
  induction s as [|d s IH]; [done|]. simpl.
  intros [Hc Hs]%orb_false_iff. by rewrite IH, Hc.
Qed.

(** The last occurrence of a byte is where the rest holds none. *)
Lemma iter_rposition_last c s t :
  str_has c t = false →
  iter_rposition (λ b, bool_decide (b = c)) (s +:+ String c t) =
  Some (String.length s).
Proof.
  intros Ht. induction s as [|d s IH].
  - rewrite str_app_nil_l. simpl.
    by rewrite iter_rposition_none, bool_decide_eq_true_2.
  - rewrite str_app_cons. simpl. by rewrite IH.
Qed.

Lemma iter_rposition_no_sep s :
  str_has "/" s = false → iter_rposition is_sep_byte s = None.
Proof. apply (iter_rposition_none "/"). Qed.

Lemma iter_rposition_app s seg :
  str_has "/" seg = false →
  iter_rposition is_sep_byte (s +:+ String "/" seg) = Some (String.length s).
Proof. apply (iter_rposition_last "/"). Qed.

(** A string with the byte [c] splits at its last occurrence. *)
Lemma str_has_rsplit c s :
  str_has c s = true → ∃ a t, s = a +:+ String c t ∧ str_has c t = false.
Proof.
  induction s as [|d s IH]; simpl; [done|].
  destruct (str_has c s) eqn:Hs.
  - intros _. destruct IH as (a & t & -> & Ht); [done|]. by exists (String d a), t.
  - rewrite orb_false_r. intros ->%bool_decide_eq_true_1. by exists "", s.
Qed.

(** ** Bodies *)

Lemma path_body_nil : path_body "" = [].
Proof. done. Qed.

Lemma path_body_no_sep seg :
  str_has "/" seg = false →
  path_body seg = option_list (parse_single_component seg).
Proof.
  intros Hseg. unfold path_body. rewrite split_on_no_sep by done.
  simpl. by destruct (parse_single_component seg).
Qed.

Lemma path_body_app s t :
  path_body (s +:+ String "/" t) = path_body s ++ path_body t.
Proof. unfold path_body. by rewrite (split_on_app_sep "/" s t), omap_app. Qed.

Lemma path_body_sep t : path_body (String "/" t) = path_body t.
Proof. apply (path_body_app "" t). Qed.

(** ** The leading part *)

Lemma starts_with_sep_true s :
  starts_with_sep s = true ↔ ∃ t, s = String "/" t.
Proof.
  destruct s as [|c s]; simpl; [by split; [|intros [? ?]]|].
  unfold is_sep_byte. rewrite bool_decide_eq_true. split.
  - intros ->. by exists s.
  - by intros [t [= -> _]].
Qed.

Lemma begins_cur_dir_true s :
  begins_cur_dir s = true ↔ ∃ t, s = String "." t ∧ (t = "" ∨ starts_with_sep t = true).
Proof.
  split.
  - destruct s as [|c [|b s]]; simpl; repeat case_match; try done; intros Hb;
      subst; eexists; (split; [reflexivity|]); auto.
  - intros (t & -> & [->|Ht]); [done|].
    apply starts_with_sep_true in Ht as [r ->]. done.
Qed.

(** Every path has its leading part. *)
Lemma lead_exists s : ∃ pre body, s = pre +:+ body ∧ lead (starts_with_sep s) pre body.
Proof.
  destruct (starts_with_sep s) eqn:Hroot.
  { apply starts_with_sep_true in Hroot as [t ->]. exists "/", t. by split; [|constructor]. }
  destruct (begins_cur_dir s) eqn:Hcur.
  - apply begins_cur_dir_true in Hcur as (t & -> & Ht). exists ".", t.
    by split; [|constructor].
  - exists "", s. by split; [|constructor].
Qed.

Lemma cut_refl body : cut body body.
Proof. by left. Qed.

Lemma cut_nil body : cut "" body.
Proof. right. by left. Qed.

Lemma cut_app s t : cut s (s +:+ String "/" t).
Proof. right. right. by exists t. Qed.

Lemma cut_trans a s t : cut a s → cut s t → cut a t.
Proof.
  intros [?|[?|[r ?]]] [?|[?|[r' ?]]]; simplify_eq;
    eauto using cut_refl, cut_nil, cut_app.
  - by apply str_app_eq_nil in H0 as [_ ?].
  - right. right. exists (r +:+ String "/" r').
    by rewrite !str_app_assoc, str_app_cons.
Qed.

#[export] Hint Resolve cut_refl cut_nil cut_app : rust.

(** The leading part stays the leading part when the body is cut. *)
Lemma lead_cut hpr pre body' body : cut body' body → lead hpr pre body → lead hpr pre body'.
Proof.
  intros Hcut Hl. destruct Hl as [body|body Hb|body Hs Hc].
  - constructor.
  - constructor. destruct Hcut as [->|[->|[t ->]]]; [done|by left|].
    destruct body' as [|b body']; [by left|right].
    by destruct Hb as [Hb|Hb].
  - destruct Hcut as [->|[->|[t ->]]]; [by constructor..|]. constructor.
    + by destruct body'.
    + destruct (begins_cur_dir body') eqn:Hb'; [|done].
      apply begins_cur_dir_true in Hb' as (r & -> & [->|[r' ->]%starts_with_sep_true]);
        by rewrite <-Hc.
Qed.

Lemma lead_len hpr pre body fr bk :
  lead hpr pre body → State_rank fr ≤ 1 →
  len_before_body (mkComponents (pre +:+ body) hpr fr bk) = String.length pre.
Proof.
  intros Hl Hfr. unfold len_before_body, include_cur_dir, components_has_root.
  simpl. rewrite bool_decide_eq_true_2 by done. simpl.
  destruct Hl as [body|body Hb|body Hs Hc]; simpl; [done| |].
  - destruct Hb as [->|[r ->]%starts_with_sep_true]; done.
  - rewrite str_app_nil_l. fold (begins_cur_dir body). by rewrite Hc.
Qed.

(** The first segment of a string and what follows it. *)
Lemma split_on_head s :
  (str_has "/" s = false ∧ split_on "/" s = [s]) ∨
  ∃ seg t, s = seg +:+ String "/" t ∧ str_has "/" seg = false ∧
           split_on "/" s = seg :: split_on "/" t.
Proof.
  destruct (str_has "/" s) eqn:Hs.
  - right. apply str_has_split in Hs as (seg & t & -> & Hseg). exists seg, t.
    by rewrite split_on_app_sep, split_on_no_sep.
  - left. by rewrite split_on_no_sep.
Qed.

(** A body that does not begin with a separator or with [.] as a segment
    is a path of its own. *)
Lemma components_body body :
  starts_with_sep body = false → begins_cur_dir body = false →
  components body = path_body body.
Proof.
  intros Hs Hc. unfold components, path_body, components_of_segments.
  destruct (split_on_head body) as [[_ ->]|(seg & t & -> & _ & ->)].
  - repeat case_decide; by subst.
  - pose proof (split_on_nonempty "/" t).
    repeat case_decide; subst; try done; by destruct (split_on "/" t).
Qed.

(** The components of a path: those of its leading part and of its body. *)
Lemma lead_components hpr pre body :
  lead hpr pre body → components (pre +:+ body) = lead_comps hpr pre ++ path_body body.
Proof.
  destruct 1 as [body|body Hb|body Hs Hc]; unfold lead_comps; simpl.
  - apply components_root.
  - destruct Hb as [->|[r ->]%starts_with_sep_true]; [done|].
    by rewrite path_body_sep, <-components_dot_slash.
  - by apply components_body.
Qed.

(** ** The iterator from the back *)

(** [before_body hpr fr pre body]: in a path [pre +:+ body], and in what is
    left of it when segments are cut from its end, the body begins after
    [pre]. *)
Definition before_body hpr fr pre body : Prop :=
  ∀ body' bk, cut body' body →
    len_before_body (mkComponents (pre +:+ body') hpr fr bk) = String.length pre.

Lemma before_body_cut hpr fr pre body' body :
  cut body' body → before_body hpr fr pre body → before_body hpr fr pre body'.
Proof. intros Hc Hb b bk Hcut. apply Hb. by eapply cut_trans. Qed.

Lemma lead_before_body hpr pre body : lead hpr pre body → before_body hpr Prefix pre body.
Proof. intros Hl body' bk Hc. apply lead_len; [by eapply lead_cut|simpl; lia]. Qed.

(** After the leading part the body begins at once. *)
Lemma body_before_body hpr body : before_body hpr Body "" body.
Proof. by intros body' bk _. Qed.

Lemma str_take_app_sub s t :
  str_take (String.length (s +:+ t) - String.length t) (s +:+ t) = s.
Proof.
  rewrite str_app_length. replace (_ + _ - _) with (String.length s) by lia.
  apply str_take_app.
Qed.

Section back.
Context (hpr : bool) (fr : State) (pre : string).

(** The last segment of a body without a separator is the body. *)
Lemma parse_back_no_sep body bk :
  before_body hpr fr pre body → str_has "/" body = false →
  parse_next_component_back (mkComponents (pre +:+ body) hpr fr bk) =
  (String.length body, parse_single_component body).
Proof.
  intros Hb Hs. unfold parse_next_component_back.
  rewrite Hb by auto with rust. simpl.
  by rewrite str_drop_app, iter_rposition_no_sep, Nat.add_0_r.
Qed.

(** The last segment of a body is what follows its last separator. *)
Lemma parse_back_app body seg bk :
  before_body hpr fr pre (body +:+ String "/" seg) → str_has "/" seg = false →
  parse_next_component_back
    (mkComponents (pre +:+ body +:+ String "/" seg) hpr fr bk) =
  (String.length seg + 1, parse_single_component seg).
Proof.
  intros Hb Hs. unfold parse_next_component_back.
  rewrite Hb by auto with rust. simpl.
  rewrite str_drop_app, iter_rposition_app by done.
  replace (pre +:+ body +:+ String "/" seg)
    with ((pre +:+ body +:+ "/") +:+ seg)
    by by rewrite !str_app_assoc.
  replace (String.length pre + String.length body + 1)
    with (String.length (pre +:+ body +:+ "/"))
    by (rewrite !str_app_length; simpl; lia).
  by rewrite str_drop_app.
Qed.

Lemma cut_back_app body seg :
  str_take
    (String.length (pre +:+ body +:+ String "/" seg) - (String.length seg + 1))
    (pre +:+ body +:+ String "/" seg) = pre +:+ body.
Proof.
  rewrite <-str_app_assoc.
  replace (String.length seg + 1) with (String.length (String "/" seg))
    by (simpl; lia).
  apply str_take_app_sub.
Qed.

(** Whether the body has bytes left. *)
Lemma body_left body bk :
  before_body hpr fr pre body →
  bool_decide
    (len_before_body (mkComponents (pre +:+ body) hpr fr bk) <
     String.length (path (mkComponents (pre +:+ body) hpr fr bk))) =
  bool_decide (body ≠ "").
Proof.
  intros Hb. rewrite Hb by auto with rust. simpl. rewrite str_app_length.
  apply bool_decide_ext. rewrite <-str_length_zero. lia.
Qed.

(** [trim_right] cuts segments that are no components, and only these. *)
Lemma trim_right_loop_spec fuel body bk :
  before_body hpr fr pre body → String.length body ≤ fuel →
  ∃ body',
    trim_right_loop fuel (mkComponents (pre +:+ body) hpr fr bk) =
      mkComponents (pre +:+ body') hpr fr bk ∧
    cut body' body ∧ path_body body' = path_body body.
Proof.
  revert body. induction fuel as [|fuel IH]; intros body Hb Hfuel.
  { exists body. by auto with rust. }
  cbn [trim_right_loop]. rewrite body_left by done.
  case_bool_decide as Hne; [|exists body; by auto with rust]. unfold set_path.
  destruct (str_has "/" body) eqn:Hs.
  - apply str_has_rsplit in Hs as (a & seg & -> & Hseg).
    rewrite parse_back_app by done. cbn [path has_physical_root front back].
    destruct (parse_single_component seg) eqn:Hp;
      [eexists; by auto with rust|].
    rewrite cut_back_app. destruct (IH a) as (body' & -> & Hc & Hp').
    { by eapply before_body_cut; [apply cut_app|]. }
    { rewrite str_app_length in Hfuel. simpl in Hfuel. lia. }
    exists body'. split_and!; [done|by eapply cut_trans; [|apply cut_app]|].
    by rewrite path_body_app, (path_body_no_sep seg), Hp, app_nil_r.
  - rewrite parse_back_no_sep by done. cbn [path has_physical_root front back].
    destruct (parse_single_component body) eqn:Hp;
      [eexists; by auto with rust|].
    rewrite str_take_app_sub. exists "". rewrite str_app_nil_r.
    replace (trim_right_loop fuel _) with (mkComponents pre hpr fr bk).
    + by rewrite (path_body_no_sep body), Hp by done; auto with rust.
    + destruct fuel; [done|]. cbn [trim_right_loop].
      rewrite <-(str_app_nil_r pre), body_left, bool_decide_eq_false_2; [done|tauto|].
      by eapply before_body_cut; [apply cut_nil|].
Qed.

(** When the body is used up [next_back] has at most three rounds left:
    it moves the state of the back to [StartDir], to [Prefix], to
    [Done]. *)
Lemma next_back_loop_end fuel :
  before_body hpr fr pre "" → fr = Prefix ∨ fr = Body → 3 ≤ fuel →
  next_back_loop fuel (mkComponents pre hpr fr Body) =
  next_back_loop 3 (mkComponents pre hpr fr Body).
Proof.
  intros Hb Hfr Hfuel. destruct fuel as [|[|[|fuel]]]; try lia.
  pose proof (body_left "" Body Hb) as Hl. rewrite str_app_nil_r in Hl.
  cbn [next_back_loop]. cbn [next_back_loop] in Hl.
  replace (finished (mkComponents pre hpr fr Body)) with false
    by by destruct Hfr as [-> | ->].
  cbn [back]. rewrite Hl, bool_decide_eq_false_2 by tauto.
  destruct Hfr as [-> | ->]; [|done].
  unfold set_back, set_path.
  change (finished (mkComponents pre hpr Prefix StartDir)) with false.
  cbn [back has_physical_root front path]. destruct hpr; [done|].
  by destruct (include_cur_dir _).
Qed.

(** [next_back] yields the last component of the body and leaves the path
    cut before it, or finds the body without a component. *)
Lemma next_back_loop_body fuel body :
  before_body hpr fr pre body → fr = Prefix ∨ fr = Body →
  String.length body + 3 ≤ fuel →
  (∃ comp body',
     next_back_loop fuel (mkComponents (pre +:+ body) hpr fr Body) =
       (Some comp, mkComponents (pre +:+ body') hpr fr Body) ∧
     cut body' body ∧ path_body body = path_body body' ++ [comp]) ∨
  (path_body body = [] ∧
   next_back_loop fuel (mkComponents (pre +:+ body) hpr fr Body) =
     next_back_loop 3 (mkComponents pre hpr fr Body)).
Proof.
  intros Hb Hfr. revert body Hb.
  induction fuel as [|fuel IH]; intros body Hb Hfuel; [lia|].
  destruct (decide (body = "")) as [->|Hne].
  { right. split; [done|]. rewrite str_app_nil_r. by apply next_back_loop_end. }
  cbn [next_back_loop].
  replace (finished (mkComponents (pre +:+ body) hpr fr Body)) with false
    by by destruct Hfr as [-> | ->].
  cbn [back]. rewrite body_left, bool_decide_eq_true_2 by done.
  unfold set_path. destruct (str_has "/" body) eqn:Hs.
  - apply str_has_rsplit in Hs as (a & seg & -> & Hseg).
    rewrite parse_back_app by done. cbn [path has_physical_root front back].
    rewrite cut_back_app, path_body_app, (path_body_no_sep seg) by done.
    destruct (parse_single_component seg) as [comp|] eqn:Hp.
    { left. exists comp, a. by auto with rust. }
    rewrite str_app_length in Hfuel. simpl in Hfuel.
    destruct (IH a) as [(comp & body' & -> & Hc & ->)|[-> ->]];
      [by eapply before_body_cut; [apply cut_app|]|lia| |by right].
    left. exists comp, body'. simpl. rewrite app_nil_r.
    split_and!; [done|by eapply cut_trans; [|apply cut_app]|done].
  - rewrite parse_back_no_sep by done. cbn [path has_physical_root front back].
    rewrite str_take_app_sub, (path_body_no_sep body) by done.
    destruct (parse_single_component body) as [comp|] eqn:Hp.
    { left. exists comp, "". rewrite str_app_nil_r. by auto with rust. }
    right. split; [done|]. apply next_back_loop_end; [|done|].
    + by eapply before_body_cut; [apply cut_nil|].
    + destruct body; [done|simpl in Hfuel; lia].
Qed.

End back.

(** What [next_back] yields when the body has no component left: the
    leading part. *)
Definition next_back_start (hpr : bool) pre : option Component * Components :=
  if hpr then (Some RootDir, mkComponents "" hpr Prefix Prefix)
  else if decide (pre = ".") then (Some CurDir, mkComponents "" hpr Prefix Prefix)
  else (None, mkComponents "" hpr Prefix Done).

Lemma next_back_loop_start fuel hpr pre :
  lead hpr pre "" → 3 ≤ fuel →
  next_back_loop fuel (mkComponents pre hpr Prefix Body) = next_back_start hpr pre.
Proof.
  intros Hl Hfuel. destruct fuel as [|[|[|fuel]]]; try lia.
  by inversion Hl.
Qed.

(** A component of a body is a name or [..]. *)
Lemma path_body_components body comp :
  comp ∈ path_body body → comp = ParentDir ∨ ∃ name, comp = Normal name.
Proof.
  intros (seg & _ & Hp)%list_elem_of_omap. unfold parse_single_component in Hp.
  repeat case_decide; simplify_eq; eauto.
Qed.

(** [next_back] on an iterator that has yielded nothing from the front:
    the last component of the body, or the leading part. *)
Lemma next_back_loop_spec fuel hpr pre body :
  lead hpr pre body → String.length body + 3 ≤ fuel →
  (∃ comp body',
     next_back_loop fuel (mkComponents (pre +:+ body) hpr Prefix Body) =
       (Some comp, mkComponents (pre +:+ body') hpr Prefix Body) ∧
     cut body' body ∧ path_body body = path_body body' ++ [comp]) ∨
  (path_body body = [] ∧
   next_back_loop fuel (mkComponents (pre +:+ body) hpr Prefix Body) =
     next_back_start hpr pre).
Proof.
  intros Hl Hfuel.
  destruct (next_back_loop_body hpr Prefix pre fuel body)
    as [?|[? ->]]; [by apply lead_before_body|by left|done|by left|].
  right. split; [done|]. apply next_back_loop_start; [|done].
  by eapply lead_cut; [apply cut_nil|].
Qed.

(** [next_back] on a fresh iterator. *)
Lemma next_back_spec s :
  ∃ pre body, s = pre +:+ body ∧ lead (starts_with_sep s) pre body ∧
  ((∃ comp body',
      next_back (Path_components s) =
        (Some comp, mkComponents (pre +:+ body') (starts_with_sep s) Prefix Body) ∧
      cut body' body ∧ path_body body = path_body body' ++ [comp]) ∨
   (path_body body = [] ∧
    next_back (Path_components s) = next_back_start (starts_with_sep s) pre)).
Proof.
  destruct (lead_exists s) as (pre & body & Hs & Hl). exists pre, body.
  split_and!; [done..|]. subst s. unfold next_back, Path_components.
  cbn [path]. apply next_back_loop_spec; [done|]. rewrite str_app_length. lia.
Qed.

(** ** [file_name] and [parent] *)

(** What is left of a path after [next_back], as a slice: trailing segments
    that are no components are cut. *)
Lemma as_path_back hpr pre body :
  lead hpr pre body →
  ∃ d, as_path (mkComponents (pre +:+ body) hpr Prefix Body) = pre +:+ d ∧
    cut d body ∧ path_body d = path_body body.
Proof.
  intros Hl. unfold as_path, trim_right. cbn [front back path].
  rewrite (bool_decide_eq_false_2 (Prefix = Body)), (bool_decide_eq_true_2 (Body = Body)) by done. cbn [path].
  destruct (trim_right_loop_spec hpr Prefix pre
    (String.length (pre +:+ body)) body Body) as (d & -> & Hc & Hp).
  - by apply lead_before_body.
  - rewrite str_app_length. lia.
  - by exists d.
Qed.

(** A cut is a slice that ends where a component ends: at the end, before
    a separator, or at once. *)
Definition at_boundary d rest : Prop :=
  str_all is_ascii d = true ∨ rest = "" ∨ starts_with_sep rest = true.

Lemma cut_slice pre d body :
  str_all is_ascii pre = true → cut d body →
  ∃ rest, body = d +:+ rest ∧ at_boundary (pre +:+ d) rest.
Proof.
  unfold at_boundary. intros Hpre [->|[->|[t ->]]].
  - exists "". rewrite str_app_nil_r. auto.
  - exists body. rewrite str_app_nil_r. auto.
  - eexists. split; [done|]. auto.
Qed.

Lemma lead_ascii hpr pre body : lead hpr pre body → str_all is_ascii pre = true.
Proof. by destruct 1. Qed.

(** [Path_parent] by cases: the slice it returns, its components and the
    component that was cut; it returns nothing for the empty path and for
    the root. *)
Lemma Path_parent_cases s :
  match Path_parent s with
  | Some d =>
      ∃ comp rest, components s = components d ++ [comp] ∧ comp ≠ RootDir ∧
        s = d +:+ rest ∧ at_boundary d rest
  | None => components s = [] ∨ components s = [RootDir]
  end.
Proof.
  destruct (next_back_spec s)
    as (pre & body & Hs & Hl & [(comp & body' & Hn & Hc & Hp)|[Hp Hn]]);
    unfold Path_parent; rewrite Hn; subst s;
    set (hpr := starts_with_sep (pre +:+ body)) in *;
    rewrite (lead_components _ _ _ Hl), Hp.
  - pose proof (lead_cut _ _ _ _ Hc Hl) as Hl'.
    destruct (as_path_back _ _ _ Hl') as (d & -> & Hcd & Hpd).
    assert (comp = ParentDir ∨ ∃ name, comp = Normal name) as Hcomp.
    { apply (path_body_components body). rewrite Hp.
      apply elem_of_app. right. by left. }
    destruct (cut_slice pre d body) as (rest & Hrest & Hb);
      [by eapply lead_ascii|by eapply cut_trans|].
    assert (∃ comp' rest',
      lead_comps hpr pre ++ path_body body' ++ [comp] =
        components (pre +:+ d) ++ [comp'] ∧ comp' ≠ RootDir ∧
      pre +:+ body = (pre +:+ d) +:+ rest' ∧ at_boundary (pre +:+ d) rest')
      as Hgoal.
    { exists comp, rest. rewrite (lead_components hpr) by by eapply lead_cut.
      rewrite Hpd, <-app_assoc, Hrest, str_app_assoc.
      split_and!; [done| |done..]. by destruct Hcomp as [->|[? ->]]. }
    by destruct Hcomp as [->|[? ->]].
  - rewrite app_nil_r. unfold next_back_start, lead_comps.
    destruct Hl as [body|body Hb|body Hb Hc];
      rewrite ?decide_True, ?decide_False by done; [by right| |by left].
    exists CurDir, (String "." body). rewrite str_app_nil_l.
    split_and!; [done..|by left].
Qed.

(** [path.file_name()] is the last component, if it is a name. *)
Theorem Path_file_name_spec s : Path_file_name s = file_name (components s).
Proof.
  destruct (next_back_spec s)
    as (pre & body & Hs & Hl & [(comp & body' & Hn & Hc & Hp)|[Hp Hn]]);
    unfold Path_file_name, file_name; rewrite Hn; subst s;
    rewrite (lead_components _ _ _ Hl), Hp.
  - by rewrite app_assoc, last_snoc.
  - rewrite app_nil_r. unfold next_back_start, lead_comps.
    by destruct Hl; rewrite ?decide_True, ?decide_False by done.
Qed.

(** [path.parent()] is the path without its last component: the
    components of the slice the library returns are those [RustPath.parent]
    gives. *)
Theorem Path_parent_spec s : components <$> Path_parent s = parent (components s).
Proof.
  pose proof (Path_parent_cases s) as Hs.
  destruct (Path_parent s) as [d|]; simpl.
  - destruct Hs as (comp & rest & Hd & Hc & _). symmetry.
    apply parent_Some. by exists comp.
  - by destruct Hs as [-> | ->].
Qed.

Lemma Path_parent_Some s p :
  parent (components s) = Some p ↔ ∃ d, Path_parent s = Some d ∧ components d = p.
Proof.
  rewrite <-Path_parent_spec. destruct (Path_parent s) as [d|]; simpl.
  - split; [intros [= <-]; by exists d|by intros (? & [= <-] & <-)].
  - split; [done|by intros (? & [=] & _)].
Qed.

(** What [path.parent()] returns is a slice of the path, from its
    beginning, that is one component shorter, and that component is not
    the root: the string the walk of a package starts from is the leading
    part of its manifest path, byte for byte. *)
Theorem Path_parent_slice s d :
  Path_parent s = Some d →
  ∃ comp rest, s = d +:+ rest ∧ components s = components d ++ [comp] ∧
    comp ≠ RootDir.
Proof.
  intros Hd. pose proof (Path_parent_cases s) as Hs. rewrite Hd in Hs.
  destruct Hs as (comp & rest & ? & ? & ? & _). by exists comp, rest.
Qed.

Lemma Path_parent_slice_witness :
  ∃ comp rest,
    "/cargo//bevy_ecs/./Cargo.toml" = "/cargo//bevy_ecs" +:+ rest ∧
    components "/cargo//bevy_ecs/./Cargo.toml" =
      components "/cargo//bevy_ecs" ++ [comp] ∧
    comp ≠ RootDir.
Proof. by apply (Path_parent_slice "/cargo//bevy_ecs/./Cargo.toml"). Defined.

(** The parent of a path that is text is text: the slice ends where a
    component ends, never inside the encoding of a character.  This is what
    [Utf8Path::parent] of [camino] assumes of [Path::parent] (lines 72
    and 117). *)
Theorem Path_parent_utf8 s d : utf8 s → Path_parent s = Some d → utf8 d.
Proof.
  intros Hs Hd. pose proof (Path_parent_cases s) as Hc. rewrite Hd in Hc.
  destruct Hc as (_ & rest & _ & _ & -> & [Ha|[->|[t ->]%starts_with_sep_true]]).
  - by apply utf8_ascii.
  - by rewrite str_app_nil_r in Hs.
  - by apply utf8_app_ascii in Hs as [? _].
Qed.

(** ** The iterator from the front *)

Lemma parse_front_no_sep hpr body fr bk :
  str_has "/" body = false →
  parse_next_component (mkComponents body hpr fr bk) =
  (String.length body, parse_single_component body).
Proof.
  intros Hs. unfold parse_next_component. cbn [path].
  by rewrite iter_position_no_sep, Nat.add_0_r.
Qed.

Lemma parse_front_app hpr seg t fr bk :
  str_has "/" seg = false →
  parse_next_component (mkComponents (seg +:+ String "/" t) hpr fr bk) =
  (String.length seg + 1, parse_single_component seg).
Proof.
  intros Hs. unfold parse_next_component. cbn [path].
  by rewrite iter_position_app, str_take_app.
Qed.

Lemma str_drop_all s : str_drop (String.length s) s = "".
Proof. by rewrite <-(str_app_nil_r s) at 2; rewrite str_drop_app. Qed.

Lemma str_drop_seg seg t :
  str_drop (String.length seg + 1) (seg +:+ String "/" t) = t.
Proof. rewrite Nat.add_1_r. apply str_drop_succ. Qed.

(** In the body, [next] yields the first component and leaves what follows
    its segment. *)
Lemma next_loop_body fuel hpr body :
  String.length body + 2 ≤ fuel →
  match path_body body with
  | [] =>
      next_loop fuel (mkComponents body hpr Body Body) =
      (None, mkComponents "" hpr Done Body)
  | comp :: rest =>
      ∃ body',
        next_loop fuel (mkComponents body hpr Body Body) =
          (Some comp, mkComponents body' hpr Body Body) ∧
        path_body body' = rest ∧ String.length body' < String.length body
  end.
Proof.
  revert body. induction fuel as [|fuel IH]; intros body Hfuel; [lia|].
  cbn [next_loop]. change (finished _) with false. cbn [front path].
  destruct (decide (body = "")) as [->|Hne].
  { destruct fuel; [simpl in *; lia|done]. }
  rewrite bool_decide_eq_false_2 by done. cbn [negb]. unfold set_path.
  destruct (split_on_head body) as [[Hs _]|(seg & t & -> & Hs & _)].
  - rewrite parse_front_no_sep, (path_body_no_sep body) by done.
    cbn [path has_physical_root front back]. rewrite str_drop_all.
    destruct (parse_single_component body) as [comp|]; simpl.
    + exists "". split_and!; [done..|]. destruct body; [done|simpl; lia].
    + destruct fuel as [|[|fuel]];
        [destruct body; [done|simpl in Hfuel; lia]..|done].
  - rewrite parse_front_app, path_body_app, (path_body_no_sep seg) by done.
    cbn [path has_physical_root front back]. rewrite str_drop_seg.
    rewrite str_app_length in Hfuel |- *. simpl in Hfuel |- *.
    destruct (parse_single_component seg) as [comp|]; simpl.
    + exists t. split_and!; [done..|lia].
    + specialize (IH t ltac:(lia)). destruct (path_body t) as [|comp rest]; [done|].
      destruct IH as (body' & -> & <- & Hlen). exists body'.
      split_and!; [done..|lia].
Qed.

(** [forward self p]: the iterator [self], fresh or in the middle of a
    path, has the components [p] to yield from the front. *)
Inductive forward : Components → Path → Prop :=
| forward_fresh s : forward (Path_components s) (components s)
| forward_body hpr body : forward (mkComponents body hpr Body Body) (path_body body).

(** The first call of [next]: the leading part, or the first component of
    the body. *)
Lemma next_loop_fresh fuel hpr pre body :
  lead hpr pre body →
  next_loop (S (S fuel)) (mkComponents (pre +:+ body) hpr Prefix Body) =
  if hpr then (Some RootDir, mkComponents body hpr Body Body)
  else if decide (pre = ".") then (Some CurDir, mkComponents body hpr Body Body)
  else next_loop fuel (mkComponents body hpr Body Body).
Proof.
  intros Hl. cbn [next_loop].
  change (finished (mkComponents (pre +:+ body) hpr Prefix Body)) with false.
  cbn [front set_front path has_physical_root back].
  change (finished (mkComponents (pre +:+ body) hpr StartDir Body)) with false.
  cbn [front set_front path has_physical_root back].
  destruct Hl as [body|body Hb|body Hs Hc]; [done| |].
  - by destruct Hb as [->|[r ->]%starts_with_sep_true].
  - unfold include_cur_dir, set_front, set_path.
    cbn [components_has_root has_physical_root path front back].
    rewrite str_app_nil_l. fold (begins_cur_dir body). by rewrite Hc.
Qed.

Lemma next_forward self p :
  forward self p →
  match p with
  | [] => ∃ self', next self = (None, self') ∧ finished self' = true
  | comp :: rest =>
      ∃ self', next self = (Some comp, self') ∧ forward self' rest ∧
        String.length (path self') < String.length (path self)
  end.
Proof.
  destruct 1 as [s|hpr body]; unfold next; cbn [path front steps_to_done].
  - destruct (lead_exists s) as (pre & body & -> & Hl).
    rewrite (lead_components _ _ _ Hl). unfold Path_components, lead_comps.
    set (hpr := starts_with_sep (pre +:+ body)) in *. cbn [path front].
    replace (String.length (pre +:+ body) + steps_to_done Prefix + 1)
      with (S (S (String.length (pre +:+ body) + 2)))
      by (change (steps_to_done Prefix) with 3; lia).
    rewrite (next_loop_fresh _ _ _ _ Hl), str_app_length.
    pose proof (next_loop_body (String.length pre + String.length body + 2)
      hpr body ltac:(lia)) as Hb.
    destruct Hl as [body|body Hb'|body Hs Hc]; simpl in Hb |- *.
    + eexists. split_and!; [done|constructor|simpl; lia].
    + eexists. split_and!; [done|constructor|simpl; lia].
    + destruct (path_body body) as [|comp rest]; [by rewrite Hb; eexists|].
      destruct Hb as (body' & -> & <- & Hlen). eexists.
      split_and!; [done|constructor|done].
  - pose proof (next_loop_body (String.length body + steps_to_done Body + 1)
      hpr body ltac:(change (steps_to_done Body) with 1; lia)) as Hb.
    destruct (path_body body) as [|comp rest]; [by rewrite Hb; eexists|].
    destruct Hb as (body' & -> & <- & Hlen). eexists.
    split_and!; [done|constructor|done].
Qed.

Lemma collect_loop_spec fuel self p :
  forward self p → String.length (path self) < fuel → collect_loop fuel self = p.
Proof.
  revert self p. induction fuel as [|fuel IH]; intros self p Hf Hfuel; [lia|].
  apply next_forward in Hf. cbn [collect_loop]. destruct p as [|comp rest].
  - by destruct Hf as (? & -> & _).
  - destruct Hf as (self' & -> & Hf & Hlen). f_equal. apply IH; [done|lia].
Qed.

(** [Path_components] refines [components]: the iterator yields, from the
    front, the components of the path. *)
Theorem Path_components_collect s : collect (Path_components s) = components s.
Proof. apply collect_loop_spec; [constructor|simpl; lia]. Qed.

Theorem Path_iter_spec s : Path_iter s = path_iter (components s).
Proof. unfold Path_iter. by rewrite Path_components_collect. Qed.

(** ** [starts_with] and [strip_prefix] *)

(** [trim_left] cuts the segments that are no components from the front:
    what is left is empty or begins with a component. *)
Lemma trim_left_loop_spec fuel hpr fr bk body :
  String.length body ≤ fuel →
  ∃ d, trim_left_loop fuel (mkComponents body hpr fr bk) = mkComponents d hpr fr bk ∧
    path_body d = path_body body ∧ body_like d.
Proof.
  revert body. induction fuel as [|fuel IH]; intros body Hfuel.
  { apply Nat.le_0_r, str_length_zero in Hfuel as ->. exists "". by split_and!; [..|left]. }
  cbn [trim_left_loop path]. case_bool_decide as Hne.
  { subst. exists "". by split_and!; [..|left]. }
  unfold set_path.
  destruct (split_on_head body) as [[Hs Hsplit]|(seg & t & -> & Hs & Hsplit)].
  - rewrite parse_front_no_sep by done. cbn [path has_physical_root front back].
    destruct (parse_single_component body) as [comp|] eqn:Hp.
    + exists body. split_and!; [done..|]. right. exists body. by rewrite Hsplit, Hp.
    + rewrite str_drop_all. exists "". rewrite (path_body_no_sep body), Hp by done.
      split_and!; [by destruct fuel|done|by left].
  - rewrite parse_front_app by done. cbn [path has_physical_root front back].
    destruct (parse_single_component seg) as [comp|] eqn:Hp.
    + eexists. split_and!; [done..|]. right. exists seg. by rewrite Hsplit, Hp.
    + rewrite str_drop_seg, path_body_app, (path_body_no_sep seg), Hp by done.
      apply IH. rewrite str_app_length in Hfuel. simpl in Hfuel. lia.
Qed.

Lemma body_like_cut d body : cut d body → body_like body → body_like d.
Proof.
  intros [->|[->|[t ->]]]; [done|by left|]. intros [Hb|(seg & Hh & Hp)].
  { by apply str_app_eq_nil in Hb as [_ ?]. }
  right. exists seg. split; [|done]. rewrite split_on_app_sep in Hh.
  pose proof (split_on_nonempty "/" d). by destruct (split_on "/" d).
Qed.

(** A body that begins with a component is a path with these components. *)
Lemma body_like_components d : body_like d → components d = path_body d.
Proof.
  intros [->|(seg & Hh & Hp)]; [done|]. unfold components, path_body.
  destruct (split_on "/" d) as [|first rest]; simplify_eq/=.
  unfold parse_single_component in Hp.
  repeat case_decide; by destruct Hp.
Qed.

(** The slice an iterator has left has the components it has yet to
    yield. *)
Lemma as_path_forward self p : forward self p → components (as_path self) = p.
Proof.
  destruct 1 as [s|hpr body].
  - destruct (lead_exists s) as (pre & body & -> & Hl). unfold Path_components.
    destruct (as_path_back _ _ _ Hl) as (d & -> & Hc & Hp).
    by rewrite (lead_components _ _ _ Hl),
      (lead_components _ _ _ (lead_cut _ _ _ _ Hc Hl)), Hp.
  - unfold as_path. cbv zeta. cbn [front].
    rewrite (bool_decide_eq_true_2 (Body = Body)) by done.
    unfold trim_left. cbn [path].
    destruct (trim_left_loop_spec (String.length body) hpr Body Body body (le_n _))
      as (d & -> & <- & Hd). cbn [back].
    rewrite (bool_decide_eq_true_2 (Body = Body)) by done.
    unfold trim_right. cbn [path].
    destruct (trim_right_loop_spec hpr Body "" (String.length d) d Body)
      as (d' & Ht & Hc & <-); [apply body_before_body|done|].
    rewrite !str_app_nil_l in Ht. rewrite Ht. cbn [path].
    by apply body_like_components, (body_like_cut _ d).
Qed.

(** [iter_after] strips the components of the prefix one by one. *)
Lemma iter_after_loop_spec fuel iter prefix p q :
  forward iter p → forward prefix q → String.length (path prefix) < fuel →
  match list_strip_prefix q p with
  | Some r => ∃ iter', iter_after_loop fuel iter prefix = Some iter' ∧ forward iter' r
  | None => iter_after_loop fuel iter prefix = None
  end.
Proof.
  revert iter prefix p q.
  induction fuel as [|fuel IH]; intros iter prefix p q Hp Hq Hfuel; [lia|].
  pose proof (next_forward _ _ Hp) as Hx. pose proof (next_forward _ _ Hq) as Hy.
  cbn [iter_after_loop].
  destruct (next iter) as [x iter_next], (next prefix) as [y prefix'].
  destruct q as [|c q].
  { destruct Hy as (? & [= -> _] & _).
    destruct p as [|c p]; [destruct Hx as (? & [= -> _] & _); by exists iter|].
    destruct Hx as (? & [= -> _] & _). by exists iter. }
  destruct Hy as (? & [= -> <-] & Hq' & Hlen).
  destruct p as [|c' p]; [by destruct Hx as (? & [= -> _] & _)|].
  destruct Hx as (? & [= -> <-] & Hp' & _). simpl.
  destruct (decide (c = c')) as [->|Hne].
  - rewrite decide_True by done. apply IH; [done..|lia].
  - by rewrite decide_False.
Qed.

Lemma iter_after_spec s base :
  match path_strip_prefix (components s) (components base) with
  | Some r =>
      ∃ iter', iter_after (Path_components s) (Path_components base) = Some iter' ∧
        forward iter' r
  | None => iter_after (Path_components s) (Path_components base) = None
  end.
Proof. apply iter_after_loop_spec; [constructor..|simpl; lia]. Qed.

(** [path.strip_prefix(base)] strips the components of [base]: the slice
    the library returns has the components [RustPath.path_strip_prefix]
    gives, and there is none when [base] is no prefix. *)
Theorem Path_strip_prefix_spec s base :
  components <$> ok (Path_strip_prefix s base) =
  path_strip_prefix (components s) (components base).
Proof.
  pose proof (iter_after_spec s base) as Hi. unfold Path_strip_prefix.
  destruct (path_strip_prefix _ _) as [r|]; [|by rewrite Hi].
  destruct Hi as (iter' & -> & Hr). simpl. f_equal. by apply as_path_forward.
Qed.

Lemma Path_strip_prefix_Some s base r :
  path_strip_prefix (components s) (components base) = Some r ↔
  ∃ d, Path_strip_prefix s base = Ok d ∧ components d = r.
Proof.
  rewrite <-Path_strip_prefix_spec.
  destruct (Path_strip_prefix s base) as [d|[]]; simpl.
  - split; [intros [= <-]; by exists d|by intros (? & [= <-] & <-)].
  - split; [done|by intros (? & [=] & _)].
Qed.

(** Nothing is stripped from a path that does not start with [base]. *)
Lemma Path_strip_prefix_Err s base :
  Path_starts_with s base = false →
  Path_strip_prefix s base = Err mkStripPrefixError.
Proof.
  unfold Path_starts_with, Path_strip_prefix. intros Hs%bool_decide_eq_false_1.
  destruct (iter_after _ _); [|done]. by destruct Hs.
Qed.

(** ** [extension] *)

(** A name other than [..] has the extension that [RustPath] gives it:
    what follows its last dot, unless that dot is its first byte. *)
Lemma rsplit_file_at_dot_spec c rest :
  String c rest ≠ ".." →
  (let '(before, after) := rsplit_file_at_dot (String c rest) in
   before ≫= λ _, after) = after_last_dot rest.
Proof.
  intros Hne. unfold rsplit_file_at_dot. rewrite bool_decide_eq_false_2 by done.
  destruct (str_has "." (String c rest)) eqn:Hdot.
  - apply str_has_rsplit in Hdot as (a & t & Hfile & Ht).
    rewrite Hfile, iter_rposition_last, str_take_app, str_drop_succ by done.
    destruct a as [|d a]; rewrite ?str_app_nil_l, ?str_app_cons in Hfile;
      simplify_eq; simpl.
    + by rewrite (proj2 (after_last_dot_None t)).
    + symmetry. apply after_last_dot_Some. by exists a.
  - rewrite iter_rposition_none by done. simpl in Hdot.
    apply orb_false_iff in Hdot as [_ Hrest]. simpl.
    by rewrite (proj2 (after_last_dot_None rest)).
Qed.

(** [path.extension()] is the extension of the last component. *)
Theorem Path_extension_spec s : Path_extension s = extension (components s).
Proof.
  unfold Path_extension, extension. rewrite Path_file_name_spec.
  destruct (file_name (components s)) as [[|c rest]|] eqn:Hn; [done| |done].
  apply rsplit_file_at_dot_spec.
  by apply file_name_valid in Hn as (_ & _ & ? & _); [|apply components_wf].
Qed.

(** [path.starts_with(base)] compares components. *)
Theorem Path_starts_with_spec s base :
  Path_starts_with s base = path_starts_with (components s) (components base).
Proof.
  pose proof (iter_after_spec s base) as Hi. unfold Path_starts_with.
  apply bool_decide_ext. rewrite <-list_strip_prefix_is_Some.
  fold (path_strip_prefix (components s) (components base)).
  destruct (path_strip_prefix _ _) as [r|].
  - destruct Hi as (iter' & -> & _). by split.
  - rewrite Hi. by split; intros [? [=]].
Qed.

(** ** Both ends

    [Components] is a double-ended iterator: [next] and [next_back] can be
    called in any order, and each component is yielded once. *)

(** An iterator that yields nothing more, from either end. *)
Definition exhausted self : Prop :=
  finished self = true ∨ (front self = Prefix ∧ back self = Prefix).

(** [remaining self p]: the iterator has the components [p] left. *)
Inductive remaining : Components → Path → Prop :=
| remaining_forward self p : forward self p → remaining self p
| remaining_exhausted self : exhausted self → remaining self [].

(** The end an element is taken from, and the same calls on a list. *)
Inductive End := Front | Back.

Definition call (e : End) self : option Component * Components :=
  match e with Front => next self | Back => next_back self end.

Fixpoint calls (ends : list End) self : list (option Component) :=
  match ends with
  | [] => []
  | e :: ends => let '(x, self) := call e self in x :: calls ends self
  end.

Definition take (e : End) (p : Path) : option Component * Path :=
  match e with
  | Front => (head p, tail p)
  | Back => (last p, removelast p)
  end.

Fixpoint takes (ends : list End) (p : Path) : list (option Component) :=
  match ends with
  | [] => []
  | e :: ends => let '(x, p) := take e p in x :: takes ends p
  end.

Lemma lead_starts_with_sep hpr pre body :
  lead hpr pre body → starts_with_sep (pre +:+ body) = hpr.
Proof. destruct 1; [done..|]. by rewrite str_app_nil_l. Qed.

Lemma exhausted_next self :
  exhausted self → ∃ self', next self = (None, self') ∧ exhausted self'.
Proof.
  destruct self as [s hpr fr bk]. unfold next. cbn [path front].
  rewrite Nat.add_1_r. cbn [next_loop]. intros [Hf|[Hfr Hbk]].
  - rewrite Hf. eexists. split; [done|by left].
  - simpl in Hfr, Hbk. subst. change (finished _) with false. cbn [front].
    change (steps_to_done Prefix) with 3. rewrite Nat.add_comm.
    eexists. split; [done|by left].
Qed.

Lemma exhausted_next_back self :
  exhausted self → ∃ self', next_back self = (None, self') ∧ exhausted self'.
Proof.
  destruct self as [s hpr fr bk]. unfold next_back. cbn [path].
  rewrite Nat.add_comm. cbn [next_back_loop Nat.add]. intros [Hf|[Hfr Hbk]].
  - rewrite Hf. eexists. split; [done|by left].
  - simpl in Hfr, Hbk. subst. change (finished _) with false.
    eexists. split; [done|by left].
Qed.

(** A call of [next] takes the first of the components that are left. *)
Lemma next_remaining self p :
  remaining self p →
  ∃ self', next self = (head p, self') ∧ remaining self' (tail p).
Proof.
  destruct 1 as [self p Hf|self He].
  - apply next_forward in Hf. destruct p as [|comp rest].
    + destruct Hf as (self' & -> & Hfin). exists self'.
      split; [done|]. right. by left.
    + destruct Hf as (self' & -> & Hf & _). exists self'. split; [done|by left].
  - destruct (exhausted_next _ He) as (self' & -> & ?). exists self'.
    split; [done|by right].
Qed.

(** What [next_back] leaves of a fresh iterator is a fresh iterator on a
    shorter path. *)
Lemma next_back_fresh s :
  ∃ self', next_back (Path_components s) = (last (components s), self') ∧
    remaining self' (removelast (components s)).
Proof.
  destruct (next_back_spec s)
    as (pre & body & -> & Hl & [(comp & body' & -> & Hc & Hp)|[Hp ->]]);
    rewrite (lead_components _ _ _ Hl), Hp;
    set (hpr := starts_with_sep (pre +:+ body)) in *.
  - eexists. rewrite app_assoc, last_snoc, removelast_last. split; [done|].
    pose proof (lead_cut _ _ _ _ Hc Hl) as Hl'.
    rewrite <-(lead_components _ _ _ Hl'), <-(lead_starts_with_sep _ _ _ Hl').
    left. constructor.
  - rewrite app_nil_r. unfold next_back_start, lead_comps.
    destruct hpr; [|case_decide]; eexists; (split; [done|]); right;
      [by right|by right|by left].
Qed.

Lemma next_back_body hpr body :
  ∃ self', next_back (mkComponents body hpr Body Body) =
             (last (path_body body), self') ∧
    remaining self' (removelast (path_body body)).
Proof.
  unfold next_back. cbn [path].
  destruct (next_back_loop_body hpr Body "" (String.length body + 4) body)
    as [(comp & body' & Hn & _ & ->)|[-> Hn]];
    [apply body_before_body|by right|lia|..];
    rewrite str_app_nil_l in Hn; rewrite Hn.
  - eexists. rewrite last_snoc, removelast_last. split; [done|].
    left. rewrite str_app_nil_l. constructor.
  - eexists. split; [done|]. right. by left.
Qed.

(** A call of [next_back] takes the last of the components that are
    left. *)
Lemma next_back_remaining self p :
  remaining self p →
  ∃ self', next_back self = (last p, self') ∧ remaining self' (removelast p).
Proof.
  destruct 1 as [self p [s|hpr body]|self He];
    [apply next_back_fresh|apply next_back_body|].
  destruct (exhausted_next_back _ He) as (self' & -> & ?). exists self'.
  split; [done|by right].
Qed.

(** C21: any sequence of calls of [next] and [next_back] on the iterator of a
    path returns what taking the first and the last element returns on the
    list of its components: every component is yielded once, from the end
    that is asked, and nothing after the last. *)
Theorem calls_spec ends s :
  calls ends (Path_components s) = takes ends (components s).
Proof.
  assert (∀ self p, remaining self p → calls ends self = takes ends p) as Hgen.
  { induction ends as [|e ends IH]; intros self p Hr; [done|].
    cbn [calls takes].
    destruct e; [apply next_remaining in Hr|apply next_back_remaining in Hr];
      destruct Hr as (self' & Hn & Hr); simpl; rewrite Hn; f_equal; by apply IH. }
  apply Hgen. left. constructor.
Qed.

(** ** The refinement, method by method *)

(** C8: every method of [Path] the program calls, computed by the iterator
    on the bytes of the path, returns what [RustPath] says of the components
    of the path: [parent] and [strip_prefix] return slices with the
    components that are left, [file_name] and [extension] the last name and
    what follows its last dot, [iter] the components in order, and
    [starts_with] compares components. *)
Theorem Path_methods_refine s base :
  components <$> Path_parent s = parent (components s) ∧
  Path_file_name s = file_name (components s) ∧
  Path_extension s = extension (components s) ∧
  Path_iter s = path_iter (components s) ∧
  Path_starts_with s base = path_starts_with (components s) (components base) ∧
  components <$> ok (Path_strip_prefix s base) =
    path_strip_prefix (components s) (components base).
Proof.
  split_and!;
    auto using Path_parent_spec, Path_file_name_spec, Path_extension_spec,
      Path_iter_spec, Path_starts_with_spec, Path_strip_prefix_spec.
Qed.

(** The iterator comes to its end.  Called again and again on a fresh
    iterator, [next] yields the components of the path and then nothing,
    within as many calls as the path has bytes and one more: that many
    calls, or any number above, collect all the components. *)
Theorem collect_fuel_enough s fuel :
  String.length s < fuel → collect_loop fuel (Path_components s) = components s.
Proof. intros Hfuel. apply collect_loop_spec; [constructor|done]. Qed.

Lemma collect_fuel_enough_witness :
  collect_loop 10 (Path_components "/a/./b//c") = components "/a/./b//c".
Proof. apply collect_fuel_enough. simpl. lia. Defined.

(** ** Examples *)

Example Path_parent_examples :
  Path_parent "/cargo/bevy_ecs/Cargo.toml" = Some "/cargo/bevy_ecs" ∧
  Path_parent "/cargo//bevy_ecs/./Cargo.toml" = Some "/cargo//bevy_ecs" ∧
  Path_parent "/cargo/bevy_ecs//Cargo.toml/" = Some "/cargo/bevy_ecs" ∧
  Path_parent "Cargo.toml" = Some "" ∧
  Path_parent "./Cargo.toml" = Some "." ∧
  Path_parent "/Cargo.toml" = Some "/" ∧
  Path_parent "/" = None ∧ Path_parent "" = None ∧ Path_parent "." = Some "" ∧
  Path_parent "a/.." = Some "a".
Proof. by vm_compute. Qed.

Example Path_strip_prefix_examples :
  Path_strip_prefix "/a/./b//c.rs" "/a" = Ok "b//c.rs" ∧
  Path_strip_prefix "/a/b/" "/a/b" = Ok "" ∧
  Path_strip_prefix "./src/lib.rs" "src" = Err mkStripPrefixError ∧
  Path_strip_prefix "src/ui/mod.rs" "src" = Ok "ui/mod.rs" ∧
  Path_strip_prefix "a/b/" "" = Ok "a/b" ∧
  Path_extension "src/lib.rs" = Some "rs" ∧ Path_extension "a/.hidden" = None ∧
  Path_extension "a/b.tar.gz/" = Some "gz" ∧ Path_extension "a.rs/.." = None ∧
  Path_starts_with "/ab/c" "/a" = false ∧
  Path_file_name "src/lib.rs/" = Some "lib.rs" ∧ Path_file_name "a/.." = None ∧
  Path_iter "/a/./b//c" = ["/"; "a"; "b"; "c"] ∧ Path_iter "./a/." = ["."; "a"].
Proof. by vm_compute. Qed.
