(* ===== verification/ModulePath.v ===== *)
(** * ModulePath: from a file path to a module path

    [resolve_module_path] (lines 85-98) with [crate_root_for_file]
    (101-109), [crate_root_path] (112-118) and
    [relative_path_to_module_path] (121-128), on the bytes of the paths and
    with the methods of [StdPath], as the program calls them.  [Package]
    and [Metadata] hold the two fields of [cargo_metadata]'s types that the
    program reads.  The [?] operator and [.ok()?] are the [None] results of
    an [option], and [filter_map(|comp| comp.to_str())] is [omap to_str].
    [Path::new] is a cast and leaves no trace.

    The specification is the same resolution on the components of the
    paths ([spec_resolve_module_path] and its helpers, with the functions
    of [RustPath]); the program refines it
    ([resolve_module_path_components]), so that it gives one answer for all
    spellings of a path, and what is proved of the search on lists of
    components holds of the search on bytes. *)

From S2P Require Import Prelude RustStr Utf8 RustPath StdPath.

(** ** [cargo_metadata] *)

Record Package := mkPackage { name : string; manifest_path : string }.

Record Metadata := mkMetadata { packages : list Package }.

Implicit Types (path relative_path file : string) (p rel : Path)
  (comps : list string) (metadata : Metadata) (package pkg : Package)
  (pkgs : list Package) (crate_name : string).

(** ** The functions *)

(** The adapters after [path.iter()] (lines 123-125): every component that
    is text, with trailing [.rs] trimmed, the ones equal to [mod]
    dropped. *)
Definition module_segments comps : list string :=
  filter (λ s, s ≠ "mod")
    ((λ s, trim_end_matches s ".rs") <$> omap to_str comps).

Definition relative_path_to_module_path relative_path : string :=
  str_join "::" (module_segments (Path_iter relative_path)).

(** The [for] loop of [crate_root_for_file]: the first package whose crate
    root is a prefix of the path.  A manifest path without a parent ends the
    whole search with [None] (the [?] of line 103). *)
Fixpoint crate_root_for_file_loop path pkgs : option string :=
  match pkgs with
  | [] => None
  | package :: pkgs' =>
      match Path_parent (manifest_path package) with
      | None => None
      | Some crate_root =>
          if Path_starts_with path crate_root then Some (name package)
          else crate_root_for_file_loop path pkgs'
      end
  end.

Definition crate_root_for_file path metadata : option string :=
  crate_root_for_file_loop path (packages metadata).

(** The first package of that name, and the parent of its manifest. *)
Definition crate_root_path crate_name metadata : option string :=
  pkg ← head (filter (λ pkg, name pkg = crate_name) (packages metadata));
  Path_parent (manifest_path pkg).

Definition resolve_module_path path metadata : option string :=
  match crate_root_for_file path metadata with
  | Some crate_name =>
      crate_root ← crate_root_path crate_name metadata;
      relative_path ← ok (Path_strip_prefix path crate_root);
      Some (crate_name +::+ relative_path_to_module_path relative_path)
  | None =>
      relative_path ← ok (Path_strip_prefix path "src");
      Some (relative_path_to_module_path relative_path)
  end.

(** The crate root of a package: the directory of its manifest
    (line 103). *)
Definition crate_root package : option string :=
  Path_parent (manifest_path package).

(** ** Specification: resolution on components *)

Definition spec_relative_path_to_module_path rel : string :=
  str_join "::" (module_segments (path_iter rel)).

Definition spec_crate_root package : option Path :=
  parent (components (manifest_path package)).

Fixpoint spec_crate_root_for_file_loop p pkgs : option string :=
  match pkgs with
  | [] => None
  | package :: pkgs' =>
      match spec_crate_root package with
      | None => None
      | Some root =>
          if path_starts_with p root then Some (name package)
          else spec_crate_root_for_file_loop p pkgs'
      end
  end.

Definition spec_crate_root_for_file p metadata : option string :=
  spec_crate_root_for_file_loop p (packages metadata).

Definition spec_crate_root_path crate_name metadata : option Path :=
  pkg ← head (filter (λ pkg, name pkg = crate_name) (packages metadata));
  spec_crate_root pkg.

Definition spec_resolve_module_path p metadata : option string :=
  match spec_crate_root_for_file p metadata with
  | Some crate_name =>
      root ← spec_crate_root_path crate_name metadata;
      rel ← path_strip_prefix p root;
      Some (crate_name +::+ spec_relative_path_to_module_path rel)
  | None =>
      rel ← path_strip_prefix p (components "src");
      Some (spec_relative_path_to_module_path rel)
  end.

(** ** Assumptions on the metadata *)

(** [cargo metadata] reports manifests by absolute path. *)
Definition absolute_manifests metadata : Prop :=
  Forall (λ pkg, has_root (Path_new (manifest_path pkg)) = true) (packages metadata).

(** ** The functions refine the specification *)

Lemma relative_path_to_module_path_components relative_path :
  relative_path_to_module_path relative_path =
  spec_relative_path_to_module_path (components relative_path).
Proof. unfold relative_path_to_module_path. by rewrite Path_iter_spec. Qed.

Lemma crate_root_components package :
  components <$> crate_root package = spec_crate_root package.
Proof. apply Path_parent_spec. Qed.

Lemma crate_root_Some package root :
  spec_crate_root package = Some root ↔
  ∃ source, crate_root package = Some source ∧ components source = root.
Proof. apply Path_parent_Some. Qed.

Lemma crate_root_for_file_loop_components path pkgs :
  crate_root_for_file_loop path pkgs =
  spec_crate_root_for_file_loop (components path) pkgs.
Proof.
  induction pkgs as [|package pkgs IH]; simpl; [done|].
  rewrite <-crate_root_components. unfold crate_root.
  destruct (Path_parent _) as [source|]; simpl; [|done].
  by rewrite Path_starts_with_spec, IH.
Qed.

Lemma crate_root_path_components crate_name metadata :
  components <$> crate_root_path crate_name metadata =
  spec_crate_root_path crate_name metadata.
Proof.
  unfold crate_root_path, spec_crate_root_path.
  destruct (head _) as [pkg|]; simpl; [apply Path_parent_spec|done].
Qed.

Lemma crate_root_path_Some crate_name metadata root :
  spec_crate_root_path crate_name metadata = Some root ↔
  ∃ source, crate_root_path crate_name metadata = Some source ∧
    components source = root.
Proof.
  rewrite <-crate_root_path_components.
  destruct (crate_root_path _ _) as [source|]; simpl.
  - split; [intros [= <-]; by exists source|by intros (? & [= <-] & <-)].
  - split; [done|by intros (? & [=] & _)].
Qed.

(** Resolution on bytes is resolution on components. *)
Lemma resolve_module_path_components path metadata :
  resolve_module_path path metadata =
  spec_resolve_module_path (components path) metadata.
Proof.
  unfold resolve_module_path, spec_resolve_module_path, crate_root_for_file,
    spec_crate_root_for_file.
  rewrite crate_root_for_file_loop_components.
  destruct (spec_crate_root_for_file_loop _ _) as [crate_name|].
  - rewrite <-crate_root_path_components.
    destruct (crate_root_path _ _) as [source|]; simpl; [|done].
    rewrite <-Path_strip_prefix_spec.
    destruct (Path_strip_prefix _ _); simpl; [|done].
    by rewrite relative_path_to_module_path_components.
  - rewrite <-Path_strip_prefix_spec.
    destruct (Path_strip_prefix _ _); simpl; [|done].
    by rewrite relative_path_to_module_path_components.
Qed.

(** Resolution looks at a path through its components only. *)
#[export] Instance resolve_module_path_proper :
  Proper (path_equiv ==> (=) ==> (=)) resolve_module_path.
Proof.
  intros s t Hst metadata ? <-. rewrite !resolve_module_path_components.
  unfold path_equiv, Path_new in Hst. by rewrite Hst.
Qed.

(** ** The search for the crate of a file, on components *)

(** The search finds nothing when no crate root is a prefix of the path
    (whether or not every manifest has a parent). *)
Lemma crate_root_for_file_loop_None p pkgs :
  Forall (λ pkg, ∀ root, spec_crate_root pkg = Some root → ¬ root `prefix_of` p) pkgs →
  spec_crate_root_for_file_loop p pkgs = None.
Proof.
  induction 1 as [|pkg pkgs Hpkg _ IH]; simpl; [done|].
  destruct (spec_crate_root _) as [root|]; [|done].
  unfold path_starts_with. by rewrite bool_decide_eq_false_2 by by apply Hpkg.
Qed.

(** What the search returns is the name of the first package whose crate
    root is a prefix of the path, all packages before it having a crate root
    that is not. *)
Lemma crate_root_for_file_loop_Some p pkgs crate_name :
  spec_crate_root_for_file_loop p pkgs = Some crate_name ↔
  ∃ before pkg after root,
    pkgs = before ++ pkg :: after ∧ name pkg = crate_name ∧
    spec_crate_root pkg = Some root ∧ root `prefix_of` p ∧
    Forall (λ q, ∃ r, spec_crate_root q = Some r ∧ ¬ r `prefix_of` p) before.
Proof.
  induction pkgs as [|q pkgs IH]; simpl.
  { split; [done|]. intros (before & ? & ? & ? & Heq & _). by destruct before. }
  destruct (spec_crate_root q) as [root|] eqn:Hq.
  - unfold path_starts_with. case_bool_decide as Hpre.
    + split.
      * intros [= <-]. by exists [], q, pkgs, root.
      * intros ([|q' before] & pkg & after & r & Heq & <- & Hr & Hrp & Hb);
          simplify_eq/=; [done|].
        apply Forall_cons in Hb as [(r' & Hr' & Hn) _]. by simplify_eq.
    + rewrite IH. split.
      * intros (before & pkg & after & r & -> & <- & Hr & Hrp & Hb).
        exists (q :: before), pkg, after, r. split_and!; try done.
        apply Forall_cons. split; [|done]. by exists root.
      * intros ([|q' before] & pkg & after & r & Heq & <- & Hr & Hrp & Hb);
          simplify_eq/=; [done|].
        apply Forall_cons in Hb as [_ Hb]. by exists before, pkg, after, r.
  - split; [done|].
    intros ([|q' before] & pkg & after & r & Heq & <- & Hr & Hrp & Hb);
      simplify_eq/=.
    apply Forall_cons in Hb as [(r' & Hr' & _) _]. congruence.
Qed.

(** The search succeeds when every package has a crate root and one of the
    crate roots contains the path. *)
Lemma crate_root_for_file_loop_is_Some p pkgs pkg root :
  Forall (λ q, is_Some (spec_crate_root q)) pkgs → pkg ∈ pkgs →
  spec_crate_root pkg = Some root → root `prefix_of` p →
  is_Some (spec_crate_root_for_file_loop p pkgs).
Proof.
  intros Hall Hin Hroot Hpre. induction Hall as [|q pkgs [r Hq] _ IH]; simpl.
  { by apply elem_of_nil in Hin. }
  rewrite Hq. unfold path_starts_with.
  case_bool_decide as Hr; [done|]. apply IH.
  apply elem_of_cons in Hin as [->|Hin]; [|done]. by simplify_eq.
Qed.

Lemma crate_root_absolute metadata pkg root :
  absolute_manifests metadata → pkg ∈ packages metadata →
  spec_crate_root pkg = Some root → has_root root = true.
Proof.
  intros Habs Hin Hr. unfold absolute_manifests in Habs.
  rewrite Forall_forall in Habs. eapply parent_has_root; [done|]. by apply Habs.
Qed.

(** A relative path is in no crate when manifests are absolute. *)
Lemma crate_root_for_file_relative p metadata :
  absolute_manifests metadata → has_root p = false →
  spec_crate_root_for_file p metadata = None.
Proof.
  intros Habs Hrel. apply crate_root_for_file_loop_None, Forall_forall.
  intros pkg Hin root Hr Hpre.
  pose proof (crate_root_absolute _ _ _ Habs Hin Hr) as Hroot%has_root_head.
  apply (prefix_head _ _ _ Hpre), has_root_head in Hroot. congruence.
Qed.

(** With unique package names, looking the name of a package up finds that
    package. *)
Lemma find_package_unique metadata pkg :
  NoDup (name <$> packages metadata) → pkg ∈ packages metadata →
  head (filter (λ q, name q = name pkg) (packages metadata)) = Some pkg.
Proof.
  intros Hnd (before & after & Heq)%list_elem_of_split. rewrite Heq in *.
  rewrite fmap_app, fmap_cons in Hnd.
  apply NoDup_app in Hnd as (_ & Hnot & _).
  rewrite head_filter_app_cons; [done| |done].
  apply Forall_forall. intros q Hq Hname.
  apply (Hnot (name q)); [by apply list_elem_of_fmap_2|].
  rewrite Hname. by left.
Qed.

Lemma crate_root_path_unique metadata pkg :
  NoDup (name <$> packages metadata) → pkg ∈ packages metadata →
  spec_crate_root_path (name pkg) metadata = spec_crate_root pkg.
Proof.
  intros Hnd Hin. unfold spec_crate_root_path.
  by rewrite find_package_unique.
Qed.

Lemma crate_root_path_member metadata pkg :
  NoDup (name <$> packages metadata) → pkg ∈ packages metadata →
  crate_root_path (name pkg) metadata = crate_root pkg.
Proof. intros Hnd Hin. unfold crate_root_path. by rewrite find_package_unique. Qed.

(** A file below the crate root of a package, all packages having a crate
    root and a name of their own, is resolved to the name of a package and
    the module path of what follows the crate root of that package. *)
Lemma spec_resolve_in_crate p metadata crate_name :
  NoDup (name <$> packages metadata) →
  spec_crate_root_for_file p metadata = Some crate_name →
  ∃ owner root rel,
    owner ∈ packages metadata ∧ name owner = crate_name ∧
    spec_crate_root_path crate_name metadata = Some root ∧ p = root ++ rel ∧
    spec_resolve_module_path p metadata =
      Some (crate_name +::+ spec_relative_path_to_module_path rel).
Proof.
  intros Hnd Hc. unfold spec_resolve_module_path. rewrite Hc.
  apply crate_root_for_file_loop_Some in Hc
    as (before & owner & after & root & Heq & <- & Hroot & [rel Hrel] & _).
  assert (owner ∈ packages metadata) as Hin
    by (rewrite Heq, elem_of_app; right; by left).
  exists owner, root, rel. rewrite (crate_root_path_unique _ _ Hnd Hin), Hroot.
  split_and!; [done..|]. simpl.
  by rewrite Hrel, (proj2 (path_strip_prefix_Some _ _ rel)).
Qed.

(** The search on bytes succeeds where the search on components does. *)
Lemma crate_root_for_file_is_Some path metadata pkg root :
  Forall (λ q, is_Some (crate_root q)) (packages metadata) →
  pkg ∈ packages metadata → crate_root pkg = Some root →
  components root `prefix_of` components path →
  is_Some (crate_root_for_file path metadata).
Proof.
  intros Hall Hin Hroot Hpre. unfold crate_root_for_file.
  rewrite crate_root_for_file_loop_components.
  eapply crate_root_for_file_loop_is_Some; [|done| |done].
  - eapply Forall_impl; [done|]. intros q Hq. simpl.
    rewrite <-crate_root_components. by apply fmap_is_Some.
  - apply crate_root_Some. by exists root.
Qed.

(** ** Resolution *)

(** A relative path is resolved by the fallback alone when manifests are
    absolute: strip [src], convert the rest. *)
Lemma resolve_module_path_relative file metadata :
  absolute_manifests metadata → has_root (components file) = false →
  resolve_module_path file metadata =
  spec_relative_path_to_module_path <$>
    path_strip_prefix (components file) (components "src").
Proof.
  intros Habs Hrel. rewrite resolve_module_path_components.
  unfold spec_resolve_module_path.
  rewrite crate_root_for_file_relative by done.
  by destruct (path_strip_prefix _ _).
Qed.

(** ** Properties of module path resolution *)

(** C9: the resolution the program computes on the bytes of a path, with
    [parent], [starts_with] and [strip_prefix] of the standard library on
    slices, is the resolution on the components of the path; so is the
    search for the crate of a file. *)
Theorem resolve_module_path_refines path metadata :
  resolve_module_path path metadata =
    spec_resolve_module_path (components path) metadata ∧
  crate_root_for_file path metadata =
    spec_crate_root_for_file (components path) metadata.
Proof.
  split; [apply resolve_module_path_components|].
  apply crate_root_for_file_loop_components.
Qed.

(** Two strings with the same components resolve alike; in
    particular a path and its normal form ([a//b/./c.rs] and [a/b/c.rs])
    have the same module path. *)
Theorem resolve_module_path_normalised file metadata :
  resolve_module_path (render (Path_new file)) metadata =
  resolve_module_path file metadata.
Proof. by rewrite render_path_equiv. Qed.

(** C6: a path that begins with [./], as every path found
    under the root [./src] does, is never resolved when manifests are
    absolute: no crate root is a prefix of it, and [src] is not a prefix of
    it either, its first component being [.]; the file is dropped from the
    report. *)
Theorem resolve_dot_slash_unresolved rest metadata :
  absolute_manifests metadata →
  resolve_module_path ("./" +:+ rest) metadata = None.
Proof.
  intros Habs. rewrite resolve_module_path_relative by done.
  by rewrite components_dot_slash.
Qed.

Lemma resolve_dot_slash_unresolved_witness :
  resolve_module_path ("./" +:+ "src/foo/bar.rs")
    (mkMetadata [mkPackage "app" "/work/app/Cargo.toml";
                 mkPackage "bevy_ecs" "/cargo/bevy_ecs-0.15.0/Cargo.toml"]) = None.
Proof.
  apply resolve_dot_slash_unresolved. unfold absolute_manifests.
  repeat constructor.
Defined.

Lemma strip_src rest :
  path_strip_prefix (components ("src/" +:+ rest)) (components "src") =
  Some (path_body rest).
Proof.
  rewrite components_src_slash.
  change (components "src") with [Normal "src"].
  change (Normal "src" :: path_body rest) with ([Normal "src"] ++ path_body rest).
  unfold path_strip_prefix. by rewrite list_strip_prefix_app.
Qed.

(** C26: a relative path [src/rest] is resolved to the module
    path of what [strip_prefix] leaves of it, a slice with the components of
    [rest], with no crate name in front. *)
Theorem resolve_local_file rest metadata :
  absolute_manifests metadata →
  ∃ relative_path,
    Path_strip_prefix ("src/" +:+ rest) "src" = Ok relative_path ∧
    components relative_path = path_body rest ∧
    resolve_module_path ("src/" +:+ rest) metadata =
      Some (relative_path_to_module_path relative_path).
Proof.
  intros Habs.
  destruct (proj1 (Path_strip_prefix_Some _ _ _) (strip_src rest))
    as (relative_path & Hs & Hc).
  exists relative_path. split_and!; [done..|].
  rewrite resolve_module_path_relative, strip_src; [|done|by rewrite components_src_slash].
  by rewrite relative_path_to_module_path_components, Hc.
Qed.

Lemma resolve_local_file_witness :
  ∃ relative_path,
    Path_strip_prefix ("src/" +:+ "foo//bar.rs") "src" = Ok relative_path ∧
    components relative_path = path_body "foo//bar.rs" ∧
    resolve_module_path ("src/" +:+ "foo//bar.rs")
      (mkMetadata [mkPackage "app" "/work/app/Cargo.toml"]) =
      Some (relative_path_to_module_path relative_path).
Proof.
  apply resolve_local_file. unfold absolute_manifests. repeat constructor.
Defined.

(** The examples of the design: [src/foo/bar.rs] is the
    module [foo::bar], and [src/foo/mod.rs] is the module [foo]: the [mod]
    segment is dropped, not appended. *)
Theorem module_path_examples metadata :
  absolute_manifests metadata →
  resolve_module_path "src/foo/bar.rs" metadata = Some "foo::bar" ∧
  resolve_module_path "src/foo/mod.rs" metadata = Some "foo".
Proof. intros Habs. by rewrite !resolve_module_path_relative. Qed.

Lemma module_path_examples_witness :
  resolve_module_path "src/foo/bar.rs" (mkMetadata []) = Some "foo::bar" ∧
  resolve_module_path "src/foo/mod.rs" (mkMetadata []) = Some "foo".
Proof. apply module_path_examples. constructor. Defined.

(** C34: the crate of a file is the first package, in the
    order of the metadata, whose crate root has components that begin those
    of the path, provided every package before it has a crate root; with
    nested crate roots the outcome depends on that order. *)
Theorem crate_root_for_file_first_match path metadata crate_name :
  crate_root_for_file path metadata = Some crate_name ↔
  ∃ before pkg after root,
    packages metadata = before ++ pkg :: after ∧ name pkg = crate_name ∧
    crate_root pkg = Some root ∧ components root `prefix_of` components path ∧
    Forall (λ q, ∃ r, crate_root q = Some r ∧
                      ¬ components r `prefix_of` components path) before.
Proof.
  unfold crate_root_for_file.
  rewrite crate_root_for_file_loop_components, crate_root_for_file_loop_Some.
  split.
  - intros (before & pkg & after & ? & Heq & Hn
            & (root & Hr & <-)%crate_root_Some & Hpre & Hb).
    exists before, pkg, after, root. split_and!; [done..|].
    eapply Forall_impl; [done|]. simpl.
    intros q (? & (r & ? & <-)%crate_root_Some & ?). by exists r.
  - intros (before & pkg & after & root & Heq & Hn & Hr & Hpre & Hb).
    exists before, pkg, after, (components root).
    split_and!; [done..|apply crate_root_Some; by exists root|done|].
    eapply Forall_impl; [done|]. simpl.
    intros q (r & ? & ?). exists (components r).
    split; [apply crate_root_Some; by exists r|done].
Qed.

(** A file in a crate belongs to a package of that name, and is resolved
    with the crate root of the first package of the name. *)
Lemma resolve_module_path_in_crate file metadata crate_name :
  NoDup (name <$> packages metadata) →
  crate_root_for_file file metadata = Some crate_name →
  ∃ owner root relative_path,
    owner ∈ packages metadata ∧ name owner = crate_name ∧
    crate_root_path crate_name metadata = Some root ∧
    Path_strip_prefix file root = Ok relative_path ∧
    components file = components root ++ components relative_path ∧
    resolve_module_path file metadata =
      Some (crate_name +::+ relative_path_to_module_path relative_path).
Proof.
  intros Hnd Hc. unfold resolve_module_path. rewrite Hc.
  unfold crate_root_for_file in Hc.
  rewrite crate_root_for_file_loop_components in Hc.
  apply spec_resolve_in_crate in Hc
    as (owner & ? & rel & Hin & Hname
        & (root & Hroot & <-)%crate_root_path_Some & Hrel & _); [|done].
  destruct (proj1 (Path_strip_prefix_Some file root rel))
    as (relative_path & Hs & <-); [by apply path_strip_prefix_Some|].
  exists owner, root, relative_path. rewrite Hroot. simpl. by rewrite Hs.
Qed.

(** C20: when package names are unique, a file found in a crate
    is resolved to the crate's name followed by the module path of the
    slice of the file's path that follows the crate root. *)
Theorem resolve_in_crate file metadata crate_name :
  NoDup (name <$> packages metadata) →
  crate_root_for_file file metadata = Some crate_name →
  ∃ root relative_path,
    crate_root_path crate_name metadata = Some root ∧
    Path_strip_prefix file root = Ok relative_path ∧
    components file = components root ++ components relative_path ∧
    resolve_module_path file metadata =
      Some (crate_name +::+ relative_path_to_module_path relative_path).
Proof.
  intros Hnd Hc.
  destruct (resolve_module_path_in_crate _ _ _ Hnd Hc)
    as (_ & root & relative_path & _ & _ & ?).
  by exists root, relative_path.
Qed.

Lemma resolve_in_crate_witness :
  ∃ root relative_path,
    crate_root_path "bevy_ecs"
      (mkMetadata [mkPackage "bevy_ecs" "/cargo/bevy_ecs-0.15.0/Cargo.toml"]) = Some root ∧
    Path_strip_prefix "/cargo/bevy_ecs-0.15.0/src/component.rs" root =
      Ok relative_path ∧
    components "/cargo/bevy_ecs-0.15.0/src/component.rs" =
      components root ++ components relative_path ∧
    resolve_module_path "/cargo/bevy_ecs-0.15.0/src/component.rs"
      (mkMetadata [mkPackage "bevy_ecs" "/cargo/bevy_ecs-0.15.0/Cargo.toml"]) =
      Some ("bevy_ecs" +::+ relative_path_to_module_path relative_path).
Proof.
  apply (resolve_in_crate "/cargo/bevy_ecs-0.15.0/src/component.rs"
           (mkMetadata [mkPackage "bevy_ecs" "/cargo/bevy_ecs-0.15.0/Cargo.toml"])
           "bevy_ecs").
  - apply NoDup_singleton.
  - by vm_compute.
Defined.

(** C33: two packages of the same name (two versions
    of a crate): a file of the second is attributed to the name, the name is
    looked up again and gives the root of the first, stripping that root
    fails, and the file is dropped. *)
Theorem duplicate_crate_name_drops_file file (p1 p2 : Package) root1 root2 :
  name p1 = name p2 →
  crate_root p1 = Some root1 → crate_root p2 = Some root2 →
  Path_starts_with file root1 = false → Path_starts_with file root2 = true →
  resolve_module_path file (mkMetadata [p1; p2]) = None.
Proof.
  unfold crate_root. intros Hname H1 H2 Hn1 Hp2.
  unfold resolve_module_path, crate_root_for_file, crate_root_path.
  cbn [packages crate_root_for_file_loop]. rewrite H1, Hn1, H2, Hp2.
  rewrite filter_cons_True by done. cbn [head mbind option_bind].
  rewrite H1. cbn [mbind option_bind].
  by rewrite (Path_strip_prefix_Err _ _ Hn1).
Qed.

Lemma duplicate_crate_name_drops_file_witness :
  resolve_module_path "/cargo/bevy_a-2.0.0/src/lib.rs"
    (mkMetadata [mkPackage "bevy_a" "/cargo/bevy_a-1.0.0/Cargo.toml";
                 mkPackage "bevy_a" "/cargo/bevy_a-2.0.0/Cargo.toml"]) = None.
Proof.
  by apply (duplicate_crate_name_drops_file _ _ _
              "/cargo/bevy_a-1.0.0" "/cargo/bevy_a-2.0.0").
Defined.

(** No segment of a module path is [mod], and none ends
    in [.rs]: the filter and the trimming apply to every component of the
    relative path, directories included. *)
Theorem module_segments_clean comps :
  Forall (λ s, s ≠ "mod" ∧ strip_suffix s ".rs" = None) (module_segments comps).
Proof.
  unfold module_segments. apply Forall_forall. intros s.
  rewrite list_elem_of_filter, list_elem_of_fmap.
  intros [Hmod (t & -> & _)]. split; [done|].
  by apply trim_end_matches_go_done.
Qed.

(** C40: a component named [mod] or [mod.rs] is dropped
    wherever it stands in the path, not only at its end, and [.rs] is
    trimmed from directory names and more than once: [src/mod/a.rs/b.rs.rs]
    is the module [a::b]. *)
Theorem mod_dropped_anywhere before after :
  module_segments (before ++ "mod" :: after) =
    module_segments before ++ module_segments after ∧
  module_segments (before ++ "mod.rs" :: after) =
    module_segments before ++ module_segments after ∧
  relative_path_to_module_path "mod/a.rs/b.rs.rs" = "a::b".
Proof.
  unfold module_segments.
  rewrite !omap_app, !fmap_app, !filter_app. cbn [omap list_omap].
  rewrite !(to_str_utf8 "mod"), !(to_str_utf8 "mod.rs") by by apply utf8_ascii.
  by rewrite !fmap_cons, !filter_cons.
Qed.

(** ** Components that are text *)

Lemma path_strip_prefix_utf8 (p base r : Path) :
  path_strip_prefix p base = Some r → utf8_path p → utf8_path r.
Proof. intros ->%path_strip_prefix_Some. by intros [_ ?]%Forall_app. Qed.

(** The segments are text whatever the components are: [to_str] lets no
    other component through. *)
Lemma module_segments_utf8 comps : Forall utf8 (module_segments comps).
Proof.
  apply Forall_forall. intros s.
  intros [_ (t & -> & (comp & _ & Ht)%list_elem_of_omap)%list_elem_of_fmap]
    %list_elem_of_filter.
  apply to_str_Some in Ht as [-> Ht]. by apply utf8_trim_end_matches.
Qed.

Lemma relative_path_to_module_path_utf8 relative_path :
  utf8 (relative_path_to_module_path relative_path).
Proof. apply utf8_join; [by apply utf8_ascii|apply module_segments_utf8]. Qed.

(** The crate of a file is the name of a package. *)
Lemma crate_root_for_file_name path metadata crate_name :
  crate_root_for_file path metadata = Some crate_name →
  ∃ pkg, pkg ∈ packages metadata ∧ name pkg = crate_name.
Proof.
  unfold crate_root_for_file.
  induction (packages metadata) as [|q pkgs IH]; simpl; [done|].
  destruct (Path_parent _); [|done]. destruct (Path_starts_with _ _).
  - intros [= <-]. exists q. split; [by left|done].
  - intros (pkg & ? & ?)%IH. exists pkg. split; [by right|done].
Qed.

(** With package names that are text, as every [String] is, so is what
    [resolve_module_path] returns. *)
Lemma resolve_module_path_utf8 file metadata module_path :
  Forall (λ q, utf8 (name q)) (packages metadata) →
  resolve_module_path file metadata = Some module_path → utf8 module_path.
Proof.
  intros Hnames. unfold resolve_module_path.
  destruct (crate_root_for_file _ _) as [crate_name|] eqn:Hc; intros Hr;
    simplify_option_eq; [|apply relative_path_to_module_path_utf8].
  apply utf8_qualify; [|apply relative_path_to_module_path_utf8].
  apply crate_root_for_file_name in Hc as (pkg & Hin & <-).
  rewrite Forall_forall in Hnames. by apply Hnames.
Qed.

(** A component that is not text leaves no trace in the module path. *)
Lemma non_text_component_dropped bad comps :
  ¬ utf8 bad → module_segments (bad :: comps) = module_segments comps.
Proof. intros Hbad%to_str_None. unfold module_segments. csimpl. by rewrite Hbad. Qed.

(** The components of a slice of a path that is text are text. *)
Lemma Path_strip_prefix_utf8 file base relative_path :
  utf8 file → Path_strip_prefix file base = Ok relative_path →
  omap to_str (Path_iter relative_path) = Path_iter relative_path.
Proof.
  intros Hf Hs. rewrite Path_iter_spec. apply omap_to_str_utf8.
  eapply path_strip_prefix_utf8; [|by apply utf8_components].
  apply Path_strip_prefix_Some. by exists relative_path.
Qed.

(** [resolve_module_path] is given a [&str]: every component of the
    path and of what is left of it after a prefix is text, so that
    [to_str] drops none of them, and the segments are those of all the
    components. *)
Theorem module_segments_of_text file base relative_path :
  utf8 file → Path_strip_prefix file base = Ok relative_path →
  module_segments (Path_iter relative_path) =
  filter (λ s, s ≠ "mod")
    ((λ s, trim_end_matches s ".rs") <$> Path_iter relative_path).
Proof.
  intros Hf Hr. unfold module_segments.
  by rewrite (Path_strip_prefix_utf8 file base).
Qed.

Lemma module_segments_of_text_witness :
  module_segments (Path_iter "ui/mod.rs") =
  filter (λ s, s ≠ "mod")
    ((λ s, trim_end_matches s ".rs") <$> Path_iter "ui/mod.rs").
Proof.
  apply (module_segments_of_text "src/ui/mod.rs" "src").
  - by apply utf8_ascii.
  - reflexivity.
Defined.
