(* ===== verification/WalkDir.v ===== *)
(** * WalkDir: the iterator of [walkdir]

    The loop of [collect_source_files] (lines 47-50) runs over
    [WalkDir::new(dir).into_iter().filter_entry(..).filter_map(|e| e.ok())].
    This file is that chain of iterators.

    The file system is data: a tree of [FsNode], a directory listing its
    entries by name in the order the operating system returns them; a
    [FileSystem] says what is found at the path a walk starts from.

    [IntoIter] is the iterator of [walkdir] with its default options: the
    root that is yet to be visited ([start]) and a stack of open
    directories ([stack_list], the top first), each with the entries it has
    yet to yield ([DirList]).  [IntoIter_next] yields the root, then pops
    the directories that are exhausted and yields the next entry of the
    one on top, opening it ([push]) when it is a directory.
    [FilterEntry_next] calls it until the predicate accepts an entry; a
    directory that is rejected has been opened already and is closed again
    ([skip_current_dir]), which is how its contents are skipped.
    [walkdir_entries] drives the chain to its end as the [for] loop does,
    dropping the errors.

    Every entry carries what the file system holds at its path
    ([dent_node]): the file type and, for a directory, what reading it
    returns.  A directory that cannot be read is one without entries: the
    error it yields is dropped by [filter_map].  The options are the
    defaults ([min_depth] 0, no [max_depth], no sorting, no
    [contents_first], links not followed), so the depth of an entry plays
    no part and is left out, and a symbolic link is a file.

    The specification is the recursive walk [walk_tree]: an entry the
    predicate accepts, followed by the walks of its entries in listing
    order.  The theorem [walkdir_entries_spec] says that the iterators
    yield it; the fuel of their loops is the number of entries that are
    left ([work]). *)

From S2P Require Import Prelude RustStr Utf8 RustPath.

(** ** The file system *)

Unset Elimination Schemes.
Inductive FsNode :=
| FsFile
| FsDir (entries : list (string * FsNode)).
Set Elimination Schemes.

Abbreviation FileSystem := (string → option FsNode).

Section FsNode_induction.
Context (P : FsNode → Prop).
Context (Hfile : P FsFile).
Context (Hdir : ∀ entries, Forall (λ e, P e.2) entries → P (FsDir entries)).

Fixpoint FsNode_ind (node : FsNode) : P node :=
  match node with
  | FsFile => Hfile
  | FsDir entries =>
      Hdir entries
        ((fix go (l : list (string * FsNode)) : Forall (λ e, P e.2) l :=
            match l with
            | [] => Forall_nil_2 _
            | e :: l' => Forall_cons_2 (λ e, P e.2) e l' (FsNode_ind e.2) (go l')
            end) entries)
  end.
End FsNode_induction.

(** ** The iterators *)

(** [walkdir::DirEntry]: the path of the entry and what is found there. *)
Record DirEntry := mkDirEntry { dent_path : string; dent_node : FsNode }.

(** [walkdir::Error], for a root that cannot be read. *)
Inductive WalkError := mkWalkError (path : string).

(** [DirList]: an open directory, with the entries it has yet to yield. *)
Record DirList := mkDirList {
  list_path : string;
  list_rest : list (string * FsNode)
}.

Record IntoIter := mkIntoIter {
  start : option string;
  stack_list : list DirList
}.

Implicit Types (fs : FileSystem) (node child : FsNode)
  (entries : list (string * FsNode)) (dent : DirEntry) (it : IntoIter)
  (stack below : list DirList) (predicate : DirEntry → bool)
  (root path : string) (fuel : nat).

(** [dent.is_dir()] *)
Definition is_dir dent : bool :=
  match dent_node dent with FsDir _ => true | FsFile => false end.

(** [fs::read_dir(dent.path())] *)
Definition read_dir dent : list (string * FsNode) :=
  match dent_node dent with FsDir entries => entries | FsFile => [] end.

(** [DirEntry::from_path(0, root, ..)] *)
Definition from_path fs root : Result DirEntry WalkError :=
  match fs root with
  | Some node => Ok (mkDirEntry root node)
  | None => Err (mkWalkError root)
  end.

(** [WalkDir::new(root).into_iter()] *)
Definition WalkDir_new root : IntoIter := mkIntoIter (Some root) [].

(** [DirList::next]: the path of an entry is the path of the directory
    joined with its name. *)
Definition DirList_next (l : DirList) : option DirEntry * DirList :=
  match list_rest l with
  | [] => (None, l)
  | (name, child) :: rest =>
      (Some (mkDirEntry (path_join (list_path l) name) child),
       mkDirList (list_path l) rest)
  end.

(** [IntoIter::push] and [IntoIter::pop] *)
Definition push it dent : IntoIter :=
  mkIntoIter (start it) (mkDirList (dent_path dent) (read_dir dent) :: stack_list it).

Definition pop it : IntoIter := mkIntoIter (start it) (tail (stack_list it)).

(** [IntoIter::skip_current_dir] *)
Definition skip_current_dir it : IntoIter :=
  if bool_decide (stack_list it ≠ []) then pop it else it.

(** [IntoIter::handle_entry]: a directory is opened before it is
    yielded. *)
Definition handle_entry it dent : option (Result DirEntry WalkError) * IntoIter :=
  let it := if is_dir dent then push it dent else it in
  (Some (Ok dent), it).

(** The [while] loop of [IntoIter::next]. *)
Fixpoint IntoIter_next_loop fuel it : option (Result DirEntry WalkError) * IntoIter :=
  match fuel with
  | 0 => (None, it)
  | S fuel =>
      match stack_list it with
      | [] => (None, it)
      | top :: below =>
          let '(next, top) := DirList_next top in
          let it := mkIntoIter (start it) (top :: below) in
          match next with
          | None => IntoIter_next_loop fuel (pop it)
          | Some dent =>
              match handle_entry it dent with
              | (Some result, it) => (Some result, it)
              | (None, it) => IntoIter_next_loop fuel it
              end
          end
      end
  end.

(** [IntoIter::next]; every round of the loop that yields nothing pops a
    directory. *)
Definition IntoIter_next fs it : option (Result DirEntry WalkError) * IntoIter :=
  let fuel := S (length (stack_list it)) in
  match start it with
  | Some root =>
      let it := mkIntoIter None (stack_list it) in
      match from_path fs root with
      | Err err => (Some (Err err), it)
      | Ok dent =>
          match handle_entry it dent with
          | (Some result, it) => (Some result, it)
          | (None, it) => IntoIter_next_loop fuel it
          end
      end
  | None => IntoIter_next_loop fuel it
  end.

(** The [loop] of [FilterEntry::next]. *)
Fixpoint FilterEntry_next_loop fuel fs predicate it :
    option (Result DirEntry WalkError) * IntoIter :=
  match fuel with
  | 0 => (None, it)
  | S fuel =>
      match IntoIter_next fs it with
      | (None, it) => (None, it)
      | (Some (Err err), it) => (Some (Err err), it)
      | (Some (Ok dent), it) =>
          if negb (predicate dent) then
            let it := if is_dir dent then skip_current_dir it else it in
            FilterEntry_next_loop fuel fs predicate it
          else (Some (Ok dent), it)
      end
  end.

(** The entries a walk has yet to visit. *)
Fixpoint node_size node : nat :=
  match node with
  | FsFile => 1
  | FsDir entries => S (foldr (λ e acc, node_size e.2 + acc) 0 entries)
  end.

Definition entries_size entries : nat :=
  foldr (λ e acc, node_size e.2 + acc) 0 entries.

Definition work stack : nat :=
  foldr (λ l acc, entries_size (list_rest l) + acc) 0 stack.

Definition work_left fs it : nat :=
  match start it with
  | Some root => S (from_option node_size 0 (fs root))
  | None => 0
  end + work (stack_list it).

Definition FilterEntry_next fs predicate it :
    option (Result DirEntry WalkError) * IntoIter :=
  FilterEntry_next_loop (S (work_left fs it)) fs predicate it.

(** The [for] loop over [.filter_map(|e| e.ok())]: the entries in the
    order in which the body of the loop sees them. *)
Fixpoint filter_map_ok_loop fuel fs predicate it : list DirEntry :=
  match fuel with
  | 0 => []
  | S fuel =>
      match FilterEntry_next fs predicate it with
      | (None, _) => []
      | (Some (Ok dent), it) => dent :: filter_map_ok_loop fuel fs predicate it
      | (Some (Err _), it) => filter_map_ok_loop fuel fs predicate it
      end
  end.

Definition walkdir_entries fs predicate root : list DirEntry :=
  let it := WalkDir_new root in
  filter_map_ok_loop (S (S (work_left fs it))) fs predicate it.

(** ** Specification: the recursive walk *)

(** The entry at [path] if the predicate accepts it, then what is below
    it, entry by entry. *)
Fixpoint walk_tree predicate path node : list DirEntry :=
  if predicate (mkDirEntry path node) then
    mkDirEntry path node ::
    match node with
    | FsFile => []
    | FsDir entries =>
        flat_map (λ '(name, child), walk_tree predicate (path_join path name) child)
          entries
    end
  else [].

Definition walk_entries predicate path entries : list DirEntry :=
  flat_map (λ '(name, child), walk_tree predicate (path_join path name) child)
    entries.

(** What a stack of open directories has yet to yield. *)
Definition pending predicate stack : list DirEntry :=
  flat_map (λ l, walk_entries predicate (list_path l) (list_rest l)) stack.

(** ** The iterators yield the recursive walk *)

Lemma walk_tree_unfold predicate dent :
  walk_tree predicate (dent_path dent) (dent_node dent) =
  if predicate dent
  then dent :: walk_entries predicate (dent_path dent) (read_dir dent)
  else [].
Proof. by destruct dent as [path []]. Qed.

Lemma node_size_unfold path node :
  node_size node = S (entries_size (read_dir (mkDirEntry path node))).
Proof. by destruct node. Qed.

Lemma read_dir_file dent : is_dir dent = false → read_dir dent = [].
Proof. by destruct dent as [path []]. Qed.

(** The stack after an entry was yielded: its directory on top if it is
    one, and after the rejection of the entry: that directory closed. *)
Lemma handle_entry_stack it dent :
  handle_entry it dent =
    (Some (Ok dent),
     mkIntoIter (start it)
       ((if is_dir dent then [mkDirList (dent_path dent) (read_dir dent)] else [])
        ++ stack_list it)).
Proof. unfold handle_entry, push. destruct (is_dir dent), it; done. Qed.

Lemma pending_opened predicate dent stack :
  pending predicate
    ((if is_dir dent then [mkDirList (dent_path dent) (read_dir dent)] else [])
     ++ stack) =
  walk_entries predicate (dent_path dent) (read_dir dent) ++ pending predicate stack.
Proof. destruct (is_dir dent) eqn:Hd; [done|]. by rewrite read_dir_file. Qed.

Lemma work_opened dent stack :
  work ((if is_dir dent then [mkDirList (dent_path dent) (read_dir dent)] else [])
        ++ stack) =
  entries_size (read_dir dent) + work stack.
Proof. destruct (is_dir dent) eqn:Hd; [done|]. by rewrite read_dir_file. Qed.

Lemma skip_opened dent stack :
  (if is_dir dent
   then skip_current_dir
          (mkIntoIter None
             ((if is_dir dent then [mkDirList (dent_path dent) (read_dir dent)] else [])
              ++ stack))
   else mkIntoIter None
          ((if is_dir dent then [mkDirList (dent_path dent) (read_dir dent)] else [])
           ++ stack)) =
  mkIntoIter None stack.
Proof. by destruct (is_dir dent). Qed.

Lemma pending_cons predicate path name child rest below :
  pending predicate (mkDirList path ((name, child) :: rest) :: below) =
  walk_tree predicate (path_join path name) child ++
  pending predicate (mkDirList path rest :: below).
Proof. unfold pending, walk_entries. simpl. by rewrite app_assoc. Qed.

Lemma work_cons path name child rest below :
  work (mkDirList path ((name, child) :: rest) :: below) =
  node_size child + work (mkDirList path rest :: below).
Proof. unfold work, entries_size. simpl. lia. Qed.

(** One call of [next] on an iterator that has yielded its root: nothing
    when nothing is left; otherwise the entry that heads the walk if the
    predicate accepts it, and an entry whose rejection skips what the walk
    skips. *)
Lemma IntoIter_next_loop_spec fuel stack :
  length stack < fuel →
  match IntoIter_next_loop fuel (mkIntoIter None stack) with
  | (None, _) => work stack = 0 ∧ ∀ predicate, pending predicate stack = []
  | (Some (Ok dent), it') =>
      ∃ stack',
        it' = mkIntoIter None
                ((if is_dir dent then [mkDirList (dent_path dent) (read_dir dent)]
                  else []) ++ stack') ∧
        work stack = S (entries_size (read_dir dent) + work stack') ∧
        ∀ predicate, pending predicate stack =
          walk_tree predicate (dent_path dent) (dent_node dent) ++
          pending predicate stack'
  | (Some (Err _), _) => False
  end.
Proof.
  revert fuel. induction stack as [|[path entries] below IH]; intros fuel Hfuel.
  { by destruct fuel. }
  destruct fuel as [|fuel]; [simpl in Hfuel; lia|].
  cbn [IntoIter_next_loop stack_list start]. unfold DirList_next. cbn [list_rest list_path].
  destruct entries as [|[name child] rest].
  - specialize (IH fuel). unfold pop. cbn [stack_list start tail].
    destruct (IntoIter_next_loop fuel _) as [[[dent|err]|] it'];
      apply IH; simpl in Hfuel; lia.
  - rewrite handle_entry_stack. cbn [start stack_list].
    exists (mkDirList path rest :: below). split; [done|].
    rewrite work_cons, (node_size_unfold (path_join path name) child).
    split; [done|]. intros predicate. apply pending_cons.
Qed.

(** A call of [FilterEntry::next] yields the head of what is pending. *)
Lemma FilterEntry_next_loop_spec fuel fs predicate stack :
  work stack < fuel →
  match FilterEntry_next_loop fuel fs predicate (mkIntoIter None stack) with
  | (None, _) => pending predicate stack = []
  | (Some (Ok dent), it') =>
      ∃ stack', it' = mkIntoIter None stack' ∧ work stack' < work stack ∧
        pending predicate stack = dent :: pending predicate stack'
  | (Some (Err _), _) => False
  end.
Proof.
  revert stack. induction fuel as [|fuel IH]; intros stack Hfuel; [lia|].
  cbn [FilterEntry_next_loop]. unfold IntoIter_next. cbn [start stack_list].
  pose proof (IntoIter_next_loop_spec (S (length stack)) stack (Nat.lt_succ_diag_r _))
    as Hnext.
  destruct (IntoIter_next_loop _ _) as [[[dent|err]|] it']; [|done|by apply Hnext].
  destruct Hnext as (stack' & -> & Hwork & Hpending).
  rewrite Hpending, walk_tree_unfold. destruct (predicate dent); simpl.
  - eexists. split; [done|]. rewrite work_opened, pending_opened. split; [lia|done].
  - rewrite skip_opened. specialize (IH stack').
    destruct (FilterEntry_next_loop fuel fs predicate _) as [[[dent'|err]|] it''];
      [|apply IH; lia..].
    destruct IH as (stack'' & -> & ? & ?); [lia|]. exists stack''.
    split; [done|]. split; [lia|done].
Qed.

(** Driven to its end, the chain yields all that is pending. *)
Lemma filter_map_ok_loop_spec fuel fs predicate stack :
  work stack < fuel →
  filter_map_ok_loop fuel fs predicate (mkIntoIter None stack) =
  pending predicate stack.
Proof.
  revert stack. induction fuel as [|fuel IH]; intros stack Hfuel; [lia|].
  cbn [filter_map_ok_loop]. unfold FilterEntry_next, work_left.
  cbn [start stack_list].
  pose proof (FilterEntry_next_loop_spec (S (work stack)) fs predicate stack
                (Nat.lt_succ_diag_r _)) as Hnext.
  destruct (FilterEntry_next_loop _ _ _ _) as [[[dent|err]|] it']; [|done..].
  destruct Hnext as (stack' & -> & ? & ->). f_equal. apply IH. lia.
Qed.

Lemma filter_map_ok_loop_unfold fuel fs predicate it :
  filter_map_ok_loop (S fuel) fs predicate it =
  match FilterEntry_next fs predicate it with
  | (None, _) => []
  | (Some (Ok dent), it) => dent :: filter_map_ok_loop fuel fs predicate it
  | (Some (Err _), it) => filter_map_ok_loop fuel fs predicate it
  end.
Proof. done. Qed.

(** The first call: the root, if there is one and it is accepted. *)
Lemma FilterEntry_next_start fs predicate root :
  FilterEntry_next fs predicate (WalkDir_new root) =
  match fs root with
  | None => (Some (Err (mkWalkError root)), mkIntoIter None [])
  | Some node =>
      let dent := mkDirEntry root node in
      if predicate dent then
        (Some (Ok dent),
         mkIntoIter None
           ((if is_dir dent then [mkDirList root (read_dir dent)] else []) ++ []))
      else (None, mkIntoIter None [])
  end.
Proof.
  unfold FilterEntry_next, work_left, WalkDir_new. cbn [start stack_list].
  rewrite Nat.add_0_r. cbn [FilterEntry_next_loop].
  unfold IntoIter_next, from_path. cbn [start stack_list].
  destruct (fs root) as [[|entries]|]; [..|done]; simpl;
    by destruct (predicate _).
Qed.

(** [walkdir_entries] is the recursive walk of what is found at the root,
    and nothing if nothing is found there. *)
Theorem walkdir_entries_spec fs predicate root :
  walkdir_entries fs predicate root =
  match fs root with
  | Some node => walk_tree predicate root node
  | None => []
  end.
Proof.
  unfold walkdir_entries. cbv zeta.
  rewrite filter_map_ok_loop_unfold, FilterEntry_next_start.
  unfold work_left, WalkDir_new.
  cbn [start stack_list]. destruct (fs root) as [node|]; cbn [from_option].
  - pose proof (walk_tree_unfold predicate (mkDirEntry root node)) as Hw.
    cbn [dent_path dent_node] in Hw. rewrite Hw. cbv zeta.
    destruct (predicate _); [|done]. f_equal.
    rewrite filter_map_ok_loop_spec, pending_opened; [by rewrite app_nil_r|].
    rewrite work_opened, (node_size_unfold root node). simpl. lia.
  - by rewrite filter_map_ok_loop_spec by (simpl; lia).
Qed.
