(* ===== verification/Discovery.v ===== *)
(** * Discovery: which files are scanned

    [collect_source_files] (lines 46-56), [should_include_dir] (59-66) and
    [collect_dependency_files] (69-77).

    The loop of [collect_source_files] runs over the entries that the
    iterators of [WalkDir] yield, with [should_include_dir] as the filter;
    the path of the root is the string given to [WalkDir::new], the path
    of an entry is the path of its directory joined with its name.  The
    specification of that walk is the recursion [walk_dir]: the root
    first, then each entry of a directory followed by what is below it, in
    listing order, an excluded entry being left out together with
    everything below it ([walkdir_paths]).  Names are bytes: the tests on
    them go through [to_str], and the path of a source file is pushed as
    text ([to_string_lossy]); the last part of the file says what that
    means for names that are text and for names that are not.  The two
    tests on a path, [should_include_dir] and [has_rs_extension], call
    [file_name] and [extension] of [StdPath] and depend on the components
    of the path only; the walk of a package starts from the slice of the
    manifest path that [Path_parent] returns. *)

From S2P Require Import Prelude RustStr Utf8 RustPath StdPath ModulePath WalkDir.

(** ** The file system *)

(** Every name in the tree is a name a directory can list. *)
Fixpoint wf_fs (node : FsNode) : Prop :=
  match node with
  | FsFile => True
  | FsDir entries =>
      foldr (λ e acc, valid_name e.1 ∧ wf_fs e.2 ∧ acc) True entries
  end.

(** ** The walk *)

Implicit Types (dir entry_path : string) (source_files : list string)
  (fs : FileSystem) (node : FsNode) (metadata : Metadata).

(** [should_include_dir]: the entry is not named [examples] or [tests]; a
    name that is not text counts as the empty name. *)
Definition should_include_dir entry_path : bool :=
  let name := default "" (Path_file_name entry_path ≫= to_str) in
  negb (str_eqb name "examples" || str_eqb name "tests").

(** The paths of a walk, recursively: the entry [node] at [entry_path], if
    it is included, and what is below it.  This is the specification of
    the iterators of [WalkDir] with the filter [should_include_dir]
    ([walkdir_paths]). *)
Fixpoint walk_dir entry_path node : list string :=
  if should_include_dir entry_path then
    entry_path ::
    match node with
    | FsFile => []
    | FsDir entries =>
        flat_map (λ '(name, child), walk_dir (path_join entry_path name) child)
          entries
    end
  else [].

(** The entries of the walk started at [dir]; nothing if there is nothing
    at [dir]. *)
Definition walk_from fs dir : list string :=
  match fs dir with
  | Some node => walk_dir dir node
  | None => []
  end.

(** The test of line 52. *)
Definition has_rs_extension entry_path : bool :=
  bool_decide (Path_extension entry_path ≫= to_str = Some "rs").

(** The body of the [for] loop (lines 52-54): the path is pushed as
    text. *)
Definition push_if_source source_files entry_path : list string :=
  if has_rs_extension entry_path
  then source_files ++ [to_string_lossy entry_path]
  else source_files.

(** The loop runs over the entries that the iterators of [WalkDir] yield
    (lines 47-50); its body reads the path of the entry. *)
Definition collect_source_files fs dir source_files : list string :=
  foldl push_if_source source_files
    (dent_path <$>
       walkdir_entries fs (λ entry, should_include_dir (dent_path entry)) dir).

(** The body of the loop over the packages (lines 71-75); [source], a
    slice of the manifest path, is handed to the walk as a string
    ([as_str]). *)
Definition collect_package_files fs source_files (package : Package) : list string :=
  if str_starts_with (name package) "bevy_" then
    match Path_parent (manifest_path package) with
    | Some source => collect_source_files fs source source_files
    | None => source_files
    end
  else source_files.

Definition collect_dependency_files fs metadata source_files : list string :=
  foldl (collect_package_files fs) source_files (packages metadata).

(** The iterators yield the paths of the recursive walk. *)
Lemma walk_tree_paths entry_path node :
  dent_path <$> walk_tree (λ entry, should_include_dir (dent_path entry))
                  entry_path node =
  walk_dir entry_path node.
Proof.
  revert entry_path. induction node as [|entries IH] using FsNode_ind;
    intros entry_path; simpl; destruct (should_include_dir entry_path);
    [done..| |done].
  simpl. f_equal. induction IH as [|[name child] entries Hc _ IHe]; [done|].
  cbn [flat_map]. simpl in Hc. rewrite fmap_app, Hc. f_equal. apply IHe.
Qed.

Lemma walkdir_paths fs dir :
  dent_path <$>
    walkdir_entries fs (λ entry, should_include_dir (dent_path entry)) dir =
  walk_from fs dir.
Proof.
  rewrite walkdir_entries_spec. unfold walk_from.
  destruct (fs dir); [apply walk_tree_paths|done].
Qed.

(** The two tests look at a path through its components only. *)
#[export] Instance should_include_dir_proper :
  Proper (path_equiv ==> (=)) should_include_dir.
Proof.
  intros s t Hst. unfold should_include_dir, path_equiv, Path_new in *.
  by rewrite !Path_file_name_spec, Hst.
Qed.

#[export] Instance has_rs_extension_proper :
  Proper (path_equiv ==> (=)) has_rs_extension.
Proof.
  intros s t Hst. unfold has_rs_extension, path_equiv, Path_new in *.
  by rewrite !Path_extension_spec, Hst.
Qed.

(** ** The tests on bytes *)

(** [to_str] can fail, but not on a name that matters: the tests are
    comparisons of bytes. *)
Lemma should_include_dir_bytes entry_path :
  should_include_dir entry_path =
  negb (bool_decide (file_name (Path_new entry_path) = Some "examples") ||
        bool_decide (file_name (Path_new entry_path) = Some "tests")).
Proof.
  unfold should_include_dir, str_eqb, Path_new. rewrite Path_file_name_spec.
  destruct (file_name (components entry_path)) as [name|]; simpl; [|done].
  destruct (to_str_cases name) as [[-> Hn]|[-> Hn]]; simpl.
  - do 2 f_equal; apply bool_decide_ext; split; congruence.
  - by rewrite !bool_decide_eq_false_2
      by (intros [= ->]; by apply Hn, utf8_ascii).
Qed.

Lemma has_rs_extension_bytes entry_path :
  has_rs_extension entry_path =
  bool_decide (extension (Path_new entry_path) = Some "rs").
Proof.
  unfold has_rs_extension, Path_new. rewrite Path_extension_spec.
  apply bool_decide_ext, to_str_eq_Some.
  by apply utf8_ascii.
Qed.

(** ** The loops as lists *)

(** The source files among some entries, as text. *)
Definition sources_of (paths : list string) : list string :=
  to_string_lossy <$> filter (λ p, has_rs_extension p = true) paths.

Lemma push_if_source_spec source_files entry_path :
  push_if_source source_files entry_path =
  source_files ++ sources_of [entry_path].
Proof.
  unfold push_if_source, sources_of. rewrite filter_cons, filter_nil.
  destruct (has_rs_extension entry_path); [done|]. by rewrite decide_False, app_nil_r.
Qed.

Lemma sources_of_app paths paths' :
  sources_of (paths ++ paths') = sources_of paths ++ sources_of paths'.
Proof. unfold sources_of. by rewrite filter_app, fmap_app. Qed.

Lemma foldl_push_if_source source_files paths :
  foldl push_if_source source_files paths = source_files ++ sources_of paths.
Proof.
  revert source_files; induction paths as [|p paths IH]; intros source_files; simpl.
  - by rewrite app_nil_r.
  - rewrite IH, push_if_source_spec, <-app_assoc. f_equal.
    by rewrite <-sources_of_app.
Qed.

Lemma elem_of_sources_of paths p :
  p ∈ sources_of paths ↔
  ∃ entry_path, p = to_string_lossy entry_path ∧
    has_rs_extension entry_path = true ∧ entry_path ∈ paths.
Proof.
  unfold sources_of. rewrite list_elem_of_fmap.
  by setoid_rewrite list_elem_of_filter.
Qed.

(** What one package adds. *)
Definition package_files fs (package : Package) : list string :=
  if str_starts_with (name package) "bevy_" then
    match Path_parent (manifest_path package) with
    | Some source => sources_of (walk_from fs source)
    | None => []
    end
  else [].

Lemma collect_package_files_spec fs source_files package :
  collect_package_files fs source_files package =
  source_files ++ package_files fs package.
Proof.
  unfold collect_package_files, package_files, collect_source_files.
  destruct (str_starts_with _ _); [|by rewrite app_nil_r].
  destruct (Path_parent _); [|by rewrite app_nil_r].
  rewrite walkdir_paths. apply foldl_push_if_source.
Qed.

(** ** The paths of a walk *)

Lemma path_join_prefix dir name : ∃ rest, path_join dir name = dir +:+ rest.
Proof.
  unfold path_join. destruct (last_char dir) as [c|] eqn:Hl.
  - case_decide; by eexists.
  - apply last_char_None in Hl as ->. by exists name.
Qed.

(** Every path of a walk is the path of its root followed by more text. *)
Lemma walk_dir_prefix node entry_path p :
  p ∈ walk_dir entry_path node → ∃ rest, p = entry_path +:+ rest.
Proof.
  revert entry_path. induction node as [|entries IH] using FsNode_ind;
    intros entry_path; simpl; destruct (should_include_dir entry_path);
    try by intros ?%elem_of_nil.
  - intros ->%list_elem_of_singleton. exists "". by rewrite str_app_nil_r.
  - intros [->|Hin]%elem_of_cons; [exists ""; by rewrite str_app_nil_r|].
    apply elem_of_flat_map in Hin as ([name child] & Hin & Hp).
    rewrite Forall_forall in IH. apply (IH _ Hin) in Hp as [rest ->].
    destruct (path_join_prefix entry_path name) as [r ->].
    exists (r +:+ rest). by rewrite str_app_assoc.
Qed.

(** An excluded root yields nothing at all. *)
Lemma walk_dir_excluded node entry_path :
  should_include_dir entry_path = false → walk_dir entry_path node = [].
Proof. intros Hs. destruct node; simpl; by rewrite Hs. Qed.

(** ** Which entries a walk reaches *)

(** [fs_reach node names node']: descending from [node] through the entries
    called [names] leads to [node']. *)
Inductive fs_reach : FsNode → list string → FsNode → Prop :=
| fs_reach_here node : fs_reach node [] node
| fs_reach_down entries name child names node' :
    (name, child) ∈ entries → fs_reach child names node' →
    fs_reach (FsDir entries) (name :: names) node'.

Definition excluded_name (name : string) : Prop :=
  name = "examples" ∨ name = "tests".

#[export] Instance excluded_name_dec name : Decision (excluded_name name).
Proof. unfold excluded_name. apply _. Defined.

Lemma wf_fs_entry entries name child :
  wf_fs (FsDir entries) → (name, child) ∈ entries →
  valid_name name ∧ wf_fs child.
Proof.
  simpl. induction entries as [|e entries IH]; [by intros _ ?%elem_of_nil|].
  simpl. intros (Hn & Hc & Hrest) [<-|Hin]%elem_of_cons; [done|by apply IH].
Qed.

(** An entry is filtered by its own name. *)
Lemma should_include_dir_join dir name :
  valid_name name →
  should_include_dir (path_join dir name) = negb (bool_decide (excluded_name name)).
Proof.
  intros Hn. rewrite should_include_dir_bytes, file_name_path_join by done.
  rewrite <-bool_decide_or. f_equal. apply bool_decide_ext.
  unfold excluded_name. split; intros [?|?]; simplify_eq; auto.
Qed.

(** Soundness of the walk: what it yields is an entry reached through names
    none of which is excluded. *)
Lemma walk_dir_sound node entry_path p :
  wf_fs node → p ∈ walk_dir entry_path node →
  should_include_dir entry_path = true ∧
  ∃ names node', fs_reach node names node' ∧
    Forall (λ n, ¬ excluded_name n) names ∧ p = foldl path_join entry_path names.
Proof.
  revert entry_path. induction node as [|entries IH] using FsNode_ind;
    intros entry_path Hwf; simpl;
    destruct (should_include_dir entry_path) eqn:Hinc;
    try by intros ?%elem_of_nil.
  - intros ->%list_elem_of_singleton. split; [done|].
    exists [], FsFile. split_and!; [constructor|done..].
  - intros [->|Hin]%elem_of_cons.
    { split; [done|]. exists [], (FsDir entries). split_and!; [constructor|done..]. }
    apply elem_of_flat_map in Hin as ([name child] & Hin & Hp).
    destruct (wf_fs_entry _ _ _ Hwf Hin) as [Hn Hc].
    rewrite Forall_forall in IH.
    apply (IH _ Hin) in Hp as (Hinc' & names & node' & Hr & Hnames & ->); [|done].
    rewrite should_include_dir_join in Hinc' by done.
    apply negb_true_iff, bool_decide_eq_false_1 in Hinc'.
    split; [done|]. exists (name :: names), node'.
    split_and!; [by econstructor|by constructor|done].
Qed.

(** Completeness of the walk: every entry reached through names none of
    which is excluded is yielded, if the root is not excluded. *)
Lemma walk_dir_complete node names node' entry_path :
  wf_fs node → should_include_dir entry_path = true →
  fs_reach node names node' → Forall (λ n, ¬ excluded_name n) names →
  foldl path_join entry_path names ∈ walk_dir entry_path node.
Proof.
  intros Hwf Hinc Hr. revert entry_path Hwf Hinc.
  induction Hr as [node|entries name child names node' Hin Hr IH];
    intros entry_path Hwf Hinc Hnames.
  - destruct node; simpl; rewrite Hinc; by left.
  - apply Forall_cons in Hnames as [Hname Hnames].
    destruct (wf_fs_entry _ _ _ Hwf Hin) as [Hn Hc].
    simpl. rewrite Hinc. right. apply elem_of_flat_map.
    exists (name, child). split; [done|]. apply IH; [done| |done].
    rewrite should_include_dir_join by done.
    by apply negb_true_iff, bool_decide_eq_false_2.
Qed.

(** The components of the path of an entry: those of the root, then the
    names on the way down. *)
Lemma components_foldl_path_join entry_path names :
  Forall valid_name names →
  components (foldl path_join entry_path names) =
  components entry_path ++ (Normal <$> names).
Proof.
  intros Hn. revert entry_path.
  induction Hn as [|name names Hname _ IH]; intros entry_path; simpl.
  - by rewrite app_nil_r.
  - by rewrite IH, components_path_join, <-app_assoc.
Qed.

Lemma fs_reach_valid node names node' :
  wf_fs node → fs_reach node names node' → Forall valid_name names.
Proof.
  intros Hwf Hr. induction Hr as [|entries name child names node' Hin _ IH];
    [done|].
  destruct (wf_fs_entry _ _ _ Hwf Hin) as [Hn Hc]. constructor; auto.
Qed.

(** ** Properties of discovery *)

(** [discovery_spec]: replace the loops by the lists they build. *)
Ltac discovery_spec :=
  unfold collect_dependency_files, collect_source_files;
  rewrite ?walkdir_paths, ?foldl_push_if_source,
    ?(foldl_app_flat_map _ (package_files _))
    by (apply Forall_forall; intros; apply collect_package_files_spec).

(** C10: the loop of [collect_source_files] over the iterators of
    [walkdir] (the stack of open directories, the filter that closes the
    directory it rejects, the errors that are dropped) appends to the vector
    the entries of the recursive walk whose extension is [rs], as text, in
    the order of the walk, and keeps what was there. *)
Theorem collect_source_files_refines fs dir source_files :
  collect_source_files fs dir source_files =
  source_files ++ sources_of (walk_from fs dir).
Proof. by discovery_spec. Qed.

(** C12: in a well-formed file system, every string collected
    from [dir] is the text of the path of an entry; that path consists of
    the components of [dir] followed by the names of the directories
    entered and of the entry itself; none of these names is [examples] or
    [tests], and the last one has the extension [rs]. *)
Theorem collect_source_files_prunes fs dir node p :
  fs dir = Some node → wf_fs node →
  p ∈ collect_source_files fs dir [] →
  ∃ entry_path names,
    p = to_string_lossy entry_path ∧
    Path_new entry_path = Path_new dir ++ (Normal <$> names) ∧
    Forall (λ n, ¬ excluded_name n) names ∧
    extension (Path_new entry_path) = Some "rs".
Proof.
  intros Hfs Hwf. discovery_spec. unfold walk_from. rewrite Hfs, app_nil_l.
  intros (entry_path & -> & Hext & Hp)%elem_of_sources_of.
  rewrite has_rs_extension_bytes in Hext. apply bool_decide_eq_true_1 in Hext.
  apply walk_dir_sound in Hp as (_ & names & node' & Hr & Hnames & ->); [|done].
  eexists _, names. split_and!; [done| |done..].
  apply components_foldl_path_join. by eapply fs_reach_valid.
Qed.

(** C27: every entry with the extension [rs] that is
    reached from an included root through names other than [examples] and
    [tests] is collected, as text, whether it is a file or a directory:
    the loop looks at the name of the entry alone. *)
Theorem collect_source_files_complete fs dir node names node' source_files :
  fs dir = Some node → wf_fs node → should_include_dir dir = true →
  fs_reach node names node' → Forall (λ n, ¬ excluded_name n) names →
  has_rs_extension (foldl path_join dir names) = true →
  to_string_lossy (foldl path_join dir names) ∈
    collect_source_files fs dir source_files.
Proof.
  intros Hfs Hwf Hinc Hr Hnames Hext. discovery_spec. unfold walk_from.
  rewrite Hfs, elem_of_app, elem_of_sources_of. right.
  eexists. split_and!; [done..|]. by eapply walk_dir_complete.
Qed.

(** A walk that starts at a directory itself
    called [examples] or [tests] collects nothing. *)
Theorem excluded_root_collects_nothing fs dir source_files :
  should_include_dir dir = false →
  collect_source_files fs dir source_files = source_files.
Proof.
  intros Hinc. discovery_spec. unfold walk_from.
  destruct (fs dir); by rewrite ?walk_dir_excluded, app_nil_r.
Qed.

(** C28: [filter_entry] puts the root of the walk to the filter too, so
    the exclusion is not only a pruning of what is below the root: a
    package whose manifest lies in a directory called [examples] or [tests]
    contributes no source file, whatever that directory holds. *)
Theorem excluded_crate_root_contributes_nothing fs package source name source_files :
  Path_parent (manifest_path package) = Some source →
  file_name (Path_new source) = Some name → excluded_name name →
  collect_package_files fs source_files package = source_files.
Proof.
  intros Hsource Hname Hexcl. unfold collect_package_files.
  destruct (str_starts_with _ _); [|done]. rewrite Hsource.
  apply excluded_root_collects_nothing.
  rewrite should_include_dir_bytes, Hname.
  by destruct Hexcl as [->| ->].
Qed.

(** [collect_dependency_files] appends, package by
    package in the order of the metadata, the source files below the crate
    root of every package whose name starts with [bevy_], and nothing for
    the other packages. *)
Theorem collect_dependency_files_refines fs metadata source_files :
  collect_dependency_files fs metadata source_files =
  source_files ++ flat_map (package_files fs) (packages metadata).
Proof. by discovery_spec. Qed.

(** An entry is collected by its name alone: a
    directory called [odd.rs] is pushed as a source file, together with
    the source files inside it. *)
Theorem directory_named_rs_collected fs dir entries :
  fs dir = Some (FsDir [("odd.rs", FsDir entries)]) →
  should_include_dir dir = true →
  to_string_lossy (path_join dir "odd.rs") ∈ collect_source_files fs dir [].
Proof.
  intros Hfs Hinc. discovery_spec. unfold walk_from. rewrite Hfs, app_nil_l.
  apply elem_of_sources_of. eexists. split_and!; [done| |].
  - rewrite has_rs_extension_bytes. unfold extension.
    by rewrite file_name_path_join.
  - simpl. rewrite Hinc, should_include_dir_join by done. simpl.
    right. by left.
Qed.

(** An entry is a source file when its name is a non-empty stem
    followed by [.rs]: [lib.rs] and [a.b.rs] are, [.rs], [rs] and [lib.rs.in]
    are not. *)
Theorem source_file_names dir name :
  valid_name name →
  has_rs_extension (path_join dir name) = true ↔
  ∃ stem, stem ≠ "" ∧ name = stem +:+ ".rs".
Proof.
  intros Hn. rewrite has_rs_extension_bytes.
  rewrite bool_decide_eq_true, (extension_Some _ name "rs")
    by by apply file_name_path_join.
  split; [intros (stem & ? & ? & _)|intros (stem & ? & ?)]; by exists stem.
Qed.

Lemma source_file_names_witness :
  has_rs_extension (path_join "./src" ".rs") = false ∧
  (has_rs_extension (path_join "./src" "a.b.rs") = true ↔
   ∃ stem, stem ≠ "" ∧ "a.b.rs" = stem +:+ ".rs").
Proof. split; [done|]. by apply (source_file_names "./src" "a.b.rs"). Defined.

Definition example_fs : FileSystem := λ dir,
  if decide (dir = "./src") then
    Some (FsDir [("main.rs", FsFile);
                 ("tests", FsDir [("it.rs", FsFile)]);
                 ("ui", FsDir [("mod.rs", FsFile); ("notes.txt", FsFile)])])
  else if decide (dir = "odd") then Some (FsDir [("odd.rs", FsDir [])])
  else None.

Lemma collect_source_files_prunes_witness :
  ∃ entry_path names,
    "./src/ui/mod.rs" = to_string_lossy entry_path ∧
    Path_new entry_path = Path_new "./src" ++ (Normal <$> names) ∧
    Forall (λ n, ¬ excluded_name n) names ∧
    extension (Path_new entry_path) = Some "rs".
Proof.
  apply (collect_source_files_prunes example_fs "./src"
           (FsDir [("main.rs", FsFile);
                   ("tests", FsDir [("it.rs", FsFile)]);
                   ("ui", FsDir [("mod.rs", FsFile); ("notes.txt", FsFile)])])
           "./src/ui/mod.rs").
  - reflexivity.
  - by vm_compute.
  - vm_compute. apply elem_of_cons. right. apply list_elem_of_singleton. reflexivity.
Defined.

Lemma collect_source_files_complete_witness :
  to_string_lossy (foldl path_join "./src" ["ui"; "mod.rs"]) ∈
    collect_source_files example_fs "./src" [].
Proof.
  apply (collect_source_files_complete example_fs "./src"
           (FsDir [("main.rs", FsFile);
                   ("tests", FsDir [("it.rs", FsFile)]);
                   ("ui", FsDir [("mod.rs", FsFile); ("notes.txt", FsFile)])])
           ["ui"; "mod.rs"] FsFile []).
  - reflexivity.
  - by vm_compute.
  - reflexivity.
  - eapply fs_reach_down; [|eapply fs_reach_down; [|apply fs_reach_here]].
    + apply elem_of_cons. right. apply elem_of_cons. right. by left.
    + by left.
  - repeat constructor; by intros [?|?].
  - reflexivity.
Defined.

Lemma excluded_crate_root_contributes_nothing_witness :
  collect_package_files
    (λ dir, if decide (dir = "/cargo/tests")
            then Some (FsDir [("src", FsDir [("lib.rs", FsFile)])]) else None)
    [] (mkPackage "bevy_tests" "/cargo/tests/Cargo.toml") = [].
Proof.
  apply (excluded_crate_root_contributes_nothing _ _ "/cargo/tests" "tests");
    [reflexivity..|by right].
Defined.

Lemma excluded_root_collects_nothing_witness :
  collect_source_files example_fs "/work/tests" [] = [].
Proof. apply excluded_root_collects_nothing. reflexivity. Defined.

Lemma directory_named_rs_collected_witness :
  to_string_lossy (path_join "odd" "odd.rs") ∈ collect_source_files example_fs "odd" [].
Proof.
  apply (directory_named_rs_collected example_fs "odd" []); reflexivity.
Defined.

(** ** Names that are text, and names that are not *)

(** Every name in the tree is text. *)
Fixpoint text_fs (node : FsNode) : Prop :=
  match node with
  | FsFile => True
  | FsDir entries => foldr (λ e acc, utf8 e.1 ∧ text_fs e.2 ∧ acc) True entries
  end.

Lemma text_fs_entry entries name child :
  text_fs (FsDir entries) → (name, child) ∈ entries → utf8 name ∧ text_fs child.
Proof.
  simpl. induction entries as [|e entries IH]; [by intros _ ?%elem_of_nil|].
  simpl. intros (Hn & Hc & Hrest) [<-|Hin]%elem_of_cons; [done|by apply IH].
Qed.

Lemma utf8_path_join dir name : utf8 dir → utf8 name → utf8 (path_join dir name).
Proof.
  intros Hd Hn. unfold path_join. destruct (last_char dir); [|done].
  case_decide; [by apply utf8_app|]. by apply (utf8_app_ascii dir "/").
Qed.

(** The walk of a tree of text from a path that is text yields text. *)
Lemma walk_dir_text node entry_path :
  utf8 entry_path → text_fs node → Forall utf8 (walk_dir entry_path node).
Proof.
  revert entry_path. induction node as [|entries IH] using FsNode_ind;
    intros entry_path Hp Hfs; simpl; destruct (should_include_dir entry_path);
    try done; constructor; try done.
  apply Forall_forall. intros p ([name child] & Hin & Hp')%elem_of_flat_map.
  destruct (text_fs_entry _ _ _ Hfs Hin) as [Hn Hc].
  rewrite Forall_forall in IH.
  eapply (proj1 (Forall_forall _ _) (IH _ Hin _ (utf8_path_join _ _ Hp Hn) Hc)), Hp'.
Qed.

Lemma sources_of_text paths :
  Forall utf8 paths →
  sources_of paths = filter (λ p, has_rs_extension p = true) paths.
Proof.
  intros Hp. unfold sources_of. erewrite (Forall_fmap_ext_1 _ id), list_fmap_id; [done|].
  apply Forall_forall. intros p [_ Hin]%list_elem_of_filter.
  apply from_utf8_lossy_utf8. by eapply (proj1 (Forall_forall _ _) Hp).
Qed.

Lemma utf8_sources_of paths : Forall utf8 (sources_of paths).
Proof. apply Forall_fmap, Forall_true. intros p. apply utf8_from_utf8_lossy. Qed.

(** The tests of the walk go through [to_str], which fails on a name
    that is not text; they are comparisons of bytes all the same, because a
    name that is not text is none of the names compared with. *)
Theorem to_str_tests_on_bytes entry_path :
  should_include_dir entry_path =
    negb (bool_decide (file_name (Path_new entry_path) = Some "examples") ||
          bool_decide (file_name (Path_new entry_path) = Some "tests")) ∧
  has_rs_extension entry_path =
    bool_decide (extension (Path_new entry_path) = Some "rs").
Proof. split; [apply should_include_dir_bytes|apply has_rs_extension_bytes]. Qed.

Lemma collect_source_files_utf8 fs dir source_files :
  Forall utf8 source_files → Forall utf8 (collect_source_files fs dir source_files).
Proof. intros Hs. discovery_spec. apply Forall_app. split; [done|apply utf8_sources_of]. Qed.

Lemma collect_dependency_files_utf8 fs metadata source_files :
  Forall utf8 source_files →
  Forall utf8 (collect_dependency_files fs metadata source_files).
Proof.
  intros Hs. discovery_spec. apply Forall_app. split; [done|].
  apply Forall_forall. intros p (package & _ & Hp)%elem_of_flat_map.
  revert Hp. unfold package_files. repeat case_match; try by intros ?%elem_of_nil.
  intros Hp. by eapply (proj1 (Forall_forall _ _) (utf8_sources_of _)).
Qed.

(** The vector holds text: whatever the names of the file system are,
    every string collected is well-formed UTF-8, as the type [Vec<String>]
    says. *)
Theorem collected_files_are_text fs metadata dir source_files :
  Forall utf8 source_files →
  Forall utf8 (collect_source_files fs dir source_files) ∧
  Forall utf8 (collect_dependency_files fs metadata source_files).
Proof.
  split; [by apply collect_source_files_utf8|by apply collect_dependency_files_utf8].
Qed.

Lemma collected_files_are_text_witness :
  Forall utf8 (collect_source_files example_fs "./src" ["a.rs"]) ∧
  Forall utf8 (collect_dependency_files example_fs (mkMetadata []) ["a.rs"]).
Proof.
  apply (collected_files_are_text example_fs (mkMetadata []) "./src" ["a.rs"]).
  repeat constructor. by apply utf8_ascii.
Defined.

(** On a file system whose names are text, walked from a path that is
    text, the conversion changes nothing: the strings collected are the
    paths of the entries. *)
Theorem text_paths_unchanged fs dir node :
  fs dir = Some node → utf8 dir → text_fs node →
  collect_source_files fs dir [] =
  filter (λ p, has_rs_extension p = true) (walk_dir dir node).
Proof.
  intros Hfs Hd Hn. discovery_spec. unfold walk_from. rewrite Hfs, app_nil_l.
  by apply sources_of_text, walk_dir_text.
Qed.

(** C15: a source file whose path is not text is never in the vector under
    its own path: what is pushed for it is a different string, the text
    with U+FFFD where the path is malformed. *)
Theorem malformed_path_replaced fs dir node names node' :
  fs dir = Some node → wf_fs node → should_include_dir dir = true →
  fs_reach node names node' → Forall (λ n, ¬ excluded_name n) names →
  has_rs_extension (foldl path_join dir names) = true →
  ¬ utf8 (foldl path_join dir names) →
  (foldl path_join dir names ∉ collect_source_files fs dir []) ∧
  to_string_lossy (foldl path_join dir names) ∈ collect_source_files fs dir [] ∧
  to_string_lossy (foldl path_join dir names) ≠ foldl path_join dir names.
Proof.
  intros Hfs Hwf Hinc Hr Hnames Hext Hbad. split_and!.
  - discovery_spec. rewrite app_nil_l. intros Hin. apply Hbad.
    by eapply (proj1 (Forall_forall _ _) (utf8_sources_of _)).
  - discovery_spec. unfold walk_from. rewrite Hfs, app_nil_l, elem_of_sources_of.
    eexists. split_and!; [done..|]. by eapply walk_dir_complete.
  - by intros ?%from_utf8_lossy_fixed.
Qed.

(** A file called [caf\xE9.rs], a name in Latin-1. *)
Definition latin1_name : string := of_bytes [0x63; 0x61; 0x66; 0xE9]%Z +:+ ".rs".

Definition latin1_fs : FileSystem := λ dir,
  if decide (dir = "./src") then Some (FsDir [(latin1_name, FsFile)]) else None.

Lemma text_paths_unchanged_witness :
  collect_source_files example_fs "./src" [] =
  filter (λ p, has_rs_extension p = true)
    (walk_dir "./src"
       (FsDir [("main.rs", FsFile);
               ("tests", FsDir [("it.rs", FsFile)]);
               ("ui", FsDir [("mod.rs", FsFile); ("notes.txt", FsFile)])])).
Proof.
  apply (text_paths_unchanged example_fs "./src"); [reflexivity|by apply utf8_ascii|].
  simpl. split_and!; try done; by apply utf8_ascii.
Defined.

Lemma malformed_path_replaced_witness :
  (foldl path_join "./src" [latin1_name] ∉
     collect_source_files latin1_fs "./src" []) ∧
  to_string_lossy (foldl path_join "./src" [latin1_name]) ∈
    collect_source_files latin1_fs "./src" [] ∧
  to_string_lossy (foldl path_join "./src" [latin1_name]) ≠
    foldl path_join "./src" [latin1_name].
Proof.
  apply (malformed_path_replaced latin1_fs "./src"
           (FsDir [(latin1_name, FsFile)]) [latin1_name] FsFile).
  - reflexivity.
  - by vm_compute.
  - reflexivity.
  - eapply fs_reach_down; [by left|apply fs_reach_here].
  - repeat constructor; by intros [?|?].
  - reflexivity.
  - apply to_str_None. reflexivity.
Defined.
