(* ===== verification/Syn.v ===== *)
(** * Syn: the syntax tree the program inspects

    The program receives a [syn::File] from [parse_file] (line 23) and reads
    from it: the items of a file or of an inline module, the kind of an item
    ([Item::Struct], [Item::Enum], [Item::Mod], anything else), its
    visibility, its identifier and its attributes; of an attribute its
    [Meta], and of a [Meta::List] its path and its tokens.  This file holds
    those types with the constructors of [syn] and [proc_macro2], the
    rendering of a token stream to text ([tokens.to_string()], line 134),
    [Path::is_ident] (lines 134, 159, 162, 164, 172, 175) and
    [MetaList::parse_nested_meta] (lines 161 and 174).

    Token streams that come from parsing a source file hold no group with
    [Delimiter::None] (those arise from macro expansion only), so [Delimiter]
    has the three visible delimiters.  Every type of the tree has decidable
    equality. *)

From S2P Require Import Prelude RustStr.

(** ** Tokens ([proc_macro2]) *)

Inductive Delimiter := Parenthesis | Brace | Bracket.

Inductive Spacing := Alone | Joint.

Unset Elimination Schemes.
Inductive TokenTree :=
| TGroup (d : Delimiter) (stream : list TokenTree)
| TIdent (sym : string)
| TPunct (ch : ascii) (spacing : Spacing)
| TLiteral (repr : string).
Set Elimination Schemes.

Abbreviation TokenStream := (list TokenTree).

(** ** Attributes ([syn]) *)

(** A path in an attribute is parsed in "mod style": identifiers separated
    by [::], with no generic arguments. *)
Record SynPath := mkPath { leading_colon : bool; segments : list string }.

Inductive Meta :=
| MetaPath (path : SynPath)
| MetaList (path : SynPath) (delimiter : Delimiter) (tokens : TokenStream)
| MetaNameValue (path : SynPath) (value : TokenStream).

Inductive AttrStyle := Outer | Inner.

Record Attribute := mkAttr { style : AttrStyle; meta : Meta }.

(** ** Items ([syn]) *)

Inductive Visibility :=
| VisPublic
| VisRestricted (path : SynPath)
| VisInherited.

(** [ItemOther] stands for the variants the program never looks into
    ([Item::Fn], [Item::Impl], [Item::Use], ...).  The content of a module is
    [None] for [mod name;] and the items between the braces otherwise. *)
Unset Elimination Schemes.
Inductive Item :=
| ItemStruct (attrs : list Attribute) (vis : Visibility) (ident : string)
| ItemEnum (attrs : list Attribute) (vis : Visibility) (ident : string)
| ItemMod (attrs : list Attribute) (vis : Visibility) (ident : string)
          (content : option (list Item))
| ItemOther.
Set Elimination Schemes.

Record File := mkFile {
  shebang : option string;
  file_attrs : list Attribute;
  items : list Item
}.

#[export] Instance Delimiter_eq_dec : EqDecision Delimiter.
Proof. solve_decision. Defined.
#[export] Instance Spacing_eq_dec : EqDecision Spacing.
Proof. solve_decision. Defined.
#[export] Instance SynPath_eq_dec : EqDecision SynPath.
Proof. solve_decision. Defined.
#[export] Instance Visibility_eq_dec : EqDecision Visibility.
Proof. solve_decision. Defined.
#[export] Instance AttrStyle_eq_dec : EqDecision AttrStyle.
Proof. solve_decision. Defined.

(** Equality of token trees and of items is decided by recursion through
    the lists nested in them. *)
#[export] Instance TokenTree_eq_dec : EqDecision TokenTree.
Proof.
  refine (fix go (a b : TokenTree) {struct a} : Decision (a = b) :=
    match a, b with
    | TGroup d ts, TGroup d' ts' =>
        cast_if_and (decide (d = d')) (@list_eq_dec _ go ts ts')
    | TIdent s, TIdent s' => cast_if (decide (s = s'))
    | TPunct c sp, TPunct c' sp' =>
        cast_if_and (decide (c = c')) (decide (sp = sp'))
    | TLiteral r, TLiteral r' => cast_if (decide (r = r'))
    | _, _ => right _
    end); abstract congruence.
Defined.

#[export] Instance Meta_eq_dec : EqDecision Meta.
Proof. solve_decision. Defined.
#[export] Instance Attribute_eq_dec : EqDecision Attribute.
Proof. solve_decision. Defined.

#[export] Instance Item_eq_dec : EqDecision Item.
Proof.
  refine (fix go (a b : Item) {struct a} : Decision (a = b) :=
    match a, b with
    | ItemStruct attrs1 vis1 ident1, ItemStruct attrs2 vis2 ident2
    | ItemEnum attrs1 vis1 ident1, ItemEnum attrs2 vis2 ident2 =>
        cast_if_and3 (decide (attrs1 = attrs2)) (decide (vis1 = vis2))
          (decide (ident1 = ident2))
    | ItemMod attrs1 vis1 ident1 content1, ItemMod attrs2 vis2 ident2 content2 =>
        cast_if_and4 (decide (attrs1 = attrs2)) (decide (vis1 = vis2))
          (decide (ident1 = ident2))
          (@option_eq_dec _ (@list_eq_dec _ go) content1 content2)
    | ItemOther, ItemOther => left _
    | _, _ => right _
    end); abstract congruence.
Defined.

#[export] Instance File_eq_dec : EqDecision File.
Proof. solve_decision. Defined.

(** ** Induction on items

    The induction principle Rocq derives for [Item] says nothing about the
    items inside a module; this one does. *)
Section Item_induction.
Context (P : Item → Prop).
Context (Hstruct : ∀ attrs vis ident, P (ItemStruct attrs vis ident)).
Context (Henum : ∀ attrs vis ident, P (ItemEnum attrs vis ident)).
Context (Hdecl : ∀ attrs vis ident, P (ItemMod attrs vis ident None)).
Context (Hmod : ∀ attrs vis ident its,
  Forall P its → P (ItemMod attrs vis ident (Some its))).
Context (Hother : P ItemOther).

Fixpoint Item_ind (it : Item) : P it :=
  match it with
  | ItemStruct attrs vis ident => Hstruct attrs vis ident
  | ItemEnum attrs vis ident => Henum attrs vis ident
  | ItemMod attrs vis ident None => Hdecl attrs vis ident
  | ItemMod attrs vis ident (Some its) =>
      Hmod attrs vis ident its
        ((fix go (l : list Item) : Forall P l :=
            match l with
            | [] => Forall_nil_2 P
            | i :: l' => Forall_cons_2 P i l' (Item_ind i) (go l')
            end) its)
  | ItemOther => Hother
  end.
End Item_induction.

Section TokenTree_induction.
Context (P : TokenTree → Prop).
Context (Hgroup : ∀ d ts, Forall P ts → P (TGroup d ts)).
Context (Hident : ∀ s, P (TIdent s)).
Context (Hpunct : ∀ c sp, P (TPunct c sp)).
Context (Hlit : ∀ s, P (TLiteral s)).

Fixpoint TokenTree_ind (t : TokenTree) : P t :=
  match t with
  | TGroup d ts =>
      Hgroup d ts
        ((fix go (l : list TokenTree) : Forall P l :=
            match l with
            | [] => Forall_nil_2 P
            | i :: l' => Forall_cons_2 P i l' (TokenTree_ind i) (go l')
            end) ts)
  | TIdent s => Hident s
  | TPunct c sp => Hpunct c sp
  | TLiteral s => Hlit s
  end.
End TokenTree_induction.

(** ** [Path::is_ident]

    True when the path is a single identifier equal to [name], with no
    leading [::]. *)
Definition is_ident (p : SynPath) (name : string) : bool :=
  negb (leading_colon p) && bool_decide (segments p = [name]).

(** The path that is the single identifier [name]. *)
Definition ident_path (name : string) : SynPath := mkPath false [name].

Lemma is_ident_spec p name : is_ident p name = true ↔ p = ident_path name.
Proof.
  unfold is_ident, ident_path. destruct p as [[] segs]; simpl.
  - split; [done|]. by intros [=].
  - rewrite bool_decide_eq_true. split; [by intros ->|]. by intros [= ->].
Qed.

Lemma is_ident_ident_path a b : is_ident (ident_path a) b = bool_decide (a = b).
Proof.
  unfold is_ident, ident_path. simpl.
  apply bool_decide_ext. split; [by intros [= ->]|by intros ->].
Qed.

#[export] Hint Rewrite is_ident_ident_path : rust.

(** ** Rendering a token stream ([Display] of [proc_macro2]'s fallback)

    Tokens are separated by one space, except after a [Joint] punctuation;
    a group is its stream between its delimiters, braces padded with a
    space. *)

Definition delim_open (d : Delimiter) : string :=
  match d with Parenthesis => "(" | Brace => "{ " | Bracket => "[" end.

Definition delim_close (d : Delimiter) : string :=
  match d with Parenthesis => ")" | Brace => "}" | Bracket => "]" end.

Definition brace_pad (d : Delimiter) (ts : TokenStream) : string :=
  match d, ts with
  | Brace, _ :: _ => " "
  | _, _ => ""
  end.

Definition is_joint (t : TokenTree) : bool :=
  match t with TPunct _ Joint => true | _ => false end.

Definition token_sep (sep : bool) : string := if sep then " " else "".

Fixpoint token_to_string (t : TokenTree) : string :=
  match t with
  | TGroup d ts =>
      delim_open d +:+
      (fix go (sep : bool) (l : TokenStream) : string :=
         match l with
         | [] => ""
         | t' :: l' =>
             token_sep sep +:+ token_to_string t' +:+ go (negb (is_joint t')) l'
         end) false ts +:+
      brace_pad d ts +:+ delim_close d
  | TIdent sym => sym
  | TPunct ch _ => String ch ""
  | TLiteral repr => repr
  end.

(** The loop over the tokens of a stream; [sep] says whether a space
    precedes the next token (it is not the first and does not follow a
    [Joint] punctuation). *)
Fixpoint stream_to_string_go (sep : bool) (l : TokenStream) : string :=
  match l with
  | [] => ""
  | t :: l' =>
      token_sep sep +:+ token_to_string t +:+
      stream_to_string_go (negb (is_joint t)) l'
  end.

Definition stream_to_string (ts : TokenStream) : string :=
  stream_to_string_go false ts.

Lemma token_to_string_group d ts :
  token_to_string (TGroup d ts) =
  delim_open d +:+ stream_to_string ts +:+ brace_pad d ts +:+ delim_close d.
Proof.
  reflexivity.
Qed.

(** The text of a stream holds the text of each of its tokens. *)
Lemma stream_to_string_go_mid sep pre t post :
  ∃ a b, stream_to_string_go sep (pre ++ t :: post) = a +:+ token_to_string t +:+ b.
Proof.
  revert sep. induction pre as [|t' pre IH]; intros sep; simpl.
  - by eexists _, _.
  - destruct (IH (negb (is_joint t'))) as (a & b & ->).
    exists (token_sep sep +:+ token_to_string t' +:+ a), b.
    by rewrite !str_app_assoc.
Qed.

(** ** [parse_nested_meta] ([syn::meta])

    The arguments of an attribute are parsed as paths separated by commas.
    After each path the callback runs; it is given the path and the rest of
    the input, and the two callbacks of the program read the path only and
    consume nothing.  The parser then expects the end of the input or a
    comma, and fails on anything else, leaving the remaining arguments
    unvisited.  What the callback did before the failure stays done: the
    program throws the error away ([.ok()], lines 169 and 180). *)

Definition is_punct (c : ascii) (t : TokenTree) : bool :=
  match t with TPunct c' _ => bool_decide (c' = c) | _ => false end.

(** [input.parse::<Option<Token![::]>>()]: two colons, the first [Joint]. *)
Definition parse_colon2 (input : TokenStream) : option TokenStream :=
  match input with
  | TPunct c1 Joint :: TPunct c2 _ :: rest =>
      if bool_decide (c1 = ":"%char) && bool_decide (c2 = ":"%char)
      then Some rest else None
  | _ => None
  end.

(** The [while input.peek(Token![::])] loop of [parse_meta_path]: the
    further segments of a path.  [None] is the error "expected identifier"
    after a [::]. *)
Fixpoint parse_path_tail (input : TokenStream) : option (list string * TokenStream) :=
  match input with
  | TPunct c1 Joint :: TPunct c2 _ :: rest =>
      if bool_decide (c1 = ":"%char) && bool_decide (c2 = ":"%char) then
        match rest with
        | TIdent sym :: rest' =>
            match parse_path_tail rest' with
            | Some (segs, out) => Some (sym :: segs, out)
            | None => None
            end
        | _ => None
        end
      else Some ([], input)
  | _ => Some ([], input)
  end.

(** [parse_meta_path]: an optional leading [::], an identifier, and further
    segments.  [None] is one of its errors (end of input, a literal, or
    another token where the identifier should be). *)
Definition parse_meta_path (input : TokenStream) : option (SynPath * TokenStream) :=
  let '(lead, input) :=
    match parse_colon2 input with
    | Some rest => (true, rest)
    | None => (false, input)
    end in
  match input with
  | TIdent sym :: rest =>
      match parse_path_tail rest with
      | Some (segs, out) => Some (mkPath lead (sym :: segs), out)
      | None => None
      end
  | _ => None
  end.

Section parse_nested_meta.
Context {St : Type}.
Implicit Types (logic : SynPath → St → St) (st : St) (input : TokenStream).

(** The [loop] of [syn::meta::parse_nested_meta].  The result is the state
    the callback left and whether the parser returned [Ok]. *)
Fixpoint parse_nested_meta_loop (fuel : nat) logic input st : St * bool :=
  match fuel with
  | 0 => (st, false)
  | S fuel =>
      match parse_meta_path input with
      | None => (st, false)
      | Some (path, input) =>
          let st := logic path st in
          match input with
          | [] => (st, true)
          | t :: input =>
              if is_punct ","%char t then
                match input with
                | [] => (st, true)
                | _ :: _ => parse_nested_meta_loop fuel logic input st
                end
              else (st, false)
          end
      end
  end.

(** [meta_list.parse_nested_meta(logic)]: nothing to do on empty arguments;
    otherwise the loop, for which the number of tokens is enough fuel since
    every round consumes at least the identifier of a path. *)
Definition parse_nested_meta logic (tokens : TokenStream) st : St * bool :=
  match tokens with
  | [] => (st, true)
  | _ :: _ => parse_nested_meta_loop (length tokens) logic tokens st
  end.

End parse_nested_meta.

(** The paths the callback is run on, in order: the arguments up to the
    first one the parser fails on. *)
Definition nested_paths (tokens : TokenStream) : list SynPath :=
  (parse_nested_meta (λ p acc, acc ++ [p]) tokens []).1.

(** The tokens of [a, b, c]: identifiers separated by commas. *)
Fixpoint ident_list_tokens (names : list string) : TokenStream :=
  match names with
  | [] => []
  | [a] => [TIdent a]
  | a :: names' => TIdent a :: TPunct ","%char Alone :: ident_list_tokens names'
  end.

(** ** Facts on the parser *)

Lemma parse_path_tail_no_colon input :
  parse_colon2 input = None → parse_path_tail input = Some ([], input).
Proof.
  destruct input as [|[| |c1 []|] [|[| |c2 sp|] rest]]; simpl; try done.
  by destruct (_ && _).
Qed.

Lemma parse_path_tail_length input segs out :
  parse_path_tail input = Some (segs, out) → length out ≤ length input.
Proof.
  remember (length input) as n eqn:Hn. revert input segs out Hn.
  induction n as [n IH] using lt_wf_ind; intros input segs out -> Hp.
  destruct (parse_colon2 input) as [r|] eqn:Hc.
  2: { rewrite parse_path_tail_no_colon in Hp by done. by simplify_eq. }
  destruct input as [|[| |c1 []|] [|[| |c2 sp|] rest]]; simpl in Hc; try done.
  simpl in Hp. destruct (_ && _); [|by simplify_eq].
  destruct rest as [|[| | |] rest']; try done.
  destruct (parse_path_tail rest') as [[segs' out']|] eqn:Hr; simplify_eq.
  eapply IH in Hr; [|..|reflexivity]; simpl; lia.
Qed.

Lemma parse_meta_path_length input p out :
  parse_meta_path input = Some (p, out) → length out < length input.
Proof.
  unfold parse_meta_path. intros Hp.
  assert (∀ inp, (∃ sym rest segs, inp = TIdent sym :: rest ∧
                    parse_path_tail rest = Some (segs, out)) →
                 length out < length inp) as Hid.
  { intros inp (sym & rest & segs & -> & Ht%parse_path_tail_length). simpl. lia. }
  destruct (parse_colon2 input) as [rest|] eqn:Hc.
  - assert (length rest < length input).
    { destruct input as [|[| |c1 []|] [|[| |c2 sp|] r]]; simpl in Hc; try done.
      destruct (_ && _); simplify_eq. simpl. lia. }
    destruct rest as [|[| | |] rest']; try done.
    destruct (parse_path_tail rest') as [[segs out']|] eqn:Ht; simplify_eq.
    etrans; [apply (Hid (TIdent sym :: rest')); eauto 6|done].
  - destruct input as [|[| | |] rest']; try done.
    destruct (parse_path_tail rest') as [[segs out']|] eqn:Ht; simplify_eq.
    apply (Hid (TIdent sym :: rest')); eauto 6.
Qed.

Lemma parse_meta_path_ident sym rest :
  parse_colon2 rest = None →
  parse_meta_path (TIdent sym :: rest) = Some (ident_path sym, rest).
Proof. intros Hc. unfold parse_meta_path. simpl. by rewrite parse_path_tail_no_colon. Qed.

Section parse_nested_meta_facts.
Context {St : Type}.
Implicit Types (logic : SynPath → St → St) (st : St) (input : TokenStream).

Lemma parse_nested_meta_loop_S fuel logic input st :
  parse_nested_meta_loop (S fuel) logic input st =
  match parse_meta_path input with
  | None => (st, false)
  | Some (path, input) =>
      let st := logic path st in
      match input with
      | [] => (st, true)
      | t :: input =>
          if is_punct ","%char t then
            match input with
            | [] => (st, true)
            | _ :: _ => parse_nested_meta_loop fuel logic input st
            end
          else (st, false)
      end
  end.
Proof. done. Qed.

(** Fuel: any amount from the number of tokens on gives the same result, so
    the loop never stops for lack of fuel. *)
Lemma parse_nested_meta_loop_fuel fuel fuel' logic input st :
  length input ≤ fuel → length input ≤ fuel' →
  parse_nested_meta_loop fuel logic input st =
  parse_nested_meta_loop fuel' logic input st.
Proof.
  revert fuel' input st. induction fuel as [|fuel IH]; intros fuel' input st H1 H2.
  { destruct input; [|simpl in *; lia]. by destruct fuel'. }
  destruct fuel' as [|fuel'].
  { destruct input; [done|simpl in *; lia]. }
  simpl. destruct (parse_meta_path input) as [[path out]|] eqn:Hp; [|done].
  apply parse_meta_path_length in Hp.
  destruct out as [|t [|t' out]]; try done.
  destruct (is_punct _ t); [|done]. apply IH; simpl in *; lia.
Qed.

(** The state after parsing is the callback folded over the visited paths,
    whatever the callback. *)
Lemma parse_nested_meta_loop_fold fuel logic input st acc :
  (parse_nested_meta_loop fuel logic input st).1 =
    foldl (λ st p, logic p st) st
      (parse_nested_meta_loop fuel (λ p a, a ++ [p]) input []).1 ∧
  (parse_nested_meta_loop fuel (λ p a, a ++ [p]) input acc).1 =
    acc ++ (parse_nested_meta_loop fuel (λ p a, a ++ [p]) input []).1.
Proof.
  revert input st acc. induction fuel as [|fuel IH]; intros input st acc; simpl.
  { by rewrite app_nil_r. }
  destruct (parse_meta_path input) as [[path out]|]; simpl;
    [|by rewrite app_nil_r].
  destruct out as [|t [|t' out]]; simpl; try done;
    destruct (is_punct _ t); simpl; try done.
  destruct (IH (t' :: out) (logic path st) (acc ++ [path])) as [-> ->].
  destruct (IH (t' :: out) st [path]) as [_ ->].
  by rewrite <-app_assoc.
Qed.

Lemma parse_nested_meta_fold logic tokens st :
  (parse_nested_meta logic tokens st).1 =
  foldl (λ st p, logic p st) st (nested_paths tokens).
Proof.
  unfold nested_paths, parse_nested_meta. destruct tokens; [done|].
  apply (parse_nested_meta_loop_fold _ _ _ _ []).
Qed.

End parse_nested_meta_facts.

(** ** The visited paths of common argument lists *)

Lemma parse_colon2_not_colon c sp rest :
  c ≠ ":"%char → parse_colon2 (TPunct c sp :: rest) = None.
Proof.
  intros Hc. destruct sp, rest as [|[| | |] rest]; simpl; try done.
  by rewrite (bool_decide_eq_false_2 _ Hc).
Qed.

Lemma nested_paths_nil : nested_paths [] = [].
Proof. done. Qed.

Lemma nested_paths_single sym : nested_paths [TIdent sym] = [ident_path sym].
Proof. done. Qed.

(** A plain identifier followed by a comma is visited, and parsing goes on
    with what follows the comma (nothing, for a trailing comma). *)
Lemma nested_paths_cons sym sp rest :
  nested_paths (TIdent sym :: TPunct ","%char sp :: rest) =
  ident_path sym :: nested_paths rest.
Proof.
  destruct rest as [|t rest]; [by destruct sp|].
  unfold nested_paths, parse_nested_meta.
  change (length (TIdent sym :: TPunct ","%char sp :: t :: rest))
    with (S (S (length (t :: rest)))).
  rewrite parse_nested_meta_loop_S, parse_meta_path_ident
    by by apply parse_colon2_not_colon.
  cbv beta iota. cbn [is_punct]. rewrite bool_decide_eq_true_2 by done.
  destruct (parse_nested_meta_loop_fold (S (length (t :: rest)))
              (λ p (a : list SynPath), a ++ [p]) (t :: rest) [] [ident_path sym])
    as [_ Hacc].
  rewrite app_nil_l, Hacc.
  by rewrite (parse_nested_meta_loop_fuel (S (length (t :: rest)))
               (length (t :: rest))) by (simpl; lia).
Qed.

(** A plain identifier followed by anything but a comma is visited and is
    the last one: the parser fails there and the remaining arguments are
    never seen.  This is the case of an argument with a value or with
    arguments of its own, as in [Hash(custom_hash)] or [from_reflect = false]. *)
Lemma nested_paths_stop sym t rest :
  parse_colon2 (t :: rest) = None → is_punct ","%char t = false →
  nested_paths (TIdent sym :: t :: rest) = [ident_path sym].
Proof.
  intros Hc Hp. unfold nested_paths, parse_nested_meta.
  cbn [length parse_nested_meta_loop]. rewrite parse_meta_path_ident by done.
  by rewrite Hp.
Qed.

Lemma nested_paths_ident_list names :
  nested_paths (ident_list_tokens names) = ident_path <$> names.
Proof.
  induction names as [|a [|b names] IH]; [done..|].
  change (ident_list_tokens (a :: b :: names))
    with (TIdent a :: TPunct ","%char Alone :: ident_list_tokens (b :: names)).
  by rewrite nested_paths_cons, IH.
Qed.

#[export] Hint Rewrite nested_paths_nil nested_paths_single nested_paths_cons
  nested_paths_ident_list : rust.

(** ** Properties of the parser *)

(** C38: the number of tokens is enough fuel for the loop of
    [parse_nested_meta]: with any amount of fuel from there on the loop
    returns the state and the verdict of [parse_nested_meta], so that a
    verdict [false] is a failure of the parser and never a lack of fuel. *)
Theorem parse_nested_meta_fuel_enough {St} fuel (logic : SynPath → St → St)
    tokens st :
  tokens ≠ [] → length tokens ≤ fuel →
  parse_nested_meta_loop fuel logic tokens st = parse_nested_meta logic tokens st.
Proof.
  intros Hne Hfuel. unfold parse_nested_meta. destruct tokens; [done|].
  by apply parse_nested_meta_loop_fuel.
Qed.

Lemma parse_nested_meta_fuel_enough_witness :
  parse_nested_meta_loop 100 (λ p acc, acc ++ [p])
    (ident_list_tokens ["Reflect"; "Component"]) [] =
  parse_nested_meta (λ p acc, acc ++ [p])
    (ident_list_tokens ["Reflect"; "Component"]) [].
Proof.
  apply (parse_nested_meta_fuel_enough 100); [done|]. vm_compute. lia.
Defined.
