(* ===== verification/Detect.v ===== *)
(** * Detect: the predicates on attributes and items

    [has_cfg_test] (lines 131-138), [is_public] (141-148) and
    [derives_reflect_and_component_but_no_reflect_component] (151-187).
    The last one is a loop over the attributes that sets three local
    booleans; here the booleans are the record [Flags], the body of the loop
    is [scan_attr], and the loop is a left fold.  Its specification
    [missing_registration] asks each question ("does some attribute named
    [outer] carry the identifier [inner]?") on its own with
    [attrs_declare]. *)

From S2P Require Import Prelude RustStr Syn.

Implicit Types (attr : Attribute) (attrs : list Attribute) (item : Item)
  (path : SynPath) (tokens : TokenStream).

(** ** [has_cfg_test] *)

(** The closure passed to [any] (lines 133-136). *)
Definition is_cfg_test attr : bool :=
  match meta attr with
  | MetaList path _ tokens =>
      is_ident path "cfg" && str_contains (stream_to_string tokens) "test"
  | _ => false
  end.

Definition has_cfg_test attrs : bool := iter_any is_cfg_test attrs.

(** ** [is_public] *)

(** [matches!(vis, Visibility::Public(_))] *)
Definition vis_is_public (vis : Visibility) : bool :=
  match vis with VisPublic => true | _ => false end.

Definition is_public item : bool :=
  match item with
  | ItemStruct _ vis _ => vis_is_public vis
  | ItemEnum _ vis _ => vis_is_public vis
  | ItemMod _ vis _ _ => vis_is_public vis
  | ItemOther => false
  end.

(** ** [derives_reflect_and_component_but_no_reflect_component] *)

(** The three [let mut] booleans of lines 152-154. *)
Record Flags := mkFlags {
  derives_reflect : bool;
  derives_component : bool;
  has_reflect_component_attr : bool
}.

Definition flags_init : Flags := mkFlags false false false.

(** The closure given to [parse_nested_meta] under [#[derive(...)]]
    (lines 161-168). *)
Definition derive_logic (nested_meta : SynPath) (fl : Flags) : Flags :=
  if is_ident nested_meta "Reflect" then
    mkFlags true (derives_component fl) (has_reflect_component_attr fl)
  else if is_ident nested_meta "Component" then
    mkFlags (derives_reflect fl) true (has_reflect_component_attr fl)
  else fl.

(** The closure given to [parse_nested_meta] under [#[reflect(...)]]
    (lines 174-180). *)
Definition reflect_logic (nested_meta : SynPath) (fl : Flags) : Flags :=
  if is_ident nested_meta "Component" then
    mkFlags (derives_reflect fl) (derives_component fl) true
  else fl.

(** The body of the loop over the attributes (lines 157-183); the result of
    the parser is dropped by [.ok()], its effect on the flags is kept. *)
Definition scan_attr (fl : Flags) attr : Flags :=
  match meta attr with
  | MetaList path _ tokens =>
      if is_ident path "derive" then
        (parse_nested_meta derive_logic tokens fl).1
      else if is_ident path "reflect" then
        (parse_nested_meta reflect_logic tokens fl).1
      else fl
  | _ => fl
  end.

Definition derives_reflect_and_component_but_no_reflect_component attrs : bool :=
  let fl := foldl scan_attr flags_init attrs in
  derives_reflect fl && derives_component fl &&
  negb (has_reflect_component_attr fl).

(** ** Specification *)

(** The attribute is a list [outer(...)] among whose visited arguments is the
    plain identifier [inner]. *)
Definition attr_declares (outer inner : string) attr : bool :=
  match meta attr with
  | MetaList path _ tokens =>
      is_ident path outer &&
      bool_decide (ident_path inner ∈ nested_paths tokens)
  | _ => false
  end.

Definition attrs_declare (outer inner : string) attrs : bool :=
  iter_any (attr_declares outer inner) attrs.

(** Capability A and capability B are declared and the registration of B
    under A is not. *)
Definition missing_registration attrs : bool :=
  attrs_declare "derive" "Reflect" attrs &&
  attrs_declare "derive" "Component" attrs &&
  negb (attrs_declare "reflect" "Component" attrs).

(** The flags as the specification computes them. *)
Definition flags_spec attrs : Flags :=
  mkFlags (attrs_declare "derive" "Reflect" attrs)
          (attrs_declare "derive" "Component" attrs)
          (attrs_declare "reflect" "Component" attrs).

(** Pointwise disjunction: the flags are only ever set, never cleared. *)
Definition flags_or (a b : Flags) : Flags :=
  mkFlags (derives_reflect a || derives_reflect b)
          (derives_component a || derives_component b)
          (has_reflect_component_attr a || has_reflect_component_attr b).

(** The attributes [#[derive(a, b, ...)]] and [#[reflect(a, b, ...)]]. *)
Definition derive_attr (names : list string) : Attribute :=
  mkAttr Outer (MetaList (ident_path "derive") Parenthesis (ident_list_tokens names)).

Definition reflect_attr (tokens : TokenStream) : Attribute :=
  mkAttr Outer (MetaList (ident_path "reflect") Parenthesis tokens).

(** ** The flags *)

Lemma Flags_eq a b :
  derives_reflect a = derives_reflect b →
  derives_component a = derives_component b →
  has_reflect_component_attr a = has_reflect_component_attr b → a = b.
Proof. destruct a, b; simpl; congruence. Qed.

(** [flags_solve]: equality of two [Flags] built from booleans. *)
Ltac flags_solve :=
  repeat case_bool_decide; simplify_eq;
  repeat match goal with
  | fl : Flags |- _ => destruct fl as [[] [] []]
  end; done.

Lemma flags_or_init fl : flags_or flags_init fl = fl.
Proof. by destruct fl. Qed.

Lemma flags_or_assoc a b c : flags_or (flags_or a b) c = flags_or a (flags_or b c).
Proof. destruct a as [[] [] []], b as [[] [] []]; by destruct c. Qed.

Lemma is_ident_decide path name :
  is_ident path name = bool_decide (ident_path name = path).
Proof.
  destruct (is_ident path name) eqn:Hi; symmetry.
  - apply is_ident_spec in Hi. by apply bool_decide_eq_true_2.
  - apply bool_decide_eq_false_2. intros Heq.
    symmetry in Heq. apply is_ident_spec in Heq. congruence.
Qed.

Lemma bool_decide_elem_of_cons `{EqDecision A} (x y : A) l :
  bool_decide (x ∈ y :: l) = bool_decide (x = y) || bool_decide (x ∈ l).
Proof.
  rewrite <-bool_decide_or. apply bool_decide_ext. apply elem_of_cons.
Qed.

(** The two callbacks, folded over the visited paths, set a flag exactly
    when its identifier is among the paths. *)
Lemma derive_logic_fold fl paths :
  foldl (λ st p, derive_logic p st) fl paths =
  flags_or fl (mkFlags (bool_decide (ident_path "Reflect" ∈ paths))
                       (bool_decide (ident_path "Component" ∈ paths)) false).
Proof.
  revert fl; induction paths as [|p paths IH]; intros fl.
  { by destruct fl as [[] [] []]. }
  cbn [foldl]. rewrite IH, !bool_decide_elem_of_cons.
  unfold derive_logic. rewrite !is_ident_decide.
  flags_solve.
Qed.

Lemma reflect_logic_fold fl paths :
  foldl (λ st p, reflect_logic p st) fl paths =
  flags_or fl (mkFlags false false (bool_decide (ident_path "Component" ∈ paths))).
Proof.
  revert fl; induction paths as [|p paths IH]; intros fl.
  { by destruct fl as [[] [] []]. }
  cbn [foldl]. rewrite IH, !bool_decide_elem_of_cons.
  unfold reflect_logic. rewrite !is_ident_decide. flags_solve.
Qed.

(** What one attribute contributes. *)
Definition attr_flags attr : Flags :=
  mkFlags (attr_declares "derive" "Reflect" attr)
          (attr_declares "derive" "Component" attr)
          (attr_declares "reflect" "Component" attr).

Lemma scan_attr_spec fl attr : scan_attr fl attr = flags_or fl (attr_flags attr).
Proof.
  unfold scan_attr, attr_flags, attr_declares.
  destruct (meta attr) as [p|p d tokens|p v]; try by destruct fl as [[] [] []].
  rewrite !parse_nested_meta_fold, derive_logic_fold, reflect_logic_fold.
  rewrite !is_ident_decide.
  flags_solve.
Qed.

Lemma flags_spec_cons attr attrs :
  flags_spec (attr :: attrs) = flags_or (attr_flags attr) (flags_spec attrs).
Proof. done. Qed.

(** The loop computes the specification's flags on top of those it starts
    with. *)
Lemma scan_attrs_spec fl attrs :
  foldl scan_attr fl attrs = flags_or fl (flags_spec attrs).
Proof.
  revert fl; induction attrs as [|attr attrs IH]; intros fl.
  { by destruct fl as [[] [] []]. }
  cbn [foldl]. by rewrite IH, scan_attr_spec, flags_spec_cons, flags_or_assoc.
Qed.

Lemma attrs_declare_app outer inner attrs1 attrs2 :
  attrs_declare outer inner (attrs1 ++ attrs2) =
  attrs_declare outer inner attrs1 || attrs_declare outer inner attrs2.
Proof. apply iter_any_app. Qed.

Lemma attrs_declare_true outer inner attrs :
  attrs_declare outer inner attrs = true ↔
  ∃ attr path d tokens, attr ∈ attrs ∧ meta attr = MetaList path d tokens ∧
    path = ident_path outer ∧ ident_path inner ∈ nested_paths tokens.
Proof.
  unfold attrs_declare. rewrite iter_any_true. unfold attr_declares. split.
  - intros (attr & Hin & Hd). destruct (meta attr) as [|p d tokens|] eqn:Hm; try done.
    apply andb_true_iff in Hd as [Hp%is_ident_spec Ht%bool_decide_eq_true_1].
    by exists attr, p, d, tokens.
  - intros (attr & p & d & tokens & Hin & Hm & -> & Ht). exists attr.
    split; [done|]. rewrite Hm. apply andb_true_iff. split.
    + by apply is_ident_spec.
    + by apply bool_decide_eq_true_2.
Qed.

(** ** Properties of the detection predicate *)

(** [detect_spec]: replace the loop by the flags of the specification. *)
Ltac detect_spec :=
  unfold derives_reflect_and_component_but_no_reflect_component;
  rewrite scan_attrs_spec, flags_or_init; cbn [flags_spec derives_reflect
    derives_component has_reflect_component_attr].

(** C3: the loop over the attributes with its three mutable
    flags computes the specification: some [derive] attribute carries
    [Reflect], some [derive] attribute carries [Component], and no [reflect]
    attribute carries [Component]. *)
Theorem detection_refines_spec attrs :
  derives_reflect_and_component_but_no_reflect_component attrs =
  missing_registration attrs.
Proof.
  by detect_spec.
Qed.

(** A flag that is set stays set: scanning further
    attributes only adds to the flags. *)
Theorem scan_attr_monotone fl attrs :
  flags_or (foldl scan_attr fl attrs) fl = foldl scan_attr fl attrs.
Proof.
  rewrite scan_attrs_spec.
  destruct fl as [[] [] []], (flags_spec attrs) as [[] [] []]; done.
Qed.

(** A type with [#[derive(Reflect, Component)]] and no
    other attribute is reported, and with [#[reflect(Component)]] added it
    is not. *)
Theorem derive_without_registration :
  derives_reflect_and_component_but_no_reflect_component
    [derive_attr ["Reflect"; "Component"]] = true ∧
  derives_reflect_and_component_but_no_reflect_component
    [derive_attr ["Reflect"; "Component"]; reflect_attr [TIdent "Component"]] = false.
Proof. by vm_compute. Qed.

(** C31: a registration that follows an argument with
    arguments of its own, as in [#[reflect(Hash(h), Component)]], is not
    seen: the parser fails at the group and the callback never runs on
    [Component], so the type is reported although it is registered. *)
Theorem registration_hidden_by_arguments sym d ts rest :
  sym ≠ "Component" →
  derives_reflect_and_component_but_no_reflect_component
    [derive_attr ["Reflect"; "Component"];
     reflect_attr (TIdent sym :: TGroup d ts :: TPunct ","%char Alone ::
                   TIdent "Component" :: rest)] = true.
Proof.
  intros Hsym. detect_spec.
  apply andb_true_iff; split; [by vm_compute|]. apply negb_true_iff.
  unfold attrs_declare, iter_any, attr_declares, reflect_attr, derive_attr.
  cbn [existsb meta]. rewrite nested_paths_stop by done.
  rewrite (bool_decide_eq_false_2 (_ ∈ [_])); [done|].
  rewrite list_elem_of_singleton. intros [= ?]. done.
Qed.

Lemma registration_hidden_by_arguments_witness :
  derives_reflect_and_component_but_no_reflect_component
    [derive_attr ["Reflect"; "Component"];
     reflect_attr (TIdent "Hash" :: TGroup Parenthesis [TIdent "custom_hash"] ::
                   TPunct ","%char Alone :: TIdent "Component" :: [])] = true.
Proof.
  apply (registration_hidden_by_arguments "Hash" Parenthesis [TIdent "custom_hash"] []).
  discriminate.
Defined.

(** C32: a derive that names the trait through a path, as in
    [#[derive(bevy_reflect::Reflect, Component)]], does not count:
    [is_ident] accepts a path of one segment only.  Unless another
    attribute derives [Reflect] by its plain name the type is not reported,
    whatever its other attributes are. *)
Theorem qualified_derive_not_counted krate attrs :
  attrs_declare "derive" "Reflect" attrs = false →
  derives_reflect_and_component_but_no_reflect_component
    (mkAttr Outer (MetaList (ident_path "derive") Parenthesis
       [TIdent krate; TPunct ":"%char Joint; TPunct ":"%char Alone;
        TIdent "Reflect"; TPunct ","%char Alone; TIdent "Component"]) :: attrs)
  = false.
Proof.
  intros Hattrs. detect_spec. do 2 (apply andb_false_iff; left).
  unfold attrs_declare, iter_any in *. cbn [existsb]. rewrite Hattrs, orb_false_r.
  unfold attr_declares. cbn [meta].
  rewrite (bool_decide_eq_false_2 (_ ∈ _)); [done|].
  change (nested_paths _) with [mkPath false [krate; "Reflect"]; ident_path "Component"].
  by intros [[=]|[[=]|[]%elem_of_nil]%elem_of_cons]%elem_of_cons.
Qed.

Lemma qualified_derive_not_counted_witness :
  derives_reflect_and_component_but_no_reflect_component
    [mkAttr Outer (MetaList (ident_path "derive") Parenthesis
       [TIdent "bevy_reflect"; TPunct ":"%char Joint; TPunct ":"%char Alone;
        TIdent "Reflect"; TPunct ","%char Alone; TIdent "Component"]);
     derive_attr ["Clone"; "Debug"]] = false.
Proof.
  apply (qualified_derive_not_counted "bevy_reflect" [derive_attr ["Clone"; "Debug"]]).
  reflexivity.
Defined.

(** C39: the test guard is a search for the text [test]: a [cfg]
    attribute is a test guard as soon as one of its tokens holds that text,
    whatever stands around it, as in [cfg(not(test))]. *)
Theorem cfg_mentioning_test_is_guard st d pre t post attrs attrs' :
  str_contains (token_to_string t) "test" = true →
  has_cfg_test
    (attrs ++ mkAttr st (MetaList (ident_path "cfg") d (pre ++ t :: post)) :: attrs')
  = true.
Proof.
  intros Ht. unfold has_cfg_test. rewrite iter_any_app. simpl.
  unfold is_cfg_test at 2. simpl. unfold stream_to_string.
  destruct (stream_to_string_go_mid false pre t post) as (a & b & ->).
  rewrite str_contains_mid by done. by rewrite orb_true_r.
Qed.

Lemma cfg_mentioning_test_is_guard_witness :
  has_cfg_test
    ([] ++ mkAttr Outer (MetaList (ident_path "cfg") Parenthesis
             ([TIdent "not"] ++ TGroup Parenthesis [TIdent "test"] :: [])) :: [])
  = true.
Proof. apply cfg_mentioning_test_is_guard. reflexivity. Defined.
