(* ===== verification/Walker.v ===== *)
(** * Walker: [collect_reflect_types]

    The recursive procedure of lines 190-237.  The program passes the vector
    of findings by mutable reference; here it is an argument and the result
    ([reflect_types]), and [push] is [++ [_]].  [collect_item] is the body of
    the [for] loop for one item, with the recursive call on the items of an
    inline module; [collect_reflect_types] is the loop over the items of a
    file.

    The specification is [walk_spec]: a function that returns the findings of
    a list of items, descending into every module that is not test-guarded
    with the visibility of the chain of modules as an argument, as the
    design describes it.  [reported] is the same as an inductive relation:
    the findings are the qualifying types reachable through modules that are
    not test-guarded (and, when only public types are wanted, through public
    modules only).  [text_item] is the invariant of the names of a tree:
    they are text, and so are the findings. *)

From S2P Require Import Prelude RustStr Utf8 Syn Detect.

Implicit Types (item : Item) (its : list Item) (file : File)
  (module_path f : string) (reflect_types acc : list string)
  (public_only parent_is_public pv : bool).

(** ** The procedure *)

(** [if public_only && !item_is_public { continue; }] *)
Definition skipped public_only (item_is_public : bool) : bool :=
  public_only && negb item_is_public.

(** One round of the loop (lines 198-235). *)
Fixpoint collect_item public_only parent_is_public module_path
    reflect_types item : list string :=
  let item_is_public := is_public item && parent_is_public in
  match item with
  | ItemStruct attrs _ ident =>
      if derives_reflect_and_component_but_no_reflect_component attrs then
        if skipped public_only item_is_public then reflect_types
        else reflect_types ++ [module_path +::+ ident]
      else reflect_types
  | ItemEnum attrs _ ident =>
      if derives_reflect_and_component_but_no_reflect_component attrs then
        if skipped public_only item_is_public then reflect_types
        else reflect_types ++ [module_path +::+ ident]
      else reflect_types
  | ItemMod attrs _ ident content =>
      if negb (has_cfg_test attrs) then
        if skipped public_only item_is_public then reflect_types
        else match content with
             | Some its =>
                 foldl (collect_item public_only item_is_public
                          (module_path +::+ ident)) reflect_types its
             | None => reflect_types
             end
      else reflect_types
  | ItemOther => reflect_types
  end.

(** [collect_reflect_types(file, module_path, reflect_types, public_only,
    parent_is_public)]; the result is the vector after the call. *)
Definition collect_reflect_types file module_path reflect_types
    public_only parent_is_public : list string :=
  foldl (collect_item public_only parent_is_public module_path)
    reflect_types (items file).

(** The file the program builds for the items of an inline module
    (lines 220-224). *)
Definition nested_file its : File := mkFile None [] its.

(** ** The specification *)

(** A type is kept when all types are wanted or it is visible. *)
Definition kept public_only (visible : bool) : bool :=
  negb public_only || visible.

Fixpoint walk_item public_only pv module_path item : list string :=
  match item with
  | ItemStruct attrs vis ident | ItemEnum attrs vis ident =>
      if derives_reflect_and_component_but_no_reflect_component attrs &&
         kept public_only (vis_is_public vis && pv)
      then [module_path +::+ ident] else []
  | ItemMod attrs vis ident (Some its) =>
      if has_cfg_test attrs then []
      else flat_map (walk_item public_only (vis_is_public vis && pv)
                       (module_path +::+ ident)) its
  | ItemMod _ _ _ None => []
  | ItemOther => []
  end.

Definition walk_spec public_only pv module_path its : list string :=
  flat_map (walk_item public_only pv module_path) its.

(** [reported public_only pv module_path its f]: the finding [f] is due to a
    qualifying type among [its] or inside their modules, where [its] are the
    items of the module [module_path], whose chain of modules is visible
    from outside iff [pv]. *)
Inductive reported public_only : bool → string → list Item → string → Prop :=
| reported_struct pv module_path its attrs vis ident :
    ItemStruct attrs vis ident ∈ its →
    derives_reflect_and_component_but_no_reflect_component attrs = true →
    kept public_only (vis_is_public vis && pv) = true →
    reported public_only pv module_path its (module_path +::+ ident)
| reported_enum pv module_path its attrs vis ident :
    ItemEnum attrs vis ident ∈ its →
    derives_reflect_and_component_but_no_reflect_component attrs = true →
    kept public_only (vis_is_public vis && pv) = true →
    reported public_only pv module_path its (module_path +::+ ident)
| reported_mod pv module_path its attrs vis ident inner f :
    ItemMod attrs vis ident (Some inner) ∈ its →
    has_cfg_test attrs = false →
    reported public_only (vis_is_public vis && pv) (module_path +::+ ident) inner f →
    reported public_only pv module_path its f.

(** The number of type definitions in a list of items, modules included. *)
Fixpoint count_types item : nat :=
  match item with
  | ItemStruct _ _ _ | ItemEnum _ _ _ => 1
  | ItemMod _ _ _ (Some its) => sum_list (count_types <$> its)
  | _ => 0
  end.

(** The names of the items are [String]s, that is text: [text_item] says
    so of an item and of the items inside it. *)
Fixpoint text_item item : bool :=
  match item with
  | ItemStruct _ _ ident | ItemEnum _ _ ident => bool_decide (utf8 ident)
  | ItemMod _ _ ident content =>
      bool_decide (utf8 ident) &&
      match content with Some its => forallb text_item its | None => true end
  | ItemOther => true
  end.

Definition text_file file : bool := forallb text_item (items file).

Ltac fold_walk_spec :=
  repeat match goal with
  | |- context [flat_map (walk_item ?po ?pv ?p) ?l] =>
      change (flat_map (walk_item po pv p) l) with (walk_spec po pv p l)
  end.

(** ** The loop and its specification *)

(** The round for an inline module is the procedure run on [nested_file]
    (lines 214-232): the recursive call of the source. *)
Lemma collect_item_mod public_only pv module_path acc attrs vis ident its :
  collect_item public_only pv module_path acc (ItemMod attrs vis ident (Some its)) =
  if negb (has_cfg_test attrs) then
    if skipped public_only (vis_is_public vis && pv) then acc
    else collect_reflect_types (nested_file its) (module_path +::+ ident) acc
           public_only (vis_is_public vis && pv)
  else acc.
Proof. done. Qed.

(** Under a chain of modules that is not visible, nothing is kept when only
    public types are wanted. *)
Lemma walk_item_hidden module_path item : walk_item true false module_path item = [].
Proof.
  revert module_path. induction item as [| | |attrs vis ident its IH|]
    using Item_ind; intros module_path; simpl;
    rewrite ?andb_false_r; try done.
  destruct (has_cfg_test attrs); [done|].
  apply flat_map_nil_Forall. eapply Forall_impl; [apply IH|]. naive_solver.
Qed.

Lemma walk_spec_hidden module_path its : walk_spec true false module_path its = [].
Proof.
  apply flat_map_nil_Forall, Forall_forall. intros. apply walk_item_hidden.
Qed.

Lemma skipped_true public_only b :
  skipped public_only b = true → public_only = true ∧ b = false.
Proof. by destruct public_only, b. Qed.

Lemma skipped_kept public_only b : skipped public_only b = negb (kept public_only b).
Proof. by destruct public_only, b. Qed.

(** One round appends the findings of its item. *)
Lemma collect_item_spec item public_only pv module_path acc :
  collect_item public_only pv module_path acc item =
  acc ++ walk_item public_only pv module_path item.
Proof.
  revert pv module_path acc. induction item as [attrs vis ident|attrs vis ident|
    attrs vis ident|attrs vis ident its IH|] using Item_ind;
    intros pv module_path acc; simpl; rewrite ?app_nil_r; try done.
  - rewrite skipped_kept. by destruct (derives_reflect_and_component_but_no_reflect_component _),
      (kept _ _); simpl; rewrite ?app_nil_r.
  - rewrite skipped_kept. by destruct (derives_reflect_and_component_but_no_reflect_component _),
      (kept _ _); simpl; rewrite ?app_nil_r.
  - by destruct (has_cfg_test attrs), (skipped _ _).
  - destruct (has_cfg_test attrs); simpl; [by rewrite app_nil_r|].
    destruct (skipped _ _) eqn:Hs.
    + apply skipped_true in Hs as [-> ->].
      by rewrite (flat_map_nil_Forall _ its), app_nil_r
        by (apply Forall_forall; intros; apply walk_item_hidden).
    + apply foldl_app_flat_map. eapply Forall_impl; [apply IH|]. naive_solver.
Qed.

(** [walker_spec]: replace the loop over the items of a file by the
    findings it appends. *)
Ltac walker_spec :=
  unfold collect_reflect_types;
  rewrite ?(foldl_app_flat_map _ (walk_item _ _ _))
    by (apply Forall_forall; intros; apply collect_item_spec);
  fold_walk_spec.

(** ** The specification and the relation [reported] *)

Lemma walk_item_reported public_only item pv module_path its f :
  item ∈ its → f ∈ walk_item public_only pv module_path item →
  reported public_only pv module_path its f.
Proof.
  revert pv module_path its f. induction item as [attrs vis ident|attrs vis ident|
    attrs vis ident|attrs vis ident inner IH|] using Item_ind;
    intros pv module_path its f Hin; simpl; try by intros ?%elem_of_nil.
  - destruct (derives_reflect_and_component_but_no_reflect_component _) eqn:Hd,
      (kept _ _) eqn:Hk; simpl; try by intros ?%elem_of_nil.
    intros ->%list_elem_of_singleton. by eapply reported_struct.
  - destruct (derives_reflect_and_component_but_no_reflect_component _) eqn:Hd,
      (kept _ _) eqn:Hk; simpl; try by intros ?%elem_of_nil.
    intros ->%list_elem_of_singleton. by eapply reported_enum.
  - destruct (has_cfg_test attrs) eqn:Hc; [by intros ?%elem_of_nil|].
    intros (i & Hi & Hf)%elem_of_flat_map.
    eapply reported_mod; [done..|]. rewrite Forall_forall in IH. by eapply IH.
Qed.

Lemma reported_walk_spec public_only pv module_path its f :
  reported public_only pv module_path its f →
  f ∈ walk_spec public_only pv module_path its.
Proof.
  induction 1 as [pv module_path its attrs vis ident Hin Hd Hk|
                  pv module_path its attrs vis ident Hin Hd Hk|
                  pv module_path its attrs vis ident inner f Hin Hc _ IH];
    apply elem_of_flat_map; eexists; (split; [done|]); simpl.
  - rewrite Hd, Hk. by apply list_elem_of_singleton.
  - rewrite Hd, Hk. by apply list_elem_of_singleton.
  - by rewrite Hc.
Qed.

Lemma walk_spec_reported public_only pv module_path its f :
  f ∈ walk_spec public_only pv module_path its ↔
  reported public_only pv module_path its f.
Proof.
  split; [|apply reported_walk_spec].
  intros (i & Hi & Hf)%elem_of_flat_map. by eapply walk_item_reported.
Qed.

(** Every finding is qualified by the path of the module it was found in. *)
Lemma reported_qualified public_only pv module_path its f :
  reported public_only pv module_path its f →
  ∃ rest, f = module_path +::+ rest.
Proof.
  induction 1 as [| |pv module_path its attrs vis ident inner f _ _ _ [rest ->]];
    [by eexists..|].
  exists (ident +::+ rest). unfold qualify. by rewrite !str_app_assoc.
Qed.

(** When all types are wanted, visibility is not consulted. *)
Lemma walk_item_all item pv pv' module_path :
  walk_item false pv module_path item = walk_item false pv' module_path item.
Proof.
  revert pv pv' module_path. induction item as [| | |attrs vis ident inner IH|]
    using Item_ind; intros pv pv' module_path; simpl; try done.
  destruct (has_cfg_test attrs); [done|].
  apply flat_map_ext_Forall. eapply Forall_impl; [apply IH|]. naive_solver.
Qed.

(** Wanting public types only removes findings, in place. *)
Lemma walk_item_sublist item public_only pv module_path :
  walk_item public_only pv module_path item `sublist_of`
  walk_item false pv module_path item.
Proof.
  revert pv module_path. induction item as [attrs vis ident|attrs vis ident|
    attrs vis ident|attrs vis ident inner IH|] using Item_ind;
    intros pv module_path; simpl; try done.
  - destruct (derives_reflect_and_component_but_no_reflect_component _), (kept _ _);
      simpl; try done. apply sublist_nil_l.
  - destruct (derives_reflect_and_component_but_no_reflect_component _), (kept _ _);
      simpl; try done. apply sublist_nil_l.
  - destruct (has_cfg_test attrs); [done|].
    apply flat_map_sublist. eapply Forall_impl; [apply IH|]. naive_solver.
Qed.

(** The findings are at most the type definitions of the tree. *)
Lemma walk_item_length item public_only pv module_path :
  length (walk_item public_only pv module_path item) ≤ count_types item.
Proof.
  revert pv module_path. induction item as [attrs vis ident|attrs vis ident|
    attrs vis ident|attrs vis ident inner IH|] using Item_ind;
    intros pv module_path; simpl; try done.
  - destruct (_ && _); simpl; lia.
  - destruct (_ && _); simpl; lia.
  - destruct (has_cfg_test attrs); simpl; [lia|].
    apply flat_map_length_le. eapply Forall_impl; [apply IH|]. naive_solver.
Qed.

(** ** Findings that are text *)

Lemma walk_item_utf8 item public_only pv module_path :
  utf8 module_path → text_item item = true →
  Forall utf8 (walk_item public_only pv module_path item).
Proof.
  revert pv module_path. induction item as [attrs vis ident|attrs vis ident|
    attrs vis ident|attrs vis ident inner IH|] using Item_ind;
    intros pv module_path Hm; simpl; try done.
  - intros Hi%bool_decide_eq_true_1. destruct (_ && _); [|done].
    by repeat constructor; apply utf8_qualify.
  - intros Hi%bool_decide_eq_true_1. destruct (_ && _); [|done].
    by repeat constructor; apply utf8_qualify.
  - intros [Hi%bool_decide_eq_true_1 Hin%Is_true_true%forallb_True]%andb_true_iff.
    destruct (has_cfg_test attrs); [done|]. apply List.Forall_flat_map.
    rewrite Forall_forall in IH, Hin. apply Forall_forall. intros item Hitem.
    apply IH; [done|by apply utf8_qualify|]. by apply Is_true_true, Hin.
Qed.

Lemma walk_spec_utf8 public_only pv module_path its :
  utf8 module_path → forallb text_item its = true →
  Forall utf8 (walk_spec public_only pv module_path its).
Proof.
  intros Hm Hits%Is_true_true%forallb_True. apply List.Forall_flat_map.
  eapply Forall_impl; [done|]. intros item Hitem%Is_true_true.
  by apply walk_item_utf8.
Qed.

(** ** Properties of the walker *)

(** C1: the procedure with the findings vector passed along
    appends to it exactly the findings the specification returns for the
    items of the file, in the same order; what was in the vector stays. *)
Theorem collect_reflect_types_refines file module_path reflect_types
    public_only parent_is_public :
  collect_reflect_types file module_path reflect_types public_only parent_is_public =
  reflect_types ++ walk_spec public_only parent_is_public module_path (items file).
Proof. by walker_spec. Qed.

(** C2: a string is in the vector after the call iff it was
    there before or it is [reported]: the qualified name of a qualifying
    type reached through modules that are not test-guarded, and kept by the
    visibility policy. *)
Theorem collect_reflect_types_reported file module_path reflect_types
    public_only parent_is_public f :
  f ∈ collect_reflect_types file module_path reflect_types public_only parent_is_public ↔
  f ∈ reflect_types ∨ reported public_only parent_is_public module_path (items file) f.
Proof. walker_spec. by rewrite elem_of_app, walk_spec_reported. Qed.

(** C17: a module with a test-guard attribute contributes
    nothing, whatever it contains and whatever the visibility policy. *)
Theorem test_guarded_module_skipped public_only parent_is_public module_path
    reflect_types attrs vis ident content :
  has_cfg_test attrs = true →
  collect_item public_only parent_is_public module_path reflect_types
    (ItemMod attrs vis ident content) = reflect_types.
Proof. intros Hc. simpl. by rewrite Hc. Qed.

(** C16: when only public types are wanted and the chain
    of enclosing modules is not visible, nothing is reported from the file,
    however the items inside are declared. *)
Theorem hidden_parent_reports_nothing file module_path reflect_types :
  collect_reflect_types file module_path reflect_types true false = reflect_types.
Proof. walker_spec. by rewrite walk_spec_hidden, app_nil_r. Qed.

(** The example of the design: a private module
    [outer] with a public module [inner] with a public qualifying type; the
    type is not reported when only public types are wanted, and is reported
    as [outer::inner::T] under the crate path when all are. *)
Theorem private_outer_public_inner attrs T module_path :
  derives_reflect_and_component_but_no_reflect_component attrs = true →
  let tree := mkFile None []
    [ItemMod [] VisInherited "outer"
       (Some [ItemMod [] VisPublic "inner"
                (Some [ItemStruct attrs VisPublic T])])] in
  collect_reflect_types tree module_path [] true true = [] ∧
  collect_reflect_types tree module_path [] false true =
    [module_path +::+ "outer" +::+ "inner" +::+ T].
Proof. intros Hd. simpl. unfold collect_reflect_types. simpl. by rewrite Hd. Qed.

Lemma private_outer_public_inner_witness :
  let tree := mkFile None []
    [ItemMod [] VisInherited "outer"
       (Some [ItemMod [] VisPublic "inner"
                (Some [ItemStruct [derive_attr ["Reflect"; "Component"]] VisPublic "T"])])] in
  collect_reflect_types tree "krate" [] true true = [] ∧
  collect_reflect_types tree "krate" [] false true =
    ["krate" +::+ "outer" +::+ "inner" +::+ "T"].
Proof.
  apply (private_outer_public_inner [derive_attr ["Reflect"; "Component"]] "T" "krate").
  by vm_compute.
Defined.

Lemma test_guarded_module_skipped_witness :
  collect_item true true "krate" []
    (ItemMod [mkAttr Outer (MetaList (ident_path "cfg") Parenthesis [TIdent "test"])]
       VisPublic "tests"
       (Some [ItemStruct [derive_attr ["Reflect"; "Component"]] VisPublic "T"])) = [].
Proof. apply test_guarded_module_skipped. by vm_compute. Defined.

(** C37: the test guard is consulted for modules only: a type definition
    that carries the guard itself and derives both traits without the
    registration is reported like any other. *)
Theorem test_guarded_type_reported public_only module_path reflect_types attrs ident :
  has_cfg_test attrs = true →
  derives_reflect_and_component_but_no_reflect_component attrs = true →
  Forall (λ item,
    collect_item public_only true module_path reflect_types item =
    reflect_types ++ [module_path +::+ ident])
    [ItemStruct attrs VisPublic ident; ItemEnum attrs VisPublic ident].
Proof.
  intros _ Hd. repeat constructor; simpl; rewrite Hd;
    by destruct public_only.
Qed.

Lemma test_guarded_type_reported_witness :
  let attrs := [mkAttr Outer (MetaList (ident_path "cfg") Parenthesis [TIdent "test"]);
                derive_attr ["Reflect"; "Component"]] in
  Forall (λ item, collect_item true true "krate" [] item = [] ++ ["krate" +::+ "T"])
    [ItemStruct attrs VisPublic "T"; ItemEnum attrs VisPublic "T"].
Proof. apply (test_guarded_type_reported true "krate" []); by vm_compute. Defined.

(** With [public_only] off, the visibility of the chain of
    modules does not change the report. *)
Theorem all_types_ignore_visibility file module_path reflect_types parent_is_public :
  collect_reflect_types file module_path reflect_types false parent_is_public =
  collect_reflect_types file module_path reflect_types false true.
Proof.
  walker_spec. f_equal. apply flat_map_ext_Forall, Forall_forall.
  intros. apply walk_item_all.
Qed.

(** The public report is the full report with some
    findings removed: same order, nothing added. *)
Theorem public_report_sublist file module_path parent_is_public :
  collect_reflect_types file module_path [] true parent_is_public `sublist_of`
  collect_reflect_types file module_path [] false parent_is_public.
Proof.
  walker_spec. apply flat_map_sublist, Forall_forall.
  intros. apply walk_item_sublist.
Qed.

(** Every finding the call adds is of the form
    [module_path::rest]. *)
Theorem findings_qualified file module_path public_only parent_is_public f :
  f ∈ collect_reflect_types file module_path [] public_only parent_is_public →
  ∃ rest, f = module_path +::+ rest.
Proof.
  walker_spec. rewrite app_nil_l, walk_spec_reported. apply reported_qualified.
Qed.

(** The call adds at most one finding per type definition of
    the file. *)
Theorem findings_bounded file module_path reflect_types public_only parent_is_public :
  length (collect_reflect_types file module_path reflect_types public_only
            parent_is_public) ≤
  length reflect_types + sum_list (count_types <$> items file).
Proof.
  walker_spec. rewrite length_app. apply Nat.add_le_mono_l.
  apply flat_map_length_le, Forall_forall. intros. apply walk_item_length.
Qed.

Lemma findings_qualified_witness :
  ∃ rest, "krate::T" = "krate" +::+ rest.
Proof.
  apply (findings_qualified
           (mkFile None [] [ItemStruct [derive_attr ["Reflect"; "Component"]] VisPublic "T"])
           "krate" true true "krate::T").
  vm_compute. apply list_elem_of_singleton. reflexivity.
Defined.
