(* ===== verification/Pipeline.v ===== *)
(** * Pipeline: [main]

    The body of [main] (lines 8-43) and [build_module_tree] (80-82).

    What [main] obtains from outside is an argument here: the result of
    [cargo metadata] (a [Result]: the metadata, or an error of a type with
    an instance of [Debug], on which [expect] panics), the file system the
    walks see, and two interfaces:
    - [Loader]: [fs::read_to_string] and [syn::parse_file], each of which can
      fail;
    - [HashOrder]: the order in which a [HashMap] yields its entries, of
      which the program may assume nothing but that every entry comes once.
    The theorems of this file hold for every instance of the interfaces.

    The hash map from path to syntax tree is a [gmap]; [insert] replaces the
    tree of a path that is already a key.  The file ends with two small
    projects on which the theorems are applied, and with the invariant that
    what [main] prints is text. *)

From stdpp Require Import gmap.
From S2P Require Import Prelude RustStr Utf8 RustPath StdPath ModulePath WalkDir Discovery Syn Detect Walker.

(** ** Interfaces *)

Class Loader := {
  read_to_string : string → option string;
  parse_file : string → option File
}.

Class HashOrder := {
  hash_iter : gmap string File → list (string * File);
  hash_iter_perm : ∀ m, hash_iter m ≡ₚ map_to_list m
}.

(** One order among many: the one of [map_to_list]. *)
#[export] Instance canonical_order : HashOrder :=
  {| hash_iter := map_to_list; hash_iter_perm := λ m, reflexivity _ |}.

Implicit Types (path : string) (file syntax : File) (metadata : Metadata)
  (module_tree : gmap string File) (source_files reflect_types : list string)
  (fs : FileSystem).

Section pipeline.
Context `{Loader}.

(** ** The program *)

Definition build_module_tree path file module_tree : gmap string File :=
  <[path := file]> module_tree.

(** The body of the first loop of [main] (lines 22-26): a file that cannot
    be read or parsed is skipped. *)
Definition load_file module_tree path : gmap string File :=
  match read_to_string path with
  | Some content =>
      match parse_file content with
      | Some syntax => build_module_tree path syntax module_tree
      | None => module_tree
      end
  | None => module_tree
  end.

Definition load_files source_files : gmap string File :=
  foldl load_file ∅ source_files.

(** The body of the second loop (lines 32-40): a file whose module path
    cannot be resolved is skipped. *)
Definition report_file metadata reflect_types (entry : string * File) : list string :=
  match resolve_module_path entry.1 metadata with
  | Some module_path =>
      collect_reflect_types entry.2 module_path reflect_types true true
  | None => reflect_types
  end.

Context `{HashOrder}.

Definition report metadata module_tree : list string :=
  foldl (report_file metadata) [] (hash_iter module_tree).

(** The files [main] scans (lines 15-17). *)
Definition all_source_files fs metadata : list string :=
  collect_dependency_files fs metadata (collect_source_files fs "./src" []).

(** The message given to [expect] (line 12). *)
Definition expect_message : string := "Failed to fetch cargo metadata".

(** [core::result::unwrap_failed(msg, &e)]: the text of the panic, the
    message, a colon and the error as [Debug] shows it. *)
Definition unwrap_failed `{Debug E} (msg : string) (e : E) : string :=
  msg +:+ ": " +:+ fmt_debug e.

(** [self.expect(msg)]: the value, or the panic with its text. *)
Definition expect `{Debug E} {T} (self : Result T E) (msg : string) :
    Result T string :=
  match self with
  | Ok t => Ok t
  | Err e => Err (unwrap_failed msg e)
  end.

(** [main]: the vector that is printed, or the text of the panic of
    [expect] when the metadata cannot be fetched. *)
Definition main `{Debug E} (metadata_exec : Result Metadata E) fs :
    Result (list string) string :=
  match expect metadata_exec expect_message with
  | Err message => Err message
  | Ok metadata =>
      let source_files := all_source_files fs metadata in
      let module_tree := load_files source_files in
      Ok (report metadata module_tree)
  end.

(** ** Specification *)

(** Reading and parsing a file. *)
Definition load path : option File := read_to_string path ≫= parse_file.

(** The findings of one file. *)
Definition file_findings metadata (entry : string * File) : list string :=
  match resolve_module_path entry.1 metadata with
  | Some module_path => walk_spec true true module_path (items entry.2)
  | None => []
  end.

(** The files that can be read and parsed, each with its tree. *)
Definition loaded source_files : list (string * File) :=
  omap (λ path, pair path <$> load path) source_files.

(** ** [expect] *)

Lemma expect_Ok `{Debug E} {T} (r : Result T E) msg t :
  expect r msg = Ok t ↔ r = Ok t.
Proof. destruct r; simpl; split; congruence. Qed.

Lemma expect_Err `{Debug E} {T} (r : Result T E) msg message :
  expect r msg = Err message ↔ ∃ e, r = Err e ∧ message = unwrap_failed msg e.
Proof.
  destruct r as [t|e]; simpl; split; try done.
  - by intros (? & [=] & _).
  - intros [= <-]. by exists e.
  - by intros (? & [= <-] & ->).
Qed.

(** ** The module tree *)

Lemma load_file_spec module_tree path :
  load_file module_tree path =
  from_option (λ syntax, <[path := syntax]> module_tree) module_tree (load path).
Proof.
  unfold load_file, load, build_module_tree.
  destruct (read_to_string path); [|done]. simpl. by destruct (parse_file _).
Qed.

Lemma load_file_lookup module_tree path q :
  load_file module_tree path !! q =
  if decide (q = path) then load q ∪ module_tree !! q else module_tree !! q.
Proof.
  rewrite load_file_spec. case_decide as Hq; [subst q|];
    destruct (load path) as [syntax|] eqn:Hl; simpl;
    rewrite ?Hl, ?lookup_insert_eq, ?lookup_insert_ne, ?(left_id None _)
      by congruence; try done.
  by destruct (module_tree !! path).
Qed.

Lemma foldl_load_file_lookup source_files module_tree q :
  foldl load_file module_tree source_files !! q =
  if decide (q ∈ source_files) then load q ∪ module_tree !! q
  else module_tree !! q.
Proof.
  revert module_tree.
  induction source_files as [|path source_files IH]; intros module_tree; simpl.
  { done. }
  rewrite IH, load_file_lookup.
  destruct (decide (q = path)) as [->|Hne].
  - rewrite (decide_True (P := path ∈ path :: source_files)) by (by left).
    case_decide; [|done]. by destruct (load path), (module_tree !! path).
  - case_decide as Hin.
    + by rewrite decide_True by (by right).
    + rewrite decide_False; [done|]. by intros [?|?]%elem_of_cons.
Qed.

Lemma load_files_lookup_Some source_files path syntax :
  load_files source_files !! path = Some syntax ↔
  path ∈ source_files ∧ load path = Some syntax.
Proof.
  unfold load_files. rewrite foldl_load_file_lookup, lookup_empty.
  case_decide; [rewrite (right_id None _)|]; intuition congruence.
Qed.

Lemma elem_of_loaded source_files path syntax :
  (path, syntax) ∈ loaded source_files ↔
  path ∈ source_files ∧ load path = Some syntax.
Proof.
  unfold loaded. rewrite list_elem_of_omap. split.
  - intros (q & Hq & Hl). destruct (load q) eqn:?; by simplify_eq/=.
  - intros [Hq Hl]. exists path. by rewrite Hl.
Qed.

Lemma NoDup_loaded source_files : NoDup source_files → NoDup (loaded source_files).
Proof.
  apply NoDup_omap. intros p q [p' syntax] Hp Hq.
  destruct (load p), (load q); by simplify_eq/=.
Qed.

(** The entries of the module tree: the files that load, each once. *)
Lemma map_to_list_load_files source_files :
  map_to_list (load_files source_files) ≡ₚ loaded (remove_dups source_files).
Proof.
  apply NoDup_Permutation;
    [apply NoDup_map_to_list|apply NoDup_loaded, NoDup_remove_dups|].
  intros [path syntax].
  by rewrite elem_of_map_to_list, load_files_lookup_Some, elem_of_loaded,
    elem_of_remove_dups.
Qed.

(** ** The report *)

Lemma report_file_spec metadata reflect_types entry :
  report_file metadata reflect_types entry =
  reflect_types ++ file_findings metadata entry.
Proof.
  unfold report_file, file_findings. destruct (resolve_module_path _ _).
  - by walker_spec.
  - by rewrite app_nil_r.
Qed.

Lemma report_flat_map metadata module_tree :
  report metadata module_tree =
  flat_map (file_findings metadata) (hash_iter module_tree).
Proof.
  unfold report. rewrite (foldl_app_flat_map _ (file_findings metadata)); [done|].
  apply Forall_forall. intros; apply report_file_spec.
Qed.

(** The report of the files of a list, whatever the order of the map. *)
Lemma report_load_files metadata source_files :
  report metadata (load_files source_files) ≡ₚ
  flat_map (file_findings metadata) (loaded (remove_dups source_files)).
Proof.
  by rewrite report_flat_map, hash_iter_perm, map_to_list_load_files.
Qed.

Lemma elem_of_file_findings metadata path syntax f :
  f ∈ file_findings metadata (path, syntax) ↔
  ∃ module_path, resolve_module_path path metadata = Some module_path ∧
    reported true true module_path (items syntax) f.
Proof.
  unfold file_findings. simpl. destruct (resolve_module_path _ _) as [mp|].
  - rewrite walk_spec_reported. split; [by exists mp|]. by intros (? & [= <-] & ?).
  - split; [by intros ?%elem_of_nil|by intros (? & [=] & _)].
Qed.

(** Every path found below [./src] begins with [./], so that no prefix of
    it is a crate root or [src]. *)
Lemma local_file_unresolved fs metadata path :
  absolute_manifests metadata →
  path ∈ collect_source_files fs "./src" [] →
  resolve_module_path path metadata = None.
Proof.
  intros Habs. discovery_spec. unfold walk_from. rewrite app_nil_l.
  destruct (fs "./src") as [node|]; [|by intros ?%elem_of_nil].
  intros (entry_path & -> & _ & [rest ->]%walk_dir_prefix)%elem_of_sources_of.
  change (to_string_lossy ("./src" +:+ rest))
    with (from_utf8_lossy (String "." (String "/" ("src" +:+ rest)))).
  rewrite !from_utf8_lossy_cons by done.
  change (String "." (String "/" ?r)) with ("./" +:+ r).
  rewrite resolve_module_path_relative by done.
  by rewrite components_dot_slash.
Qed.

End pipeline.

(** ** Properties of the pipeline *)

Section properties.
Context `{Loader} {E : Type} `{Debug E}.

(** [report_drop]: files without findings can be left out of the list. *)
Lemma report_drop `{HashOrder} metadata source_files kept_files :
  kept_files ⊆ source_files →
  (∀ path, path ∈ source_files → path ∉ kept_files →
     ∀ syntax, file_findings metadata (path, syntax) = []) →
  report metadata (load_files source_files) ≡ₚ
  report metadata (load_files kept_files).
Proof.
  intros Hsub Hnil. rewrite !report_load_files.
  apply flat_map_NoDup_subseteq; try apply NoDup_loaded, NoDup_remove_dups.
  - intros [path syntax]. rewrite !elem_of_loaded, !elem_of_remove_dups.
    intros [Hin Hl]. split; [by apply Hsub|done].
  - intros [path syntax]. rewrite !elem_of_loaded, !elem_of_remove_dups.
    intros [Hin Hl] Hk. apply Hnil; [done|]. intros Hin'. by apply Hk.
Qed.

Lemma file_findings_unresolved metadata path syntax :
  resolve_module_path path metadata = None →
  file_findings metadata (path, syntax) = [].
Proof. unfold file_findings. simpl. by intros ->. Qed.

(** The module tree built from a list of paths holds, for a
    path of the list, the tree obtained by reading and parsing it, if that
    succeeds, and nothing for any other path. *)
Theorem load_files_lookup source_files path :
  load_files source_files !! path =
  if decide (path ∈ source_files) then load path else None.
Proof.
  unfold load_files. rewrite foldl_load_file_lookup, lookup_empty.
  case_decide; [apply (right_id None _)|done].
Qed.

(** The module tree depends on which paths were
    discovered, not on their order or on how often each was found. *)
Theorem load_files_order_irrelevant source_files source_files' :
  (∀ path, path ∈ source_files ↔ path ∈ source_files') →
  load_files source_files = load_files source_files'.
Proof.
  intros Heq. apply map_eq. intros path. unfold load_files.
  rewrite !foldl_load_file_lookup.
  destruct (decide (path ∈ source_files)) as [Hin|Hin]; rewrite Heq in Hin;
    by rewrite ?(decide_True _ _ Hin), ?(decide_False _ _ Hin).
Qed.

(** When the metadata is available, [main] returns a vector
    which is, up to the order of its entries, the findings of the files that
    were discovered and could be read and parsed, each file counted once. *)
Theorem main_report `{HashOrder} metadata fs :
  ∃ reflect_types,
    main (E := E) (Ok metadata) fs = Ok reflect_types ∧
    reflect_types ≡ₚ
      flat_map (file_findings metadata)
        (loaded (remove_dups (all_source_files fs metadata))).
Proof. eexists. split; [done|apply report_load_files]. Qed.

(** C4: a string is printed iff it is the qualified name of a
    reported type of a discovered file that can be read and parsed and whose
    module path resolves. *)
Theorem main_findings `{HashOrder} metadata fs reflect_types f :
  main (E := E) (Ok metadata) fs = Ok reflect_types →
  f ∈ reflect_types ↔
  ∃ path syntax module_path,
    path ∈ all_source_files fs metadata ∧ load path = Some syntax ∧
    resolve_module_path path metadata = Some module_path ∧
    reported true true module_path (items syntax) f.
Proof.
  intros [= <-]. rewrite report_load_files, elem_of_flat_map. split.
  - intros ([path syntax] & [Hin Hl]%elem_of_loaded & (mp & Hr & Hf)%elem_of_file_findings).
    rewrite elem_of_remove_dups in Hin. by exists path, syntax, mp.
  - intros (path & syntax & mp & Hin & Hl & Hr & Hf). exists (path, syntax).
    rewrite elem_of_loaded, elem_of_remove_dups, elem_of_file_findings.
    split; [done|by exists mp].
Qed.

(** C7: with the manifests given by absolute path, the files of
    the project itself contribute nothing: the report is that of the files
    of the dependencies alone. *)
Theorem local_files_contribute_nothing `{HashOrder} metadata fs :
  absolute_manifests metadata →
  report metadata (load_files (all_source_files fs metadata)) ≡ₚ
  report metadata (load_files (collect_dependency_files fs metadata [])).
Proof.
  intros Habs. unfold all_source_files. apply report_drop.
  - discovery_spec. rewrite !app_nil_l. intros p Hp. apply elem_of_app. by right.
  - revert Habs. discovery_spec. rewrite !app_nil_l.
    intros Habs path [Hl|Hd]%elem_of_app Hk syntax; [|done].
    apply file_findings_unresolved, (local_file_unresolved fs); [done|].
    by discovery_spec.
Qed.

(** A file that cannot be read or parsed has no
    influence on the report. *)
Theorem unloadable_file_skipped `{HashOrder} metadata source_files path :
  load path = None →
  report metadata (load_files source_files) =
  report metadata (load_files (filter (λ p, p ≠ path) source_files)).
Proof.
  intros Hl. f_equal. apply map_eq. intros q. unfold load_files.
  rewrite !foldl_load_file_lookup, !lookup_empty.
  destruct (decide (q = path)) as [->|Hne].
  - rewrite Hl. by repeat case_decide.
  - repeat case_decide; try done; exfalso;
      rewrite list_elem_of_filter in *; tauto.
Qed.

(** C35: one discovered file with one public type: the vector
    holds the module path of the file followed by the name of the type if
    the type derives both traits and is not registered, and is empty
    otherwise. *)
Theorem main_single_file `{HashOrder} metadata fs path attrs T module_path :
  all_source_files fs metadata = [path] →
  load path = Some (mkFile None [] [ItemStruct attrs VisPublic T]) →
  resolve_module_path path metadata = Some module_path →
  main (E := E) (Ok metadata) fs =
  Ok (if derives_reflect_and_component_but_no_reflect_component attrs
        then [module_path +::+ T] else []).
Proof.
  intros Hall Hl Hr. unfold main. simpl. rewrite Hall. f_equal.
  unfold load_files. simpl. rewrite load_file_spec, Hl. simpl.
  rewrite insert_empty, report_flat_map.
  pose proof (hash_iter_perm {[path := mkFile None [] [ItemStruct attrs VisPublic T]]})
    as Hp.
  rewrite map_to_list_singleton in Hp. apply Permutation_singleton_r in Hp as ->.
  simpl. unfold file_findings. simpl. rewrite Hr. simpl.
  destruct (derives_reflect_and_component_but_no_reflect_component attrs); done.
Qed.

(** A declaration [mod ident;] carries no items: the file that holds it
    has no findings from it. *)
Lemma file_findings_mod_decl metadata path attrs vis ident :
  file_findings metadata (path, mkFile None [] [ItemMod attrs vis ident None]) = [].
Proof. unfold file_findings. simpl. by destruct (resolve_module_path _ _). Qed.

(** C36: a module kept in a file of its own is walked from a visible root,
    whatever its declaration [mod ident;] in the parent file says: declared
    private or under a test guard, its public qualifying types are reported
    all the same. *)
Theorem out_of_line_module_reported `{HashOrder} metadata fs parent child
    attrs vis ident syntax module_path :
  all_source_files fs metadata = [parent; child] →
  load parent = Some (mkFile None [] [ItemMod attrs vis ident None]) →
  load child = Some syntax →
  resolve_module_path child metadata = Some module_path →
  ∃ reflect_types,
    main (E := E) (Ok metadata) fs = Ok reflect_types ∧
    reflect_types ≡ₚ walk_spec true true module_path (items syntax).
Proof.
  intros Hall Hp Hc Hr. eexists. split; [done|].
  rewrite Hall, report_load_files. unfold loaded, file_findings. simpl.
  case_decide as Hin; simpl; rewrite ?Hp, Hc; simpl; rewrite Hr, ?app_nil_r.
  - done.
  - by destruct (resolve_module_path parent metadata).
Qed.

End properties.

(** C30: the findings do not depend on the order in which the hash
    map yields its entries, up to the order of the findings. *)
Theorem report_order_irrelevant (order order' : HashOrder)
    metadata module_tree :
  @report order metadata module_tree ≡ₚ @report order' metadata module_tree.
Proof. by rewrite !report_flat_map, !hash_iter_perm. Qed.

(** ** A project and a dependency *)

(** The error of the examples: [cargo_metadata::Error::NoJson], which
    [Debug] shows by its name. *)
Inductive ExampleError := NoJson.

#[export] Instance Debug_ExampleError : Debug ExampleError := λ _, "NoJson".


Definition example_source : File :=
  mkFile None [] [ItemStruct [derive_attr ["Reflect"; "Component"]] VisPublic "Health"].

Definition example_loader : Loader :=
  {| read_to_string path :=
       if decide (path ∈ ["./src/main.rs"; "/cargo/bevy_ecs/src/lib.rs"])
       then Some "text" else None;
     parse_file content :=
       if decide (content = "text") then Some example_source else None |}.

Definition example_metadata : Metadata :=
  mkMetadata [mkPackage "app" "/work/app/Cargo.toml";
              mkPackage "bevy_ecs" "/cargo/bevy_ecs/Cargo.toml"].

(** The dependency, and the project itself if [with_local]. *)
Definition example_project (with_local : bool) : FileSystem := λ dir,
  if decide (dir = "./src") then
    if with_local then Some (FsDir [("main.rs", FsFile); ("gen.rs", FsFile)])
    else None
  else if decide (dir = "/cargo/bevy_ecs") then
    Some (FsDir [("Cargo.toml", FsFile); ("src", FsDir [("lib.rs", FsFile)])])
  else None.

Lemma load_files_order_irrelevant_witness :
  @load_files example_loader ["a.rs"; "./src/main.rs"] =
  @load_files example_loader ["./src/main.rs"; "a.rs"; "./src/main.rs"].
Proof.
  apply (@load_files_order_irrelevant example_loader). intros path.
  rewrite !elem_of_cons. tauto.
Defined.

Lemma main_findings_witness :
  "bevy_ecs::src::lib::Health" ∈ ["bevy_ecs::src::lib::Health"] ↔
  ∃ path syntax module_path,
    path ∈ all_source_files (example_project true) example_metadata ∧
    @load example_loader path = Some syntax ∧
    resolve_module_path path example_metadata = Some module_path ∧
    reported true true module_path (items syntax) "bevy_ecs::src::lib::Health".
Proof.
  apply (@main_findings example_loader ExampleError _ canonical_order example_metadata
           (example_project true)).
  by vm_compute.
Defined.

Lemma local_files_contribute_nothing_witness :
  @report canonical_order example_metadata
    (@load_files example_loader
       (all_source_files (example_project true) example_metadata)) ≡ₚ
  @report canonical_order example_metadata
    (@load_files example_loader
       (collect_dependency_files (example_project true) example_metadata [])).
Proof.
  apply (@local_files_contribute_nothing example_loader canonical_order).
  repeat constructor.
Defined.

Lemma unloadable_file_skipped_witness :
  @report canonical_order example_metadata
    (@load_files example_loader
       (all_source_files (example_project true) example_metadata)) =
  @report canonical_order example_metadata
    (@load_files example_loader
       (filter (λ p, p ≠ "./src/gen.rs")
          (all_source_files (example_project true) example_metadata))).
Proof.
  apply (@unloadable_file_skipped example_loader canonical_order). reflexivity.
Defined.

Lemma main_single_file_witness :
  @main example_loader canonical_order ExampleError _ (Ok example_metadata)
    (example_project false) = Ok ["bevy_ecs::src::lib::Health"].
Proof.
  apply (@main_single_file example_loader ExampleError _ canonical_order example_metadata
           (example_project false) "/cargo/bevy_ecs/src/lib.rs"
           [derive_attr ["Reflect"; "Component"]] "Health" "bevy_ecs::src::lib");
    reflexivity.
Defined.

(** A dependency with a private module in a file of its own. *)
Definition private_module_loader : Loader :=
  {| read_to_string path :=
       if decide (path = "/cargo/bevy_ui/src/lib.rs") then Some "mod hidden;"
       else if decide (path = "/cargo/bevy_ui/src/hidden.rs") then Some "text"
       else None;
     parse_file content :=
       if decide (content = "mod hidden;")
       then Some (mkFile None [] [ItemMod [] VisInherited "hidden" None])
       else if decide (content = "text") then Some example_source else None |}.

Definition private_module_project : FileSystem := λ dir,
  if decide (dir = "/cargo/bevy_ui") then
    Some (FsDir [("Cargo.toml", FsFile);
                 ("src", FsDir [("lib.rs", FsFile); ("hidden.rs", FsFile)])])
  else None.

Lemma out_of_line_module_reported_witness :
  ∃ reflect_types,
    @main private_module_loader canonical_order ExampleError _
      (Ok (mkMetadata [mkPackage "bevy_ui" "/cargo/bevy_ui/Cargo.toml"]))
      private_module_project = Ok reflect_types ∧
    reflect_types ≡ₚ ["bevy_ui::src::hidden::Health"].
Proof.
  apply (@out_of_line_module_reported private_module_loader ExampleError _ canonical_order
           (mkMetadata [mkPackage "bevy_ui" "/cargo/bevy_ui/Cargo.toml"])
           private_module_project "/cargo/bevy_ui/src/lib.rs"
           "/cargo/bevy_ui/src/hidden.rs" [] VisInherited "hidden"
           example_source "bevy_ui::src::hidden"); reflexivity.
Defined.

(** ** Discovery and resolution together *)

(** A file found below the crate root of a package has the components of
    that root as a prefix of its own. *)
Lemma package_file_prefix fs package source path :
  (∀ dir node, fs dir = Some node → wf_fs node) →
  utf8 (manifest_path package) →
  crate_root package = Some source → path ∈ package_files fs package →
  ∃ names, components path = components source ++ (Normal <$> names).
Proof.
  intros Hwf Htext Hsrc. unfold package_files, walk_from.
  unfold crate_root in Hsrc. rewrite Hsrc.
  destruct (str_starts_with _ _); [|by intros ?%elem_of_nil].
  destruct (fs source) as [node|] eqn:Hfs; [|by intros ?%elem_of_nil].
  intros (entry_path & -> & _ & Hp)%elem_of_sources_of.
  apply walk_dir_sound in Hp as (_ & names & node' & Hr & _ & ->); [|by eapply Hwf].
  exists (to_string_lossy <$> names).
  rewrite components_lossy, components_foldl_path_join
    by (eapply fs_reach_valid; eauto).
  rewrite fmap_app, <-!list_fmap_compose.
  rewrite lossy_path_utf8; [done|].
  eapply parent_utf8; [|by apply utf8_components].
  apply Path_parent_Some. by exists source.
Qed.

(** C13: with unique package names and a crate root for every package,
    every source file discovered in a dependency resolves: its module path
    is the name of a package followed by the module path of the slice of
    the file's path after the crate root of that package, and the file is
    never dropped. *)
Theorem dependency_file_resolves fs metadata path :
  NoDup (name <$> packages metadata) →
  Forall (λ q, is_Some (crate_root q)) (packages metadata) →
  Forall (λ q, utf8 (manifest_path q)) (packages metadata) →
  (∀ dir node, fs dir = Some node → wf_fs node) →
  path ∈ collect_dependency_files fs metadata [] →
  ∃ owner root relative_path,
    owner ∈ packages metadata ∧ crate_root owner = Some root ∧
    components path = components root ++ components relative_path ∧
    resolve_module_path path metadata =
      Some (name owner +::+ relative_path_to_module_path relative_path).
Proof.
  intros Hnd Hroots Htext Hwf. discovery_spec. rewrite app_nil_l.
  intros (package & Hin & Hpath)%elem_of_flat_map.
  destruct (proj1 (Forall_forall _ _) Hroots _ Hin) as [source Hsrc].
  pose proof (proj1 (Forall_forall _ _) Htext _ Hin) as Hman.
  destruct (package_file_prefix _ _ _ _ Hwf Hman Hsrc Hpath) as [names Hnames].
  destruct (crate_root_for_file_is_Some path _ _ _ Hroots Hin Hsrc)
    as [crate_name Hc]; [by eexists|].
  destruct (resolve_module_path_in_crate _ _ _ Hnd Hc)
    as (owner & root & relative_path & Hown & <- & Hroot & _ & ? & ?).
  exists owner, root, relative_path.
  by rewrite <-(crate_root_path_member metadata owner).
Qed.

Lemma dependency_file_resolves_witness :
  ∃ owner root relative_path,
    owner ∈ packages example_metadata ∧ crate_root owner = Some root ∧
    components "/cargo/bevy_ecs/src/lib.rs" =
      components root ++ components relative_path ∧
    resolve_module_path "/cargo/bevy_ecs/src/lib.rs" example_metadata =
      Some (name owner +::+ relative_path_to_module_path relative_path).
Proof.
  apply (dependency_file_resolves (example_project true) example_metadata).
  - apply NoDup_cons. split; [by intros [=]%list_elem_of_singleton|].
    apply NoDup_singleton.
  - repeat constructor; by eexists.
  - repeat constructor; by apply utf8_ascii.
  - intros dir node. unfold example_project. repeat case_decide; intros [= <-];
      by vm_compute.
  - vm_compute. set_solver.
Defined.

(** C14: the module path of a file of a package, reached from the crate
    root through the directories and the file called [names]: the name of
    the package, then every one of [names] that is text, without its
    trailing [.rs], unless it is [mod].  The directory [src] and the name
    of the file are segments like the others. *)
Theorem module_path_below_crate_root metadata package source names :
  NoDup (name <$> packages metadata) → package ∈ packages metadata →
  crate_root package = Some source → Forall valid_name names →
  crate_root_for_file (foldl path_join source names) metadata =
    Some (name package) →
  resolve_module_path (foldl path_join source names) metadata =
    Some (name package +::+ str_join "::" (module_segments names)).
Proof.
  intros Hnd Hin Hsrc Hnames Hc.
  destruct (resolve_module_path_in_crate _ _ _ Hnd Hc)
    as (_ & root & relative_path & _ & _ & Hroot & _ & Hcomp & ->).
  rewrite (crate_root_path_member _ _ Hnd Hin), Hsrc in Hroot.
  injection Hroot as <-.
  rewrite components_foldl_path_join in Hcomp by done.
  apply app_inv_head in Hcomp. unfold relative_path_to_module_path.
  rewrite Path_iter_spec, <-Hcomp. unfold path_iter.
  by rewrite <-list_fmap_compose, list_fmap_id.
Qed.

Lemma module_path_below_crate_root_witness :
  resolve_module_path (foldl path_join "/cargo/bevy_ecs" ["src"; "lib.rs"])
    example_metadata =
  Some ("bevy_ecs" +::+ str_join "::" (module_segments ["src"; "lib.rs"])).
Proof.
  apply (module_path_below_crate_root example_metadata
           (mkPackage "bevy_ecs" "/cargo/bevy_ecs/Cargo.toml") "/cargo/bevy_ecs");
    [|set_solver|done|by repeat constructor|done].
  apply NoDup_cons. split; [by intros [=]%list_elem_of_singleton|].
  apply NoDup_singleton.
Defined.

(** Every path [main] hands to [resolve_module_path] is text, so that
    the conversion of its components cannot fail: the module path of a file
    of the tree has a segment for every component left after the prefix,
    [mod] apart. *)
Theorem main_paths_are_text `{Loader} fs metadata path syntax :
  load_files (all_source_files fs metadata) !! path = Some syntax →
  utf8 path ∧
  ∀ base relative_path,
    Path_strip_prefix path base = Ok relative_path →
    omap to_str (Path_iter relative_path) = Path_iter relative_path.
Proof.
  intros [Hin _]%load_files_lookup_Some.
  assert (utf8 path) as Hp.
  { eapply (proj1 (Forall_forall _ _)); [|done].
    by apply collect_dependency_files_utf8, collect_source_files_utf8. }
  split; [done|]. intros base relative_path Hr.
  by apply (Path_strip_prefix_utf8 path base).
Qed.

Lemma main_paths_are_text_witness :
  utf8 "/cargo/bevy_ecs/src/lib.rs" ∧
  ∀ base relative_path,
    Path_strip_prefix "/cargo/bevy_ecs/src/lib.rs" base = Ok relative_path →
    omap to_str (Path_iter relative_path) = Path_iter relative_path.
Proof.
  apply (@main_paths_are_text example_loader (example_project true)
           example_metadata "/cargo/bevy_ecs/src/lib.rs" example_source).
  reflexivity.
Defined.

(** ** Findings that are text *)

Section text.
Context `{Loader} {E : Type} `{Debug E}.

(** The names of the packages and the names in a syntax tree are
    [String]s, that is text. *)
Definition text_metadata metadata : Prop :=
  Forall (λ q, utf8 (name q)) (packages metadata).

Definition text_parser : Prop :=
  ∀ content file, parse_file content = Some file → text_file file = true.

Lemma load_text path file : text_parser → load path = Some file → text_file file = true.
Proof.
  unfold load. intros Hp Hl. destruct (read_to_string path) as [content|]; [|done].
  by eapply Hp.
Qed.

Lemma file_findings_utf8 metadata entry :
  text_metadata metadata → text_file entry.2 = true →
  Forall utf8 (file_findings metadata entry).
Proof.
  intros Hm He. unfold file_findings.
  destruct (resolve_module_path _ _) as [module_path|] eqn:Hr; [|done].
  apply walk_spec_utf8; [by eapply resolve_module_path_utf8|done].
Qed.

Lemma loaded_findings_utf8 metadata source_files :
  text_metadata metadata → text_parser →
  Forall utf8 (flat_map (file_findings metadata) (loaded source_files)).
Proof.
  intros Hm Hp. apply List.Forall_flat_map, Forall_forall.
  intros [path file] [_ Hl]%elem_of_loaded.
  apply file_findings_utf8; [done|]. by eapply load_text.
Qed.

(** C25: the strings [main] prints are text when the names of the packages
    and the names the parser returns are: joining them with [::], cutting
    [.rs] and dropping [mod] keep them so, and the components of a path
    that are not text never reach a name. *)
Theorem main_findings_are_text `{HashOrder} metadata fs reflect_types :
  text_metadata metadata → text_parser →
  main (E := E) (Ok metadata) fs = Ok reflect_types → Forall utf8 reflect_types.
Proof.
  intros Hm Hp [= <-]. rewrite report_load_files. by apply loaded_findings_utf8.
Qed.

End text.

Lemma example_text_parser : @text_parser example_loader.
Proof. intros content file. simpl. case_decide; [|done]. by intros [= <-]. Qed.

Lemma main_findings_are_text_witness : Forall utf8 ["bevy_ecs::src::lib::Health"].
Proof.
  apply (@main_findings_are_text example_loader ExampleError _ canonical_order example_metadata
           (example_project true)).
  - by repeat constructor; apply utf8_ascii.
  - exact example_text_parser.
  - by vm_compute.
Defined.
