(* ===== verification/Present.v ===== *)
(** * Present: the text the program prints

    [println!("{:?}", reflect_types)] (line 42) formats a [Vec<String>] with
    the trait [Debug] and writes it, followed by a newline, to the standard
    output.  The trait is the class [Debug] of [RustStr], with the two
    instances the call uses:
    - [impl Debug for str]: a double quote, the characters of the string
      each through [char::escape_debug_ext] (double quotes escaped, single
      quotes not, grapheme extenders escaped), a double quote;
    - [impl Debug for Vec<T>]: [debug_list], that is [[], the entries
      separated by a comma and a space, []].

    A character is its code, a number ([chars] of [Chars]).  Which
    characters are printable and which extend a grapheme is decided by
    tables of the Unicode database that the library generates; they are the
    interface [UnicodeData] here, consulted above ASCII only, as in the
    library, and every theorem holds for all tables.  [escape_unicode] is
    the buffer of [EscapeDebug::unicode]: six hexadecimal digits of which
    the leading zeros are cut by the count of leading zero bits.

    The second half of the file is a reader of the printed text, written as
    an automaton over its bytes, and the proof that it reads back what was
    printed. *)

From Stdlib Require Import ZArith.
From S2P Require Import Prelude RustStr Utf8 Chars.

Implicit Types (c : ascii) (s t rest : string) (v : list string) (ch x : Z).

(** ** Characters *)

Definition quote : ascii := "034".
Definition backslash : ascii := "092".
Definition newline : ascii := "010".

(** The tables behind [core::unicode::printable::is_printable] (for codes
    from 127 on) and [core::unicode::Grapheme_Extend]. *)
Class UnicodeData := {
  printable_table : Z → bool;
  Grapheme_Extend : Z → bool
}.

Section characters.
Context `{UnicodeData}.
Local Open Scope Z_scope.

(** [core::unicode::printable::is_printable] *)
Definition is_printable x : bool :=
  if decide (x < 32) then false
  else if decide (x < 127) then true
  else printable_table x.

(** [char::is_grapheme_extended] *)
Definition is_grapheme_extended x : bool :=
  negb (bool_decide (x < 128)) && Grapheme_Extend x.

(** The digits of [{:x}], and the digit of a number below sixteen. *)
Definition HEX_DIGITS : string := "0123456789abcdef".

Definition hex_digit x : ascii :=
  default "0"%char (String.get (Z.to_nat x) HEX_DIGITS).

(** [u32::leading_zeros] *)
Definition leading_zeros x : Z := if decide (x = 0) then 32 else 31 - Z.log2 x.

(** The six digits [EscapeDebug::unicode] writes into its buffer. *)
Definition unicode_digits x : list ascii :=
  (λ shift, hex_digit (Z.land (Z.shiftr x shift) 15)) <$> [20; 16; 12; 8; 4; 0].

(** [EscapeDebug::unicode]: the text starts where the count of leading
    zeros says. *)
Definition escape_unicode x : string :=
  let start := Z.to_nat (leading_zeros (Z.lor x 1) / 4 - 2) in
  "\u{" +:+ String.string_of_list_ascii (drop start (unicode_digits x)) +:+ "}".

(** [char::escape_debug_ext] with [escape_grapheme_extended] and
    [escape_double_quote], without [escape_single_quote]; a printable
    character is written as it is. *)
Definition escape_debug x : string :=
  if decide (x = 0) then "\0"
  else if decide (x = 9) then "\t"
  else if decide (x = 13) then "\r"
  else if decide (x = 10) then "\n"
  else if decide (x = 92) then "\\"
  else if decide (x = 34) then String backslash (String quote "")
  else if is_grapheme_extended x then escape_unicode x
  else if is_printable x then encode_utf8_raw x
  else escape_unicode x.

End characters.

(** ** The instances of [Debug] *)

Section debug.
Context `{UnicodeData}.

(** The body of a string between its quotes. *)
Definition escape_str s : string :=
  foldr (λ ch acc, escape_debug ch +:+ acc) "" (chars s).

#[export] Instance Debug_str : Debug string := λ s,
  String quote (escape_str s +:+ String quote "").

#[export] Instance Debug_vec `{Debug A} : Debug (list A) := λ l,
  "[" +:+ str_join ", " (fmt_debug <$> l) +:+ "]".

(** [println!("{:?}", x)] *)
Definition println_debug `{Debug A} (x : A) : string :=
  fmt_debug x +:+ String newline "".

End debug.

(** ** Reading the text back

    An automaton over the bytes of the text.  Its result is the part of the
    current string that is still to come, the strings after it, and the
    text after the closing bracket. *)

Inductive RState :=
| RStart          (* expects the opening bracket *)
| RFirst          (* after the opening bracket *)
| RChar           (* inside a string *)
| REscape         (* after a backslash *)
| RUnicode        (* after backslash u *)
| RHex0           (* after the opening brace *)
| RHex (x : Z)    (* after some digits, which say [x] *)
| RAfter          (* after a string *)
| RComma          (* after a comma *)
| RNext.          (* after a comma and a space *)

Definition Parsed : Type := string * list string * string.

(** [puts s r]: the result [r] with [s] in front of the current string. *)
Definition puts s (r : option Parsed) : option Parsed :=
  (λ '(cur, v, rest), (s +:+ cur, v, rest)) <$> r.

Definition put c (r : option Parsed) : option Parsed := puts (String c "") r.

Definition open_str (r : option Parsed) : option Parsed :=
  (λ '(cur, v, rest), ("", cur :: v, rest)) <$> r.

(** The position of a character in a text, counted from [i]. *)
Fixpoint position c s (i : Z) : option Z :=
  match s with
  | "" => None
  | String a s' => if decide (a = c) then Some i else position c s' (Z.succ i)
  end.

Definition unhex c : option Z := position c HEX_DIGITS 0.

Definition unescape c : option ascii :=
  match c with
  | "0" => Some "000" | "t" => Some "009" | "r" => Some "013"
  | "n" => Some "010" | "092" => Some "092" | "034" => Some "034"
  | _ => None
  end%char.

Fixpoint read_go (st : RState) s : option Parsed :=
  match s with
  | "" => None
  | String c s' =>
      match st with
      | RStart => if decide (c = "["%char) then read_go RFirst s' else None
      | RFirst =>
          if decide (c = "]"%char) then Some ("", [], s')
          else if decide (c = quote) then open_str (read_go RChar s')
          else None
      | RChar =>
          if decide (c = quote) then read_go RAfter s'
          else if decide (c = backslash) then read_go REscape s'
          else put c (read_go RChar s')
      | REscape =>
          if decide (c = "u"%char) then read_go RUnicode s'
          else c' ← unescape c; put c' (read_go RChar s')
      | RUnicode => if decide (c = "{"%char) then read_go RHex0 s' else None
      | RHex0 => d ← unhex c; read_go (RHex d) s'
      | RHex x =>
          if decide (c = "}"%char) then puts (encode_utf8_raw x) (read_go RChar s')
          else d ← unhex c; read_go (RHex (16 * x + d)) s'
      | RAfter =>
          if decide (c = "]"%char) then Some ("", [], s')
          else if decide (c = ","%char) then read_go RComma s'
          else None
      | RComma => if decide (c = " "%char) then read_go RNext s' else None
      | RNext =>
          if decide (c = quote) then open_str (read_go RChar s') else None
      end
  end.

(** The vector a text shows, and what follows it. *)
Definition read_vec s : option (list string * string) :=
  (λ '(_, v, rest), (v, rest)) <$> read_go RStart s.

(** The values of the tables on Latin-1, for the examples. *)
Definition latin1_tables : UnicodeData :=
  {| printable_table x := bool_decide (0xA1 ≤ x ≤ 0xFF ∧ x ≠ 0xAD)%Z;
     Grapheme_Extend x := false |}.

(** ** Facts on strings *)

(** A joined vector followed by more text, entry by entry. *)
Lemma str_join_app sep s l rest :
  str_join sep (s :: l) +:+ rest =
  s +:+ foldr (λ t acc, sep +:+ t +:+ acc) rest l.
Proof.
  revert s. induction l as [|t l IH]; intros s; [done|].
  rewrite str_join_cons, !str_app_assoc, IH. done.
Qed.

Lemma puts_nil r : puts "" r = r.
Proof. by destruct r as [[[??]?]|]. Qed.

Lemma puts_app s t r : puts (s +:+ t) r = puts s (puts t r).
Proof. destruct r as [[[??]?]|]; [|done]. simpl. by rewrite str_app_assoc. Qed.

Lemma puts_cons c s r : puts (String c s) r = put c (puts s r).
Proof. apply (puts_app (String c "") s). Qed.

(** ** Reading bytes and digits *)

(** [avoids l c]: the byte [c] is none of [l].  A byte that is neither a
    quote nor a backslash stands for itself. *)
Definition avoids (l : list ascii) c : bool := bool_decide (c ∉ l).
Definition plain : ascii → bool := avoids [quote; backslash].

Lemma str_all_of_list p (l : list ascii) :
  Forall (λ c, p c = true) l → str_all p (String.string_of_list_ascii l) = true.
Proof. induction 1 as [|c l Hc Hl IH]; [done|]. simpl. by rewrite Hc, IH. Qed.

Lemma read_plain s t :
  str_all plain s = true → read_go RChar (s +:+ t) = puts s (read_go RChar t).
Proof.
  induction s as [|c s IH]; simpl; [by rewrite puts_nil|].
  intros [Hc Hs]%andb_true_iff.
  apply bool_decide_eq_true_1 in Hc.
  apply not_elem_of_cons in Hc as [? [? _]%not_elem_of_cons].
  by rewrite !decide_False, IH, puts_cons.
Qed.

(** [cases_below x n tac]: the variable [x] is known to be from [0] to
    [n - 1]; one goal for each value, closed by [tac]. *)
Ltac cases_below x n tac :=
  let Hin := fresh "Hin" in
  assert (x ∈ seqZ 0%Z n) as Hin by (apply elem_of_seqZ; lia);
  vm_compute in Hin;
  repeat (apply elem_of_cons in Hin as [->|Hin]; [by tac|]);
  by apply elem_of_nil in Hin.

Section hex.
Local Open Scope Z_scope.

Lemma unhex_hex_digit d : 0 ≤ d < 16 → unhex (hex_digit d) = Some d.
Proof. intros Hd. cases_below d 16 idtac. Qed.

Lemma read_hex_first d t :
  0 ≤ d < 16 → read_go RHex0 (String (hex_digit d) t) = read_go (RHex d) t.
Proof. intros Hd. simpl. by rewrite unhex_hex_digit. Qed.

Lemma read_hex_next x d t :
  0 ≤ d < 16 →
  read_go (RHex x) (String (hex_digit d) t) = read_go (RHex (16 * x + d)) t.
Proof.
  intros Hd. simpl. rewrite unhex_hex_digit by done.
  rewrite decide_False; [done|]. cases_below d 16 idtac.
Qed.

End hex.

(** ** The escape with the code of a character *)

Section unicode.
Local Open Scope Z_scope.

(** [eval_consts]: evaluate the closed quotients and powers of the goal and
    of the hypotheses, then conclude by linear arithmetic. *)
Ltac eval_consts :=
  cbv zeta in *;
  repeat match goal with
  | |- context [?a / ?b] =>
      let q := eval vm_compute in (a / b) in
      progress change (a / b) with q
  | |- context [?a - ?b] =>
      let q := eval vm_compute in (a - b) in
      progress change (a - b) with q
  | |- context [?b ^ ?e] =>
      let q := eval vm_compute in (b ^ e) in
      progress change (b ^ e) with q
  | H : context [?b ^ ?e] |- _ =>
      let q := eval vm_compute in (b ^ e) in
      progress change (b ^ e) with q in H
  end;
  lia.

Lemma lor_1 x : 0 ≤ x → Z.lor x 1 = 2 * (x / 2) + 1.
Proof.
  intros Hx. pose proof (Z.mod_pos_bound x 2 eq_refl) as Hm.
  assert (Z.lor (x mod 2) 1 = 1) as Hlow.
  { assert (x mod 2 = 0 ∨ x mod 2 = 1) as [-> | ->] by lia; done. }
  rewrite (Z.div_mod x 2) at 1 by done.
  replace (2 * (x / 2) + x mod 2) with (Z.lor (Z.shiftl (x / 2) 1) (x mod 2))
    by (rewrite lor_shiftl_low by done; lia).
  rewrite <-Z.lor_assoc, Hlow, lor_shiftl_low by done. lia.
Qed.

(** Where the text of the escape starts: at most five digits are cut, and
    they are zeros. *)
Lemma unicode_start x :
  0 ≤ x < 0x1000000 →
  let start := leading_zeros (Z.lor x 1) / 4 - 2 in
  0 ≤ start ≤ 5 ∧ x < 16 ^ (6 - start).
Proof.
  intros Hx. rewrite lor_1 by lia. unfold leading_zeros.
  set (y := 2 * (x / 2) + 1). assert (0 < y < 2 ^ 24) as Hy by (unfold y; Z.div_mod_to_equations; lia).
  rewrite decide_False by lia.
  pose proof (Z.log2_spec y (proj1 Hy)) as Hlog.
  pose proof (Z.log2_nonneg y) as Hnn.
  assert (Z.log2 y < 24) as Hlt by (apply Z.log2_lt_pow2; lia).
  assert (x ≤ y) as Hxy by (unfold y; Z.div_mod_to_equations; lia).
  remember (Z.log2 y) as L eqn:HL. clear HL. cases_below L 24 eval_consts.
Qed.

(** The digit at a shift, as arithmetic. *)
Lemma nibble x shift :
  0 ≤ shift → Z.land (Z.shiftr x shift) 15 = x / 2 ^ shift mod 16.
Proof. intros. by rewrite land_15, Z.shiftr_div_pow2. Qed.

Lemma nibble_range x shift : 0 ≤ shift → 0 ≤ Z.land (Z.shiftr x shift) 15 < 16.
Proof. intros. rewrite nibble by done. by apply Z.mod_pos_bound. Qed.

(** The first digit that is written: the digits before it are zero. *)
Lemma read_hex_start x shift t :
  0 ≤ shift → 0 ≤ x < 2 ^ (shift + 4) →
  read_go RHex0 (String (hex_digit (Z.land (Z.shiftr x shift) 15)) t) =
  read_go (RHex (x / 2 ^ shift)) t.
Proof.
  intros Hs Hx. rewrite read_hex_first by by apply nibble_range.
  rewrite nibble, Z.mod_small; [done| |done].
  rewrite Z.pow_add_r in Hx by lia. change (2 ^ 4) with 16 in Hx.
  pose proof (Z.pow_pos_nonneg 2 shift). split; [apply Z.div_pos; lia|].
  apply Z.div_lt_upper_bound; lia.
Qed.

(** A further digit: the number read so far is [x] without its low digits. *)
Lemma read_hex_step x high shift t :
  0 ≤ shift → high = shift + 4 →
  read_go (RHex (x / 2 ^ high))
    (String (hex_digit (Z.land (Z.shiftr x shift) 15)) t) =
  read_go (RHex (x / 2 ^ shift)) t.
Proof.
  intros Hs ->. rewrite read_hex_next by by apply nibble_range.
  rewrite nibble by done. do 2 f_equal.
  rewrite Z.pow_add_r, <-Z.div_div by lia. change (2 ^ 4) with 16.
  generalize (x / 2 ^ shift). intros. Z.div_mod_to_equations; lia.
Qed.

Lemma read_unicode_open t : read_go RChar ("\u{" +:+ t) = read_go RHex0 t.
Proof. done. Qed.

Lemma read_unicode_close x t :
  read_go (RHex x) ("}" +:+ t) = puts (encode_utf8_raw x) (read_go RChar t).
Proof. done. Qed.

(** [read_digits]: read the digits that are left of the six, from the first
    that is written to the closing brace. *)
Ltac read_digits :=
  match goal with |- context [Z.to_nat ?k] =>
    let n := eval vm_compute in (Z.to_nat k) in change (Z.to_nat k) with n
  end;
  cbn [drop unicode_digits fmap list_fmap String.string_of_list_ascii];
  rewrite ?str_app_cons, ?str_app_nil_l;
  rewrite read_hex_start by first [done | split; [lia|eval_consts]];
  rewrite ?(read_hex_step _ 20 16), ?(read_hex_step _ 16 12),
    ?(read_hex_step _ 12 8), ?(read_hex_step _ 8 4), ?(read_hex_step _ 4 0)
    by done;
  change (2 ^ 0) with 1; rewrite Z.div_1_r; apply read_unicode_close.

(** The escape with the code of a character is read as the character. *)
Lemma read_escape_unicode x t :
  0 ≤ x < 0x110000 →
  read_go RChar (escape_unicode x +:+ t) =
  puts (encode_utf8_raw x) (read_go RChar t).
Proof.
  intros Hx. unfold escape_unicode.
  destruct (unicode_start x) as [Hstart Hlt]; [lia|]. revert Hstart Hlt.
  generalize (leading_zeros (Z.lor x 1) / 4 - 2). intros start Hstart Hlt.
  rewrite !str_app_assoc, read_unicode_open. cases_below start 6 read_digits.
Qed.

End unicode.

(** ** One character *)

Section read_char.
Context `{UnicodeData}.
Local Open Scope Z_scope.

Local Ltac arith := Z.div_mod_to_equations; lia.

Lemma avoids_byte_of l x :
  0 ≤ x < 256 → Forall (λ c, byte_val c ≠ x) l → avoids l (byte_of x) = true.
Proof.
  intros Hx Hl. apply bool_decide_eq_true_2. intros Hin.
  rewrite Forall_forall in Hl. apply (Hl _ Hin). by rewrite byte_val_of.
Qed.

(** The bytes of a character above ASCII are no ASCII bytes, and the byte of
    an ASCII character is the character. *)
Lemma encode_avoids l x :
  0 ≤ x < 0x110000 → Forall (λ c, byte_val c < 128 ∧ byte_val c ≠ x) l →
  str_all (avoids l) (encode_utf8_raw x) = true.
Proof.
  intros Hx Hl. rewrite encode_utf8_raw_spec by done. unfold encode_utf8.
  repeat case_decide; cbn [str_all]; rewrite !avoids_byte_of; try done;
    first [arith | eapply Forall_impl; [done|]; intros c [? ?]; simpl; arith].
Qed.

(** The bytes an escape with a code is made of. *)
Definition escape_bytes : list ascii :=
  String.list_ascii_of_string "\u{}0123456789abcdef".

Lemma escape_unicode_avoids l x :
  Forall (λ c, c ∉ escape_bytes) l →
  str_all (avoids l) (escape_unicode x) = true.
Proof.
  intros Hl. assert (∀ c, c ∈ escape_bytes →
    avoids l c = true) as Hc.
  { intros c Hc. apply bool_decide_eq_true_2. intros Hin.
    rewrite Forall_forall in Hl. by apply (Hl _ Hin). }
  unfold escape_unicode. rewrite !str_all_app.
  assert (str_all (avoids l) (String.string_of_list_ascii
    (drop (Z.to_nat (leading_zeros (Z.lor x 1) / 4 - 2)) (unicode_digits x))) = true)
    as ->; [|cbn [str_all]; by rewrite !Hc by compute_done].
  apply str_all_of_list, Forall_drop, Forall_fmap, Forall_true. intros shift.
  apply Hc. unfold hex_digit.
  generalize (Z.to_nat (Z.land (Z.shiftr x shift) 15)). intros n.
  do 16 (destruct n as [|n]; [compute_done|]). compute_done.
Qed.

(** One escaped character is read as the character. *)
Lemma read_escape_debug x t :
  0 ≤ x < 0x110000 →
  read_go RChar (escape_debug x +:+ t) =
  puts (encode_utf8_raw x) (read_go RChar t).
Proof.
  intros Hx. unfold escape_debug. repeat case_decide; subst; try done.
  destruct (is_grapheme_extended x); [by apply read_escape_unicode|].
  destruct (is_printable x); [|by apply read_escape_unicode].
  apply read_plain, encode_avoids; [done|]. by repeat constructor.
Qed.

(** No escape holds a newline. *)
Lemma escape_debug_inline x :
  0 ≤ x < 0x110000 → str_all (avoids [newline]) (escape_debug x) = true.
Proof.
  intros Hx. unfold escape_debug. repeat case_decide; subst; try done.
  assert (str_all (avoids [newline]) (escape_unicode x) = true)
    by (apply escape_unicode_avoids; repeat constructor; compute_done).
  destruct (is_grapheme_extended x); [done|].
  destruct (is_printable x); [|done].
  apply encode_avoids; [done|]. by repeat constructor.
Qed.

Lemma read_escape_chars l t :
  Forall is_scalar l →
  read_go RChar (foldr (λ ch acc, escape_debug ch +:+ acc) "" l +:+ t) =
  puts (of_chars l) (read_go RChar t).
Proof.
  induction 1 as [|x l Hx Hl IH]; [by rewrite puts_nil|].
  change (of_chars (x :: l)) with (encode_utf8_raw x +:+ of_chars l).
  cbn [foldr].
  by rewrite str_app_assoc, read_escape_debug, IH, puts_app
    by by apply is_scalar_range.
Qed.

Lemma read_escape_str s t :
  utf8 s → read_go RChar (escape_str s +:+ t) = puts s (read_go RChar t).
Proof.
  intros [Hl Hs]%chars_utf8. unfold escape_str.
  by rewrite read_escape_chars, Hs.
Qed.

Lemma escape_str_inline s :
  utf8 s → str_all (avoids [newline]) (escape_str s) = true.
Proof.
  intros [Hl _]%chars_utf8. unfold escape_str.
  induction Hl as [|x l Hx Hl IH]; [done|]. cbn [foldr].
  by rewrite str_all_app, escape_debug_inline, IH by by apply is_scalar_range.
Qed.

(** ** The reader on a printed vector *)

(** The text after the first entry of a vector: the other entries, each
    after a comma and a space, and the closing bracket. *)
Definition entries_text v rest : string :=
  foldr (λ t acc, ", " +:+ t +:+ acc) ("]" +:+ rest) (fmt_debug <$> v).

Lemma read_fmt_str st s t :
  utf8 s → st = RFirst ∨ st = RNext →
  read_go st (fmt_debug s +:+ t) = open_str (puts s (read_go RAfter t)).
Proof.
  unfold fmt_debug, Debug_str. rewrite str_app_cons, str_app_assoc.
  intros Hs [-> | ->]; simpl; by rewrite read_escape_str.
Qed.

Lemma read_separator t : read_go RAfter (", " +:+ t) = read_go RNext t.
Proof. done. Qed.

Lemma read_bracket t : read_go RStart ("[" +:+ t) = read_go RFirst t.
Proof. done. Qed.

Lemma entries_text_cons s v rest :
  entries_text (s :: v) rest = ", " +:+ fmt_debug s +:+ entries_text v rest.
Proof. done. Qed.

Lemma read_entries v rest :
  Forall utf8 v → read_go RAfter (entries_text v rest) = Some ("", v, rest).
Proof.
  induction 1 as [|s v Hs Hv IH]; [done|].
  rewrite entries_text_cons, read_separator, read_fmt_str, IH by auto.
  simpl. by rewrite str_app_nil_r.
Qed.

Lemma fmt_vec_entries v s rest :
  fmt_debug (s :: v) +:+ rest = "[" +:+ fmt_debug s +:+ entries_text v rest.
Proof.
  change (fmt_debug (s :: v))
    with ("[" +:+ str_join ", " (fmt_debug s :: (fmt_debug <$> v)) +:+ "]").
  by rewrite !str_app_assoc, str_join_app.
Qed.

Lemma read_fmt_vec v rest :
  Forall utf8 v → read_go RStart (fmt_debug v +:+ rest) = Some ("", v, rest).
Proof.
  destruct 1 as [|s v Hs Hv]; [done|].
  rewrite fmt_vec_entries, read_bracket, read_fmt_str, read_entries by auto.
  simpl. by rewrite str_app_nil_r.
Qed.

Lemma fmt_str_inline s :
  utf8 s → str_all (avoids [newline]) (fmt_debug s) = true.
Proof.
  intros Hs. unfold fmt_debug, Debug_str. simpl.
  by rewrite str_all_app, escape_str_inline.
Qed.

(** ** Properties of the output *)

(** C23: the text [println!] writes for a vector of strings, read by the
    automaton, gives the vector back and leaves the final newline: nothing
    of the findings is lost or merged by the escapes and the separators,
    whatever the tables of the Unicode database say of the characters. *)
Theorem read_println_debug v :
  Forall utf8 v → read_vec (println_debug v) = Some (v, String newline "").
Proof. intros Hv. unfold read_vec, println_debug. by rewrite read_fmt_vec. Qed.

(** The output is one line: no newline before the final one, whatever the
    strings of the vector hold. *)
Theorem println_debug_one_line v :
  Forall utf8 v →
  ∃ line, println_debug v = line +:+ String newline "" ∧
    str_has newline line = false.
Proof.
  intros Hv. exists (fmt_debug v). split; [done|].
  apply (str_all_has (avoids [newline])); [|compute_done].
  unfold fmt_debug, Debug_vec. rewrite !str_all_app, str_all_join; [done..|].
  apply Forall_fmap. eapply Forall_impl; [done|]. apply fmt_str_inline.
Qed.

(** Two vectors that print the same text are the same vector. *)
Theorem fmt_debug_inj v v' :
  Forall utf8 v → Forall utf8 v' → fmt_debug v = fmt_debug v' → v = v'.
Proof.
  intros Hv Hv' Heq. pose proof (read_fmt_vec v "" Hv) as Hread.
  rewrite Heq, read_fmt_vec in Hread by done. by simplify_eq.
Qed.

End read_char.

(** ** Examples, with the tables of Latin-1 *)

(** [Caf\u{e9}] and a name with a soft hyphen, which is not printable. *)
#[local] Existing Instance latin1_tables.

Definition cafe : string := "Caf" +:+ encode_utf8_raw 0xE9.
Definition soft : string := "a" +:+ encode_utf8_raw 0xAD +:+ "b".

Lemma read_println_debug_witness :
  read_vec (println_debug ["menu::" +:+ cafe; soft]) =
  Some (["menu::" +:+ cafe; soft], String newline "").
Proof.
  apply (read_println_debug).
  compute_done.
Defined.

Lemma println_debug_one_line_witness :
  ∃ line, println_debug [cafe; soft] =
    line +:+ String newline "" ∧ str_has newline line = false.
Proof.
  apply (println_debug_one_line).
  compute_done.
Defined.

Lemma fmt_debug_inj_witness : [cafe; "c"] = [cafe; "c"].
Proof.
  apply (fmt_debug_inj);
    [compute_done..|reflexivity].
Defined.

(** The text of a report with a quote and a control character in a name,
    a printable character above ASCII and one that is not printable. *)
Example fmt_debug_example :
  fmt_debug
    ["bevy_ecs::src::lib::Health"; String quote (String "007" "x"); cafe; soft] =
  "[" +:+ String quote "bevy_ecs::src::lib::Health" +:+ String quote ", " +:+
  String quote (String backslash (String quote "\u{7}x")) +:+ String quote ", " +:+
  String quote cafe +:+ String quote ", " +:+
  String quote "a\u{ad}b" +:+ String quote "]".
Proof. reflexivity. Qed.
