(* ===== verification/Machine.v ===== *)
(** * Machine: the run of [main], statement by statement

    [Pipeline.main] is [main] as a function.  Here the same lines (8-43) are
    a transition system: a configuration says where the control is and
    holds the local variables that are live there, and a step is one
    statement or one round of a loop:
    - [Start] to [Fetched]: [MetadataCommand::new().exec()] succeeded
      (lines 10-12); to [Panic] with the text of [expect] when it failed;
    - [Fetched] to [Loading]: the two calls that collect the source files
      (lines 15-17) and the empty hash map (line 20);
    - [Loading] to [Loading]: one round of the first loop (lines 21-27);
    - [Loading] to [Reporting]: the first loop is over, the iterator of the
      hash map is created (line 31): the machine chooses any order of the
      entries, which is how the hash map behaves;
    - [Reporting] to [Reporting]: one round of the second loop (32-40);
    - [Reporting] to [Exit]: [println!] (line 42).

    The theorems: what holds in every reachable configuration
    ([reachable]), that every run ends, in [Exit] or in [Panic], and that
    the final configurations of the
    machine are the results of the function [main] over all iteration
    orders.  The text of [println!] depends on the tables of the Unicode
    database ([UnicodeData]); the last theorem reads the output of a run
    back. *)

From stdpp Require Import gmap relations.
From S2P Require Import Prelude RustStr Utf8 RustPath ModulePath WalkDir Discovery Syn Detect Walker Pipeline Present.

(** ** Configurations *)

Inductive Config :=
| Start
| Fetched (metadata : Metadata)
| Loading (metadata : Metadata) (todo : list string)
    (module_tree : gmap string File)
| Reporting (metadata : Metadata) (todo : list (string * File))
    (reflect_types : list string)
| Exit (stdout : string)
| Panic (message : string).

(** The configuration a result of the function [main] stands for. *)
Definition outcome `{UnicodeData} (result : Result (list string) string) :
    Config :=
  match result with
  | Ok reflect_types => Exit (println_debug reflect_types)
  | Err message => Panic message
  end.

Definition final (c : Config) : Prop :=
  match c with Exit _ | Panic _ => True | _ => False end.

#[export] Instance final_dec c : Decision (final c).
Proof. destruct c; apply _. Defined.

Section machine.
Context `{Loader, UnicodeData} {E : Type} `{Debug E}
  (metadata_exec : Result Metadata E) (fs : FileSystem).

Implicit Types (c : Config) (metadata : Metadata)
  (module_tree : gmap string File) (reflect_types : list string).

(** ** Steps *)

Inductive step : relation Config :=
| step_exec metadata :
    expect metadata_exec expect_message = Ok metadata →
    step Start (Fetched metadata)
| step_expect message :
    expect metadata_exec expect_message = Err message →
    step Start (Panic message)
| step_collect metadata :
    step (Fetched metadata) (Loading metadata (all_source_files fs metadata) ∅)
| step_load metadata path todo module_tree :
    step (Loading metadata (path :: todo) module_tree)
         (Loading metadata todo (load_file module_tree path))
| step_iter metadata module_tree entries :
    entries ≡ₚ map_to_list module_tree →
    step (Loading metadata [] module_tree) (Reporting metadata entries [])
| step_report metadata entry todo reflect_types :
    step (Reporting metadata (entry :: todo) reflect_types)
         (Reporting metadata todo (report_file metadata reflect_types entry))
| step_println metadata reflect_types :
    step (Reporting metadata [] reflect_types)
         (Exit (println_debug reflect_types)).

(** [eventually P c]: every run from [c] reaches a configuration that
    satisfies [P], and no run stops before. *)
Inductive eventually (P : Config → Prop) (c : Config) : Prop :=
| eventually_now : P c → eventually P c
| eventually_step :
    red step c → (∀ c', step c c' → eventually P c') → eventually P c.

(** ** Specification *)

(** The findings, in the order of discovery. *)
Definition spec_findings metadata : list string :=
  flat_map (file_findings metadata)
    (loaded (remove_dups (all_source_files fs metadata))).

(** What holds where: the files still to load are the rest of the files
    discovered and the map holds the others; the entries still to report
    are the rest of the entries of the map and the vector holds the
    findings of the others. *)
Definition reachable c : Prop :=
  match c with
  | Start => True
  | Fetched metadata => metadata_exec = Ok metadata
  | Loading metadata todo module_tree =>
      metadata_exec = Ok metadata ∧
      ∃ loaded_files, all_source_files fs metadata = loaded_files ++ todo ∧
        module_tree = load_files loaded_files
  | Reporting metadata todo reflect_types =>
      metadata_exec = Ok metadata ∧
      ∃ reported_entries,
        reported_entries ++ todo ≡ₚ
          map_to_list (load_files (all_source_files fs metadata)) ∧
        reflect_types = flat_map (file_findings metadata) reported_entries
  | Exit stdout =>
      ∃ metadata reflect_types, metadata_exec = Ok metadata ∧
        stdout = println_debug reflect_types ∧
        reflect_types ≡ₚ spec_findings metadata
  | Panic message =>
      ∃ e, metadata_exec = Err e ∧ message = unwrap_failed expect_message e
  end.

(** A bound on the steps a configuration has left. *)
Definition steps_left c : nat :=
  match c with
  | Start =>
      match metadata_exec with
      | Ok metadata => 4 + 2 * length (all_source_files fs metadata)
      | Err _ => 1
      end
  | Fetched metadata => 3 + 2 * length (all_source_files fs metadata)
  | Loading _ todo module_tree => 2 + 2 * length todo + size module_tree
  | Reporting _ todo _ => 1 + length todo
  | Exit _ | Panic _ => 0
  end.

(** ** The invariant *)

Lemma load_files_snoc source_files path :
  load_files (source_files ++ [path]) = load_file (load_files source_files) path.
Proof. unfold load_files. by rewrite foldl_app. Qed.

Lemma reachable_step c c' : reachable c → step c c' → reachable c'.
Proof.
  intros Hc Hstep.
  destruct Hstep as [metadata Hm|message Hm|metadata|metadata path todo module_tree|
    metadata module_tree entries Hperm|metadata entry todo reflect_types|
    metadata reflect_types]; simpl in *.
  - by apply expect_Ok in Hm.
  - by apply expect_Err in Hm.
  - split; [done|]. by exists [].
  - destruct Hc as (Hm & loaded_files & Hall & ->). split; [done|].
    exists (loaded_files ++ [path]). by rewrite <-app_assoc, load_files_snoc.
  - destruct Hc as (Hm & loaded_files & Hall & ->). split; [done|].
    exists []. rewrite app_nil_r in Hall. by rewrite Hall.
  - destruct Hc as (Hm & reported_entries & Hperm & ->). split; [done|].
    exists (reported_entries ++ [entry]).
    by rewrite <-app_assoc, report_file_spec, flat_map_app; simpl;
      rewrite app_nil_r.
  - destruct Hc as (Hm & reported_entries & Hperm & ->).
    exists metadata, (flat_map (file_findings metadata) reported_entries).
    split_and!; [done..|]. unfold spec_findings.
    rewrite app_nil_r in Hperm. by rewrite Hperm, map_to_list_load_files.
Qed.

Lemma reachable_rtc c : rtc step Start c → reachable c.
Proof.
  revert c. apply rtc_ind_r; [done|]. intros c c' _ Hstep IH.
  by eapply reachable_step.
Qed.

(** ** Progress and termination *)

Lemma step_progress c : final c ∨ red step c.
Proof.
  destruct c as [|metadata|metadata [|path todo] module_tree|
    metadata [|entry todo] reflect_types| |]; try (by left); right.
  - destruct (expect metadata_exec expect_message) as [metadata|message] eqn:Hm;
      eexists; by constructor.
  - eexists. constructor.
  - eexists. by apply (step_iter _ _ (map_to_list module_tree)).
  - eexists. constructor.
  - eexists. constructor.
  - eexists. constructor.
Qed.

Lemma final_nf c : final c → nf step c.
Proof. intros Hf [c' Hstep]. by destruct Hstep. Qed.

Lemma size_load_file module_tree path :
  size (load_file module_tree path) ≤ S (size module_tree).
Proof.
  rewrite load_file_spec. destruct (load path); simpl; [|lia].
  rewrite map_size_insert. destruct (module_tree !! path); simpl; lia.
Qed.

Lemma step_steps_left c c' : step c c' → steps_left c' < steps_left c.
Proof.
  destruct 1 as [metadata Hm%expect_Ok|message (e & Hm & _)%expect_Err|metadata|
    metadata path todo module_tree|
    metadata module_tree entries Hperm|metadata entry todo reflect_types|
    metadata reflect_types]; simpl; rewrite ?Hm, ?map_size_empty; try lia.
  - pose proof (size_load_file module_tree path). lia.
  - rewrite Hperm, length_map_to_list. lia.
Qed.

Lemma eventually_final_bounded n c : steps_left c ≤ n → eventually final c.
Proof.
  revert c. induction n as [|n IH]; intros c Hn;
    destruct (step_progress c) as [Hf|Hred]; try (by apply eventually_now).
  - destruct Hred as [c' Hstep%step_steps_left]. lia.
  - apply eventually_step; [done|]. intros c' Hstep. apply IH.
    apply step_steps_left in Hstep. lia.
Qed.

(** ** The function [main] and the machine *)

Lemma run_loading metadata todo module_tree :
  rtc step (Loading metadata todo module_tree)
    (Loading metadata [] (foldl load_file module_tree todo)).
Proof.
  revert module_tree. induction todo as [|path todo IH]; intros module_tree;
    [done|].
  eapply rtc_l; [apply step_load|apply IH].
Qed.

Lemma run_reporting metadata todo reflect_types :
  rtc step (Reporting metadata todo reflect_types)
    (Reporting metadata [] (foldl (report_file metadata) reflect_types todo)).
Proof.
  revert reflect_types. induction todo as [|entry todo IH];
    intros reflect_types; [done|].
  eapply rtc_l; [apply step_report|apply IH].
Qed.

(** The function is a run, for every iteration order. *)
Lemma main_run `{HashOrder} :
  rtc step Start (outcome (main metadata_exec fs)).
Proof.
  unfold main.
  destruct (expect metadata_exec expect_message) as [metadata|message] eqn:Hm;
    simpl.
  - eapply rtc_l; [by apply step_exec|].
    eapply rtc_l; [apply step_collect|].
    etrans; [apply run_loading|].
    eapply rtc_l; [apply (step_iter _ _ _ (hash_iter_perm _))|].
    etrans; [apply run_reporting|]. apply rtc_once, step_println.
  - by apply rtc_once, step_expect.
Qed.

(** ** An iteration order for every run

    The entries of a map in the order of a list of keys, those of the other
    keys after them. *)
Definition order_by (keys : list string) module_tree : list (string * File) :=
  omap (λ k, pair k <$> module_tree !! k) keys ++
  filter (λ entry, entry.1 ∉ keys) (map_to_list module_tree).

Lemma elem_of_order_by keys module_tree k syntax :
  (k, syntax) ∈ order_by keys module_tree ↔ module_tree !! k = Some syntax.
Proof.
  unfold order_by.
  rewrite elem_of_app, list_elem_of_omap, list_elem_of_filter, elem_of_map_to_list.
  split.
  - intros [(k' & Hk & Hl)|[_ Hl]]; [|done].
    destruct (module_tree !! k') eqn:Hk'; by simplify_eq/=.
  - intros Hl. destruct (decide (k ∈ keys)); [left|by right].
    exists k. by rewrite Hl.
Qed.

Lemma NoDup_order_by keys module_tree :
  NoDup keys → NoDup (order_by keys module_tree).
Proof.
  intros Hnd. apply NoDup_app. split_and!.
  - apply NoDup_omap; [|done]. intros k k' entry Hk Hk'.
    destruct (module_tree !! k), (module_tree !! k'); by simplify_eq/=.
  - intros [k syntax] (k' & Hk & Hl)%list_elem_of_omap [Hnk _]%list_elem_of_filter.
    destruct (module_tree !! k'); by simplify_eq/=.
  - apply NoDup_filter, NoDup_map_to_list.
Qed.

Lemma order_by_perm keys module_tree :
  NoDup keys → order_by keys module_tree ≡ₚ map_to_list module_tree.
Proof.
  intros Hnd. apply NoDup_Permutation;
    [by apply NoDup_order_by|apply NoDup_map_to_list|].
  intros [k syntax]. by rewrite elem_of_order_by, elem_of_map_to_list.
Qed.

Lemma omap_lookup_entries (entries : list (string * File)) module_tree :
  Forall (λ entry, module_tree !! entry.1 = Some entry.2) entries →
  omap (λ k, pair k <$> module_tree !! k) entries.*1 = entries.
Proof.
  induction 1 as [|[k syntax] entries Hk _ IH]; [done|]. csimpl in *.
  by rewrite Hk, IH.
Qed.

(** The order of a list of entries is the list itself. *)
Lemma order_by_entries entries module_tree :
  entries ≡ₚ map_to_list module_tree →
  order_by entries.*1 module_tree = entries.
Proof.
  intros Hperm. unfold order_by.
  rewrite omap_lookup_entries, filter_nil_Forall, app_nil_r; [done| |].
  - apply Forall_forall. intros [k syntax] Hin Hk. apply Hk. simpl.
    rewrite <-Hperm in Hin. apply list_elem_of_fmap. by exists (k, syntax).
  - apply Forall_forall. intros [k syntax] Hin. simpl.
    apply elem_of_map_to_list. by rewrite <-Hperm.
Qed.

(** [order_by] on the keys of [entries] as an iteration order. *)
Definition run_order (entries : list (string * File)) : HashOrder :=
  match decide (NoDup entries.*1) with
  | left Hnd =>
      {| hash_iter := order_by entries.*1;
         hash_iter_perm := λ m, order_by_perm entries.*1 m Hnd |}
  | right _ => canonical_order
  end.

Lemma run_order_entries entries module_tree :
  entries ≡ₚ map_to_list module_tree →
  @hash_iter (run_order entries) module_tree = entries.
Proof.
  intros Hperm. unfold run_order. destruct (decide _) as [Hnd|Hnd]; simpl.
  - by apply order_by_entries.
  - destruct Hnd. rewrite Hperm. apply NoDup_fst_map_to_list.
Qed.

(** The runs that start in the middle of a loop. *)
Lemma run_loading_inv metadata todo module_tree c :
  rtc step (Loading metadata todo module_tree) c → final c →
  ∃ entries, entries ≡ₚ map_to_list (foldl load_file module_tree todo) ∧
    rtc step (Reporting metadata entries []) c.
Proof.
  revert module_tree. induction todo as [|path todo IH]; intros module_tree Hrun Hf;
    apply rtc_inv in Hrun as [<-|(c' & Hstep & Hrun)]; try done;
    inversion Hstep; subst; eauto.
Qed.

Lemma run_reporting_inv metadata todo reflect_types c :
  rtc step (Reporting metadata todo reflect_types) c → final c →
  c = Exit (println_debug (foldl (report_file metadata) reflect_types todo)).
Proof.
  revert reflect_types. induction todo as [|entry todo IH];
    intros reflect_types Hrun Hf;
    apply rtc_inv in Hrun as [<-|(c' & Hstep & Hrun)]; try done;
    inversion Hstep; subst; [|eauto].
  by apply rtc_nf in Hrun; [|apply final_nf].
Qed.

(** A finished run is the function, for the order the run chose. *)
Lemma run_main c :
  rtc step Start c → final c →
  ∃ order : HashOrder, c = outcome (main metadata_exec fs).
Proof.
  intros Hrun Hf.
  apply rtc_inv in Hrun as [<-|(c1 & Hstep & Hrun)]; [done|].
  inversion Hstep as [metadata Hm|message Hm| | | | |]; subst.
  - apply rtc_inv in Hrun as [<-|(c2 & Hstep2 & Hrun)]; [done|].
    inversion Hstep2; subst.
    apply run_loading_inv in Hrun as (entries & Hperm & Hrun); [|done].
    apply run_reporting_inv in Hrun as ->; [|done].
    exists (run_order entries). unfold main. rewrite Hm. simpl. unfold report.
    by rewrite run_order_entries.
  - apply rtc_nf in Hrun as <-; [|by apply final_nf].
    exists canonical_order. unfold main. by rewrite Hm.
Qed.

(** ** Liveness and the invariant together *)

Lemma eventually_impl (P Q : Config → Prop) c :
  (∀ c', P c' → Q c') → eventually P c → eventually Q c.
Proof.
  intros HPQ. induction 1 as [c HP|c Hred _ IH];
    [apply eventually_now; auto|by apply eventually_step].
Qed.

(** What is reached from a reachable configuration is reachable. *)
Lemma eventually_reachable (P : Config → Prop) c :
  reachable c → eventually P c → eventually (λ c', P c' ∧ reachable c') c.
Proof.
  intros Hc Hev. induction Hev as [c HP|c Hred _ IH]; [by apply eventually_now|].
  apply eventually_step; [done|]. intros c' Hstep. apply IH; [done|].
  by eapply reachable_step.
Qed.

(** The invariant at the end of a run. *)
Lemma final_reachable c :
  final c → reachable c →
  match metadata_exec with
  | Ok metadata =>
      ∃ reflect_types, c = Exit (println_debug reflect_types) ∧
        reflect_types ≡ₚ spec_findings metadata
  | Err e => c = Panic (unwrap_failed expect_message e)
  end.
Proof.
  intros Hf Hc. destruct c; try done; simpl in Hc.
  - destruct Hc as (metadata & reflect_types & -> & -> & Hperm). eauto.
  - by destruct Hc as (e & -> & ->).
Qed.

(** ** Properties of the run *)

(** C29: [reachable] is an inductive invariant of the machine: it holds at
    the start and every step preserves it.  In particular the hash map is
    only written in the first loop and holds, for every file loaded so far,
    the tree of that file. *)
Theorem reachable_inductive :
  reachable Start ∧ ∀ c c', reachable c → step c c' → reachable c'.
Proof. split; [done|apply reachable_step]. Qed.

(** C5: a run that has come to its end has printed the findings of the
    specification in some order, if the metadata is available, and has
    panicked with the message of [expect] and the error otherwise. *)
Theorem run_output c :
  rtc step Start c → final c →
  match metadata_exec with
  | Ok metadata =>
      ∃ reflect_types, c = Exit (println_debug reflect_types) ∧
        reflect_types ≡ₚ spec_findings metadata
  | Err e => c = Panic (unwrap_failed expect_message e)
  end.
Proof. intros Hc%reachable_rtc Hf. by apply final_reachable. Qed.

(** C11: every run of the program comes to its end, and at its end the
    findings of the specification have been printed in some order, or, when
    there is no metadata, the program has panicked with the message of
    [expect] and the error: no run stops before and no run goes on for
    ever. *)
Theorem run_eventually_output :
  eventually (λ c,
    match metadata_exec with
    | Ok metadata =>
        ∃ reflect_types, c = Exit (println_debug reflect_types) ∧
          reflect_types ≡ₚ spec_findings metadata
    | Err e => c = Panic (unwrap_failed expect_message e)
    end) Start.
Proof.
  eapply eventually_impl;
    [|apply (eventually_reachable final), (eventually_final_bounded (steps_left Start));
      done].
  intros c [Hf Hc]. by apply final_reachable.
Qed.

(** C22: the finished runs of the machine are the results of the function
    [main] over the iteration orders of the hash map. *)
Theorem machine_refines_main c :
  rtc step Start c ∧ final c ↔
  ∃ order : HashOrder, c = outcome (main metadata_exec fs).
Proof.
  split; [intros [??]; by apply run_main|].
  intros [order ->]. split; [apply main_run|].
  unfold main. by destruct metadata_exec.
Qed.

(** C24: what a finished run has written reads back as the findings of the
    specification in some order, when the names of the packages and the
    names the parser returns are text: the run, the walk, the resolution of
    module paths and the escapes of [println!] together lose and add
    nothing. *)
Theorem run_stdout_read metadata c :
  metadata_exec = Ok metadata → text_metadata metadata → text_parser →
  rtc step Start c → final c →
  ∃ stdout reflect_types, c = Exit stdout ∧
    read_vec stdout = Some (reflect_types, String newline "") ∧
    reflect_types ≡ₚ spec_findings metadata.
Proof.
  intros Hm Hnames Hparser Hc%reachable_rtc Hf.
  apply final_reachable in Hc; [|done]. rewrite Hm in Hc.
  destruct Hc as (reflect_types & -> & Hperm).
  exists (println_debug reflect_types), reflect_types. split_and!; [done| |done].
  unfold read_vec, println_debug. rewrite read_fmt_vec; [done|].
  rewrite Hperm. by apply loaded_findings_utf8.
Qed.

End machine.

#[local] Existing Instance latin1_tables.

Lemma run_output_witness :
  ∃ reflect_types,
    Exit (println_debug ["bevy_ecs::src::lib::Health"]) =
      Exit (println_debug reflect_types) ∧
    reflect_types ≡ₚ
      @spec_findings example_loader (example_project true) example_metadata.
Proof.
  apply (@run_output example_loader latin1_tables ExampleError _
           (Ok example_metadata)
           (example_project true)); [|done].
  apply (@main_run example_loader latin1_tables ExampleError _
           (Ok example_metadata)
           (example_project true) canonical_order).
Defined.

Lemma run_stdout_read_witness :
  ∃ stdout reflect_types,
    Exit (println_debug ["bevy_ecs::src::lib::Health"]) = Exit stdout ∧
    read_vec stdout = Some (reflect_types, String newline "") ∧
    reflect_types ≡ₚ
      @spec_findings example_loader (example_project true) example_metadata.
Proof.
  apply (@run_stdout_read example_loader latin1_tables ExampleError _
           (Ok example_metadata)
           (example_project true) example_metadata); [done| | | |done].
  - by repeat constructor; apply utf8_ascii.
  - exact example_text_parser.
  - apply (@main_run example_loader latin1_tables ExampleError _
           (Ok example_metadata)
             (example_project true) canonical_order).
Defined.

(** Without metadata the run is one step, to the panic with the error. *)
Example run_panics :
  rtc (@step example_loader latin1_tables ExampleError _ (Err NoJson)
         (example_project true))
    Start (Panic "Failed to fetch cargo metadata: NoJson").
Proof. by apply rtc_once, step_expect. Qed.
